(** * Marko 4.18.39 browser runtime: virtual-DOM reconciliation

    A shallow embedding of the parts of the bundled runtime that the
    specification talks about, and the properties checked against them.

    - [JsObject]     object literals used as string-keyed dictionaries,
                     the order in which their properties are visited
    - [KeySequence]  runtime/components/KeySequence
    - [Emitter]      events-light (emit, listeners)
    - [Builder]      runtime/vdom/AsyncVDOMBuilder (reference counting,
                     error, beginAsync, sync) and Component.___rerender
    - [Component]    runtime/components/State and Component.update
    - [VNode]        runtime/vdom/VNode (linked virtual nodes, getters,
                     ___appendChild)
    - [Morph]        runtime/vdom/VElement (___actualize, ___morphAttrs),
                     morphdom/specialElHandlers, morphdom/helpers and
                     morphdom/index over a store of DOM nodes
    - [EmitterCalls] events-light (prependListener, removeAllListeners)
    - [ComponentCalls] State.___replace, setState and checkInputChanged
    - [Helpers]      runtime/helpers/class-value and style-value
    - [UpdateManager] runtime/components/update-manager

    The first part of the file holds the embedding, the second part the
    statements and their proofs. *)

From Stdlib Require Import ZArith NArith Lia Bool Ascii.
From stdpp Require Import gmap strings list fin_maps pretty.

Open Scope string_scope.

(** ** Object literals as dictionaries

    The runtime keeps several dictionaries in plain object literals
    ([{}]).  Such an object has [Object.prototype] as its prototype: a
    read of a name it does not own finds the inherited member, and a
    write to ["__proto__"] runs the inherited setter, which ignores every
    value that is neither an object nor [null]. *)
Module JsObject.

(** The names [Object.prototype] defines. *)
Definition prototype_names : list string :=
  [ "constructor"; "hasOwnProperty"; "isPrototypeOf"; "propertyIsEnumerable";
    "toLocaleString"; "toString"; "valueOf"; "__defineGetter__";
    "__defineSetter__"; "__lookupGetter__"; "__lookupSetter__"; "__proto__" ].

(** What [o[k]] finds. *)
Inductive slot (V : Type) : Type :=
| Own (v : V)      (* an own property *)
| Inherited        (* a function or object found on the prototype *)
| Missing.         (* undefined *)
Arguments Own {V} v.
Arguments Inherited {V}.
Arguments Missing {V}.

Definition get {V : Type} (o : gmap string V) (k : string) : slot V :=
  match o !! k with
  | Some v => Own v
  | None => if bool_decide (k ∈ prototype_names) then Inherited else Missing
  end.

(** [o[k] = v] for a primitive [v]. *)
Definition set_primitive {V : Type} (o : gmap string V) (k : string) (v : V)
  : gmap string V :=
  if bool_decide (k = "__proto__") then o else <[k := v]> o.

(** *** The order of the own properties

    [for (k in o)] and [Object.keys(o)] visit the own properties of an
    object with the array indices first, in ascending order, and the
    other names after them, in the order in which the properties were
    added.  An array index is the decimal form, without leading zeros,
    of an integer below [2^32 - 1]. *)

Definition digit (c : ascii) : option N :=
  let n := N_of_ascii c in
  if (48 <=? n)%N && (n <=? 57)%N then Some (n - 48)%N else None.

Fixpoint digits (s : string) (acc : N) : option N :=
  match s with
  | EmptyString => Some acc
  | String c rest =>
      match digit c with
      | Some d => digits rest (10 * acc + d)%N
      | None => None
      end
  end.

Definition array_index (name : string) : option N :=
  match name with
  | EmptyString => None
  | String c rest =>
      if bool_decide (c = "0"%char) && negb (bool_decide (rest = EmptyString)) then None
      else
        match digits name 0 with
        | Some n => if (n <? 2 ^ 32 - 1)%N then Some n else None
        | None => None
        end
  end.

Section property_order.
Context {A : Type} (name : A → string).

(** [x], with the index [i], put in its place among the properties
    sorted so far. *)
Fixpoint insert_index (i : N) (x : A) (l : list (N * A)) : list (N * A) :=
  match l with
  | [] => [(i, x)]
  | (j, y) :: rest =>
      if (i <=? j)%N then (i, x) :: (j, y) :: rest else (j, y) :: insert_index i x rest
  end.

(** The properties whose names are array indices, sorted. *)
Fixpoint indices (l : list A) : list (N * A) :=
  match l with
  | [] => []
  | x :: rest =>
      match array_index (name x) with
      | Some i => insert_index i x (indices rest)
      | None => indices rest
      end
  end.

(** The properties [l], given in the order in which they were added, in
    the order in which they are visited. *)
Definition for_in (l : list A) : list A :=
  ((indices l).*2 ++ filter (λ x, array_index (name x) = None) l)%list.

End property_order.

End JsObject.

(** ** runtime/components/KeySequence *)
Module KeySequence.

(** The numbers a counter can hold.  Counters are IEEE doubles: integers
    are exact up to [2^53], and [2^53 + 1] rounds back to [2^53]. *)
Inductive num : Type :=
| NaN
| Int (n : N).

Definition max_exact : N := 2 ^ 53.

(** [x + 1] *)
Definition succ (x : num) : num :=
  match x with
  | NaN => NaN
  | Int n => Int (if (n <? max_exact)%N then n + 1 else n)
  end.

(** ToNumber of what the read found: [undefined], a function and
    [Object.prototype] all convert to [NaN]. *)
Definition to_number (s : JsObject.slot num) : num :=
  match s with
  | JsObject.Own v => v
  | JsObject.Inherited => NaN
  | JsObject.Missing => NaN
  end.

(** [!x] *)
Definition falsy (x : num) : bool :=
  match x with
  | NaN => true
  | Int n => (n =? 0)%N
  end.

(** ["" + x], for the integers below [10^21] *)
Definition to_string (x : num) : string :=
  match x with
  | NaN => "NaN"
  | Int n => pretty n
  end.

Record t : Type := { ___lookup : gmap string num }.

(** [new KeySequence()] *)
Definition create : t := {| ___lookup := ∅ |}.

(** [___nextKey(key)]: the key it returns and the sequence afterwards. *)
Definition ___nextKey (key : string) (ks : t) : string * t :=
  let lookup := ___lookup ks in
  (* var currentIndex = lookup[key]++; *)
  let currentIndex := to_number (JsObject.get lookup key) in
  let lookup := JsObject.set_primitive lookup key (succ currentIndex) in
  if falsy currentIndex then
    (* lookup[key] = 1; currentIndex = 0; return key; *)
    (key, {| ___lookup := JsObject.set_primitive lookup key (Int 1) |})
  else
    (key +:+ "_" +:+ to_string currentIndex, {| ___lookup := lookup |}).

(** Successive calls, one per key of the list, first to last. *)
Fixpoint nextKeys (keys : list string) (ks : t) : list string * t :=
  match keys with
  | [] => ([], ks)
  | key :: rest =>
      let '(r, ks1) := ___nextKey key ks in
      let '(rs, ks2) := nextKeys rest ks1 in
      (r :: rs, ks2)
  end.

(** The sequences of one reconciliation pass ([var keySequences = {}] in
    [morphdom]), by the id of the reference component.  Component ids
    are taken outside [JsObject.prototype_names]. *)
Definition for_component (id : string) (seqs : gmap string t) : t :=
  (* keySequences[id] || (keySequences[id] = ___createKeySequence()) *)
  match seqs !! id with
  | Some ks => ks
  | None => create
  end.

(** [keySequences[id].___nextKey(key)] within a pass. *)
Definition next_in_pass (id key : string) (seqs : gmap string t)
  : string * gmap string t :=
  let '(r, ks) := ___nextKey key (for_component id seqs) in
  (r, <[id := ks]> seqs).

End KeySequence.

(** ** Exceptions and outcomes *)

(** Values that are passed to [error(e)] and thrown: instances of
    [Error], and anything else (kept with its string conversion). *)
Inductive jsval : Type :=
| ErrorObject (kind message : string)   (* new TypeError(), Error(msg), ... *)
| Plain (text : string).

Global Instance jsval_eq_dec : EqDecision jsval.
Proof. solve_decision. Defined.

Definition TypeError : jsval := ErrorObject "TypeError" "".
Definition Error (message : string) : jsval := ErrorObject "Error" message.

(** How a call ends: it returns, it throws, or the model ran out of the
    fuel given to a loop. *)
Inductive outcome (A : Type) : Type :=
| Ok (a : A)
| Throw (e : jsval)
| OutOfFuel.
Arguments Ok {A} a.
Arguments Throw {A} e.
Arguments OutOfFuel {A}.

(** ** events-light *)
Module Emitter.

(** A listener is a callback of the host program.  The model records
    its invocations; [l_throws] is the value the callback throws, if it
    throws.  Callbacks that call back into the emitter or the builder
    are outside the model. *)
Record listener : Type := { l_id : nat; l_throws : option jsval }.

Global Instance listener_eq_dec : EqDecision listener.
Proof. solve_decision. Defined.

(** [events[type]] holds the function itself while there is one
    listener and an array from the second on. *)
Inductive listeners : Type :=
| One (l : listener)
| Many (ls : list listener).

(** The emitter's [$e], for event types outside
    [JsObject.prototype_names]. *)
Definition t : Type := gmap string listeners.

Inductive record : Type :=
| Invoked (l : nat) (type : string).

Global Instance record_eq_dec : EqDecision record.
Proof. solve_decision. Defined.

(** [addListener(eventEmitter, type, listener, false)] *)
Definition on (type : string) (l : listener) (events : t) : t :=
  match events !! type with
  | Some (One l0) => <[type := Many [l0; l]]> events
  | Some (Many ls) => <[type := Many (ls ++ [l])%list]> events
  | None => <[type := One l]> events
  end.

(** [removeListener(type, listener)]: a lone function is deleted, an
    array is spliced and stays, even when it becomes empty. *)
Definition removeListener (type : string) (l : listener) (events : t) : t :=
  match events !! type with
  | Some (One l0) => if decide (l0 = l) then delete type events else events
  | Some (Many ls) => <[type := Many (filter (λ x, x ≠ l) ls)]> events
  | None => events
  end.

(** [listenerCount(type)] *)
Definition listenerCount (type : string) (events : t) : nat :=
  match events !! type with
  | Some (One _) => 1
  | Some (Many ls) => length ls
  | None => 0
  end.

(** What [emit("error", e)] throws when nothing handles it: [e] itself
    if it is an [Error], otherwise a new [Error] around it. *)
Definition unhandled (e : jsval) : jsval :=
  match e with
  | ErrorObject _ _ => e
  | Plain text => Error ("Error: " +:+ text)
  end.

(** The listeners are called in order; the first that throws ends the
    call. *)
Fixpoint invoke_all (type : string) (ls : list listener) (log : list record)
  : outcome unit * list record :=
  match ls with
  | [] => (Ok (), log)
  | l :: rest =>
      let log := (log ++ [Invoked (l_id l) type])%list in
      match l_throws l with
      | Some e => (Throw e, log)
      | None => invoke_all type rest log
      end
  end.

(** [emit(type, arg)]: the returned boolean, and the invocations added
    to [log]. *)
Definition emit (type : string) (arg : jsval) (events : t) (log : list record)
  : outcome bool * list record :=
  match events !! type with
  | None =>
      (* if (!listeners) *)
      if bool_decide (type = "error") then (Throw (unhandled arg), log)
      else (Ok false, log)
  | Some (One l) =>
      match invoke_all type [l] log with
      | (Ok _, log) => (Ok true, log)
      | (Throw e, log) => (Throw e, log)
      | (OutOfFuel, log) => (OutOfFuel, log)
      end
  | Some (Many ls) =>
      match invoke_all type ls log with
      | (Ok _, log) => (Ok true, log)
      | (Throw e, log) => (Throw e, log)
      | (OutOfFuel, log) => (OutOfFuel, log)
      end
  end.

End Emitter.

(** ** runtime/vdom/AsyncVDOMBuilder

    The builder's bookkeeping: reference counts, the stack of open
    nodes, the sync flag and the events.  The virtual nodes it appends
    are left to [VNode]; of the current parent node the model keeps what
    [beginAsync] depends on: whether there is one, and whether it is a
    [textarea] element (which refuses a document fragment as a child). *)
Module Builder.

Inductive parent_kind : Type :=
| Textarea
| OtherNode.

(** A callback registered with [onLast]; [cb_arity0] says that it takes
    no [next] argument, so that [___emitLast] moves on by itself. *)
Record last_callback : Type := { cb_id : nat; cb_arity0 : bool }.

Record out : Type := {
  ___remaining : Z;
  ___lastCount : Z;
  ___parentOut : option nat;
  ___parent : option parent_kind;      (* None: undefined *)
  ___stack : list parent_kind;
  ___sync : bool;
  _last : option (list last_callback)  (* None: undefined *)
}.

Inductive record : Type :=
| CallEnd (b : nat)                         (* end() entered on builder b *)
| Emit (type : string) (by_out : nat)       (* state.___events.emit(type, ...) *)
| Listener (r : Emitter.record)
| LastCallback (cb : nat).

Global Instance record_eq_dec : EqDecision record.
Proof. solve_decision. Defined.

(** The builders of one render share one [State]; a builder is named by
    its position in [outs], the root is builder 0. *)
Record world : Type := {
  outs : list out;
  ___finished : bool;
  ___events : Emitter.t;
  trace : list record
}.

Definition set_out (b : nat) (o : out) (w : world) : world :=
  {| outs := <[b := o]> (outs w); ___finished := ___finished w;
     ___events := ___events w; trace := trace w |}.

Definition log (r : record) (w : world) : world :=
  {| outs := outs w; ___finished := ___finished w;
     ___events := ___events w; trace := (trace w ++ [r])%list |}.

(** [new AsyncVDOMBuilder(globalData, parentNode, parentOut)] *)
Definition new_out (parentNode : parent_kind) (parentOut : option nat) : out :=
  {| ___remaining := 1; ___lastCount := 0; ___parentOut := parentOut;
     ___parent := Some parentNode; ___stack := [parentNode];
     ___sync := false; _last := None |}.

(** A render starts with the root builder alone. *)
Definition start : world :=
  {| outs := [new_out OtherNode None]; ___finished := false;
     ___events := ∅; trace := [] |}.

(** [state.___events.emit(type, arg)] from builder [b]. *)
Definition emit_event (b : nat) (type : string) (arg : jsval) (w : world)
  : outcome bool * world :=
  let w := log (Emit type b) w in
  let '(r, inv) := Emitter.emit type arg (___events w) [] in
  (r, {| outs := outs w; ___finished := ___finished w; ___events := ___events w;
         trace := (trace w ++ (Listener <$> inv))%list |}).

(** [___doFinish()] *)
Definition ___doFinish (b : nat) (w : world) : outcome unit * world :=
  let w := {| outs := outs w; ___finished := true; ___events := ___events w;
              trace := trace w |} in
  match emit_event b "finish" (Plain "RenderResult") w with
  | (Ok _, w) => (Ok (), w)
  | (Throw e, w) => (Throw e, w)
  | (OutOfFuel, w) => (OutOfFuel, w)
  end.

(** The loop of [___emitLast]: a callback without parameters is followed
    by the next one at once; one with a [next] parameter continues when
    it calls [next], which the model leaves to the callback. *)
Fixpoint run_last (cbs : list last_callback) (w : world) : world :=
  match cbs with
  | [] => w
  | cb :: rest =>
      let w := log (LastCallback (cb_id cb)) w in
      if cb_arity0 cb then run_last rest w else w
  end.

(** [___emitLast()]: [lastArray.length] throws while [_last] is
    undefined. *)
Definition ___emitLast (o : out) (w : world) : outcome unit * world :=
  match _last o with
  | None => (Throw TypeError, w)
  | Some cbs => (Ok (), run_last cbs w)
  end.

(** [___handleChildDone()] on builder [b]. *)
Fixpoint ___handleChildDone (fuel : nat) (b : nat) (w : world)
  : outcome unit * world :=
  match fuel with
  | O => (OutOfFuel, w)
  | S fuel =>
      match outs w !! b with
      | None => (Throw TypeError, w)
      | Some o =>
          (* var remaining = --this.___remaining; *)
          let remaining := (___remaining o - 1)%Z in
          let o := {| ___remaining := remaining; ___lastCount := ___lastCount o;
                      ___parentOut := ___parentOut o; ___parent := ___parent o;
                      ___stack := ___stack o; ___sync := ___sync o;
                      _last := _last o |} in
          let w := set_out b o w in
          if (remaining =? 0)%Z then
            match ___parentOut o with
            | Some p => ___handleChildDone fuel p w
            | None => ___doFinish b w
            end
          else if (remaining - ___lastCount o =? 0)%Z then ___emitLast o w
          else (Ok (), w)
      end
  end.

(** [end()] on builder [b].  A chain of [___handleChildDone] calls goes
    through each builder at most once more after it reached zero, so it
    is never longer than the number of builders plus one. *)
Definition end_ (b : nat) (w : world) : outcome unit * world :=
  let w := log (CallEnd b) w in
  match outs w !! b with
  | None => (Throw TypeError, w)
  | Some o =>
      (* this.___parent = undefined; var remaining = --this.___remaining; *)
      let remaining := (___remaining o - 1)%Z in
      let o := {| ___remaining := remaining; ___lastCount := ___lastCount o;
                  ___parentOut := ___parentOut o; ___parent := None;
                  ___stack := ___stack o; ___sync := ___sync o;
                  _last := _last o |} in
      let w := set_out b o w in
      if (remaining =? 0)%Z then
        match ___parentOut o with
        | Some p => ___handleChildDone (S (length (outs w))) p w
        | None => ___doFinish b w
        end
      else if (remaining - ___lastCount o =? 0)%Z then ___emitLast o w
      else (Ok (), w)
  end.

(** [error(e)]: [try { this.emit("error", e) } finally { this.end() }].
    The exception of the [try] block is the one that leaves the call,
    unless [end()] throws one of its own. *)
Definition error (b : nat) (e : jsval) (w : world) : outcome unit * world :=
  let '(r1, w) := emit_event b "error" e w in
  let '(r2, w) := end_ b w in
  match r2 with
  | Ok _ =>
      match r1 with
      | Ok _ => (Ok (), w)
      | Throw x => (Throw x, w)
      | OutOfFuel => (OutOfFuel, w)
      end
  | Throw x => (Throw x, w)
  | OutOfFuel => (OutOfFuel, w)
  end.

Definition sync_message : string :=
  "Tried to render async while in sync mode. Note: Client side await is not currently supported in re-renders (Issue: #942).".

(** [beginAsync(options)] on builder [b]; [last] is [options.last].  It
    returns the new builder. *)
Definition beginAsync (b : nat) (last : bool) (w : world) : outcome nat * world :=
  match outs w !! b with
  | None => (Throw TypeError, w)
  | Some o =>
      if ___sync o then (Throw (Error sync_message), w)
      else
        (* if (options.last) this.___lastCount++;  this.___remaining++; *)
        let o := {| ___remaining := (___remaining o + 1)%Z;
                    ___lastCount := (if last then ___lastCount o + 1
                                     else ___lastCount o)%Z;
                    ___parentOut := ___parentOut o; ___parent := ___parent o;
                    ___stack := ___stack o; ___sync := ___sync o;
                    _last := _last o |} in
        let w := set_out b o w in
        (* this.___parent.___appendDocumentFragment() *)
        match ___parent o with
        | None => (Throw TypeError, w)
        | Some Textarea => (Throw TypeError, w)
        | Some OtherNode =>
            let child := length (outs w) in
            let w := {| outs := (outs w ++ [new_out OtherNode (Some b)])%list;
                        ___finished := ___finished w; ___events := ___events w;
                        trace := trace w |} in
            match emit_event b "beginAsync" (Plain "[object Object]") w with
            | (Ok _, w) => (Ok child, w)
            | (Throw e, w) => (Throw e, w)
            | (OutOfFuel, w) => (OutOfFuel, w)
            end
        end
  end.

(** [sync()] *)
Definition sync (b : nat) (w : world) : world :=
  match outs w !! b with
  | None => w
  | Some o =>
      set_out b {| ___remaining := ___remaining o; ___lastCount := ___lastCount o;
                   ___parentOut := ___parentOut o; ___parent := ___parent o;
                   ___stack := ___stack o; ___sync := true; _last := _last o |} w
  end.

(** [beginElement(tagName, ...)]: the new element becomes the parent. *)
Definition beginElement (b : nat) (k : parent_kind) (w : world) : outcome unit * world :=
  match outs w !! b with
  | None => (Throw TypeError, w)
  | Some o =>
      match ___parent o with
      | None => (Throw TypeError, w)
      | Some Textarea => (Throw TypeError, w)   (* ___appendChild refuses an element *)
      | Some OtherNode =>
          (Ok (), set_out b {| ___remaining := ___remaining o;
                               ___lastCount := ___lastCount o;
                               ___parentOut := ___parentOut o; ___parent := Some k;
                               ___stack := (___stack o ++ [k])%list;
                               ___sync := ___sync o; _last := _last o |} w)
      end
  end.

(** [endElement()]: [stack.pop(); this.___parent = stack[stack.length - 1]] *)
Definition endElement (b : nat) (w : world) : outcome unit * world :=
  match outs w !! b with
  | None => (Throw TypeError, w)
  | Some o =>
      let stack := removelast (___stack o) in
      (Ok (), set_out b {| ___remaining := ___remaining o;
                           ___lastCount := ___lastCount o;
                           ___parentOut := ___parentOut o; ___parent := last stack;
                           ___stack := stack; ___sync := ___sync o;
                           _last := _last o |} w)
  end.

(** [text(text)]: appends a text node to the current parent. *)
Definition text (b : nat) (w : world) : outcome unit * world :=
  match outs w !! b with
  | None => (Throw TypeError, w)
  | Some o =>
      match ___parent o with
      | None => (Throw TypeError, w)
      | Some _ => (Ok (), w)
      end
  end.

(** [on(event, callback)] for the events kept by the emitter. *)
Definition on (type : string) (l : Emitter.listener) (w : world) : world :=
  {| outs := outs w; ___finished := ___finished w;
     ___events := Emitter.on type l (___events w); trace := trace w |}.

(** [removeListener(event, callback)] *)
Definition removeListener (type : string) (l : Emitter.listener) (w : world) : world :=
  {| outs := outs w; ___finished := ___finished w;
     ___events := Emitter.removeListener type l (___events w); trace := trace w |}.

(** What a render function does with the builders it holds.  A builder
    is named by its position in [outs]. *)
Inductive op : Type :=
| BeginAsync (b : nat) (last : bool)
| End (b : nat)
| ErrorOp (b : nat) (e : jsval)
| BeginElement (b : nat) (k : parent_kind)
| EndElement (b : nat)
| Text (b : nat).

Definition step (o : op) (w : world) : outcome unit * world :=
  match o with
  | BeginAsync b last =>
      match beginAsync b last w with
      | (Ok _, w) => (Ok (), w)
      | (Throw e, w) => (Throw e, w)
      | (OutOfFuel, w) => (OutOfFuel, w)
      end
  | End b => end_ b w
  | ErrorOp b e => error b e w
  | BeginElement b k => beginElement b k w
  | EndElement b => endElement b w
  | Text b => text b w
  end.

(** A run of calls; an exception that escapes a call ends the run. *)
Fixpoint run (ops : list op) (w : world) : outcome unit * world :=
  match ops with
  | [] => (Ok (), w)
  | o :: rest =>
      match step o w with
      | (Ok _, w) => run rest w
      | (Throw e, w) => (Throw e, w)
      | (OutOfFuel, w) => (OutOfFuel, w)
      end
  end.

(** [Component.prototype.___rerender(input, isHydrate)], up to the call
    of the renderer: [var out = createOut(globalData); out.sync(); ...;
    renderer(input, out)].  The renderer is the compiled template; it is
    given as the calls it makes on the builder it receives, which is the
    root (builder 0) of a new render.  The reconciliation that follows a
    renderer that returns is in [Morph]. *)
Definition ___rerender (renderer : list op) : outcome unit * world :=
  let w := start in          (* createOut(globalData) *)
  let w := sync 0 w in       (* out.sync() *)
  run renderer w.            (* renderer(input, out) *)

End Builder.

(** ** runtime/components/State and Component.prototype.update

    State values are opaque to the runtime apart from strict equality.
    Methods the application supplies ([update_<name>] handlers,
    [onUpdate], [shouldUpdate]) and the renderer are callbacks of the
    host program: the model records each call and lets a callback throw.
    Callbacks that call back into the component are outside the
    model. *)
Module Component.
Section with_values.

Context {V : Type} `{EqDecision V}.

(** An object literal: its own properties in the order in which they
    were added.  ([JsObject.for_in] gives the order in which
    [for ... in] visits them.) *)
Definition obj : Type := list (string * V).

Fixpoint get (o : obj) (name : string) : option V :=
  match o with
  | [] => None
  | (k, v) :: rest => if decide (k = name) then Some v else get rest name
  end.

Fixpoint set (o : obj) (name : string) (v : V) : obj :=
  match o with
  | [] => [(name, v)]
  | (k, v0) :: rest =>
      if decide (k = name) then (k, v) :: rest else (k, v0) :: set rest name v
  end.

Definition remove (o : obj) (name : string) : obj :=
  filter (λ kv, kv.1 ≠ name) o.

(** [o[name]], read through the prototype: the own property, else what
    [Object.prototype] has under the name. *)
Definition lookup (o : obj) (name : string) : JsObject.slot V :=
  match get o name with
  | Some v => JsObject.Own v
  | None =>
      if bool_decide (name ∈ JsObject.prototype_names) then JsObject.Inherited
      else JsObject.Missing
  end.

(** [State] *)
Record state : Type := {
  ___raw : obj;
  s___dirty : bool;
  ___old : option obj;                           (* None: null *)
  ___changes : option (list (string * option V)) (* a value may be undefined *)
}.

(** A member function of the component. *)
Record method : Type := { m_id : nat; m_throws : option jsval }.

Record component : Type := {
  ___destroyed : bool;
  ___dirty : bool;
  ___updateQueued : bool;
  ___renderInput : option obj;
  ___input : option obj;
  ___state : option state;                  (* None: null *)
  member : string → option method;          (* component[name] *)
  shouldUpdate : bool;                      (* shouldUpdate(input, state) !== false *)
  ___renderer : option method
}.

Inductive record : Type :=
| QueueUpdate                                        (* ___queueUpdate() *)
| Handler (m : nat) (newValue : option V) (oldValue : JsObject.slot V)
                                                     (* update_<name>(new, old) *)
| Lifecycle (event : string)                         (* emitLifecycleEvent *)
| ShouldUpdate
| ScheduleRerender                                   (* ___scheduleRerender() entered *)
| Rerender.                                          (* ___rerender(input, false) *)

Definition with_state (c : component) (s : option state) : component :=
  {| ___destroyed := ___destroyed c; ___dirty := ___dirty c;
     ___updateQueued := ___updateQueued c; ___renderInput := ___renderInput c;
     ___input := ___input c; ___state := s; member := member c;
     shouldUpdate := shouldUpdate c; ___renderer := ___renderer c |}.

(** [State.prototype.___reset] *)
Definition state_reset (s : state) : state :=
  {| ___raw := ___raw s; s___dirty := false; ___old := None; ___changes := None |}.

(** [Component.prototype.___reset] *)
Definition ___reset (c : component) : component :=
  {| ___destroyed := ___destroyed c; ___dirty := false; ___updateQueued := false;
     ___renderInput := None; ___input := ___input c;
     ___state := state_reset <$> ___state c; member := member c;
     shouldUpdate := shouldUpdate c; ___renderer := ___renderer c |}.

(** [Component.prototype.___queueUpdate] *)
Definition ___queueUpdate (c : component) (t : list record) : component * list record :=
  if ___updateQueued c then (c, t)
  else ({| ___destroyed := ___destroyed c; ___dirty := ___dirty c;
           ___updateQueued := true; ___renderInput := ___renderInput c;
           ___input := ___input c; ___state := ___state c; member := member c;
           shouldUpdate := shouldUpdate c; ___renderer := ___renderer c |},
        (t ++ [QueueUpdate])%list).

(** [changes[name] = value] *)
Fixpoint set_change (o : list (string * option V)) (name : string) (v : option V)
  : list (string * option V) :=
  match o with
  | [] => [(name, v)]
  | (k, v0) :: rest =>
      if decide (k = name) then (k, v) :: rest else (k, v0) :: set_change rest name v
  end.

(** [State.prototype.___set(name, value, shouldEnsure, forceDirty)] on
    the state of [c]; [value = None] is [undefined]. *)
Definition ___set (name : string) (value : option V) (forceDirty : bool)
    (s : state) (c : component) (t : list record) : component * list record :=
  if negb forceDirty && bool_decide (get (___raw s) name = value) then
    (with_state c (Some s), t)
  else
    let '(s, c, t) :=
      if s___dirty s then (s, c, t)
      else
        let '(c, t) := ___queueUpdate c t in
        ({| ___raw := ___raw s; s___dirty := true; ___old := Some (___raw s);
            ___changes := Some [] |}, c, t) in
    let changes := set_change (default [] (___changes s)) name value in
    let raw := match value with
               | None => remove (___raw s) name
               | Some v => set (___raw s) name v
               end in
    (with_state c (Some {| ___raw := raw; s___dirty := true; ___old := ___old s;
                           ___changes := Some changes |}), t).

(** The body of the first loop of [processUpdateHandlers], for the
    changed properties in the order in which they are visited: the
    handler of every one of them, or nothing as soon as one has none. *)
Fixpoint collect_from (c : component) (visited : list (string * option V))
  : option (list (string * method)) :=
  match visited with
  | [] => Some []
  | (propName, _) :: rest =>
      match member c ("update_" +:+ propName) with
      | Some handlerMethod =>
          match collect_from c rest with
          | Some handlers => Some ((propName, handlerMethod) :: handlers)
          | None => None
          end
      | None => None
      end
  end.

(** [for (var propName in stateChanges) { ... }] *)
Definition collect_handlers (c : component) (stateChanges : list (string * option V))
  : option (list (string * method)) :=
  collect_from c (JsObject.for_in fst stateChanges).

Definition get_change (o : list (string * option V)) (name : string) : option V :=
  match list_find (λ kv, kv.1 = name) o with
  | Some (_, (_, v)) => v
  | None => None
  end.

(** [handlers.forEach(...)] *)
Fixpoint call_handlers (handlers : list (string * method))
    (stateChanges : list (string * option V)) (oldState : obj) (t : list record)
  : outcome unit * list record :=
  match handlers with
  | [] => (Ok (), t)
  | (propertyName, handlerMethod) :: rest =>
      let newValue := get_change stateChanges propertyName in
      let oldValue := lookup oldState propertyName in
      let t := (t ++ [Handler (m_id handlerMethod) newValue oldValue])%list in
      match m_throws handlerMethod with
      | Some e => (Throw e, t)
      | None => call_handlers rest stateChanges oldState t
      end
  end.

(** [emitLifecycleEvent(component, "update")]: the [onUpdate] method, if
    there is one, then the listeners. *)
Definition emit_update (c : component) (t : list record) : outcome unit * list record :=
  let t := (t ++ [Lifecycle "update"])%list in
  match member c "onUpdate" with
  | Some m => match m_throws m with Some e => (Throw e, t) | None => (Ok (), t) end
  | None => (Ok (), t)
  end.

(** [processUpdateHandlers(component, stateChanges, oldState)]; the
    boolean is the truth of what it returns.  The loop asks
    [stateChanges.hasOwnProperty(propName)] for every name it visits:
    when a changed property is called [hasOwnProperty] itself, this
    calls the value of that property, a TypeError for a value that is
    no function (a state that holds functions is outside the model). *)
Definition processUpdateHandlers (c : component)
    (stateChanges : list (string * option V)) (oldState : option obj)
    (t : list record) : outcome bool * component * list record :=
  if bool_decide ("hasOwnProperty" ∈ stateChanges.*1) then (Throw TypeError, c, t)
  else
  match collect_handlers c stateChanges with
  | None => (Ok false, c, t)
  | Some [] => (Ok true, c, t)
  | Some handlers =>
      match oldState with
      | None => (Throw TypeError, c, t)          (* oldState[propertyName] of null *)
      | Some oldState =>
          match call_handlers handlers stateChanges oldState t with
          | (Ok _, t) =>
              match emit_update c t with
              | (Ok _, t) => (Ok true, ___reset c, t)
              | (Throw e, t) => (Throw e, c, t)
              | (OutOfFuel, t) => (OutOfFuel, c, t)
              end
          | (Throw e, t) => (Throw e, c, t)
          | (OutOfFuel, t) => (OutOfFuel, c, t)
          end
      end
  end.

(** The getter [___isDirty] *)
Definition ___isDirty (c : component) : bool :=
  ___dirty c || match ___state c with Some s => s___dirty s | None => false end.

(** [___scheduleRerender()]: the re-render itself (renderer and
    reconciliation) is one recorded step. *)
Definition ___scheduleRerender (c : component) (t : list record)
  : outcome unit * component * list record :=
  let t := (t ++ [ScheduleRerender])%list in
  match ___renderer c with
  | None => (Throw TypeError, c, t)
  | Some r =>
      let t := (t ++ [Rerender])%list in
      match m_throws r with
      | Some e => (Throw e, c, t)
      | None => (Ok (), ___reset c, t)
      end
  end.

(** [Component.prototype.update] *)
Definition update (c : component) (t : list record)
  : outcome unit * component * list record :=
  if ___destroyed c || negb (___isDirty c) then (Ok (), c, t)
  else
    let after_handlers : outcome unit * component * list record :=
      match ___state c with
      | Some state =>
          if negb (___dirty c) && s___dirty state then
            match processUpdateHandlers c (default [] (___changes state))
                    (___old state) t with
            | (Ok true, c, t) =>
                (* state.___dirty = false *)
                (Ok (),
                 with_state c
                   ((λ s, {| ___raw := ___raw s; s___dirty := false;
                             ___old := ___old s; ___changes := ___changes s |})
                      <$> ___state c), t)
            | (Ok false, c, t) => (Ok (), c, t)
            | (Throw e, c, t) => (Throw e, c, t)
            | (OutOfFuel, c, t) => (OutOfFuel, c, t)
            end
          else (Ok (), c, t)
      | None => (Ok (), c, t)
      end in
    match after_handlers with
    | (Ok _, c, t) =>
        let rerendered : outcome unit * component * list record :=
          if ___isDirty c then
            let t := (t ++ [ShouldUpdate])%list in
            if shouldUpdate c then ___scheduleRerender c t else (Ok (), c, t)
          else (Ok (), c, t) in
        match rerendered with
        | (Ok _, c, t) => (Ok (), ___reset c, t)
        | other => other
        end
    | other => other
    end.

End with_values.
End Component.

(** ** runtime/vdom/VNode

    Virtual nodes are objects linked by [___firstChildInternal],
    [___lastChild], [___nextSiblingInternal] and [___parentNode].  The
    model keeps them in a store, a node being named by its key there. *)
Module VNode.

Inductive kind : Type :=
| Element (___nodeName : string)       (* VElement *)
| Text (___nodeValue : string)         (* VText *)
| Comment (___nodeValue : string)      (* VComment *)
| DocumentFragment                     (* VDocumentFragment: ___DocumentFragment is true *)
| Fragment (___preserve : bool)        (* VFragment *)
| ComponentNode (___preserve : bool).  (* VComponent *)

Global Instance kind_eq_dec : EqDecision kind.
Proof. solve_decision. Defined.

Record node : Type := {
  ___kind : kind;
  ___childCount : Z;
  ___firstChildInternal : option nat;
  ___lastChild : option nat;
  ___parentNode : option nat;
  ___nextSiblingInternal : option nat;
  ___valueInternal : option string;     (* None: null *)
  ___preserveTextAreaValue : bool
}.

(** [this.___VNode(finalChildCount)] for a new node of the kind. *)
Definition new_node (k : kind) : node :=
  {| ___kind := k; ___childCount := 0; ___firstChildInternal := None;
     ___lastChild := None; ___parentNode := None; ___nextSiblingInternal := None;
     ___valueInternal := None; ___preserveTextAreaValue := false |}.

(** [node.___DocumentFragment] *)
Definition ___DocumentFragment (n : node) : bool :=
  bool_decide (___kind n = DocumentFragment).

(** [node.___Text] *)
Definition ___Text (n : node) : option string :=
  match ___kind n with Text v => Some v | _ => None end.

(** [node.___preserve], as a truth value *)
Definition ___preserve (n : node) : bool :=
  match ___kind n with
  | Fragment p | ComponentNode p => p
  | _ => false
  end.

(** [node.___nodeName === "textarea"] *)
Definition is_textarea (n : node) : bool :=
  match ___kind n with
  | Element name => bool_decide (name = "textarea")
  | _ => false
  end.

Definition set_childCount (c : Z) (n : node) : node :=
  {| ___kind := ___kind n; ___childCount := c;
     ___firstChildInternal := ___firstChildInternal n; ___lastChild := ___lastChild n;
     ___parentNode := ___parentNode n;
     ___nextSiblingInternal := ___nextSiblingInternal n;
     ___valueInternal := ___valueInternal n;
     ___preserveTextAreaValue := ___preserveTextAreaValue n |}.

Definition set_firstChildInternal (x : option nat) (n : node) : node :=
  {| ___kind := ___kind n; ___childCount := ___childCount n;
     ___firstChildInternal := x; ___lastChild := ___lastChild n;
     ___parentNode := ___parentNode n;
     ___nextSiblingInternal := ___nextSiblingInternal n;
     ___valueInternal := ___valueInternal n;
     ___preserveTextAreaValue := ___preserveTextAreaValue n |}.

Definition set_lastChild (x : option nat) (n : node) : node :=
  {| ___kind := ___kind n; ___childCount := ___childCount n;
     ___firstChildInternal := ___firstChildInternal n; ___lastChild := x;
     ___parentNode := ___parentNode n;
     ___nextSiblingInternal := ___nextSiblingInternal n;
     ___valueInternal := ___valueInternal n;
     ___preserveTextAreaValue := ___preserveTextAreaValue n |}.

Definition set_parentNode (x : option nat) (n : node) : node :=
  {| ___kind := ___kind n; ___childCount := ___childCount n;
     ___firstChildInternal := ___firstChildInternal n; ___lastChild := ___lastChild n;
     ___parentNode := x;
     ___nextSiblingInternal := ___nextSiblingInternal n;
     ___valueInternal := ___valueInternal n;
     ___preserveTextAreaValue := ___preserveTextAreaValue n |}.

Definition set_nextSiblingInternal (x : option nat) (n : node) : node :=
  {| ___kind := ___kind n; ___childCount := ___childCount n;
     ___firstChildInternal := ___firstChildInternal n; ___lastChild := ___lastChild n;
     ___parentNode := ___parentNode n;
     ___nextSiblingInternal := x;
     ___valueInternal := ___valueInternal n;
     ___preserveTextAreaValue := ___preserveTextAreaValue n |}.

Definition set_valueInternal (x : option string) (n : node) : node :=
  {| ___kind := ___kind n; ___childCount := ___childCount n;
     ___firstChildInternal := ___firstChildInternal n; ___lastChild := ___lastChild n;
     ___parentNode := ___parentNode n;
     ___nextSiblingInternal := ___nextSiblingInternal n;
     ___valueInternal := x;
     ___preserveTextAreaValue := ___preserveTextAreaValue n |}.

Definition set_preserveTextAreaValue (x : bool) (n : node) : node :=
  {| ___kind := ___kind n; ___childCount := ___childCount n;
     ___firstChildInternal := ___firstChildInternal n; ___lastChild := ___lastChild n;
     ___parentNode := ___parentNode n;
     ___nextSiblingInternal := ___nextSiblingInternal n;
     ___valueInternal := ___valueInternal n;
     ___preserveTextAreaValue := x |}.

(** [this.___appendChild(child)]: the statements in the order of the
    source, each a write to the store. *)
Definition ___appendChild (this child : nat) (h : gmap nat node)
  : outcome nat * gmap nat node :=
  match h !! this, h !! child with
  | Some t, Some c =>
      (* this.___childCount++; *)
      let h := alter (set_childCount (___childCount t + 1)) this h in
      if is_textarea t then
        match ___Text c with
        | Some childValue =>
            (Ok child,
             alter (set_valueInternal
                      (Some (default "" (___valueInternal t) +:+ childValue)))
               this h)
        | None =>
            if ___preserve c then
              (Ok child, alter (set_preserveTextAreaValue true) this h)
            else (Throw TypeError, h)
        end
      else
        let lastChild := ___lastChild t in
        (* child.___parentNode = this; *)
        let h := alter (set_parentNode (Some this)) child h in
        let h :=
          match lastChild with
          | Some l => alter (set_nextSiblingInternal (Some child)) l h
          | None => alter (set_firstChildInternal (Some child)) this h
          end in
        (* this.___lastChild = child; *)
        (Ok child, alter (set_lastChild (Some child)) this h)
  | _, _ => (Throw TypeError, h)
  end.

(** The getters [___firstChild] and [___nextSibling] call each other;
    [fuel] bounds the depth of the calls. *)
Fixpoint ___firstChild (fuel : nat) (h : gmap nat node) (this : nat)
  : outcome (option nat) :=
  match fuel with
  | O => OutOfFuel
  | S fuel =>
      match h !! this with
      | None => Throw TypeError
      | Some t =>
          match ___firstChildInternal t with
          | None => Ok None
          | Some firstChild =>
              match h !! firstChild with
              | None => Throw TypeError
              | Some f =>
                  if ___DocumentFragment f then
                    (* return nestedFirstChild || firstChild.___nextSibling; *)
                    match ___firstChild fuel h firstChild with
                    | Ok (Some nestedFirstChild) => Ok (Some nestedFirstChild)
                    | Ok None => ___nextSibling fuel h firstChild
                    | other => other
                    end
                  else Ok (Some firstChild)
              end
          end
      end
  end
with ___nextSibling (fuel : nat) (h : gmap nat node) (this : nat)
  : outcome (option nat) :=
  match fuel with
  | O => OutOfFuel
  | S fuel =>
      match h !! this with
      | None => Throw TypeError
      | Some t =>
          match ___nextSiblingInternal t with
          | Some nextSibling =>
              match h !! nextSibling with
              | None => Throw TypeError
              | Some s =>
                  if ___DocumentFragment s then
                    (* return firstChild || nextSibling.___nextSibling; *)
                    match ___firstChild fuel h nextSibling with
                    | Ok (Some firstChild) => Ok (Some firstChild)
                    | Ok None => ___nextSibling fuel h nextSibling
                    | other => other
                    end
                  else Ok (Some nextSibling)
              end
          | None =>
              match ___parentNode t with
              | Some parentNode =>
                  match h !! parentNode with
                  | None => Throw TypeError
                  | Some p =>
                      if ___DocumentFragment p then ___nextSibling fuel h parentNode
                      else Ok None
                  end
              | None => Ok None
              end
          end
      end
  end.

(** The walk the reconciler and [forEachOption] make over the children
    of a node: [cur = node.___firstChild; while (cur) { ...; cur =
    cur.___nextSibling; }]. *)
Fixpoint walk (fuel : nat) (h : gmap nat node) (cur : option nat)
  : outcome (list nat) :=
  match fuel with
  | O => OutOfFuel
  | S fuel =>
      match cur with
      | None => Ok []
      | Some x =>
          match ___nextSibling fuel h x with
          | Ok next =>
              match walk fuel h next with
              | Ok rest => Ok (x :: rest)
              | other => other
              end
          | Throw e => Throw e
          | OutOfFuel => OutOfFuel
          end
      end
  end.

Definition children (fuel : nat) (h : gmap nat node) (this : nat)
  : outcome (list nat) :=
  match ___firstChild fuel h this with
  | Ok first => walk fuel h first
  | Throw e => Throw e
  | OutOfFuel => OutOfFuel
  end.

(** What a builder has put together, as a tree: a node with its kind
    and its children in order. *)
Local Unset Elimination Schemes.
Inductive tree : Type :=
| Node (id : nat) (k : kind) (children : list tree).
Local Set Elimination Schemes.

Definition root_id (t : tree) : nat := match t with Node id _ _ => id end.

Definition head_id (ts : list tree) : option nat :=
  match ts with [] => None | t :: _ => Some (root_id t) end.

Definition last_id (ts : list tree) : option nat := head_id (rev ts).

(** The children as the reconciler is meant to see them: document
    fragments are replaced by their own children, every other node
    (fragments of the [VFragment] kind too) stands for itself. *)
Fixpoint flat_tree (t : tree) : list nat :=
  match t with
  | Node id k children =>
      match k with
      | DocumentFragment => concat (flat_tree <$> children)
      | _ => [id]
      end
  end.

Definition flat (ts : list tree) : list nat := concat (flat_tree <$> ts).

(** The store holds the tree [t] as a child of [parent] followed by the
    sibling [next]. *)
Fixpoint holds (h : gmap nat node) (parent : option nat) (t : tree)
    (next : option nat) {struct t} : Prop :=
  match t with
  | Node id k children =>
      ∃ n, h !! id = Some n ∧ ___kind n = k ∧ ___parentNode n = parent
           ∧ ___nextSiblingInternal n = next
           ∧ ___firstChildInternal n = head_id children
           ∧ (fix chain (ts : list tree) : Prop :=
                match ts with
                | [] => True
                | t' :: rest => holds h (Some id) t' (head_id rest) ∧ chain rest
                end) children
  end.

(** The store holds the trees [ts] as the children of [parent], in
    order. *)
Fixpoint chain (h : gmap nat node) (parent : option nat) (ts : list tree) : Prop :=
  match ts with
  | [] => True
  | t :: rest => holds h parent t (head_id rest) ∧ chain h parent rest
  end.

End VNode.

(** ** runtime/vdom/morphdom: the reconciler

    The model covers the reconciliation of element, text and comment
    nodes; the runs it does not follow end in [Outside]:
    - component placeholders ([VComponent]) and keyed fragments
      ([VFragment]) among the virtual children, real nodes that are the
      root of a component, and the boundary markers of real fragments;
    - the branches taken only while hydrating server-rendered markup;
    - names found on [Object.prototype] used as keys, attribute names or
      tag names;
    - an assignment to [style.cssText], and to [selected] of an option
      of a select without the attribute [multiple], where the browser
      does more than keep the value.
    The DOM is the browser's: the model keeps its nodes in a store and
    gives the DOM calls the reconciler makes their effect on the tree,
    the attributes and the form-control properties; every call that
    writes is recorded. *)
Module Morph.

(** How a run of the model ends. *)
Inductive result (A : Type) : Type :=
| Done (a : A)
| Raise (e : jsval)
| NoFuel
| Outside (why : string).
Arguments Done {A} a.
Arguments Raise {A} e.
Arguments NoFuel {A}.
Arguments Outside {A} why.

(** *** Virtual elements *)

(** The values of an attribute map.  Numbers are the integers; an
    object is known by its identity, by what [convertAttrValue] makes of
    it (its JSON text, the source of a RegExp) and by its [String()]. *)
Inductive attrval : Type :=
| AString (s : string)
| ANumber (z : Z)
| ANaN
| ABoolean (b : bool)
| ANull
| AUndefined
| AObject (ref : nat) (converted : string) (as_string : string).

Global Instance attrval_eq_dec : EqDecision attrval.
Proof. solve_decision. Defined.

(** [a === b] *)
Definition strict_eq (a b : attrval) : bool :=
  match a, b with
  | AString s, AString s' => bool_decide (s = s')
  | ANumber z, ANumber z' => bool_decide (z = z')
  | ABoolean x, ABoolean y => bool_decide (x = y)
  | ANull, ANull => true
  | AUndefined, AUndefined => true
  | AObject r _ _, AObject r' _ _ => bool_decide (r = r')
  | _, _ => false
  end.

(** [v == null || v === false] *)
Definition null_or_false (v : attrval) : bool :=
  match v with
  | ANull | AUndefined | ABoolean false => true
  | _ => false
  end.

(** [String(v)] *)
Definition to_string (v : attrval) : string :=
  match v with
  | AString s => s
  | ANumber z => pretty z
  | ANaN => "NaN"
  | ABoolean true => "true"
  | ABoolean false => "false"
  | ANull => "null"
  | AUndefined => "undefined"
  | AObject _ _ s => s
  end.

(** [convertAttrValue(typeof value, value)], for a value that is not a
    string *)
Definition convertAttrValue (v : attrval) : string :=
  match v with
  | ABoolean true => ""
  | AObject _ converted _ => converted
  | _ => to_string v
  end.

(** The text an attribute is set to: strings as they are, the rest
    converted. *)
Definition attr_text (v : attrval) : string :=
  match v with
  | AString s => s
  | _ => convertAttrValue v
  end.

(** An attribute map: the object (known by its identity) and its own
    properties in the order [for ... in] visits them. *)
Record attributes : Type := { a_ref : nat; a_own : list (string * attrval) }.

(** [attrs[name]] *)
Fixpoint lookup_own (own : list (string * attrval)) (name : string) : attrval :=
  match own with
  | [] => AUndefined
  | (k, v) :: rest => if decide (k = name) then v else lookup_own rest name
  end.

Definition attr (a : attributes) (name : string) : attrval := lookup_own (a_own a) name.

(** [name in attrs], for names that [Object.prototype] does not have *)
Definition has_attr (a : attributes) (name : string) : bool :=
  bool_decide (name ∈ (a_own a).*1).

(** The frozen [EMPTY_OBJECT] of VElement. *)
Definition EMPTY_OBJECT : attributes := {| a_ref := 0; a_own := [] |}.

(** A key as a virtual node carries it. *)
Inductive jskey : Type :=
| KNull
| KUndefined
| KString (s : string).

Global Instance jskey_eq_dec : EqDecision jskey.
Proof. solve_decision. Defined.

(** The key if it is truthy. *)
Definition truthy_key (k : jskey) : option string :=
  match k with
  | KString s => if bool_decide (s = "") then None else Some s
  | _ => None
  end.

Definition FLAG_SIMPLE_ATTRS : N := 1.
Definition FLAG_CUSTOM_ELEMENT : N := 2.

(** The fields of a VElement. *)
Record velement : Type := {
  ___nodeName : string;
  ___attributes : attributes;
  ___key : jskey;
  ___ownerComponent : option string;    (* the id of the component; None: null *)
  ___flags : N;
  ___constId : option nat;              (* None: undefined *)
  ___valueInternal : option string;     (* None: null *)
  ___preserveTextAreaValue : bool
}.

(** Virtual nodes with their children as [___firstChild] and
    [___nextSibling] enumerate them (document fragments replaced by
    their children). *)
Local Unset Elimination Schemes.
Inductive vnode : Type :=
| VElement (el : velement) (children : list vnode)
| VText (___nodeValue : string) (owner : option string)
| VComment (___nodeValue : string) (owner : option string)
| VFragment (key : jskey) (children : list vnode)
| VComponent (component : string) (key : jskey) (children : list vnode).
Local Set Elimination Schemes.

Definition ELEMENT_NODE : Z := 1.
Definition COMPONENT_NODE : Z := 2.
Definition TEXT_NODE : Z := 3.
Definition COMMENT_NODE : Z := 8.
Definition DOCTYPE_NODE : Z := 10.
Definition FRAGMENT_NODE : Z := 12.

Definition v___nodeType (v : vnode) : Z :=
  match v with
  | VElement _ _ => ELEMENT_NODE
  | VText _ _ => TEXT_NODE
  | VComment _ _ => COMMENT_NODE
  | VFragment _ _ => FRAGMENT_NODE
  | VComponent _ _ _ => COMPONENT_NODE
  end.

Definition v___key (v : vnode) : jskey :=
  match v with
  | VElement el _ => ___key el
  | VFragment k _ | VComponent _ k _ => k
  | _ => KUndefined
  end.

(** [el.___hasAttribute(name)] *)
Definition ___hasAttribute (el : velement) (name : string) : bool :=
  negb (null_or_false (attr (___attributes el) name)).

(** The getters [checked], [selected] and [disabled] *)
Definition v_boolean (el : velement) (name : string) : bool :=
  negb (null_or_false (attr (___attributes el) name)).

(** The getter [___value] *)
Definition ___value (el : velement) : string :=
  let from_attr :=
    let value := attr (___attributes el) "value" in
    if null_or_false value then
      if strict_eq (attr (___attributes el) "type") (AString "checkbox")
         || strict_eq (attr (___attributes el) "type") (AString "radio")
      then "on" else ""
    else to_string value in
  match ___valueInternal el with
  | Some value => value
  | None => from_attr
  end.

(** *** The DOM *)

Definition NS_XLINK : string := "http://www.w3.org/1999/xlink".
Definition NS_HTML : string := "http://www.w3.org/1999/xhtml".
Definition NS_MATH : string := "http://www.w3.org/1998/Math/MathML".
Definition NS_SVG : string := "http://www.w3.org/2000/svg".

(** A node of the document.  Attributes are kept by namespace (empty:
    none) and name.  [value], [checked], [selected], [disabled],
    [selectedIndex] and [placeholder] are the properties the handlers of
    the form controls read and write; the properties assigned to a
    custom element are kept as assigned. *)
Record dnode : Type := {
  nodeType : Z;
  nodeName : string;
  namespaceURI : string;
  nodeValue : option string;                    (* None: null *)
  attrs : gmap (string * string) string;
  parentNode : option nat;
  childNodes : list nat;
  value : string;
  checked : bool;
  selected : bool;
  disabled : bool;
  selectedIndex : Z;
  placeholder : string;
  assigned : gmap string attrval
}.

(** What components/dom-data keeps for a node. *)
Record domdata : Type := {
  d_key : option string;                (* ___keyByDOMNode *)
  d_vElement : option velement;         (* ___vElementByDOMNode *)
  d_component : option string;          (* ___componentByDOMNode *)
  d_detached : option (option string)   (* ___detachedByDOMNode: a component, or true *)
}.

Definition no_data : domdata :=
  {| d_key := None; d_vElement := None; d_component := None; d_detached := None |}.

(** The calls that write to the document. *)
Inductive mutation : Type :=
| Created (node : nat)
| InsertedBefore (node : nat) (reference : option nat) (parent : nat)
| Removed (node : nat)
| AttributeSet (node : nat) (ns name text : string)
| AttributeRemoved (node : nat) (ns name : string)
| NodeValueSet (node : nat) (text : string)
| PropertySet (node : nat) (name : string) (v : attrval).

Global Instance mutation_eq_dec : EqDecision mutation.
Proof. solve_decision. Defined.

Record world : Type := {
  nodes : gmap nat dnode;
  next_node : nat;
  data : gmap nat domdata;
  keyedElements : gmap string (gmap string nat);  (* component id, key *)
  keySequences : gmap string KeySequence.t;       (* of this pass *)
  detachedNodes : list nat;
  mutations : list mutation;
  isHydrate : bool
}.

Definition M (A : Type) : Type := world → result A * world.

Definition ret {A : Type} (a : A) : M A := λ w, (Done a, w).

Definition bind {A B : Type} (m : M A) (k : A → M B) : M B :=
  λ w, match m w with
       | (Done a, w) => k a w
       | (Raise e, w) => (Raise e, w)
       | (NoFuel, w) => (NoFuel, w)
       | (Outside why, w) => (Outside why, w)
       end.

Global Instance M_bind : MBind M := λ A B k m, bind m k.
Global Instance M_ret : MRet M := λ A a, ret a.

Definition raise {A : Type} (e : jsval) : M A := λ w, (Raise e, w).
Definition outside {A : Type} (why : string) : M A := λ w, (Outside why, w).
Definition no_fuel {A : Type} : M A := λ w, (NoFuel, w).
Definition get_world : M world := λ w, (Done w, w).
Definition modify (f : world → world) : M unit := λ w, (Done (), f w).


(** *** Access to the store *)

Definition set_nodes (f : gmap nat dnode → gmap nat dnode) (w : world) : world :=
  {| nodes := f (nodes w); next_node := next_node w; data := data w;
     keyedElements := keyedElements w; keySequences := keySequences w;
     detachedNodes := detachedNodes w; mutations := mutations w;
     isHydrate := isHydrate w |}.

Definition set_data (f : gmap nat domdata → gmap nat domdata) (w : world) : world :=
  {| nodes := nodes w; next_node := next_node w; data := f (data w);
     keyedElements := keyedElements w; keySequences := keySequences w;
     detachedNodes := detachedNodes w; mutations := mutations w;
     isHydrate := isHydrate w |}.

Definition set_keyedElements
    (f : gmap string (gmap string nat) → gmap string (gmap string nat)) (w : world)
  : world :=
  {| nodes := nodes w; next_node := next_node w; data := data w;
     keyedElements := f (keyedElements w); keySequences := keySequences w;
     detachedNodes := detachedNodes w; mutations := mutations w;
     isHydrate := isHydrate w |}.

Definition set_keySequences (ks : gmap string KeySequence.t) (w : world) : world :=
  {| nodes := nodes w; next_node := next_node w; data := data w;
     keyedElements := keyedElements w; keySequences := ks;
     detachedNodes := detachedNodes w; mutations := mutations w;
     isHydrate := isHydrate w |}.

Definition set_detachedNodes (l : list nat) (w : world) : world :=
  {| nodes := nodes w; next_node := next_node w; data := data w;
     keyedElements := keyedElements w; keySequences := keySequences w;
     detachedNodes := l; mutations := mutations w; isHydrate := isHydrate w |}.

(** A write to the document is recorded. *)
Definition record (m : mutation) : M unit :=
  modify (λ w,
    {| nodes := nodes w; next_node := next_node w; data := data w;
       keyedElements := keyedElements w; keySequences := keySequences w;
       detachedNodes := detachedNodes w; mutations := (mutations w ++ [m])%list;
       isHydrate := isHydrate w |}).

Definition node (x : nat) : M dnode :=
  λ w, match nodes w !! x with
       | Some n => (Done n, w)
       | None => (Outside "no such node", w)
       end.

Definition update_node (x : nat) (f : dnode → dnode) : M unit :=
  modify (set_nodes (alter f x)).

Definition get_data (x : nat) : M domdata :=
  λ w, (Done (default no_data (data w !! x)), w).

Definition update_data (x : nat) (f : domdata → domdata) : M unit :=
  modify (set_data (λ d, <[x := f (default no_data (d !! x))]> d)).

Definition set_d_key (k : option string) (d : domdata) : domdata :=
  {| d_key := k; d_vElement := d_vElement d; d_component := d_component d;
     d_detached := d_detached d |}.

Definition set_d_vElement (v : option velement) (d : domdata) : domdata :=
  {| d_key := d_key d; d_vElement := v; d_component := d_component d;
     d_detached := d_detached d |}.

Definition set_d_detached (x : option (option string)) (d : domdata) : domdata :=
  {| d_key := d_key d; d_vElement := d_vElement d; d_component := d_component d;
     d_detached := x |}.

Definition set_parentNode (p : option nat) (n : dnode) : dnode :=
  {| nodeType := nodeType n; nodeName := nodeName n; namespaceURI := namespaceURI n;
     nodeValue := nodeValue n; attrs := attrs n; parentNode := p;
     childNodes := childNodes n; value := value n; checked := checked n;
     selected := selected n; disabled := disabled n;
     selectedIndex := selectedIndex n; placeholder := placeholder n;
     assigned := assigned n |}.

Definition set_childNodes (l : list nat) (n : dnode) : dnode :=
  {| nodeType := nodeType n; nodeName := nodeName n; namespaceURI := namespaceURI n;
     nodeValue := nodeValue n; attrs := attrs n; parentNode := parentNode n;
     childNodes := l; value := value n; checked := checked n;
     selected := selected n; disabled := disabled n;
     selectedIndex := selectedIndex n; placeholder := placeholder n;
     assigned := assigned n |}.

Definition set_attrs (a : gmap (string * string) string) (n : dnode) : dnode :=
  {| nodeType := nodeType n; nodeName := nodeName n; namespaceURI := namespaceURI n;
     nodeValue := nodeValue n; attrs := a; parentNode := parentNode n;
     childNodes := childNodes n; value := value n; checked := checked n;
     selected := selected n; disabled := disabled n;
     selectedIndex := selectedIndex n; placeholder := placeholder n;
     assigned := assigned n |}.

Definition set_nodeValue (v : option string) (n : dnode) : dnode :=
  {| nodeType := nodeType n; nodeName := nodeName n; namespaceURI := namespaceURI n;
     nodeValue := v; attrs := attrs n; parentNode := parentNode n;
     childNodes := childNodes n; value := value n; checked := checked n;
     selected := selected n; disabled := disabled n;
     selectedIndex := selectedIndex n; placeholder := placeholder n;
     assigned := assigned n |}.

Definition set_value (v : string) (n : dnode) : dnode :=
  {| nodeType := nodeType n; nodeName := nodeName n; namespaceURI := namespaceURI n;
     nodeValue := nodeValue n; attrs := attrs n; parentNode := parentNode n;
     childNodes := childNodes n; value := v; checked := checked n;
     selected := selected n; disabled := disabled n;
     selectedIndex := selectedIndex n; placeholder := placeholder n;
     assigned := assigned n |}.

Definition set_selectedIndex (i : Z) (n : dnode) : dnode :=
  {| nodeType := nodeType n; nodeName := nodeName n; namespaceURI := namespaceURI n;
     nodeValue := nodeValue n; attrs := attrs n; parentNode := parentNode n;
     childNodes := childNodes n; value := value n; checked := checked n;
     selected := selected n; disabled := disabled n;
     selectedIndex := i; placeholder := placeholder n;
     assigned := assigned n |}.

Definition set_assigned (name : string) (v : attrval) (n : dnode) : dnode :=
  {| nodeType := nodeType n; nodeName := nodeName n; namespaceURI := namespaceURI n;
     nodeValue := nodeValue n; attrs := attrs n; parentNode := parentNode n;
     childNodes := childNodes n; value := value n; checked := checked n;
     selected := selected n; disabled := disabled n;
     selectedIndex := selectedIndex n; placeholder := placeholder n;
     assigned := <[name := v]> (assigned n) |}.

(** [el[name]] and [el[name] = b] for [checked], [selected] and
    [disabled] *)
Definition boolean_property (name : string) (n : dnode) : bool :=
  if decide (name = "checked") then checked n
  else if decide (name = "selected") then selected n
  else disabled n.

Definition set_boolean_property (name : string) (b : bool) (n : dnode) : dnode :=
  {| nodeType := nodeType n; nodeName := nodeName n; namespaceURI := namespaceURI n;
     nodeValue := nodeValue n; attrs := attrs n; parentNode := parentNode n;
     childNodes := childNodes n; value := value n;
     checked := if decide (name = "checked") then b else checked n;
     selected := if decide (name = "checked") then selected n
                 else if decide (name = "selected") then b else selected n;
     disabled := if decide (name = "checked") then disabled n
                 else if decide (name = "selected") then disabled n else b;
     selectedIndex := selectedIndex n; placeholder := placeholder n;
     assigned := assigned n |}.

(** *** The calls on the document *)

(** The element after [x] in a list of children. *)
Fixpoint next_in (l : list nat) (x : nat) : option nat :=
  match l with
  | [] => None
  | y :: rest => if decide (y = x) then head rest else next_in rest x
  end.

(** [l] with [x] put before [reference] (at the end without one). *)
Fixpoint put_before (reference : option nat) (x : nat) (l : list nat) : list nat :=
  match reference, l with
  | None, _ => (l ++ [x])%list
  | Some r, [] => [x]
  | Some r, y :: rest =>
      if decide (y = r) then x :: y :: rest else y :: put_before reference x rest
  end.

(** [node.nextSibling] *)
Definition dom_nextSibling (x : nat) : M (option nat) :=
  n ← node x;
  match parentNode n with
  | None => mret None
  | Some p => pn ← node p; mret (next_in (childNodes pn) x)
  end.

(** [node.firstChild] *)
Definition dom_firstChild (x : nat) : M (option nat) :=
  n ← node x; mret (head (childNodes n)).

(** The node leaves its parent, if it has one. *)
Definition unlink (x : nat) : M unit :=
  n ← node x;
  match parentNode n with
  | None => mret ()
  | Some p =>
      update_node p (λ pn, set_childNodes (filter (λ y, y ≠ x) (childNodes pn)) pn);;
      update_node x (set_parentNode None)
  end.

(** [parent.insertBefore(node, reference)].  A reference that is not a
    child of the parent is a NotFoundError; a node given as its own
    reference is put before its next sibling.  (The document is a tree:
    a node is never put into its own subtree.) *)
Definition dom_insertBefore (x : nat) (reference : option nat) (parent : nat) : M unit :=
  pn ← node parent;
  _ ← node x;
  (match reference with
   | Some r =>
       if bool_decide (r ∈ childNodes pn) then mret ()
       else raise (ErrorObject "NotFoundError" "")
   | None => mret ()
   end);;
  reference' ← (match reference with
                | Some r => if decide (r = x) then dom_nextSibling x else mret reference
                | None => mret None
                end);
  unlink x;;
  update_node parent (λ pn, set_childNodes (put_before reference' x (childNodes pn)) pn);;
  update_node x (set_parentNode (Some parent));;
  record (InsertedBefore x reference parent).

(** [el.setAttributeNS(ns, name, text)]; [ns] is empty for
    [el.setAttribute(name, text)]. *)
Definition setAttribute (el : nat) (ns name text : string) : M unit :=
  _ ← node el;
  update_node el (λ n, set_attrs (<[(ns, name) := text]> (attrs n)) n);;
  record (AttributeSet el ns name text).

(** [el.removeAttributeNS(ns, name)]: nothing happens when the element
    has no such attribute. *)
Definition removeAttribute (el : nat) (ns name : string) : M unit :=
  n ← node el;
  match attrs n !! (ns, name) with
  | None => mret ()
  | Some _ =>
      update_node el (λ n, set_attrs (delete (ns, name) (attrs n)) n);;
      record (AttributeRemoved el ns name)
  end.

(** [el[name] = v] for a property of a custom element *)
Definition assign_property (el : nat) (name : string) (v : attrval) : M unit :=
  _ ← node el;
  update_node el (set_assigned name v);;
  record (PropertySet el name v).

(** [el.className = v] and [el.id = v]: the property reflects the
    attribute [class] (or [id]), which becomes [String(v)]. *)
Definition assign_reflected (el : nat) (property attribute : string) (v : attrval)
  : M unit :=
  _ ← node el;
  update_node el (λ n, set_attrs (<[("", attribute) := to_string v]> (attrs n)) n);;
  record (PropertySet el property v).

(** [el.style.cssText = v]: the browser parses the text and writes the
    attribute [style] in its own form.  Not followed. *)
Definition assign_cssText (el : nat) (v : attrval) : M unit :=
  _ ← node el;
  outside "the style declarations of an element".

(** *** morphdom/helpers

    The helpers look through the boundary markers of real fragments
    ([node.insertInto], [referenceNode.startNode], [next.fragment]).  The
    nodes of the store are nodes of the document and no markers, so
    these members are undefined and each helper is the plain DOM call. *)

Definition insertBefore (x : nat) (referenceNode : option nat) (parentNode : nat)
  : M unit :=
  dom_insertBefore x referenceNode parentNode.

Definition insertAfter (x : nat) (referenceNode : option nat) (parentNode : nat)
  : M unit :=
  (* referenceNode && referenceNode.nextSibling *)
  r ← (match referenceNode with
       | Some y => dom_nextSibling y
       | None => mret None
       end);
  insertBefore x r parentNode.

Definition nextSibling (x : nat) : M (option nat) := dom_nextSibling x.

Definition firstChild (x : nat) : M (option nat) := dom_firstChild x.

(** [node.remove()] *)
Definition removeChild (x : nat) : M unit :=
  n ← node x;
  match parentNode n with
  | None => mret ()
  | Some _ => unlink x;; record (Removed x)
  end.

(** *** VElement.___morphAttrs and VElement.prototype.___actualize *)

Fixpoint for_each {A : Type} (l : list A) (f : A → M unit) : M unit :=
  match l with
  | [] => mret ()
  | x :: rest => f x;; for_each rest f
  end.

(** Names found on [Object.prototype] are not followed. *)
Definition plain_name (name : string) : M unit :=
  if bool_decide (name ∈ JsObject.prototype_names)
  then outside "a name of Object.prototype" else mret ().

Definition plain_names (a : attributes) : M unit :=
  for_each (a_own a) (λ kv, plain_name kv.1).

(** [assign(el, attrs)]: every own property is assigned to the element. *)
Definition assign (el : nat) (a : attributes) : M unit :=
  for_each (a_own a) (λ kv, assign_property el kv.1 kv.2).

Definition has_flag (flags flag : N) : bool := negb (N.land flags flag =? 0)%N.

Definition ATTR_XLINK_HREF : string := "xlink:href".
Definition ATTR_HREF : string := "href".

(** [VElement.___removePreservedAttributes]: as loaded here (no template
    with [no-update] attributes replaces it) it returns the map. *)
Definition removePreservedAttributes (a : attributes) : attributes := a.

Definition morphAttrs (fromEl : nat) (vFromEl toEl : velement) : M unit :=
  plain_names (___attributes toEl);;
  plain_names (___attributes vFromEl);;
  let fromFlags := ___flags vFromEl in
  let toFlags := ___flags toEl in
  (* vElementByDOMNode.set(fromEl, toEl); *)
  update_data fromEl (set_d_vElement (Some toEl));;
  let attrs := ___attributes toEl in
  if has_flag toFlags FLAG_CUSTOM_ELEMENT then assign fromEl attrs
  else
    let oldAttrs := ___attributes vFromEl in
    if bool_decide (a_ref oldAttrs = a_ref attrs) then
      (* the same object: a constant attribute map *)
      mret ()
    else
    let oldAttrs := removePreservedAttributes oldAttrs in
    if has_flag toFlags FLAG_SIMPLE_ATTRS && has_flag fromFlags FLAG_SIMPLE_ATTRS then
      (if strict_eq (attr oldAttrs "class") (attr attrs "class") then mret ()
       else assign_reflected fromEl "className" "class" (attr attrs "class"));;
      (if strict_eq (attr oldAttrs "id") (attr attrs "id") then mret ()
       else assign_reflected fromEl "id" "id" (attr attrs "id"));;
      (if strict_eq (attr oldAttrs "style") (attr attrs "style") then mret ()
       else assign_cssText fromEl (attr attrs "style"))
    else
      let attrs := removePreservedAttributes attrs in
      for_each (a_own attrs) (λ kv,
        let attrValue := kv.2 in
        let '(namespaceURI, attrName) :=
          if bool_decide (kv.1 = ATTR_XLINK_HREF) then (NS_XLINK, ATTR_HREF)
          else ("", kv.1) in
        if null_or_false attrValue then removeAttribute fromEl namespaceURI attrName
        else if strict_eq (attr oldAttrs attrName) attrValue then mret ()
        else setAttribute fromEl namespaceURI attrName (attr_text attrValue));;
      (* the attributes that are gone, for an element whose key is null *)
      if bool_decide (___key toEl = KNull) then
        for_each (a_own oldAttrs) (λ kv,
          if has_attr attrs kv.1 then mret ()
          else if bool_decide (kv.1 = ATTR_XLINK_HREF)
               then removeAttribute fromEl ATTR_XLINK_HREF ATTR_HREF
               else removeAttribute fromEl "" kv.1)
      else mret ().

(** A node the document makes: no parent, no children, the properties
    of a form control not set. *)
Definition new_dnode (type : Z) (name ns : string) (text : option string) : dnode :=
  {| nodeType := type; nodeName := name; namespaceURI := ns; nodeValue := text;
     attrs := ∅; parentNode := None; childNodes := []; value := "";
     checked := false; selected := false; disabled := false;
     selectedIndex := (-1); placeholder := ""; assigned := ∅ |}.

Definition create (n : dnode) : M nat :=
  λ w, let x := next_node w in
       (Done x,
        {| nodes := <[x := n]> (nodes w); next_node := S x; data := data w;
           keyedElements := keyedElements w; keySequences := keySequences w;
           detachedNodes := detachedNodes w;
           mutations := (mutations w ++ [Created x])%list;
           isHydrate := isHydrate w |}).

(** [vNode.___actualize(doc, parentNamespaceURI)] *)
Definition ___actualize (vNode : vnode) (parentNamespaceURI : string) : M nat :=
  match vNode with
  | VElement this _ =>
      let tagName := ___nodeName this in
      plain_name tagName;;
      plain_names (___attributes this);;
      (* DEFAULT_NS[tagName] || parentNamespaceURI || NS_HTML *)
      let namespaceURI :=
        if bool_decide (tagName = "svg") then NS_SVG
        else if bool_decide (tagName = "math") then NS_MATH
        else if bool_decide (parentNamespaceURI = "") then NS_HTML
        else parentNamespaceURI in
      el ← create (new_dnode ELEMENT_NODE tagName namespaceURI None);
      (if has_flag (___flags this) FLAG_CUSTOM_ELEMENT then
         assign el (___attributes this)
       else
         for_each (a_own (___attributes this)) (λ kv,
           if null_or_false kv.2 then mret ()
           else if bool_decide (kv.1 = ATTR_XLINK_HREF)
                then setAttribute el NS_XLINK ATTR_HREF (attr_text kv.2)
                else setAttribute el "" kv.1 (attr_text kv.2));;
         if bool_decide (tagName = "textarea") then
           update_node el (set_value (___value this));;
           record (PropertySet el "value" (AString (___value this)))
         else mret ());;
      update_data el (set_d_vElement (Some this));;
      mret el
  | VText text _ => create (new_dnode TEXT_NODE "#text" "" (Some text))
  | VComment text _ => create (new_dnode COMMENT_NODE "#comment" "" (Some text))
  | VFragment _ _ => outside "a fragment"
  | VComponent _ _ _ => outside "a component"
  end.

(** *** morphdom/specialElHandlers *)

(** Whether [x] is an element with the tag name [name] (the name it was
    created with). *)
Definition is_element (nodes : gmap nat dnode) (name : string) (x : nat) : bool :=
  match nodes !! x with
  | Some n => bool_decide (nodeType n = ELEMENT_NODE) && bool_decide (nodeName n = name)
  | None => false
  end.

(** The list of options of a select: its [option] children and the
    [option] children of its [optgroup] children, in tree order. *)
Definition list_of_options (nodes : gmap nat dnode) (n : dnode) : list nat :=
  concat ((λ c,
    if is_element nodes "option" c then [c]
    else if is_element nodes "optgroup" c then
      filter (λ x, is_element nodes "option" x = true)
        (default [] (childNodes <$> nodes !! c))
    else []) <$> childNodes n).

(** Every option of the list is deselected, then the option at [i], if
    there is one, is selected. *)
Definition select_only (options : list nat) (i : Z) (nodes : gmap nat dnode)
  : gmap nat dnode :=
  let nodes :=
    foldr (λ x, alter (set_boolean_property "selected" false) x) nodes options in
  match (if (0 <=? i)%Z then options !! Z.to_nat i else None) with
  | Some x => alter (set_boolean_property "selected" true) x nodes
  | None => nodes
  end.

(** [select.selectedIndex = i]: the option at [i] of the list of
    options becomes the only selected one, and the property reads [i]
    afterwards; where the list has no option at [i], none is selected
    and the property reads -1. *)
Definition assign_selectedIndex (el : nat) (i : Z) : M unit :=
  n ← node el;
  w ← get_world;
  let options := list_of_options (nodes w) n in
  modify (set_nodes (select_only options i));;
  update_node el
    (set_selectedIndex
       (if (0 <=? i)%Z && bool_decide (is_Some (options !! Z.to_nat i)) then i
        else (-1)%Z));;
  record (PropertySet el "selectedIndex" (ANumber i)).

(** The select an option belongs to: its parent, or the parent of its
    parent [optgroup]. *)
Definition select_of (nodes : gmap nat dnode) (n : dnode) : option dnode :=
  match parentNode n with
  | None => None
  | Some p =>
      if is_element nodes "select" p then nodes !! p
      else if is_element nodes "optgroup" p then
        match nodes !! p ≫= parentNode with
        | Some g => if is_element nodes "select" g then nodes !! g else None
        | None => None
        end
      else None
  end.

(** [el[name] = b] for [checked], [selected] and [disabled].  For the
    options of a select without the attribute [multiple] the browser
    keeps the selection (one option at most, and one at least where one
    line is shown): what an assignment to [selected] of such an option
    does is not followed. *)
Definition assign_boolean_property (el : nat) (name : string) (b : bool) : M unit :=
  n ← node el;
  w ← get_world;
  if bool_decide (name = "selected")
     && match select_of (nodes w) n with
        | Some s => negb (bool_decide (is_Some (attrs s !! ("", "multiple"))))
        | None => false
        end
  then outside "the selection of a select"
  else
    update_node el (set_boolean_property name b);;
    record (PropertySet el name (ABoolean b)).

Definition syncBooleanAttrProp (fromEl : nat) (toEl : velement) (name : string)
  : M unit :=
  n ← node fromEl;
  let b := v_boolean toEl name in
  if bool_decide (boolean_property name n = b) then mret ()
  else
    assign_boolean_property fromEl name b;;
    (* if (fromEl[name]) *)
    n ← node fromEl;
    if boolean_property name n then setAttribute fromEl "" name ""
    else removeAttribute fromEl "" name.

(** [forEachOption(el, fn, i)] with the callback of the [select]
    handler: the running index and the index of the last option that
    has the attribute [selected].  A node without [___nodeName "option"]
    is searched for options. *)
Fixpoint option_scan (v : vnode) (i selected : Z) : Z * Z :=
  let scan_children :=
    fix go (cs : list vnode) (i selected : Z) : Z * Z :=
      match cs with
      | [] => (i, selected)
      | c :: rest => let '(i, selected) := option_scan c i selected in go rest i selected
      end in
  match v with
  | VElement el children =>
      if bool_decide (___nodeName el = "option") then
        let i := (i + 1)%Z in
        (i, if ___hasAttribute el "selected" then i else selected)
      else scan_children children i selected
  | VText _ _ | VComment _ _ => (i, selected)
  | VFragment _ children | VComponent _ _ children => scan_children children i selected
  end.

Fixpoint options_scan (cs : list vnode) (i selected : Z) : Z * Z :=
  match cs with
  | [] => (i, selected)
  | c :: rest => let '(i, selected) := option_scan c i selected in options_scan rest i selected
  end.

Definition special_option (fromEl : nat) (toEl : velement) : M unit :=
  syncBooleanAttrProp fromEl toEl "selected".

Definition special_button (fromEl : nat) (toEl : velement) : M unit :=
  syncBooleanAttrProp fromEl toEl "disabled".

Definition special_input (fromEl : nat) (toEl : velement) : M unit :=
  syncBooleanAttrProp fromEl toEl "checked";;
  syncBooleanAttrProp fromEl toEl "disabled";;
  n ← node fromEl;
  (if bool_decide (value n = ___value toEl) then mret ()
   else update_node fromEl (set_value (___value toEl));;
        record (PropertySet fromEl "value" (AString (___value toEl))));;
  n ← node fromEl;
  if bool_decide (is_Some (attrs n !! ("", "value"))) && negb (___hasAttribute toEl "value")
  then removeAttribute fromEl "" "value" else mret ().

Definition special_textarea (fromEl : nat) (toEl : velement) : M unit :=
  if ___preserveTextAreaValue toEl then mret ()
  else
    let newValue := ___value toEl in
    n ← node fromEl;
    (if bool_decide (value n = newValue) then mret ()
     else update_node fromEl (set_value newValue);;
          record (PropertySet fromEl "value" (AString newValue)));;
    first ← dom_firstChild fromEl;
    match first with
    | None => mret ()
    | Some c =>
        cn ← node c;
        n ← node fromEl;
        let oldValue := nodeValue cn in
        if bool_decide (oldValue = Some newValue)
           || (bool_decide (newValue = "") && bool_decide (oldValue = Some (placeholder n)))
        then mret ()
        else
          (* firstChild.nodeValue = newValue: without effect on an element *)
          match oldValue with
          | None => mret ()
          | Some _ =>
              update_node c (set_nodeValue (Some newValue));;
              record (NodeValueSet c newValue)
          end
    end.

Definition special_select (fromEl : nat) (toEl : velement) (toChildren : list vnode)
  : M unit :=
  if ___hasAttribute toEl "multiple" then mret ()
  else
    let selected := (options_scan toChildren (-1) 0).2 in
    n ← node fromEl;
    if bool_decide (selectedIndex n = selected) then mret ()
    else assign_selectedIndex fromEl selected.

(** [specialElHandlers[nodeName]], called if there is one *)
Definition specialElHandler (nodeName : string) (fromEl : nat) (toEl : velement)
    (toChildren : list vnode) : M unit :=
  plain_name nodeName;;
  if bool_decide (nodeName = "option") then special_option fromEl toEl
  else if bool_decide (nodeName = "button") then special_button fromEl toEl
  else if bool_decide (nodeName = "input") then special_input fromEl toEl
  else if bool_decide (nodeName = "textarea") then special_textarea fromEl toEl
  else if bool_decide (nodeName = "select") then special_select fromEl toEl toChildren
  else mret ().

(** *** components/util: destroyNodeRecursive *)

(** [isAutoKey(key)]: the key does not start with [@]. *)
Definition isAutoKey (key : string) : bool :=
  match key with
  | String c _ => negb (bool_decide (c = "@"%char))
  | EmptyString => true
  end.

(** [component.___keyedElements[key]], for a key that
    [Object.prototype] does not have *)
Definition keyed (component key : string) : M (option nat) :=
  plain_name key;;
  w ← get_world;
  mret (default ∅ (keyedElements w !! component) !! key).

(** [component.___keyedElements[key] = node] *)
Definition set_keyed (component key : string) (x : nat) : M unit :=
  plain_name key;;
  modify (set_keyedElements (λ ke,
    <[component := <[key := x]> (default ∅ (ke !! component))]> ke)).

(** [delete component.___keyedElements[key]] *)
Definition delete_keyed (component key : string) : M unit :=
  modify (set_keyedElements (λ ke,
    <[component := delete key (default ∅ (ke !! component))]> ke)).

(** [destroyNodeRecursive(node, component)]; [component] is [None] for a
    falsy argument. *)
Fixpoint destroyNodeRecursive (fuel : nat) (x : nat) (component : option string)
  : M unit :=
  match fuel with
  | O => no_fuel
  | S fuel =>
      (* destroyComponentForNode(node) *)
      d ← get_data x;
      match d_component d with
      | Some _ => outside "the root of a component"
      | None =>
          n ← node x;
          if bool_decide (nodeType n = ELEMENT_NODE) || bool_decide (nodeType n = FRAGMENT_NODE)
          then
            (match component, d_key d with
             | Some c, Some key =>
                 if bool_decide (key = "") then mret ()
                 else
                   m ← keyed c key;
                   if bool_decide (m = Some x) then delete_keyed c key else mret ()
             | _, _ => mret ()
             end);;
            for_each (childNodes n) (λ curChild, destroyNodeRecursive fuel curChild component)
          else mret ()
      end
  end.

(** *** morphdom *)

(** [c.id], [c.___keyedElements]: a TypeError when there is no
    component. *)
Definition the_component (c : option string) : M string :=
  match c with
  | Some id => plain_name id;; mret id
  | None => raise TypeError
  end.

(** [k === stored] for the key of a virtual node and what
    [___keyByDOMNode] has ([None]: undefined). *)
Definition key_is (k : jskey) (stored : option string) : bool :=
  match k, stored with
  | KUndefined, None => true
  | KString s, Some s' => bool_decide (s = s')
  | _, _ => false
  end.

Definition v___ownerComponent (v : vnode) : option string :=
  match v with
  | VElement el _ => ___ownerComponent el
  | VText _ owner | VComment _ owner => owner
  | VFragment _ _ | VComponent _ _ _ => None
  end.

(** [detachNode(node, parentNode, ownerComponent)] *)
Definition detachNode (fuel : nat) (x : nat) (ownerComponent : option string)
  : M unit :=
  n ← node x;
  if bool_decide (nodeType n = ELEMENT_NODE) || bool_decide (nodeType n = FRAGMENT_NODE)
  then
    modify (λ w, set_detachedNodes (detachedNodes w ++ [x])%list w);;
    (* detachedByDOMNode.set(node, ownerComponent || true) *)
    update_data x (set_d_detached (Some ownerComponent))
  else
    destroyNodeRecursive fuel x None;;
    removeChild x.

(** How the scan of the real children for an unkeyed virtual node
    finds the node at the cursor. *)
Inductive verdict : Type :=
| Compatible
| Incompatible
| NotOurs.

Section reconciler.

(** The reconciler of the children one level down. *)
Variable morphChildren : nat → list vnode → option string → M unit.

Definition morphEl (fromEl : nat) (vFromEl toEl : velement) (toChildren : list vnode)
    (toElKey : option string) (ownerComponent parentComponent : option string)
  : M unit :=
  let nodeName := ___nodeName toEl in
  w ← get_world;
  (match isHydrate w, toElKey with
   | true, Some key =>
       referenceComponent ←
         the_component (if isAutoKey key then parentComponent else ownerComponent);
       set_keyed referenceComponent key fromEl
   | _, _ => mret ()
   end);;
  let constId := ___constId toEl in
  if match constId with
     | Some c => bool_decide (___constId vFromEl = Some c)
     | None => false
     end
  then mret ()
  else
    morphAttrs fromEl vFromEl toEl;;
    (if bool_decide (nodeName = "textarea") then mret ()
     else morphChildren fromEl toChildren parentComponent);;
    specialElHandler nodeName fromEl toEl toChildren.

(** [key] is [None] for a falsy key.  [onNodeAdded] does nothing: the
    event delegation of this build attaches no handler to a node. *)
Definition insertVirtualNodeBefore (vNode : vnode) (key : option string)
    (referenceEl : option nat) (parentEl : nat)
    (ownerComponent parentComponent : option string) : M unit :=
  pn ← node parentEl;
  realNode ← ___actualize vNode (namespaceURI pn);
  insertBefore realNode referenceEl parentEl;;
  match vNode with
  | VElement _ children =>
      (match key with
       | Some key =>
           update_data realNode (set_d_key (Some key));;
           c ← the_component (if isAutoKey key then parentComponent else ownerComponent);
           set_keyed c key realNode
       | None => mret ()
       end);;
      morphChildren realNode children parentComponent
  | _ => mret ()
  end.

(** One turn of the outer loop for a virtual element with a truthy key;
    the result is the new [fromNextSibling], which becomes the cursor. *)
Definition keyed_step (fuel : nat) (fromNode : nat) (parentComponent : option string)
    (toEl : velement) (toChildren : list vnode) (toNextSibling : option vnode)
    (ownerComponent : option string) (curToNodeKey : string)
    (curFromNodeChild fromNextSibling : option nat) : M (option nat) :=
  let curToNodeChild := VElement toEl toChildren in
  let '(curToNodeKey, referenceComponent) :=
    if isAutoKey curToNodeKey then
      (if bool_decide (ownerComponent = parentComponent) then curToNodeKey
       else curToNodeKey +:+ ":" +:+ default "" ownerComponent,
       parentComponent)
    else (curToNodeKey, ownerComponent) in
  referenceComponent ← the_component referenceComponent;
  w ← get_world;
  let '(curToNodeKey, keySequences) :=
    KeySequence.next_in_pass referenceComponent curToNodeKey (keySequences w) in
  modify (set_keySequences keySequences);;
  '(curFromNodeKey, curVFromNodeChild, fromNextSibling) ←
    (match curFromNodeChild with
     | Some c =>
         d ← get_data c;
         next ← nextSibling c;
         mret (d_key d, d_vElement d, next)
     | None => mret (None, None, fromNextSibling)
     end);
  if bool_decide (curFromNodeKey = Some curToNodeKey) then
    (* the elements line up *)
    match curFromNodeChild, curVFromNodeChild with
    | Some c, Some vFrom =>
        (if bool_decide (___nodeName toEl = ___nodeName vFrom) then
           morphEl c vFrom toEl toChildren (Some curToNodeKey) ownerComponent
             parentComponent
         else
           detachNode fuel c ownerComponent;;
           insertVirtualNodeBefore curToNodeChild (Some curToNodeKey) curFromNodeChild
             fromNode ownerComponent parentComponent);;
        mret fromNextSibling
    | _, _ => raise TypeError
    end
  else
    matchingFromEl ← keyed referenceComponent curToNodeKey;
    match matchingFromEl with
    | None =>
        if isHydrate w && bool_decide (is_Some curFromNodeChild) then
          outside "hydrating"
        else
          insertVirtualNodeBefore curToNodeChild (Some curToNodeKey) curFromNodeChild
            fromNode ownerComponent parentComponent;;
          mret curFromNodeChild
    | Some matchingFromEl =>
        mn ← node matchingFromEl;
        if bool_decide (nodeType mn = FRAGMENT_NODE) then outside "a fragment"
        else
        d ← get_data matchingFromEl;
        (match d_detached d with
         | Some _ => update_data matchingFromEl (set_d_detached None)
         | None => mret ()
         end);;
        match d_vElement d with
        | None => raise TypeError
        | Some vFrom =>
            if bool_decide (___nodeName vFrom = ___nodeName toEl) then
              fromNextSibling ←
                (if bool_decide (fromNextSibling = Some matchingFromEl) then
                   if match toNextSibling with
                      | Some t => key_is (v___key t) curFromNodeKey
                      | None => false
                      end
                   then
                     (* single element swap *)
                     insertBefore matchingFromEl curFromNodeChild fromNode;;
                     mret curFromNodeChild
                   else
                     (* single element removal *)
                     next ← nextSibling matchingFromEl;
                     (match curFromNodeChild with
                      | Some c => detachNode fuel c ownerComponent
                      | None => mret ()
                      end);;
                     mret next
                 else
                   insertAfter matchingFromEl curFromNodeChild fromNode;;
                   (match curFromNodeChild with
                    | Some c => detachNode fuel c ownerComponent
                    | None => mret ()
                    end);;
                   mret fromNextSibling);
              morphEl matchingFromEl vFrom toEl toChildren (Some curToNodeKey)
                ownerComponent parentComponent;;
              mret fromNextSibling
            else
              insertVirtualNodeBefore curToNodeChild (Some curToNodeKey)
                curFromNodeChild fromNode ownerComponent parentComponent;;
              detachNode fuel matchingFromEl ownerComponent;;
              mret fromNextSibling
        end
    end.

(** The real node at the cursor against an unkeyed virtual node. *)
Definition compare_unkeyed (c : nat) (curToNodeChild : vnode)
    (ownerComponent parentComponent : option string) : M verdict :=
  d ← get_data c;
  n ← node c;
  if bool_decide (nodeType n = v___nodeType curToNodeChild) then
    match curToNodeChild with
    | VElement toEl toChildren =>
        match d_vElement d with
        | None =>
            w ← get_world;
            if isHydrate w then outside "hydrating" else mret NotOurs
        | Some vFrom =>
            if bool_decide (is_Some (truthy_key (___key vFrom))) then mret Incompatible
            else if bool_decide (___nodeName vFrom = ___nodeName toEl) then
              morphEl c vFrom toEl toChildren None ownerComponent parentComponent;;
              mret Compatible
            else mret Incompatible
        end
    | VText text _ | VComment text _ =>
        (if bool_decide (nodeValue n = Some text) then mret ()
         else update_node c (set_nodeValue (Some text));;
              record (NodeValueSet c text));;
        mret Compatible
    | _ => mret Incompatible
    end
  else mret Incompatible.

(** The inner loop: whether a compatible node was found, and
    [fromNextSibling]. *)
Fixpoint scan (fuel : nat) (curToNodeChild : vnode)
    (ownerComponent parentComponent : option string)
    (curFromNodeChild fromNextSibling : option nat) : M (bool * option nat) :=
  match curFromNodeChild with
  | None => mret (false, fromNextSibling)
  | Some c =>
      match fuel with
      | O => no_fuel
      | S fuel =>
          fromNextSibling ← nextSibling c;
          d ← get_data c;
          match d_component d with
          | Some _ => outside "the root of a component"
          | None =>
              v ← compare_unkeyed c curToNodeChild ownerComponent parentComponent;
              match v with
              | Compatible => mret (true, fromNextSibling)
              | Incompatible =>
                  detachNode fuel c ownerComponent;;
                  scan fuel curToNodeChild ownerComponent parentComponent
                    fromNextSibling fromNextSibling
              | NotOurs =>
                  scan fuel curToNodeChild ownerComponent parentComponent
                    fromNextSibling fromNextSibling
              end
          end
      end
  end.

(** The outer loop over the virtual children; the result is the cursor
    when they are used up. *)
Fixpoint outer (fuel : nat) (fromNode : nat) (parentComponent : option string)
    (toChildren : list vnode) (curFromNodeChild fromNextSibling : option nat)
  : M (option nat) :=
  match toChildren with
  | [] => mret curFromNodeChild
  | curToNodeChild :: rest =>
      let toNextSibling := head rest in
      (* skip <!doctype> *)
      curFromNodeChild ←
        (match curFromNodeChild with
         | Some c =>
             n ← node c;
             if bool_decide (nodeType n = DOCTYPE_NODE) then nextSibling c
             else mret curFromNodeChild
         | None => mret None
         end);
      let ownerComponent :=
        match v___ownerComponent curToNodeChild with
        | Some o => Some o
        | None => parentComponent
        end in
      match curToNodeChild with
      | VComponent _ _ _ => outside "a component"
      | VFragment _ _ => outside "a fragment"
      | VElement toEl toChildren =>
          match truthy_key (___key toEl) with
          | Some key =>
              next ← keyed_step fuel fromNode parentComponent toEl toChildren
                       toNextSibling ownerComponent key curFromNodeChild fromNextSibling;
              outer fuel fromNode parentComponent rest next next
          | None =>
              r ← scan fuel curToNodeChild ownerComponent parentComponent
                     curFromNodeChild fromNextSibling;
              (if r.1 : bool then mret ()
               else insertVirtualNodeBefore curToNodeChild None None fromNode
                      ownerComponent parentComponent);;
              outer fuel fromNode parentComponent rest r.2 r.2
          end
      | VText _ _ | VComment _ _ =>
          r ← scan fuel curToNodeChild ownerComponent parentComponent
                 curFromNodeChild fromNextSibling;
          (if r.1 : bool then mret ()
           else insertVirtualNodeBefore curToNodeChild None None fromNode
                  ownerComponent parentComponent);;
          outer fuel fromNode parentComponent rest r.2 r.2
      end
  end.

(** The real children left when the virtual ones are used up. *)
Fixpoint leftover (fuel : nat) (fromNode : nat) (parentComponent : option string)
    (curFromNodeChild : option nat) : M unit :=
  match curFromNodeChild with
  | None => mret ()
  | Some c =>
      match fuel with
      | O => no_fuel
      | S fuel =>
          fromNextSibling ← nextSibling c;
          d ← get_data c;
          match d_component d with
          | Some _ => outside "the root of a component"
          | None =>
              dp ← get_data fromNode;
              (* isAutoKey(undefined) holds *)
              let referenceComponent :=
                if default true (isAutoKey <$> d_key dp) then parentComponent
                else d_vElement d ≫= ___ownerComponent in
              detachNode fuel c referenceComponent;;
              leftover fuel fromNode parentComponent fromNextSibling
          end
      end
  end.

Definition morphChildren_body (fuel : nat) (fromNode : nat) (toChildren : list vnode)
    (parentComponent : option string) : M unit :=
  first ← firstChild fromNode;
  cur ← outer fuel fromNode parentComponent toChildren first None;
  n ← node fromNode;
  if bool_decide (nodeType n = FRAGMENT_NODE) then outside "a fragment"
  else leftover fuel fromNode parentComponent cur.

End reconciler.

(** [morphChildren(fromNode, toNode, parentComponent)], with the
    children of [toNode].  The fuel bounds the depth of the virtual tree
    and the turns of each loop over real nodes. *)
Fixpoint morphChildren (fuel : nat) (fromNode : nat) (toChildren : list vnode)
    (parentComponent : option string) : M unit :=
  match fuel with
  | O => no_fuel
  | S fuel => morphChildren_body (morphChildren fuel) fuel fromNode toChildren parentComponent
  end.

(** [morphdom(fromNode, toNode, doc, componentsContext)]: the pass
    starts with no key sequence and no detached node; [component] is
    [toNode.___component]. *)
Definition morphdom (fuel : nat) (fromNode : nat) (toChildren : list vnode)
    (component : option string) (hydrate : bool) : M unit :=
  modify (λ w,
    {| nodes := nodes w; next_node := next_node w; data := data w;
       keyedElements := keyedElements w; keySequences := ∅;
       detachedNodes := []; mutations := mutations w; isHydrate := hydrate |});;
  morphChildren fuel fromNode toChildren component;;
  w ← get_world;
  for_each (detachedNodes w) (λ x,
    d ← get_data x;
    match d_detached d with
    | None => mret ()
    | Some detachedFromComponent =>
        update_data x (set_d_detached None);;
        match d_component d with
        | Some _ => outside "the root of a component"
        | None =>
            n ← node x;
            match parentNode n with
            | None => mret ()
            | Some _ =>
                destroyNodeRecursive fuel x detachedFromComponent;;
                removeChild x
            end
        end
    end).

End Morph.
(** ** events-light: the other ways to attach and to remove *)
Module EmitterCalls.
Import Emitter.

(** [prependListener(type, listener)]:
    [addListener(eventEmitter, type, listener, true)] *)
Definition prependListener (type : string) (l : listener) (events : t) : t :=
  match events !! type with
  | Some (One l0) => <[type := Many [l; l0]]> events
  | Some (Many ls) => <[type := Many (l :: ls)]> events
  | None => <[type := One l]> events
  end.

(** [removeAllListeners(type)]: [delete events[type]] *)
Definition removeAllListeners (type : string) (events : t) : t := delete type events.

(** [new EventEmitter()]: [this.$e = {}] *)
Definition new_emitter : t := ∅.

(** The calls a program makes on an emitter to attach and to remove
    listeners. *)
Inductive call : Type :=
| On (type : string) (l : listener)
| PrependListener (type : string) (l : listener)
| RemoveListener (type : string) (l : listener)
| RemoveAllListeners (type : string).

Definition call_type (c : call) : string :=
  match c with
  | On type _ | PrependListener type _ | RemoveListener type _
  | RemoveAllListeners type => type
  end.

Definition apply_call (c : call) (events : t) : t :=
  match c with
  | On type l => on type l events
  | PrependListener type l => prependListener type l events
  | RemoveListener type l => removeListener type l events
  | RemoveAllListeners type => removeAllListeners type events
  end.

(** The calls of the list, first to last. *)
Definition apply_calls (cs : list call) (events : t) : t :=
  fold_left (λ events c, apply_call c events) cs events.

End EmitterCalls.
(** ** State.___replace, the [state] setter, [setState] and
    [checkInputChanged]

    An object given as the new state or as the input holds defined
    values: a property whose value is [undefined] is outside the
    model. *)
Module ComponentCalls.
Import Component.
Section with_values.

Context {V : Type} `{EqDecision V}.



(** The own property names in the order in which the properties were
    added. *)
Fixpoint own_names (o : @obj V) : list string :=
  match o with
  | [] => []
  | (k, _) :: rest => k :: filter (λ k', k' ≠ k) (own_names rest)
  end.

(** The own property names in the order in which [for ... in] and
    [Object.keys] visit them. *)
Definition keys (o : @obj V) : list string := JsObject.for_in id (own_names o).





(** An input object: the object (known by its identity) and its own
    properties. *)
Record input : Type := { i_ref : nat; i_own : @obj V }.

(** What [Object.prototype] has under a name, as a value; [None] for a
    name it does not define. *)
Variable prototype : string → option V.

(** [o[key]], read through the prototype: the own property, else the
    inherited one; [None] is [undefined]. *)
Definition read (o : @obj V) (key : string) : option V :=
  match get o key with
  | Some v => Some v
  | None => prototype key
  end.

(** [checkInputChanged(existingComponent, oldInput, newInput)]; [None]
    is [null] or [undefined]. *)
Definition checkInputChanged (oldInput newInput : option input) : bool :=
  match oldInput, newInput with
  | None, None => false
  | None, Some _ | Some _, None => true
  | Some o, Some n =>
      if decide (i_ref o = i_ref n) then false
      else
        let oldKeys := keys (i_own o) in
        let newKeys := keys (i_own n) in
        if negb (Nat.eqb (length oldKeys) (length newKeys)) then true
        else
          (* oldInput[key] !== newInput[key] *)
          existsb (λ key, negb (bool_decide (read (i_own o) key = read (i_own n) key)))
            oldKeys
  end.

End with_values.
End ComponentCalls.
(** ** runtime/helpers: class-value and style-value

    The values a template gives for a [class] or a [style] attribute.
    Strings are ASCII; numbers are integers; an array has no holes; an
    object is a plain object (no [length] property, no getters) and is
    given by the names [for ... in] visits, in that order. *)
Module Helpers.

Local Unset Elimination Schemes.
Inductive classarg : Type :=
| CNullish                                  (* null, undefined *)
| CBoolean (b : bool)
| CNumber (z : Z)
| CString (s : string)
| CArray (items : list classarg)
| CObject (props : list (string * bool)).   (* each name with the truth of its value *)
Local Set Elimination Schemes.

(** [str.slice(1)] *)
Definition slice1 (str : string) : string :=
  match str with
  | String _ rest => rest
  | EmptyString => ""
  end.

(** [classHelper(arg)]; [None] is [null]. *)
Fixpoint classHelper (arg : classarg) : option string :=
  let str :=
    match arg with
    | CNullish | CBoolean _ | CNumber _ => ""
    | CString s => if bool_decide (s = "") then "" else " " +:+ s
    | CArray items =>
        (fix go (items : list classarg) (str : string) : string :=
           match items with
           | [] => str
           | item :: rest =>
               go rest
                 match classHelper item with
                 | Some value =>
                     if bool_decide (value = "") then str else str +:+ " " +:+ value
                 | None => str
                 end
           end) items ""
    | CObject props =>
        fold_left (λ str p, if p.2 : bool then str +:+ " " +:+ p.1 else str) props ""
    end in
  (* return (str && str.slice(1)) || null; *)
  if bool_decide (str = "") then None
  else if bool_decide (slice1 str = "") then None else Some (slice1 str).

(** The value of a property of a style object. *)
Inductive stylevalue : Type :=
| PNullish
| PBoolean (b : bool)
| PNumber (z : Z)
| PString (s : string).

Local Unset Elimination Schemes.
Inductive stylearg : Type :=
| SNullish
| SBoolean (b : bool)
| SNumber (z : Z)
| SString (s : string)
| SArray (items : list stylearg)
| SObject (props : list (string * stylevalue)).
Local Set Elimination Schemes.

Definition is_upper (c : ascii) : bool :=
  (65 <=? nat_of_ascii c)%nat && (nat_of_ascii c <=? 90)%nat.

Definition lower (c : ascii) : ascii :=
  if is_upper c then ascii_of_nat (nat_of_ascii c + 32) else c.

(** [name.replace(/([A-Z])/g, "-$1").toLowerCase()] *)
Fixpoint dashed (name : string) : string :=
  match name with
  | EmptyString => ""
  | String c rest =>
      if is_upper c then String "-" (String (lower c) (dashed rest))
      else String c (dashed rest)
  end.

(** [next[next.length - 1] !== ";"] is false *)
Fixpoint ends_with_semicolon (s : string) : bool :=
  match s with
  | EmptyString => false
  | String c EmptyString => bool_decide (c = ";"%char)
  | String _ rest => ends_with_semicolon rest
  end.

(** The text a property value contributes:
    [if (typeof value === "number" && value) value += "px"], and then
    its conversion to a string. *)
Definition style_text (value : stylevalue) : option string :=
  match value with
  | PNullish => None
  | PBoolean true => Some "true"
  | PBoolean false => Some "false"
  | PNumber z => Some (if bool_decide (z = 0%Z) then "0" else pretty z +:+ "px")
  | PString s => Some s
  end.

(** [styleHelper(style)]; [None] is [null]. *)
Fixpoint styleHelper (style : stylearg) : option string :=
  match style with
  | SNullish | SBoolean _ | SNumber _ => None
  | SString s => if bool_decide (s = "") then None else Some s
  | SArray items =>
      let styles :=
        (fix go (items : list stylearg) (styles : string) : string :=
           match items with
           | [] => styles
           | item :: rest =>
               go rest
                 match styleHelper item with
                 | Some next =>
                     if bool_decide (next = "") then styles
                     else styles +:+ next +:+ (if ends_with_semicolon next then "" else ";")
                 | None => styles
                 end
           end) items "" in
      if bool_decide (styles = "") then None else Some styles
  | SObject props =>
      let styles :=
        fold_left (λ styles p,
          match style_text p.2 with
          | Some value => styles +:+ dashed p.1 +:+ ":" +:+ value +:+ ";"
          | None => styles
          end) props "" in
      if bool_decide (styles = "") then None else Some styles
  end.

End Helpers.
(** ** runtime/components/update-manager

    Components are named by numbers.  What a component does in its
    [___update()] that concerns the update manager is given as a list
    of actions: it queues components, runs batches and may throw.  The
    callbacks given to [nextTick] are counted; the host runs them
    later. *)
Module UpdateManager.

Local Unset Elimination Schemes.
Inductive action : Type :=
| QueueComponentUpdate (c : nat)       (* updateManager.___queueComponentUpdate(c) *)
| BatchUpdate (func : list action)     (* updateManager.___batchUpdate(func) *)
| Fail (e : jsval).                    (* throw e *)
Local Set Elimination Schemes.

Inductive record : Type :=
| Update (c : nat).                    (* component.___update() entered *)

Record world : Type := {
  updatesScheduled : bool;
  batchStack : list (option (list nat));   (* the ___queue of each batch; None: null *)
  unbatchedQueue : list nat;
  ticks : nat;                             (* nextTick(updateUnbatchedComponents) pending *)
  trace : list record
}.

Definition set_batchStack (f : list (option (list nat)) → list (option (list nat)))
    (w : world) : world :=
  {| updatesScheduled := updatesScheduled w; batchStack := f (batchStack w);
     unbatchedQueue := unbatchedQueue w; ticks := ticks w; trace := trace w |}.

Definition set_unbatchedQueue (q : list nat) (w : world) : world :=
  {| updatesScheduled := updatesScheduled w; batchStack := batchStack w;
     unbatchedQueue := q; ticks := ticks w; trace := trace w |}.

Definition set_updatesScheduled (b : bool) (w : world) : world :=
  {| updatesScheduled := b; batchStack := batchStack w;
     unbatchedQueue := unbatchedQueue w; ticks := ticks w; trace := trace w |}.

Definition log (r : record) (w : world) : world :=
  {| updatesScheduled := updatesScheduled w; batchStack := batchStack w;
     unbatchedQueue := unbatchedQueue w; ticks := ticks w;
     trace := (trace w ++ [r])%list |}.

(** [scheduleUpdates()] *)
Definition scheduleUpdates (w : world) : world :=
  if updatesScheduled w then w
  else {| updatesScheduled := true; batchStack := batchStack w;
          unbatchedQueue := unbatchedQueue w; ticks := S (ticks w); trace := trace w |}.

(** [queueComponentUpdate(component)] *)
Definition queueComponentUpdate (c : nat) (w : world) : world :=
  let batchStackLen := length (batchStack w) in
  if bool_decide (batchStackLen = 0%nat) then
    let w := scheduleUpdates w in
    set_unbatchedQueue (unbatchedQueue w ++ [c])%list w
  else
    (* var batch = batchStack[batchStackLen - 1]; *)
    set_batchStack
      (alter (λ queue, Some (default [] queue ++ [c])%list) (batchStackLen - 1)%nat) w.

(** The array [updateComponents] was given: the queue of the batch at
    a position of the stack, or the unbatched queue. *)
Inductive queue : Type :=
| OfBatch (i : nat)
| Unbatched.

Definition read (q : queue) (w : world) : list nat :=
  match q with
  | OfBatch i => default [] (batchStack w !! i ≫= id)
  | Unbatched => unbatchedQueue w
  end.

(** [queue.length = 0] *)
Definition clear (q : queue) (w : world) : world :=
  match q with
  | OfBatch i => set_batchStack (alter (λ _, Some []) i) w
  | Unbatched => set_unbatchedQueue [] w
  end.

Section with_components.

(** What [component.___update()] does, by component. *)
Variable ___update : nat → list action.

(** The actions of a function body, [updateComponents(queue)] from the
    index [i] on, and [batchUpdate(func)].  The fuel bounds the number
    of steps; a run that uses it up is given up as it stands. *)
Fixpoint run (fuel : nat) (acts : list action) (w : world) {struct fuel}
  : outcome unit * world :=
  match fuel with
  | O => (OutOfFuel, w)
  | S fuel =>
      match acts with
      | [] => (Ok (), w)
      | QueueComponentUpdate c :: rest => run fuel rest (queueComponentUpdate c w)
      | Fail e :: _ => (Throw e, w)
      | BatchUpdate func :: rest =>
          (* var batch = { ___queue: null }; batchStack.push(batch); *)
          let depth := length (batchStack w) in
          let w := set_batchStack (λ s, s ++ [None])%list w in
          (* try { func(); } *)
          match run fuel func w with
          | (OutOfFuel, w) => (OutOfFuel, w)
          | (r1, w) =>
              (* finally { try { if (batch.___queue) updateComponents(batch.___queue); } *)
              match
                match batchStack w !! depth with
                | Some (Some _) => updateComponents fuel (OfBatch depth) 0 w
                | _ => (Ok (), w)
                end
              with
              | (OutOfFuel, w) => (OutOfFuel, w)
              | (r2, w) =>
                  (* finally { batchStack.length--; } } *)
                  let w := set_batchStack (λ s, removelast s) w in
                  match r2, r1 with
                  | Throw e, _ => (Throw e, w)
                  | _, Throw e => (Throw e, w)
                  | _, _ => run fuel rest w
                  end
              end
          end
      end
  end
with updateComponents (fuel : nat) (q : queue) (i : nat) (w : world) {struct fuel}
  : outcome unit * world :=
  match fuel with
  | O => (OutOfFuel, w)
  | S fuel =>
      (* for (var i = 0; i < queue.length; i++) *)
      match read q w !! i with
      | Some component =>
          match run fuel (___update component) (log (Update component) w) with
          | (Ok _, w) => updateComponents fuel q (S i) w
          | other => other
          end
      | None => (Ok (), clear q w)
      end
  end.

(** [batchUpdate(func)] *)
Definition batchUpdate (fuel : nat) (func : list action) (w : world)
  : outcome unit * world :=
  run fuel [BatchUpdate func] w.

(** [updateUnbatchedComponents()], as the host calls it for one
    [nextTick]. *)
Definition updateUnbatchedComponents (fuel : nat) (w : world) : outcome unit * world :=
  let w := {| updatesScheduled := updatesScheduled w; batchStack := batchStack w;
              unbatchedQueue := unbatchedQueue w; ticks := pred (ticks w);
              trace := trace w |} in
  match unbatchedQueue w with
  | [] => (Ok (), w)
  | _ =>
      (* try { updateComponents(unbatchedQueue); } finally { updatesScheduled = false; } *)
      match updateComponents fuel Unbatched 0 w with
      | (OutOfFuel, w) => (OutOfFuel, w)
      | (r, w) => (r, set_updatesScheduled false w)
      end
  end.

End with_components.

(** The update manager when the module is loaded. *)
Definition start : world :=
  {| updatesScheduled := false; batchStack := []; unbatchedQueue := [];
     ticks := 0; trace := [] |}.

End UpdateManager.
(** ** VNode: a run of [___appendChild] calls *)
Section vnode_calls.
Import VNode.

(** The calls [this.___appendChild(child)] for the children of a
    list, first to last; an exception ends the run. *)
Fixpoint append_all (this : nat) (children : list nat) (h : gmap nat node)
  : outcome unit * gmap nat node :=
  match children with
  | [] => (Ok (), h)
  | child :: rest =>
      match ___appendChild this child h with
      | (Ok _, h) => append_all this rest h
      | (Throw e, h) => (Throw e, h)
      | (OutOfFuel, h) => (OutOfFuel, h)
      end
  end.

End vnode_calls.

(** ** JsObject: the order of the own properties *)

Section property_order_facts.
Import JsObject.
Context {A : Type} (name : A → string).

Lemma insert_index_perm (i : N) (x : A) (l : list (N * A)) :
  insert_index i x l ≡ₚ (i, x) :: l.
Proof.
  induction l as [|[j y] rest IH]; simpl; [done|].
  destruct (i <=? j)%N; [done|]. rewrite IH. apply Permutation_swap.
Qed.

Lemma indices_perm (l : list A) :
  (indices name l).*2 ≡ₚ filter (λ x, ¬ array_index (name x) = None) l.
Proof.
  induction l as [|x rest IH]; simpl; [done|].
  destruct (array_index (name x)) as [i|] eqn:E.
  - rewrite insert_index_perm, fmap_cons, filter_cons_True by congruence.
    simpl. by rewrite IH.
  - by rewrite filter_cons_False by (intros H; by apply H).
Qed.

(** Every property is visited, and visited once. *)
Lemma for_in_perm (l : list A) : for_in name l ≡ₚ l.
Proof.
  unfold for_in. rewrite indices_perm, Permutation_app_comm.
  apply (filter_app_complement (λ x, array_index (name x) = None)).
Qed.

Lemma elem_of_for_in (x : A) (l : list A) : x ∈ for_in name l ↔ x ∈ l.
Proof. by rewrite for_in_perm. Qed.

(** Without array indices among the names, the properties are visited
    in the order in which they were added. *)
Lemma for_in_plain (l : list A) :
  Forall (λ x, array_index (name x) = None) l → for_in name l = l.
Proof.
  intros H. unfold for_in.
  assert (indices name l = []) as ->.
  { induction H as [|x rest Hx _ IH]; simpl; [done|]. by rewrite Hx. }
  simpl. induction H as [|x rest Hx _ IH]; [done|].
  by rewrite filter_cons_True, IH.
Qed.

End property_order_facts.

(** * Properties *)

(** ** KeySequence *)

(** What the sequence records for [k] after [c] calls with that key. *)
Definition ks_counter_is (ks : KeySequence.t) (k : string) (c : N) : Prop :=
  match KeySequence.___lookup ks !! k with
  | None => c = 0%N
  | Some v => v = KeySequence.Int c ∧ (0 < c)%N
  end.

(** The number of calls made with [k] in a run of calls. *)
Definition ks_calls_with (k : string) (keys : list string) : N :=
  N.of_nat (length (filter (λ k', k' = k) keys)).

(** What the call that follows [c] earlier calls with [k] returns. *)
Definition ks_resolved (k : string) (c : N) : string :=
  if (c =? 0)%N then k else k +:+ "_" +:+ pretty c.

Lemma ks_call_result k ks c :
  k ≠ "__proto__" → ks_counter_is ks k c →
  (KeySequence.___nextKey k ks).1 = ks_resolved k c.
Proof.
  intros Hk Hc. unfold ks_counter_is in Hc.
  unfold KeySequence.___nextKey, JsObject.get, ks_resolved.
  destruct (KeySequence.___lookup ks !! k) as [v|].
  - destruct Hc as [-> Hpos]. simpl.
    destruct (N.eqb_spec c 0) as [->|_]; [lia | done].
  - subst c. by destruct (bool_decide (k ∈ JsObject.prototype_names)).
Qed.

Lemma ks_call_counter k ks c :
  k ≠ "__proto__" → ks_counter_is ks k c → (c < KeySequence.max_exact)%N →
  ks_counter_is (KeySequence.___nextKey k ks).2 k (c + 1).
Proof.
  intros Hk Hc Hlt. unfold ks_counter_is in *.
  unfold KeySequence.___nextKey, JsObject.get, JsObject.set_primitive.
  rewrite (bool_decide_eq_false_2 (k = "__proto__")) by done.
  destruct (KeySequence.___lookup ks !! k) as [v|].
  - destruct Hc as [-> Hpos]. simpl.
    destruct (N.eqb_spec c 0) as [->|_]; [lia|]. simpl.
    rewrite lookup_insert_eq. split; [|lia].
    destruct (N.ltb_spec c KeySequence.max_exact); [done|lia].
  - subst c. destruct (bool_decide (k ∈ JsObject.prototype_names)); simpl;
      rewrite lookup_insert_eq; (split; [done|lia]).
Qed.

(** A call leaves the counters of the other keys alone. *)
Lemma ks_other_key k k' ks :
  k ≠ k' →
  KeySequence.___lookup (KeySequence.___nextKey k ks).2 !! k'
  = KeySequence.___lookup ks !! k'.
Proof.
  intros Hne. unfold KeySequence.___nextKey, JsObject.set_primitive.
  destruct (KeySequence.falsy _); simpl;
    repeat (case_bool_decide; simpl); by rewrite ?lookup_insert_ne.
Qed.

Lemma ks_counter_after keys : ∀ k ks c,
  k ≠ "__proto__" → ks_counter_is ks k c →
  (c + ks_calls_with k keys ≤ KeySequence.max_exact)%N →
  ks_counter_is (KeySequence.nextKeys keys ks).2 k (c + ks_calls_with k keys).
Proof.
  unfold ks_calls_with.
  induction keys as [|key rest IH]; intros k ks c Hk Hc Hbound.
  - simpl. by rewrite N.add_0_r.
  - simpl. destruct (KeySequence.___nextKey key ks) as [r ks1] eqn:E1.
    destruct (KeySequence.nextKeys rest ks1) as [rs ks2] eqn:E2. simpl.
    assert (ks2 = (KeySequence.nextKeys rest ks1).2) as -> by by rewrite E2.
    assert (ks1 = (KeySequence.___nextKey key ks).2) as Hks1 by by rewrite E1.
    rewrite filter_cons in Hbound |- *. destruct (decide (key = k)) as [->|Hne].
    + simpl in Hbound |- *.
      replace (c + N.of_nat (S (length (filter (λ k', k' = k) rest))))%N
        with ((c + 1) + N.of_nat (length (filter (λ k', k' = k) rest)))%N by lia.
      apply IH; [done| |lia]. rewrite Hks1. apply ks_call_counter; [done..|lia].
    + apply IH; [done| |done]. unfold ks_counter_is.
      rewrite Hks1, ks_other_key by done. exact Hc.
Qed.

(** X20.  Counters of distinct literal keys are independent, and the
    call number [n] with a key other than ["__proto__"] returns the key
    itself for [n = 1] and the key suffixed with [n - 1] afterwards, as
    long as the counter is exact: in a fresh sequence the result of a
    call depends only on how many earlier calls carried the same key. *)
Lemma ks_nth_call_not_proto (before : list string) (k : string) :
  k ≠ "__proto__" →
  (ks_calls_with k before ≤ KeySequence.max_exact)%N →
  (KeySequence.___nextKey k (KeySequence.nextKeys before KeySequence.create).2).1
  = ks_resolved k (ks_calls_with k before).
Proof.
  intros Hk Hbound. apply ks_call_result; [done|].
  replace (ks_calls_with k before) with (0 + ks_calls_with k before)%N by lia.
  apply ks_counter_after; [done| |lia]. unfold ks_counter_is. simpl.
  by rewrite lookup_empty.
Qed.

Lemma ks_nth_call_not_proto_witness :
  (KeySequence.___nextKey "item"
     (KeySequence.nextKeys ["item"; "row"; "item"] KeySequence.create).2).1
  = "item_2".
Proof.
  rewrite (ks_nth_call_not_proto ["item"; "row"; "item"] "item");
    [reflexivity | discriminate | vm_compute; discriminate].
Defined.

(** C4, at the key ["__proto__"]: the sequence never gets an own entry
    for it, so every call finds the inherited accessor, reads NaN and
    answers with the bare key.  The second and third calls collide with
    the first instead of returning ["__proto___1"] and ["__proto___2"]. *)
Theorem ks_proto_key_never_suffixed :
  (KeySequence.nextKeys ["__proto__"; "__proto__"; "__proto__"] KeySequence.create).1
  = ["__proto__"; "__proto__"; "__proto__"]
  ∧ (KeySequence.nextKeys ["k"; "k"; "k"] KeySequence.create).1
    = ["k"; "k_1"; "k_2"].
Proof. split; vm_compute; reflexivity. Qed.

(** Within one pass each reference component gets its own sequence,
    created on first use: the keys resolved for one component do not
    move the counters of another. *)
Lemma ks_pass_scopes_independent id1 id2 k1 k2 seqs :
  id1 ≠ id2 →
  (KeySequence.next_in_pass id2 k2 (KeySequence.next_in_pass id1 k1 seqs).2).1
  = (KeySequence.next_in_pass id2 k2 seqs).1.
Proof.
  intros Hne. unfold KeySequence.next_in_pass, KeySequence.for_component.
  destruct (KeySequence.___nextKey k1 _) as [r1 ks1]. simpl.
  rewrite lookup_insert_ne by done.
  by destruct (KeySequence.___nextKey k2 _).
Qed.

(** ** AsyncVDOMBuilder *)

Section builder_facts.
Import Builder.

(** Records that are not entries into [end()]. *)
Definition not_call_end (r : record) : Prop :=
  match r with CallEnd _ => False | _ => True end.

(** The number of times [end()] was entered on builder [b]. *)
Definition end_calls (b : nat) (t : list record) : nat :=
  length (filter (λ r, r = CallEnd b) t).

Lemma end_calls_app b t1 t2 :
  end_calls b (t1 ++ t2) = end_calls b t1 + end_calls b t2.
Proof. unfold end_calls. by rewrite filter_app, length_app. Qed.

Lemma end_calls_none b t : Forall not_call_end t → end_calls b t = 0.
Proof.
  unfold end_calls. induction 1 as [|r t Hr _ IH]; [done|].
  rewrite filter_cons. destruct (decide (r = CallEnd b)) as [->|_]; [done|exact IH].
Qed.

(** [w'] has the builders' trace of [w] and then records that are no
    entries into [end()]. *)
Definition extends_quietly (w w' : world) : Prop :=
  ∃ t, trace w' = (trace w ++ t)%list ∧ Forall not_call_end t.

Lemma extends_quietly_refl w : extends_quietly w w.
Proof. exists []. by rewrite app_nil_r. Qed.

Lemma extends_quietly_trans w1 w2 w3 :
  extends_quietly w1 w2 → extends_quietly w2 w3 → extends_quietly w1 w3.
Proof.
  intros (t1 & H1 & F1) (t2 & H2 & F2). exists (t1 ++ t2)%list.
  rewrite H2, H1, app_assoc. split; [done|]. by apply Forall_app.
Qed.

Lemma extends_quietly_set_out b o w : extends_quietly w (set_out b o w).
Proof. exists []. simpl. by rewrite app_nil_r. Qed.

Lemma extends_quietly_log r w : not_call_end r → extends_quietly w (log r w).
Proof. intros Hr. exists [r]. split; [done|]. by constructor. Qed.

Lemma emit_event_quiet b type arg w :
  extends_quietly w (emit_event b type arg w).2.
Proof.
  unfold emit_event.
  destruct (Emitter.emit type arg (___events (log (Emit type b) w)) []) as [r inv].
  simpl. exists (Emit type b :: (Listener <$> inv))%list. split.
  - by rewrite <- app_assoc.
  - constructor; [done|]. apply Forall_fmap. by apply Forall_true.
Qed.

Lemma doFinish_quiet b w : extends_quietly w (___doFinish b w).2.
Proof.
  unfold ___doFinish.
  set (w1 := {| outs := outs w; ___finished := true; ___events := ___events w;
                trace := trace w |}).
  pose proof (emit_event_quiet b "finish" (Plain "RenderResult") w1) as H.
  destruct (emit_event b "finish" (Plain "RenderResult") w1) as [[| |] w2]; exact H.
Qed.

Lemma run_last_quiet cbs : ∀ w, extends_quietly w (run_last cbs w).
Proof.
  induction cbs as [|cb rest IH]; intros w; simpl; [apply extends_quietly_refl|].
  assert (extends_quietly w (log (LastCallback (cb_id cb)) w)) as H
    by by apply extends_quietly_log.
  destruct (cb_arity0 cb); [|done]. eapply extends_quietly_trans; [exact H|apply IH].
Qed.

Lemma emitLast_quiet o w : extends_quietly w (___emitLast o w).2.
Proof.
  unfold ___emitLast. destruct (_last o); simpl;
    [apply run_last_quiet | apply extends_quietly_refl].
Qed.

Lemma handleChildDone_quiet fuel : ∀ b w,
  extends_quietly w (___handleChildDone fuel b w).2.
Proof.
  induction fuel as [|fuel IH]; intros b w; simpl; [apply extends_quietly_refl|].
  destruct (outs w !! b) as [o|]; [|apply extends_quietly_refl].
  simpl. destruct (___remaining o - 1 =? 0)%Z.
  - destruct (___parentOut o) as [p|].
    + eapply extends_quietly_trans; [apply extends_quietly_set_out|apply IH].
    + eapply extends_quietly_trans; [apply extends_quietly_set_out|apply doFinish_quiet].
  - destruct (_ =? 0)%Z.
    + eapply extends_quietly_trans; [apply extends_quietly_set_out|apply emitLast_quiet].
    + apply extends_quietly_set_out.
Qed.

Local Opaque ___handleChildDone ___doFinish ___emitLast.

(** [end()] enters [end()] once: nothing it calls is [end()]. *)
Lemma end_calls_end_once b w :
  ∃ t, trace (end_ b w).2 = (trace w ++ CallEnd b :: t)%list ∧ Forall not_call_end t.
Proof.
  unfold end_.
  set (w1 := log (CallEnd b) w).
  assert (∀ w2, extends_quietly w1 w2 →
    ∃ t, trace w2 = (trace w ++ CallEnd b :: t)%list ∧ Forall not_call_end t) as Hw1.
  { intros w2 (t & Ht & Hf). exists t. split; [|done].
    rewrite Ht. simpl. by rewrite <- app_assoc. }
  destruct (outs w1 !! b) as [o|]; [|apply Hw1, extends_quietly_refl].
  simpl. destruct (___remaining o - 1 =? 0)%Z.
  - destruct (___parentOut o) as [p|]; apply Hw1.
    + eapply extends_quietly_trans; [apply extends_quietly_set_out|apply handleChildDone_quiet].
    + eapply extends_quietly_trans; [apply extends_quietly_set_out|apply doFinish_quiet].
  - destruct (_ =? 0)%Z; apply Hw1.
    + eapply extends_quietly_trans; [apply extends_quietly_set_out|apply emitLast_quiet].
    + apply extends_quietly_set_out.
Qed.

Local Transparent ___handleChildDone ___doFinish ___emitLast.

(** X21.  Whatever listeners there are, and whether the call returns
    or throws, [error(e)] enters [end()] on its builder exactly once. *)
Lemma error_calls_end_once b e w :
  end_calls b (trace (error b e w).2) = S (end_calls b (trace w)).
Proof.
  unfold error.
  pose proof (emit_event_quiet b "error" e w) as (t1 & Ht1 & Hf1).
  destruct (emit_event b "error" e w) as [r1 w1]. simpl in Ht1.
  pose proof (end_calls_end_once b w1) as (t2 & Ht2 & Hf2).
  destruct (end_ b w1) as [r2 w2]. simpl in Ht2.
  assert (end_calls b (trace w2) = S (end_calls b (trace w))) as Hn.
  { rewrite Ht2, Ht1, !end_calls_app, (end_calls_none b t1) by done.
    unfold end_calls at 2. rewrite filter_cons, decide_True by done. simpl.
    fold (end_calls b t2). rewrite (end_calls_none b t2) by done. lia. }
  destruct r2 as [[]| |]; [destruct r1 as [?| |]|..]; exact Hn.
Qed.

(** X22.  With no entry for ["error"] in the emitter, [error(e)] on a
    builder whose count after this call is neither 0 nor its
    [___lastCount] (work is left, and not only branches begun with
    [last: true]) throws what the emitter throws for an unhandled
    error, after the count went down by one. *)
Lemma error_unhandled_throws b e w o :
  ___events w !! "error" = None →
  outs w !! b = Some o →
  (___remaining o - 1 ≠ 0)%Z → (___remaining o - 1 - ___lastCount o ≠ 0)%Z →
  ∃ w', error b e w = (Throw (Emitter.unhandled e), w')
        ∧ ___remaining <$> (outs w' !! b) = Some (___remaining o - 1)%Z.
Proof.
  intros Hev Hb Hr Hl. unfold error, emit_event, Emitter.emit. simpl.
  rewrite Hev. simpl. unfold end_. simpl. rewrite Hb. simpl.
  destruct (Z.eqb_spec (___remaining o - 1) 0) as [|_]; [done|].
  destruct (Z.eqb_spec (___remaining o - 1 - ___lastCount o) 0) as [|_]; [done|].
  eexists. split; [reflexivity|]. simpl.
  rewrite list_lookup_insert_eq by (by eapply lookup_lt_Some). done.
Qed.

Lemma error_unhandled_throws_witness :
  ∃ w', error 0 (Error "boom") (beginAsync 0 false start).2
        = (Throw (Error "boom"), w')
        ∧ ___remaining <$> (outs w' !! 0) = Some 1%Z.
Proof.
  apply (error_unhandled_throws 0 (Error "boom") (beginAsync 0 false start).2
           {| ___remaining := 2; ___lastCount := 0; ___parentOut := None;
              ___parent := Some OtherNode; ___stack := [OtherNode];
              ___sync := false; _last := None |});
    [reflexivity | reflexivity | discriminate | discriminate].
Defined.

(** A builder on which two listeners for ["error"] were attached and
    both were removed again. *)
Definition listener_f : Emitter.listener := {| Emitter.l_id := 1; Emitter.l_throws := None |}.
Definition listener_g : Emitter.listener := {| Emitter.l_id := 2; Emitter.l_throws := None |}.

Definition listeners_removed : world :=
  removeListener "error" listener_g
    (removeListener "error" listener_f
       (on "error" listener_g (on "error" listener_f start))).

(** C8, at a builder whose two ["error"] listeners were removed: the
    emitter still holds the emptied array, takes it for listeners and
    returns; [error(e)] does not throw.  [end()] runs once all the same.
    With no listener ever attached the same call throws [e]. *)
Theorem error_with_emptied_listeners_does_not_throw :
  Emitter.listenerCount "error" (___events listeners_removed) = 0
  ∧ (error 0 (Error "boom") listeners_removed).1 = Ok ()
  ∧ end_calls 0 (trace (error 0 (Error "boom") listeners_removed).2) = 1
  ∧ Emitter.listenerCount "error" (___events start) = 0
  ∧ (error 0 (Error "boom") start).1 = Throw (Error "boom")
  ∧ end_calls 0 (trace (error 0 (Error "boom") start).2) = 1.
Proof. repeat split; vm_compute; reflexivity. Qed.

End builder_facts.

Section builder_sync.
Import Builder.

(** The world of a re-render: one builder, in sync mode, without a
    parent builder. *)
Definition sync_root_only (w : world) : Prop :=
  ∃ o, outs w = [o] ∧ ___sync o = true ∧ ___parentOut o = None.

Lemma sync_root_only_start : sync_root_only (sync 0 start).
Proof. eexists. by split_and!. Qed.

Lemma sync_root_only_lookup w b o :
  sync_root_only w → outs w !! b = Some o →
  b = 0 ∧ outs w = [o] ∧ ___sync o = true ∧ ___parentOut o = None.
Proof.
  intros (o0 & Ho & Hs & Hp) Hb. rewrite Ho in Hb.
  destruct b as [|b]; simpl in Hb; [|by destruct b].
  injection Hb as <-. by rewrite Ho.
Qed.

Lemma sync_root_only_set_out w o o' :
  outs w = [o] → ___sync o' = true → ___parentOut o' = None →
  sync_root_only (set_out 0 o' w).
Proof. intros Ho Hs Hp. exists o'. simpl. by rewrite Ho. Qed.

Lemma sync_root_only_same_outs w w' :
  outs w' = outs w → sync_root_only w → sync_root_only w'.
Proof. intros Heq (o & Ho & H). exists o. by rewrite Heq. Qed.

Lemma emit_event_outs b type arg w : outs (emit_event b type arg w).2 = outs w.
Proof. unfold emit_event. by destruct (Emitter.emit _ _ _ _). Qed.

Lemma doFinish_outs b w : outs (___doFinish b w).2 = outs w.
Proof.
  unfold ___doFinish.
  set (w1 := {| outs := outs w; ___finished := true; ___events := ___events w;
                trace := trace w |}).
  pose proof (emit_event_outs b "finish" (Plain "RenderResult") w1) as H.
  by destruct (emit_event b "finish" (Plain "RenderResult") w1) as [[| |] w2].
Qed.

Lemma doFinish_fuel b w : (___doFinish b w).1 ≠ OutOfFuel.
Proof.
  unfold ___doFinish, emit_event, Emitter.emit. simpl.
  destruct (___events w !! "finish") as [[l|ls]|]; simpl; [| |done].
  - by destruct (Emitter.l_throws l).
  - generalize (@nil Emitter.record).
    induction ls as [|l ls IH]; intros acc; simpl; [done|].
    destruct (Emitter.l_throws l); [done|]. apply IH.
Qed.

Lemma emit_event_fuel b type arg w : (emit_event b type arg w).1 ≠ OutOfFuel.
Proof.
  unfold emit_event, Emitter.emit. simpl.
  destruct (___events w !! type) as [[l|ls]|]; simpl.
  - by destruct (Emitter.l_throws l).
  - generalize (@nil Emitter.record).
    induction ls as [|l ls IH]; intros acc; simpl; [done|].
    destruct (Emitter.l_throws l); [done|]. apply IH.
  - by case_bool_decide.
Qed.

Lemma run_last_outs cbs : ∀ w, outs (run_last cbs w) = outs w.
Proof.
  induction cbs as [|cb rest IH]; intros w; simpl; [done|].
  destruct (cb_arity0 cb); [by rewrite IH|done].
Qed.

Lemma emitLast_outs o w : outs (___emitLast o w).2 = outs w.
Proof. unfold ___emitLast. destruct (_last o); simpl; [apply run_last_outs|done]. Qed.

Lemma emitLast_fuel o w : (___emitLast o w).1 ≠ OutOfFuel.
Proof. unfold ___emitLast. by destruct (_last o). Qed.

Lemma end_sync_root_only b w :
  sync_root_only w → sync_root_only (end_ b w).2 ∧ (end_ b w).1 ≠ OutOfFuel.
Proof.
  intros Hw. unfold end_.
  destruct (outs (log (CallEnd b) w) !! b) as [o|] eqn:Hb; [|done].
  destruct (sync_root_only_lookup w b o Hw Hb) as (-> & Ho & Hs & Hp).
  cbv zeta. simpl ___parentOut. simpl ___lastCount. rewrite Hp.
  match goal with |- context [set_out 0 ?o' _] =>
    assert (sync_root_only (set_out 0 o' (log (CallEnd 0) w))) as Hw'
      by by apply (sync_root_only_set_out _ o) end.
  destruct (_ =? 0)%Z.
  - split; [|apply doFinish_fuel].
    eapply sync_root_only_same_outs; [apply doFinish_outs|done].
  - destruct (_ =? 0)%Z; [|done].
    split; [|apply emitLast_fuel].
    eapply sync_root_only_same_outs; [apply emitLast_outs|done].
Qed.

(** No call a renderer can make takes a re-render out of that shape. *)
Lemma step_sync_root_only o w :
  sync_root_only w → sync_root_only (step o w).2 ∧ (step o w).1 ≠ OutOfFuel.
Proof.
  intros Hw. destruct o as [b last|b|b e|b k|b|b]; simpl.
  - unfold beginAsync. destruct (outs w !! b) as [o|] eqn:Hb; [|done].
    destruct (sync_root_only_lookup w b o Hw Hb) as (-> & Ho & Hs & Hp).
    by rewrite Hs.
  - by apply end_sync_root_only.
  - unfold error.
    pose proof (emit_event_outs b "error" e w) as Houts.
    pose proof (emit_event_fuel b "error" e w) as Hfuel.
    destruct (emit_event b "error" e w) as [r1 w1]. simpl in Houts, Hfuel.
    assert (sync_root_only w1) as Hw1 by by eapply sync_root_only_same_outs.
    destruct (end_sync_root_only b w1 Hw1) as [H1 H2].
    destruct (end_ b w1) as [[[]| |] w2]; simpl in *; [|done..].
    by destruct r1.
  - unfold beginElement. destruct (outs w !! b) as [o|] eqn:Hb; [|done].
    destruct (sync_root_only_lookup w b o Hw Hb) as (-> & Ho & Hs & Hp).
    destruct (___parent o) as [[|]|]; [done| |done].
    split; [|done]. by apply (sync_root_only_set_out _ o).
  - unfold endElement. destruct (outs w !! b) as [o|] eqn:Hb; [|done].
    destruct (sync_root_only_lookup w b o Hw Hb) as (-> & Ho & Hs & Hp).
    split; [|done]. by apply (sync_root_only_set_out _ o).
  - unfold text. destruct (outs w !! b) as [o|] eqn:Hb; [|done].
    by destruct (___parent o).
Qed.

Lemma run_sync_root_only ops : ∀ w,
  sync_root_only w → sync_root_only (run ops w).2 ∧ (run ops w).1 ≠ OutOfFuel.
Proof.
  induction ops as [|o rest IH]; intros w Hw; simpl; [done|].
  destruct (step_sync_root_only o w Hw) as [H1 H2].
  destruct (step o w) as [[[]| |] w1]; simpl in *; [by apply IH|done..].
Qed.

Lemma run_app pre rest w :
  run (pre ++ rest) w
  = match run pre w with
    | (Ok _, w1) => run rest w1
    | other => other
    end.
Proof.
  revert w. induction pre as [|o pre IH]; intros w; simpl; [done|].
  destruct (step o w) as [[[]| |] w1]; [apply IH|done..].
Qed.

(** C10.  A builder in sync mode answers [beginAsync] with the error
    and is left as it was: no child builder is made.  A re-render hands
    its renderer a builder in sync mode: whatever the renderer calls, the
    render never has a second builder, and the first [beginAsync] it
    reaches on its builder throws that error. *)
Theorem sync_mode_refuses_beginAsync :
  (∀ b last w o, outs w !! b = Some o → ___sync o = true →
     beginAsync b last w = (Throw (Error sync_message), w))
  ∧ (∀ renderer, length (outs (___rerender renderer).2) = 1
                 ∧ (___rerender renderer).1 ≠ OutOfFuel)
  ∧ (∀ pre last post w1,
       run pre (sync 0 start) = (Ok (), w1) →
       ___rerender (pre ++ BeginAsync 0 last :: post)
       = (Throw (Error sync_message), w1)).
Proof.
  split_and!.
  - intros b last w o Hb Hs. unfold beginAsync. by rewrite Hb, Hs.
  - intros renderer. unfold ___rerender.
    destruct (run_sync_root_only renderer _ sync_root_only_start) as [(o & Ho & _) H].
    by rewrite Ho.
  - intros pre last post w1 Hpre. unfold ___rerender. rewrite run_app, Hpre.
    pose proof (run_sync_root_only pre _ sync_root_only_start) as [(o & Ho & Hs & _) _].
    rewrite Hpre in Ho. simpl in Ho. simpl. unfold beginAsync.
    rewrite Ho. simpl. by rewrite Hs.
Qed.

Lemma sync_mode_refuses_beginAsync_witness :
  beginAsync 0 true (sync 0 start) = (Throw (Error sync_message), sync 0 start)
  ∧ ___rerender ([BeginElement 0 OtherNode; Text 0] ++ BeginAsync 0 false :: [End 0])
    = (Throw (Error sync_message),
       (run [BeginElement 0 OtherNode; Text 0] (sync 0 start)).2).
Proof.
  split.
  - apply (proj1 sync_mode_refuses_beginAsync 0 true (sync 0 start)
             {| ___remaining := 1; ___lastCount := 0; ___parentOut := None;
                ___parent := Some OtherNode; ___stack := [OtherNode];
                ___sync := true; _last := None |}); reflexivity.
  - apply (proj2 (proj2 sync_mode_refuses_beginAsync)
             [BeginElement 0 OtherNode; Text 0] false [End 0]). reflexivity.
Defined.

End builder_sync.

Section builder_finish.
Import Builder.




Definition is_finish (r : record) : Prop :=
  match r with Emit type _ => type = "finish" | _ => False end.

Global Instance is_finish_dec r : Decision (is_finish r).
Proof. destruct r; simpl; apply _. Defined.




(** The builder's own share of its count: 1 until its [end()]. *)
Definition own (t : list record) (b : nat) : Z :=
  if bool_decide (CallEnd b ∈ t) then 0 else 1.

End builder_finish.

Section builder_finish_proofs.
Import Builder.

























End builder_finish_proofs.

Section builder_finish_steps.
Import Builder.

Definition flag (x : option nat) (b : nat) : Z :=
  if bool_decide (x = Some b) then 1 else 0.







End builder_finish_steps.

Section builder_finish_main.
Import Builder.















End builder_finish_main.

Section builder_finish_run.
Import Builder.












(** A call that throws can leave a count behind: [beginAsync] under a
    [textarea] counts the branch before it fails to append the
    fragment, and no builder is made for it. *)
Lemma failed_beginAsync_is_counted :
  let r := run [BeginElement 0 Textarea; BeginAsync 0 false] start in
  r.1 = Throw TypeError
  ∧ ___remaining <$> (outs r.2 !! 0) = Some 2%Z
  ∧ length (outs r.2) = 1
  ∧ trace r.2 = [].
Proof. repeat split. Qed.


End builder_finish_run.

(** ** Component.update *)

Section component_facts.
Import Component.
Context {V : Type} `{EqDecision V}.

Local Abbreviation component := (@component V).
Local Abbreviation state := (@state V).
Local Abbreviation record := (@record V).

(** The record of the call of each collected handler, in order: the
    new value is the changed property, the old value is what the old
    state has under the name. *)
Definition handler_calls (handlers : list (string * method))
    (stateChanges : list (string * option V)) (oldState : obj) : list record :=
  (λ h, Handler (m_id h.2) (get_change stateChanges h.1) (lookup oldState h.1))
    <$> handlers.

Definition is_handler_call (r : record) : Prop :=
  match r with Handler _ _ _ => True | _ => False end.

Lemma reset_reset (c : component) : ___reset (___reset c) = ___reset c.
Proof.
  destruct c as [? ? ? ? ? [s|] ? ? ?]; [destruct s|]; reflexivity.
Qed.

Lemma state_set_dirty_reset (c : component) :
  with_state (___reset c)
    ((λ s : state, {| ___raw := ___raw s; s___dirty := false; ___old := ___old s;
                      ___changes := ___changes s |}) <$> ___state (___reset c))
  = ___reset c.
Proof.
  destruct c as [? ? ? ? ? [s|] ? ? ?]; [destruct s|]; reflexivity.
Qed.

Lemma isDirty_reset (c : component) : ___isDirty (___reset c) = false.
Proof. destruct c as [? ? ? ? ? [s|] ? ? ?]; reflexivity. Qed.

Lemma collect_from_all (c : component) (visited : list (string * option V)) :
  (∀ k v, (k, v) ∈ visited → is_Some (member c ("update_" +:+ k)))
  ↔ is_Some (collect_from c visited).
Proof.
  induction visited as [|[k v] rest IH]; simpl.
  - split; [by eexists|]. intros _ k v Hin. by apply elem_of_nil in Hin.
  - split.
    + intros Hall. destruct (Hall k v) as [m Hm]; [by left|]. rewrite Hm.
      destruct (proj1 IH) as [hs Hhs].
      { intros k' v' Hin. apply (Hall k' v'). by right. }
      rewrite Hhs. by eexists.
    + intros [hs Hhs] k' v' Hin. destruct (member c ("update_" +:+ k)) as [m|] eqn:Hm; [|done].
      destruct (collect_from c rest) as [hs'|] eqn:Hrest; [|done].
      apply elem_of_cons in Hin as [Heq|Hin].
      * injection Heq as -> ->. by eexists.
      * apply (proj2 IH (mk_is_Some _ _ eq_refl) k' v' Hin).
Qed.

(** Every changed property has a handler exactly when the first loop of
    [processUpdateHandlers] runs to its end. *)
Lemma collect_handlers_all (c : component) (chs : list (string * option V)) :
  (∀ k v, (k, v) ∈ chs → is_Some (member c ("update_" +:+ k)))
  ↔ is_Some (collect_handlers c chs).
Proof.
  unfold collect_handlers. rewrite <- collect_from_all.
  split; intros Hall k v Hin; apply (Hall k v).
  - by apply (proj1 (elem_of_for_in fst (k, v) chs)).
  - by apply (proj2 (elem_of_for_in fst (k, v) chs)).
Qed.

Lemma collect_from_names (c : component) (visited : list (string * option V)) hs :
  collect_from c visited = Some hs →
  hs.*1 = visited.*1 ∧ ∀ k m, (k, m) ∈ hs → member c ("update_" +:+ k) = Some m.
Proof.
  revert hs. induction visited as [|[k v] rest IH]; intros hs Hc; simpl in Hc.
  - injection Hc as <-. split; [done|]. intros k m Hin. by apply elem_of_nil in Hin.
  - destruct (member c ("update_" +:+ k)) as [m|] eqn:Hm; [|done].
    destruct (collect_from c rest) as [hs'|] eqn:Hrest; [|done].
    injection Hc as <-. destruct (IH hs' eq_refl) as [Hn Hmem]. split.
    + rewrite !fmap_cons. simpl. by f_equal.
    + intros k' m' Hin. apply elem_of_cons in Hin as [Heq|Hin].
      * by injection Heq as -> ->.
      * by apply Hmem.
Qed.

(** The handlers are collected for the changed properties, one each, in
    the order in which [for ... in] visits the changes: the array
    indices first, ascending, then the other names as they were
    added. *)
Lemma collect_handlers_names (c : component) (chs : list (string * option V)) hs :
  collect_handlers c chs = Some hs →
  hs.*1 = (JsObject.for_in fst chs).*1
  ∧ ∀ k m, (k, m) ∈ hs → member c ("update_" +:+ k) = Some m.
Proof. apply collect_from_names. Qed.

Lemma collect_handlers_nil (c : component) (chs : list (string * option V)) :
  collect_handlers c chs = Some [] → chs = [].
Proof.
  intros Hc. destruct (collect_handlers_names c chs [] Hc) as [Hn _].
  symmetry in Hn. apply fmap_nil_inv in Hn.
  apply Permutation_nil. by rewrite <- (for_in_perm fst chs), Hn.
Qed.

Lemma call_handlers_ok hs (chs : list (string * option V)) old : ∀ (t : list record),
  (∀ k m, (k, m) ∈ hs → m_throws m = None) →
  call_handlers hs chs old t = (Ok (), (t ++ handler_calls hs chs old)%list).
Proof.
  induction hs as [|[k m] rest IH]; intros t Hret; simpl.
  - by rewrite app_nil_r.
  - rewrite (Hret k m) by by left. rewrite IH.
    + by rewrite <- app_assoc.
    + intros k' m' Hin. apply (Hret k' m'). by right.
Qed.

(** A change made through [State.___set] leaves a state that is dirty
    and has recorded the old state and at least this change. *)
Lemma set_records_change name (value : option V) forceDirty s (c : component) t :
  (forceDirty = true ∨ get (___raw s) name ≠ value) →
  (s___dirty s = true → is_Some (___old s)) →
  ∃ s' chs old,
    ___state (___set name value forceDirty s c t).1 = Some s'
    ∧ s___dirty s' = true ∧ ___changes s' = Some chs ∧ chs ≠ []
    ∧ ___old s' = Some old.
Proof.
  intros Hchg Hold. unfold ___set.
  assert (negb forceDirty && bool_decide (get (___raw s) name = value) = false) as ->.
  { destruct Hchg as [->|Hne]; [done|]. rewrite (bool_decide_eq_false_2 _ Hne).
    by rewrite andb_false_r. }
  assert (∀ l, set_change l name value ≠ []) as Hne.
  { intros [|[k v] l]; simpl; [done|]. by destruct (decide (k = name)). }
  destruct (s___dirty s) eqn:Hd.
  - destruct (Hold eq_refl) as [old Hold']. simpl.
    eexists _, _, old. by split_and!.
  - destruct (___queueUpdate c t) as [c1 t1]. simpl.
    eexists _, _, _. by split_and!.
Qed.

(** C9, amended: the component is not destroyed (a destroyed one
    returns from [update()] at once), its state has the old state and
    at least one change on record, no changed property is called
    [hasOwnProperty] and the callbacks return.  With the input clean
    and the state dirty: if every changed property has an
    [update_<name>] handler ([collect_handlers_all]), [update()] calls
    each handler with the new value and with what the old state has
    under the name, emits ["update"], clears the dirty tracking and
    neither asks [shouldUpdate] nor re-renders; if a changed property
    has none, it calls no handler, asks [shouldUpdate] and, unless that
    answers false, enters [___scheduleRerender()]. *)
Theorem update_handlers_shortcut (c : component) (t : list record) s chs old :
  ___destroyed c = false → ___dirty c = false →
  ___state c = Some s → s___dirty s = true →
  ___changes s = Some chs → chs ≠ [] → ___old s = Some old →
  "hasOwnProperty" ∉ chs.*1 →
  (∀ hs, collect_handlers c chs = Some hs →
     (∀ k m, (k, m) ∈ hs → m_throws m = None) →
     (∀ m, member c "onUpdate" = Some m → m_throws m = None) →
     update c t
     = (Ok (), ___reset c, (t ++ handler_calls hs chs old ++ [Lifecycle "update"])%list))
  ∧ (collect_handlers c chs = None →
     update c t
     = if shouldUpdate c then
         match ___scheduleRerender c (t ++ [ShouldUpdate])%list with
         | (Ok _, c', t') => (Ok (), ___reset c', t')
         | other => other
         end
       else (Ok (), ___reset c, (t ++ [ShouldUpdate])%list)).
Proof.
  intros Hdes Hdirty Hst Hsd Hchs Hne Hold Hown.
  assert (___isDirty c = true) as Hisd.
  { unfold ___isDirty. rewrite Hst, Hsd. by destruct (___dirty c). }
  split.
  - intros hs Hcol Hret Hupd. unfold update.
    rewrite Hdes, Hisd, Hst, Hdirty, Hsd, Hchs, Hold. simpl.
    unfold processUpdateHandlers.
    rewrite (bool_decide_eq_false_2 _ Hown), Hcol.
    destruct hs as [|h hs'] eqn:Hhs.
    { by apply collect_handlers_nil in Hcol. }
    rewrite <- Hhs in *. rewrite call_handlers_ok by done.
    unfold emit_update.
    assert (match member c "onUpdate" with
            | Some m => match m_throws m with
                        | Some e => (Throw e, ((t ++ handler_calls hs chs old) ++ [Lifecycle "update"])%list)
                        | None => (Ok (), ((t ++ handler_calls hs chs old) ++ [Lifecycle "update"])%list)
                        end
            | None => (Ok (), ((t ++ handler_calls hs chs old) ++ [Lifecycle "update"])%list)
            end = (Ok (), ((t ++ handler_calls hs chs old) ++ [Lifecycle "update"])%list)) as ->.
    { destruct (member c "onUpdate") as [m|] eqn:Hm; [|done]. by rewrite (Hupd m). }
    rewrite Hhs at 1. rewrite state_set_dirty_reset, isDirty_reset, reset_reset.
    by rewrite <- app_assoc.
  - intros Hcol. unfold update.
    rewrite Hdes, Hisd, Hst, Hdirty, Hsd, Hchs, Hold. simpl.
    unfold processUpdateHandlers.
    rewrite (bool_decide_eq_false_2 _ Hown), Hcol, Hisd.
    destruct (shouldUpdate c); [|done].
    by destruct (___scheduleRerender c (t ++ [ShouldUpdate])%list) as [[[[]| |] c'] t'].
Qed.

End component_facts.

(** A component whose state had the property [count]; it was changed
    from 0 to 1, and then the property [7] was added.  The component has
    the handlers [update_count] and [update_7]. *)
Definition counter_changes : list (string * option Z) :=
  [("count", Some 1%Z); ("7", Some 2%Z)].

Definition counter_state : Component.state :=
  {| Component.___raw := [("count", 1%Z); ("7", 2%Z)]; Component.s___dirty := true;
     Component.___old := Some [("count", 0%Z)];
     Component.___changes := Some counter_changes |}.

Definition counter (destroyed : bool) : Component.component :=
  {| Component.___destroyed := destroyed; Component.___dirty := false;
     Component.___updateQueued := true; Component.___renderInput := None;
     Component.___input := None; Component.___state := Some counter_state;
     Component.member := λ name,
       if decide (name = "update_count")
       then Some {| Component.m_id := 7; Component.m_throws := None |}
       else if decide (name = "update_7")
       then Some {| Component.m_id := 8; Component.m_throws := None |}
       else None;
     Component.shouldUpdate := true;
     Component.___renderer := Some {| Component.m_id := 9; Component.m_throws := None |} |}.

(** The handler of the array index [7] is called before the handler of
    [count], which was changed first. *)
Lemma update_handlers_shortcut_witness :
  Component.update (counter false) []
  = (Ok (), Component.___reset (counter false),
     [Component.Handler 8 (Some 2%Z) JsObject.Missing;
      Component.Handler 7 (Some 1%Z) (JsObject.Own 0%Z);
      Component.Lifecycle "update"]).
Proof.
  apply (proj1 (update_handlers_shortcut (counter false) [] counter_state
                  counter_changes [("count", 0%Z)]
                  eq_refl eq_refl eq_refl eq_refl eq_refl ltac:(discriminate) eq_refl
                  ltac:(compute_done))
           [("7", {| Component.m_id := 8; Component.m_throws := None |});
            ("count", {| Component.m_id := 7; Component.m_throws := None |})]).
  - reflexivity.
  - intros k m Hin. apply elem_of_cons in Hin as [Hin|Hin].
    + by injection Hin as -> ->.
    + apply list_elem_of_singleton in Hin. by injection Hin as -> ->.
  - intros m Hm. discriminate.
Defined.

(** C9 as stated fails for a destroyed component: its input is clean,
    its state is dirty and every changed property has a handler, and
    yet [update()] calls nothing and leaves the dirty tracking as it
    was. *)
Lemma update_of_destroyed_component_does_nothing :
  (∀ k v, (k, v) ∈ counter_changes →
          is_Some (Component.member (counter true) ("update_" +:+ k)))
  ∧ Component.___dirty (counter true) = false
  ∧ Component.s___dirty <$> Component.___state (counter true) = Some true
  ∧ Component.update (counter true) [] = (Ok (), counter true, []).
Proof.
  split_and!; [|reflexivity..].
  intros k v Hin. apply elem_of_cons in Hin as [Hin|Hin].
  - injection Hin as -> ->. by eexists.
  - apply list_elem_of_singleton in Hin. injection Hin as -> ->. by eexists.
Qed.

(** The old value of a property that the old state does not own is read
    through the prototype: for the name [constructor] the handler is
    given what [Object.prototype] has there, not [undefined]. *)
Lemma old_value_is_read_through_the_prototype :
  let s : Component.state :=
    {| Component.___raw := [("constructor", 1%Z)]; Component.s___dirty := true;
       Component.___old := Some []; Component.___changes := Some [("constructor", Some 1%Z)] |} in
  let c : Component.component :=
    {| Component.___destroyed := false; Component.___dirty := false;
       Component.___updateQueued := true; Component.___renderInput := None;
       Component.___input := None; Component.___state := Some s;
       Component.member := λ name,
         if decide (name = "update_constructor")
         then Some {| Component.m_id := 7; Component.m_throws := None |} else None;
       Component.shouldUpdate := true; Component.___renderer := None |} in
  Component.update c []
  = (Ok (), Component.___reset c,
     [Component.Handler 7 (Some 1%Z) JsObject.Inherited; Component.Lifecycle "update"]).
Proof. reflexivity. Qed.

(** A changed property called [hasOwnProperty] shadows the method the
    loop of [processUpdateHandlers] calls on the changes. *)
Lemma changed_hasOwnProperty_throws :
  let s : Component.state :=
    {| Component.___raw := [("hasOwnProperty", 1%Z)]; Component.s___dirty := true;
       Component.___old := Some [];
       Component.___changes := Some [("hasOwnProperty", Some 1%Z)] |} in
  let c : Component.component :=
    {| Component.___destroyed := false; Component.___dirty := false;
       Component.___updateQueued := true; Component.___renderInput := None;
       Component.___input := None; Component.___state := Some s;
       Component.member := λ name,
         Some {| Component.m_id := 7; Component.m_throws := None |};
       Component.shouldUpdate := true; Component.___renderer := None |} in
  Component.update c [] = (Throw TypeError, c, []).
Proof. reflexivity. Qed.

(** ** VNode: ___appendChild *)

Section vnode_append.
Import VNode.

(** The links of a node. *)
Definition links (n : node) : option nat * option nat * option nat * option nat :=
  (___firstChildInternal n, ___lastChild n, ___parentNode n, ___nextSiblingInternal n).

(** C3.  On a [textarea] element [___appendChild] throws a [TypeError]
    for a child that is neither a text node nor flagged [preserve]; for
    a text child it appends the text to the value gathered so far and
    leaves every link of every node as it was.  On any other parent it
    returns the child and has linked it: it is the last child, its
    parent is the node, and the former last child (or, without one, the
    first-child link) leads to it. *)
Theorem appendChild_textarea_leaf (h : gmap nat node) (this child : nat) (t c : node) :
  h !! this = Some t → h !! child = Some c →
  (is_textarea t = true →
     (___Text c = None → ___preserve c = false →
        (___appendChild this child h).1 = Throw TypeError)
     ∧ (∀ v, ___Text c = Some v →
          (___appendChild this child h).1 = Ok child
          ∧ ___valueInternal <$> (___appendChild this child h).2 !! this
            = Some (Some (default "" (___valueInternal t) +:+ v))
          ∧ ∀ x, links <$> (___appendChild this child h).2 !! x = links <$> h !! x))
  ∧ (is_textarea t = false →
     (___appendChild this child h).1 = Ok child
     ∧ ___lastChild <$> (___appendChild this child h).2 !! this = Some (Some child)
     ∧ ___parentNode <$> (___appendChild this child h).2 !! child = Some (Some this)
     ∧ match ___lastChild t with
       | Some l =>
           is_Some (h !! l) →
           ___nextSiblingInternal <$> (___appendChild this child h).2 !! l
           = Some (Some child)
       | None =>
           ___firstChildInternal <$> (___appendChild this child h).2 !! this
           = Some (Some child)
       end).
Proof.
  intros Ht Hc. unfold ___appendChild. rewrite Ht, Hc.
  split; intros Hta; rewrite Hta.
  - split.
    + intros Htext Hpres. by rewrite Htext, Hpres.
    + intros v Htext. rewrite Htext. simpl. split_and!; [done| |].
      * rewrite !lookup_alter_eq, Ht. reflexivity.
      * intros x. rewrite !lookup_alter.
        repeat (case_decide; subst; simplify_eq); rewrite ?Ht; reflexivity.
  - destruct (___lastChild t) as [l|] eqn:Hl; simpl.
    + split_and!; [done| | |].
      * rewrite !lookup_alter.
        repeat (case_decide; subst; simplify_eq); rewrite ?Ht; reflexivity.
      * rewrite !lookup_alter.
        repeat (case_decide; subst; simplify_eq); rewrite ?Ht, ?Hc; reflexivity.
      * intros [ln Hln]. rewrite !lookup_alter.
        repeat (case_decide; subst; simplify_eq); rewrite ?Ht, ?Hc, ?Hln; reflexivity.
    + split_and!; [done| | |].
      * rewrite !lookup_alter.
        repeat (case_decide; subst; simplify_eq); rewrite ?Ht; reflexivity.
      * rewrite !lookup_alter.
        repeat (case_decide; subst; simplify_eq); rewrite ?Ht, ?Hc; reflexivity.
      * rewrite !lookup_alter.
        repeat (case_decide; subst; simplify_eq); rewrite ?Ht, ?Hc; reflexivity.
Qed.

End vnode_append.

(** A [textarea] element (node 0), a text node, a [div] element and a
    preserved component placeholder, none of them linked yet. *)
Definition textarea_store : gmap nat VNode.node :=
  <[0 := VNode.new_node (VNode.Element "textarea")]>
    (<[1 := VNode.new_node (VNode.Text "hello")]>
       (<[2 := VNode.new_node (VNode.Element "div")]>
          (<[3 := VNode.new_node (VNode.ComponentNode true)]> ∅))).

Lemma appendChild_textarea_leaf_witness :
  (VNode.___appendChild 0 2 textarea_store).1 = Throw TypeError
  ∧ (VNode.___appendChild 0 1 textarea_store).1 = Ok 1
  ∧ VNode.___valueInternal <$> (VNode.___appendChild 0 1 textarea_store).2 !! 0
    = Some (Some "hello")
  ∧ (VNode.___appendChild 2 1 textarea_store).1 = Ok 1
  ∧ VNode.___lastChild <$> (VNode.___appendChild 2 1 textarea_store).2 !! 2
    = Some (Some 1).
Proof.
  pose proof (appendChild_textarea_leaf textarea_store 0 2
                (VNode.new_node (VNode.Element "textarea"))
                (VNode.new_node (VNode.Element "div")) eq_refl eq_refl) as [H1 _].
  pose proof (appendChild_textarea_leaf textarea_store 0 1
                (VNode.new_node (VNode.Element "textarea"))
                (VNode.new_node (VNode.Text "hello")) eq_refl eq_refl) as [H2 _].
  pose proof (appendChild_textarea_leaf textarea_store 2 1
                (VNode.new_node (VNode.Element "div"))
                (VNode.new_node (VNode.Text "hello")) eq_refl eq_refl) as [_ H3].
  destruct (H1 eq_refl) as [H1a _]. destruct (H2 eq_refl) as [_ H2b].
  destruct (H2b "hello" eq_refl) as (H2c & H2d & _).
  destruct (H3 eq_refl) as (H3a & H3b & _).
  split_and!; [by apply H1a|done..].
Defined.

(** ** VNode: the getters [___firstChild] and [___nextSibling] *)

Section vnode_traversal.
Import VNode.

Inductive getter : Type := FirstChild | NextSibling.

Definition run_getter (g : getter) (fuel : nat) (h : gmap nat node) (x : nat)
  : outcome (option nat) :=
  match g with
  | FirstChild => ___firstChild fuel h x
  | NextSibling => ___nextSibling fuel h x
  end.

(** What the getters return, as a relation: one rule for each path
    through their code. *)
Inductive gets (h : gmap nat node) : getter → nat → option nat → Prop :=
| first_none x t :
    h !! x = Some t → ___firstChildInternal t = None →
    gets h FirstChild x None
| first_plain x t f fn :
    h !! x = Some t → ___firstChildInternal t = Some f →
    h !! f = Some fn → ___DocumentFragment fn = false →
    gets h FirstChild x (Some f)
| first_nested x t f fn c :
    h !! x = Some t → ___firstChildInternal t = Some f →
    h !! f = Some fn → ___DocumentFragment fn = true →
    gets h FirstChild f (Some c) →
    gets h FirstChild x (Some c)
| first_skip x t f fn r :
    h !! x = Some t → ___firstChildInternal t = Some f →
    h !! f = Some fn → ___DocumentFragment fn = true →
    gets h FirstChild f None → gets h NextSibling f r →
    gets h FirstChild x r
| next_plain x t s sn :
    h !! x = Some t → ___nextSiblingInternal t = Some s →
    h !! s = Some sn → ___DocumentFragment sn = false →
    gets h NextSibling x (Some s)
| next_nested x t s sn c :
    h !! x = Some t → ___nextSiblingInternal t = Some s →
    h !! s = Some sn → ___DocumentFragment sn = true →
    gets h FirstChild s (Some c) →
    gets h NextSibling x (Some c)
| next_skip x t s sn r :
    h !! x = Some t → ___nextSiblingInternal t = Some s →
    h !! s = Some sn → ___DocumentFragment sn = true →
    gets h FirstChild s None → gets h NextSibling s r →
    gets h NextSibling x r
| next_up x t p pn r :
    h !! x = Some t → ___nextSiblingInternal t = None →
    ___parentNode t = Some p → h !! p = Some pn → ___DocumentFragment pn = true →
    gets h NextSibling p r →
    gets h NextSibling x r
| next_end x t p pn :
    h !! x = Some t → ___nextSiblingInternal t = None →
    ___parentNode t = Some p → h !! p = Some pn → ___DocumentFragment pn = false →
    gets h NextSibling x None
| next_end_root x t :
    h !! x = Some t → ___nextSiblingInternal t = None → ___parentNode t = None →
    gets h NextSibling x None.

(** The getters of the model return what the relation says, given
    enough fuel. *)
Lemma gets_run h g x r :
  gets h g x r → ∃ n, ∀ m, (n ≤ m)%nat → run_getter g m h x = Ok r.
Proof.
  induction 1 as
    [x t Hx Hf | x t f fn Hx Hf Hfn Hd | x t f fn c Hx Hf Hfn Hd _ [n IH]
    | x t f fn r Hx Hf Hfn Hd _ [n1 IH1] _ [n2 IH2]
    | x t s sn Hx Hs Hsn Hd | x t s sn c Hx Hs Hsn Hd _ [n IH]
    | x t s sn r Hx Hs Hsn Hd _ [n1 IH1] _ [n2 IH2]
    | x t p pn r Hx Hs Hp Hpn Hd _ [n IH] | x t p pn Hx Hs Hp Hpn Hd
    | x t Hx Hs Hp ].
  - exists 1. intros [|m] Hm; [lia|]. simpl. by rewrite Hx, Hf.
  - exists 1. intros [|m] Hm; [lia|]. simpl. by rewrite Hx, Hf, Hfn, Hd.
  - exists (S n). intros [|m] Hm; [lia|]. simpl. rewrite Hx, Hf, Hfn, Hd.
    pose proof (IH m ltac:(lia)) as E. simpl in E. by rewrite E.
  - exists (S (n1 `max` n2)). intros [|m] Hm; [lia|]. simpl. rewrite Hx, Hf, Hfn, Hd.
    pose proof (IH1 m ltac:(lia)) as E1. simpl in E1. rewrite E1.
    apply (IH2 m). lia.
  - exists 1. intros [|m] Hm; [lia|]. simpl. by rewrite Hx, Hs, Hsn, Hd.
  - exists (S n). intros [|m] Hm; [lia|]. simpl. rewrite Hx, Hs, Hsn, Hd.
    pose proof (IH m ltac:(lia)) as E. simpl in E. by rewrite E.
  - exists (S (n1 `max` n2)). intros [|m] Hm; [lia|]. simpl. rewrite Hx, Hs, Hsn, Hd.
    pose proof (IH1 m ltac:(lia)) as E1. simpl in E1. rewrite E1.
    apply (IH2 m). lia.
  - exists (S n). intros [|m] Hm; [lia|]. simpl. rewrite Hx, Hs, Hp, Hpn, Hd.
    apply (IH m). lia.
  - exists 1. intros [|m] Hm; [lia|]. simpl. by rewrite Hx, Hs, Hp, Hpn, Hd.
  - exists 1. intros [|m] Hm; [lia|]. simpl. by rewrite Hx, Hs, Hp.
Qed.

(** The walk over siblings, as a relation. *)
Inductive walks (h : gmap nat node) : option nat → list nat → Prop :=
| walks_end : walks h None []
| walks_step x next rest :
    gets h NextSibling x next → walks h next rest → walks h (Some x) (x :: rest).

Lemma walks_run h cur l :
  walks h cur l → ∃ n, ∀ m, (n ≤ m)%nat → walk m h cur = Ok l.
Proof.
  induction 1 as [|x next rest Hg _ [n2 IH]].
  - exists 1. intros [|m] Hm; [lia|]. done.
  - destruct (gets_run _ _ _ _ Hg) as [n1 H1].
    exists (S (n1 `max` n2)). intros [|m] Hm; [lia|]. simpl.
    pose proof (H1 m ltac:(lia)) as Hn. simpl in Hn. rewrite Hn.
    by rewrite (IH m) by lia.
Qed.

Fixpoint size_tree (t : tree) : nat :=
  match t with Node _ _ children => S (list_sum (size_tree <$> children)) end.

Definition size_forest (ts : list tree) : nat := list_sum (size_tree <$> ts).

Lemma holds_unfold h p id k cs next :
  holds h p (Node id k cs) next
  ↔ ∃ n, h !! id = Some n ∧ ___kind n = k ∧ ___parentNode n = p
         ∧ ___nextSiblingInternal n = next
         ∧ ___firstChildInternal n = head_id cs
         ∧ chain h (Some id) cs.
Proof.
  simpl.
  assert (∀ ts,
    (fix chain (ts : list tree) : Prop :=
       match ts with
       | [] => True
       | t' :: rest => holds h (Some id) t' (head_id rest) ∧ chain rest
       end) ts ↔ chain h (Some id) ts) as Hchain.
  { induction ts as [|t' rest IH]; simpl; [done|]. by rewrite IH. }
  split; intros (n & H1 & H2 & H3 & H4 & H5 & H6); exists n;
    split_and!; try done; by apply Hchain.
Qed.

(** The first node of the flattened trees, or [k] when they flatten to
    nothing. *)
Definition entry (ts : list tree) (k : option nat) : option nat :=
  match flat ts with x :: _ => Some x | [] => k end.

Lemma flat_cons t ts : flat (t :: ts) = (flat_tree t ++ flat ts)%list.
Proof. done. Qed.

Lemma flat_tree_fragment id cs : flat_tree (Node id DocumentFragment cs) = flat cs.
Proof. done. Qed.

Lemma flat_tree_other id k cs : k ≠ DocumentFragment → flat_tree (Node id k cs) = [id].
Proof. by destruct k. Qed.

Lemma entry_fragment id cs rest k :
  entry (Node id DocumentFragment cs :: rest) k = entry cs (entry rest k).
Proof.
  unfold entry. rewrite flat_cons, flat_tree_fragment.
  by destruct (flat cs).
Qed.

Lemma entry_other id kd cs rest k :
  kd ≠ DocumentFragment → entry (Node id kd cs :: rest) k = Some id.
Proof. intros H. unfold entry. by rewrite flat_cons, flat_tree_other. Qed.

(** What [___nextSibling] returns where a list of children ends: the
    next sibling of the parent if that is a document fragment, nothing
    otherwise. *)
Definition continues (h : gmap nat node) (p : option nat) (k : option nat) : Prop :=
  match p with
  | None => k = None
  | Some pid =>
      ∃ pn, h !! pid = Some pn
            ∧ if ___DocumentFragment pn then gets h NextSibling pid k else k = None
  end.

Lemma DocumentFragment_kind n :
  ___DocumentFragment n = true ↔ ___kind n = DocumentFragment.
Proof. unfold ___DocumentFragment. by rewrite bool_decide_eq_true. Qed.

Lemma getters_flat h (bound : nat) :
  (∀ rest id k cs p K,
     (size_forest rest < bound)%nat →
     chain h p (Node id k cs :: rest) → continues h p K →
     gets h NextSibling id (entry rest K))
  ∧ (∀ cs id k p next K,
     (size_forest cs < bound)%nat →
     holds h p (Node id k cs) next →
     (if decide (k = DocumentFragment) then gets h NextSibling id K else K = None) →
     gets h FirstChild id (match cs with [] => None | _ => entry cs K end)).
Proof.
  induction bound as [|bound [IH1 IH2]]; [split; intros; lia|].
  (* a document fragment [s] followed by [rest']: what looking into it
     and then past it returns *)
  assert (∀ sid css rest' p K,
    (size_forest (Node sid DocumentFragment css :: rest') < S bound)%nat →
    chain h p (Node sid DocumentFragment css :: rest') → continues h p K →
    let r := entry (Node sid DocumentFragment css :: rest') K in
    (∃ c, r = Some c ∧ gets h FirstChild sid (Some c))
    ∨ (gets h FirstChild sid None ∧ gets h NextSibling sid r)) as Hinto.
  { intros sid css rest' p K Hsize Hchain Hcont r.
    unfold size_forest in Hsize. rewrite fmap_cons in Hsize. simpl in Hsize.
    fold (size_forest css) in Hsize. fold (size_forest rest') in Hsize.
    pose proof Hchain as [Hs _].
    assert (gets h NextSibling sid (entry rest' K)) as Hnext
      by (apply (IH1 rest' sid DocumentFragment css p K); [lia|done..]).
    assert (gets h FirstChild sid
              (match css with [] => None | _ => entry css (entry rest' K) end)) as Hfirst.
    { apply (IH2 css sid DocumentFragment p (head_id rest')); [lia|done|].
      by rewrite decide_True. }
    subst r. rewrite entry_fragment.
    destruct css as [|c0 css'].
    - right. split; [done|]. unfold entry at 1. done.
    - destruct (entry (c0 :: css') (entry rest' K)) as [c|] eqn:He.
      + left. by exists c.
      + right. split; [done|].
        unfold entry in He. destruct (flat (c0 :: css')); [|done]. by rewrite <- He. }
  split.
  - intros rest id k cs p K Hsize [Hid Hrest] Hcont.
    apply holds_unfold in Hid as (n & Hn & Hk & Hp & Hnx & Hfc & Hcs).
    destruct rest as [|[sid ks css] rest'].
    + simpl in Hnx. unfold entry. simpl. destruct p as [pid|]; simpl in Hcont.
      * destruct Hcont as (pn & Hpn & Hcont).
        destruct (___DocumentFragment pn) eqn:Hd.
        -- by eapply next_up.
        -- subst K. by eapply next_end.
      * subst K. by eapply next_end_root.
    + simpl in Hnx. pose proof Hrest as [Hs _].
      apply holds_unfold in Hs as (sn & Hsn & Hks & _).
      destruct (decide (ks = DocumentFragment)) as [->|Hne].
      * assert (___DocumentFragment sn = true) as Hd by by apply DocumentFragment_kind.
        destruct (Hinto sid css rest' p K Hsize Hrest Hcont) as [(c & -> & Hc)|[H1 H2]].
        -- by eapply next_nested.
        -- by eapply next_skip.
      * rewrite entry_other by done. eapply next_plain; [done..|].
        apply not_true_is_false. rewrite DocumentFragment_kind. congruence.
  - intros cs id k p next K Hsize Hid Hk.
    apply holds_unfold in Hid as (n & Hn & Hkn & Hp & Hnx & Hfc & Hcs).
    destruct cs as [|[fid kf cssf] rest_f].
    + by eapply first_none.
    + simpl in Hfc. pose proof Hcs as [Hf _].
      apply holds_unfold in Hf as (fn & Hfn & Hkf & _).
      assert (continues h (Some id) K) as Hcont.
      { exists n. split; [done|]. destruct (decide (k = DocumentFragment)) as [->|Hne].
        - by rewrite (proj2 (DocumentFragment_kind n) Hkn).
        - rewrite (not_true_is_false (___DocumentFragment n)); [done|].
          rewrite DocumentFragment_kind. congruence. }
      destruct (decide (kf = DocumentFragment)) as [->|Hne].
      * assert (___DocumentFragment fn = true) as Hd by by apply DocumentFragment_kind.
        destruct (Hinto fid cssf rest_f (Some id) K Hsize Hcs Hcont) as [(c & -> & Hc)|[H1 H2]].
        -- by eapply first_nested.
        -- by eapply first_skip.
      * rewrite entry_other by done. eapply first_plain; [done..|].
        apply not_true_is_false. rewrite DocumentFragment_kind. congruence.
Qed.

Lemma walks_flat h (bound : nat) : ∀ ts p K L,
  (size_forest ts < bound)%nat →
  chain h p ts → continues h p K → walks h K L →
  walks h (entry ts K) (flat ts ++ L)%list.
Proof.
  induction bound as [|bound IH]; intros ts p K L Hsize Hchain Hcont HL; [lia|].
  destruct ts as [|[id k cs] rest]; [done|].
  unfold size_forest in Hsize. rewrite fmap_cons in Hsize. simpl in Hsize.
  fold (size_forest cs) in Hsize. fold (size_forest rest) in Hsize.
  pose proof Hchain as [Hid Hrest].
  assert (gets h NextSibling id (entry rest K)) as Hnext.
  { apply (proj1 (getters_flat h (S (size_forest rest))) rest id k cs p K); [lia|done..]. }
  assert (walks h (entry rest K) (flat rest ++ L)%list) as Hwrest
    by (apply (IH rest p K L); [lia|done..]).
  apply holds_unfold in Hid as (n & Hn & Hk & Hp & Hnx & Hfc & Hcs).
  rewrite flat_cons. destruct (decide (k = DocumentFragment)) as [->|Hne].
  - rewrite entry_fragment, flat_tree_fragment, <- app_assoc.
    apply (IH cs (Some id)); [lia|done| |done].
    exists n. split; [done|]. by rewrite (proj2 (DocumentFragment_kind n) Hk).
  - rewrite entry_other, flat_tree_other by done. simpl.
    by eapply walks_step.
Qed.

(** What the getters of the model return is what the relation says. *)
Lemma run_gets (fuel : nat) : ∀ h g x r,
  run_getter g fuel h x = Ok r → gets h g x r.
Proof.
  induction fuel as [|fuel IH]; intros h g x r Hrun; [by destruct g|].
  destruct g; simpl in Hrun.
  - destruct (h !! x) as [t|] eqn:Hx; [|done].
    destruct (___firstChildInternal t) as [f|] eqn:Hf.
    2: { injection Hrun as <-. by eapply first_none. }
    destruct (h !! f) as [fn|] eqn:Hfn; [|done].
    destruct (___DocumentFragment fn) eqn:Hd.
    2: { injection Hrun as <-. by eapply first_plain. }
    destruct (___firstChild fuel h f) as [[c|]| |] eqn:Hnested; try done.
    + injection Hrun as <-. eapply first_nested; [done..|].
      by apply (IH h FirstChild).
    + eapply first_skip; [done..| |].
      * by apply (IH h FirstChild).
      * by apply (IH h NextSibling).
  - destruct (h !! x) as [t|] eqn:Hx; [|done].
    destruct (___nextSiblingInternal t) as [s|] eqn:Hs.
    + destruct (h !! s) as [sn|] eqn:Hsn; [|done].
      destruct (___DocumentFragment sn) eqn:Hd.
      2: { injection Hrun as <-. by eapply next_plain. }
      destruct (___firstChild fuel h s) as [[c|]| |] eqn:Hnested; try done.
      * injection Hrun as <-. eapply next_nested; [done..|].
        by apply (IH h FirstChild).
      * eapply next_skip; [done..| |].
        -- by apply (IH h FirstChild).
        -- by apply (IH h NextSibling).
    + destruct (___parentNode t) as [p|] eqn:Hp.
      2: { injection Hrun as <-. by eapply next_end_root. }
      destruct (h !! p) as [pn|] eqn:Hpn; [|done].
      destruct (___DocumentFragment pn) eqn:Hd.
      * eapply next_up; [done..|]. by apply (IH h NextSibling).
      * injection Hrun as <-. by eapply next_end.
Qed.

Lemma walk_walks (fuel : nat) : ∀ h cur l, walk fuel h cur = Ok l → walks h cur l.
Proof.
  induction fuel as [|fuel IH]; intros h cur l Hrun; [done|].
  simpl in Hrun. destruct cur as [x|].
  2: { injection Hrun as <-. constructor. }
  destruct (___nextSibling fuel h x) as [next| |] eqn:Hnext; try done.
  destruct (walk fuel h next) as [rest| |] eqn:Hrest; try done.
  injection Hrun as <-. eapply walks_step.
  - by apply (run_gets fuel h NextSibling).
  - by apply IH.
Qed.

(** C6, amended.  Let the store hold a node with its children [cs],
    however deeply document fragments are nested in them.  Walking its
    children with [___firstChild] and [___nextSibling] visits the
    flattened children, in order: a document fragment is never visited,
    its children take its place and an empty one leaves no trace, while
    every other node, a [VFragment] with or without children included,
    is visited itself.  The walk ends there, unless the node is itself
    a document fragment with children: then [___nextSibling] falls
    through from its last child to what comes after the fragment, and
    the walk goes on with the nodes [after] that a walk from the next
    sibling of the fragment visits. *)
Theorem document_fragments_transparent h p id k cs next fuel K after :
  holds h p (Node id k cs) next →
  (if decide (k = DocumentFragment)
   then ___nextSibling fuel h id = Ok K ∧ walk fuel h K = Ok after
   else after = []) →
  ∃ n, ∀ m, (n ≤ m)%nat →
    children m h id
    = Ok (match cs with [] => [] | _ => (flat cs ++ after)%list end).
Proof.
  intros Hid Hafter.
  set (K' := if decide (k = DocumentFragment) then K else None).
  assert ((if decide (k = DocumentFragment) then gets h NextSibling id K'
           else K' = None) ∧ walks h K' after) as [Hk Hwalks].
  { unfold K'. destruct (decide (k = DocumentFragment)) as [Hd|].
    - destruct Hafter as [HK HL]. split.
      + by apply (run_gets fuel h NextSibling).
      + by apply (walk_walks fuel).
    - subst after. split; [done|constructor]. }
  pose proof (proj2 (getters_flat h (S (size_forest cs))) cs id k p next K'
                ltac:(lia) Hid Hk) as Hfirst.
  pose proof Hid as Hid'.
  apply holds_unfold in Hid' as (n & Hn & Hkn & Hp & Hnx & Hfc & Hcs).
  destruct cs as [|c0 cs'].
  { destruct (gets_run _ _ _ _ Hfirst) as [n1 H1].
    exists (S n1). intros m Hm. unfold children.
    pose proof (H1 m ltac:(lia)) as Hf. simpl in Hf. rewrite Hf.
    destruct m; [lia|done]. }
  assert (walks h (entry (c0 :: cs') K') (flat (c0 :: cs') ++ after)%list) as Hwalk.
  { apply (walks_flat h (S (size_forest (c0 :: cs'))) (c0 :: cs') (Some id));
      [lia|done| |done].
    exists n. split; [done|]. destruct (___DocumentFragment n) eqn:Hd.
    - destruct (decide (k = DocumentFragment)) as [|Hne]; [done|].
      apply DocumentFragment_kind in Hd. congruence.
    - destruct (decide (k = DocumentFragment)) as [Heq|]; [|done].
      rewrite <- Hkn in Heq. apply DocumentFragment_kind in Heq. congruence. }
  destruct (gets_run _ _ _ _ Hfirst) as [n1 H1].
  destruct (walks_run _ _ _ Hwalk) as [n2 H2].
  exists (n1 `max` n2). intros m Hm. unfold children.
  pose proof (H1 m ltac:(lia)) as Hf. simpl in Hf. rewrite Hf.
  apply H2. lia.
Qed.

End vnode_traversal.

(** A [div] (node 0) to which were appended, in this order: an empty
    document fragment (1), a [span] (2) and a document fragment (3) that
    holds a text node (4). *)
Definition nested_store : gmap nat VNode.node :=
  let h : gmap nat VNode.node :=
    <[0 := VNode.new_node (VNode.Element "div")]>
      (<[1 := VNode.new_node VNode.DocumentFragment]>
         (<[2 := VNode.new_node (VNode.Element "span")]>
            (<[3 := VNode.new_node VNode.DocumentFragment]>
               (<[4 := VNode.new_node (VNode.Text "x")]> ∅)))) in
  let h := (VNode.___appendChild 0 1 h).2 in
  let h := (VNode.___appendChild 0 2 h).2 in
  let h := (VNode.___appendChild 0 3 h).2 in
  (VNode.___appendChild 3 4 h).2.

(** The children of the [div]: the empty document fragment leaves no
    trace and the text of the other one takes its place. *)
Lemma children_of_the_div :
  ∃ n, ∀ m, (n ≤ m)%nat → VNode.children m nested_store 0 = Ok [2; 4].
Proof. exists 5. intros m Hm. do 5 (destruct m as [|m]; [lia|]). reflexivity. Qed.

(** A [div] (node 0) that holds a document fragment (1) with a text
    node (2) in it, followed by a [span] (3). *)
Definition leaking_store : gmap nat VNode.node :=
  let h : gmap nat VNode.node :=
    <[0 := VNode.new_node (VNode.Element "div")]>
      (<[1 := VNode.new_node VNode.DocumentFragment]>
         (<[2 := VNode.new_node (VNode.Text "x")]>
            (<[3 := VNode.new_node (VNode.Element "span")]> ∅))) in
  let h := (VNode.___appendChild 1 2 h).2 in
  let h := (VNode.___appendChild 0 1 h).2 in
  (VNode.___appendChild 0 3 h).2.

(** The walk over the children of the document fragment goes on with
    the [span] that follows the fragment. *)
Lemma document_fragments_transparent_witness :
  ∃ n, ∀ m, (n ≤ m)%nat → VNode.children m leaking_store 1 = Ok [2; 3].
Proof.
  apply (document_fragments_transparent leaking_store (Some 0) 1 VNode.DocumentFragment
           [VNode.Node 2 (VNode.Text "x") []] (Some 3) 3 (Some 3) [3]).
  - simpl. repeat (eexists; split_and!; try reflexivity).
  - split; reflexivity.
Defined.

(** A [div] (node 0) to which were appended an empty [VFragment] (1) and
    a [span] (2). *)
Definition fragment_store : gmap nat VNode.node :=
  let h : gmap nat VNode.node :=
    <[0 := VNode.new_node (VNode.Element "div")]>
      (<[1 := VNode.new_node (VNode.Fragment false)]>
         (<[2 := VNode.new_node (VNode.Element "span")]> ∅)) in
  let h := (VNode.___appendChild 0 1 h).2 in
  (VNode.___appendChild 0 2 h).2.

(** C6 as stated fails for the fragments of the [VFragment] kind: an
    empty one is the first child its parent reports, and the walk over
    the children visits it. *)
Lemma empty_VFragment_is_not_skipped :
  VNode.___firstChild 3 fragment_store 0 = Ok (Some 1)
  ∧ VNode.___nextSibling 3 fragment_store 1 = Ok (Some 2)
  ∧ VNode.children 4 fragment_store 0 = Ok [1; 2].
Proof. repeat split; vm_compute; reflexivity. Qed.
(** ** morphdom: the element pair *)

Section morph_element.
Import Morph.

(** [toEl.___constId !== undefined && vFromEl.___constId === constId] *)
Definition constId_matches (vFromEl toEl : velement) : Prop :=
  ∃ c, ___constId toEl = Some c ∧ ___constId vFromEl = Some c.

Lemma constId_matches_test vFromEl toEl :
  match ___constId toEl with
  | Some c => bool_decide (___constId vFromEl = Some c)
  | None => false
  end = true ↔ constId_matches vFromEl toEl.
Proof.
  unfold constId_matches. destruct (___constId toEl) as [c|].
  - rewrite bool_decide_eq_true. split; [by exists c|]. by intros (c' & [= ->] & ?).
  - split; [done|]. by intros (? & ? & ?).
Qed.

(** What [morphEl] does to a pair whose constant ids do not match. *)
Definition full_diff (rec : nat → list vnode → option string → M unit)
    (fromEl : nat) (vFromEl toEl : velement) (toChildren : list vnode)
    (parentComponent : option string) : M unit :=
  morphAttrs fromEl vFromEl toEl;;
  (if bool_decide (___nodeName toEl = "textarea") then mret ()
   else rec fromEl toChildren parentComponent);;
  specialElHandler (___nodeName toEl) fromEl toEl toChildren.

(** C5 (as amended).  When the constant id of the new virtual element
    is defined and equal to that of the old one, [morphEl] returns
    without looking at the attributes, the children or the form control:
    whatever the reconciler of the children would do, the nodes of the
    document, the recorded mutations and the data kept for the nodes are
    as before (outside hydration the whole state is).  Otherwise the
    attributes are reconciled, then the children unless the element is a
    textarea, then the handler of the form control runs. *)
Theorem constId_short_circuit (rec : nat → list vnode → option string → M unit)
    (fromEl : nat) (vFromEl toEl : velement) (toChildren : list vnode)
    (toElKey ownerComponent parentComponent : option string) (w : world) :
  (constId_matches vFromEl toEl →
     let w' := (morphEl rec fromEl vFromEl toEl toChildren toElKey ownerComponent
                  parentComponent w).2 in
     nodes w' = nodes w ∧ mutations w' = mutations w ∧ data w' = data w ∧
     detachedNodes w' = detachedNodes w ∧
     (isHydrate w && bool_decide (is_Some toElKey) = false →
      morphEl rec fromEl vFromEl toEl toChildren toElKey ownerComponent
        parentComponent w = (Done (), w))) ∧
  (¬ constId_matches vFromEl toEl →
     isHydrate w && bool_decide (is_Some toElKey) = false →
     morphEl rec fromEl vFromEl toEl toChildren toElKey ownerComponent
       parentComponent w
     = full_diff rec fromEl vFromEl toEl toChildren parentComponent w).
Proof.
  split.
  - intros Hc%constId_matches_test. unfold morphEl. rewrite Hc.
    unfold the_component, set_keyed, plain_name, outside, raise, modify, get_world.
    unfold mbind, M_bind, bind, mret, M_ret, ret.
    destruct (isHydrate w) eqn:Hy; [destruct toElKey as [key|]|]; simpl; [|done..].
    destruct (if isAutoKey key then parentComponent else ownerComponent) as [id|];
      [|done].
    destruct (bool_decide (id ∈ JsObject.prototype_names)); [done|].
    by destruct (bool_decide (key ∈ JsObject.prototype_names)).
  - intros Hc Hh. unfold morphEl, full_diff.
    destruct (match ___constId toEl with
              | Some c => bool_decide (___constId vFromEl = Some c)
              | None => false
              end) eqn:Hm; [by apply constId_matches_test in Hm|].
    destruct (isHydrate w) eqn:Hy; [destruct toElKey; [done|]|];
      unfold mbind at 1, M_bind at 1, bind at 1, get_world; simpl; by rewrite Hy.
Qed.

End morph_element.
Section morph_element_examples.
Import Morph.

(** A textarea as server-rendered markup leaves it: the text and a
    comment are its children. *)
Definition textarea_world : world :=
  {| nodes :=
       {[ 0%nat := set_childNodes [1%nat] (new_dnode ELEMENT_NODE "div" NS_HTML None);
          1%nat := set_parentNode (Some 0%nat)
                     (set_childNodes [2%nat; 3%nat]
                        (new_dnode ELEMENT_NODE "textarea" NS_HTML None));
          2%nat := set_parentNode (Some 1%nat) (new_dnode TEXT_NODE "#text" "" (Some "old"));
          3%nat := set_parentNode (Some 1%nat)
                     (new_dnode COMMENT_NODE "#comment" "" (Some "note")) ]};
     next_node := 4;
     data := ∅; keyedElements := ∅; keySequences := ∅; detachedNodes := [];
     mutations := []; isHydrate := false |}.

Definition textarea_element (ref : nat) (constId : option nat) (text : string)
  : velement :=
  {| ___nodeName := "textarea";
     ___attributes := {| a_ref := ref; a_own := [("rows", AString "2")] |};
     ___key := KNull; ___ownerComponent := None; ___flags := 0;
     ___constId := constId; ___valueInternal := Some text;
     ___preserveTextAreaValue := false |}.

Lemma constId_short_circuit_witness :
  morphEl (morphChildren 5) 1 (textarea_element 1 (Some 7) "old")
    (textarea_element 2 (Some 7) "new") [] None None None textarea_world
  = (Done (), textarea_world) ∧
  morphEl (morphChildren 5) 1 (textarea_element 1 (Some 7) "old")
    (textarea_element 2 (Some 8) "new") [] None None None textarea_world
  = full_diff (morphChildren 5) 1 (textarea_element 1 (Some 7) "old")
      (textarea_element 2 (Some 8) "new") [] None textarea_world.
Proof.
  split.
  - apply (constId_short_circuit (morphChildren 5) 1 (textarea_element 1 (Some 7) "old")
             (textarea_element 2 (Some 7) "new") [] None None None textarea_world);
      [by exists 7%nat | reflexivity].
  - apply (constId_short_circuit (morphChildren 5) 1 (textarea_element 1 (Some 7) "old")
             (textarea_element 2 (Some 8) "new") [] None None None textarea_world);
      [by intros (c & [= <-] & [=]) | reflexivity].
Defined.

(** C5 (as stated) fails for a textarea.  The constant ids differ, the
    attributes are reconciled and the handler of the textarea runs, but
    the children are not reconciled: the two children stay, where the
    reconciler of the children (the virtual textarea has none) would
    have removed both. *)
Lemma textarea_children_are_not_reconciled :
  let old := textarea_element 1 (Some 7) "old" in
  let new := textarea_element 2 (Some 8) "new" in
  let with_children :=
    morphAttrs 1 old new;;
    morphChildren 5 1 [] None;;
    specialElHandler "textarea" 1 new [] in
  let w' := (morphEl (morphChildren 5) 1 old new [] None None None textarea_world).2 in
  ¬ constId_matches old new ∧
  childNodes <$> nodes w' !! 1%nat = Some [2%nat; 3%nat] ∧
  mutations w' = [PropertySet 1 "value" (AString "new"); NodeValueSet 2 "new"] ∧
  childNodes <$> nodes (with_children textarea_world).2 !! 1%nat = Some [] ∧
  morphEl (morphChildren 5) 1 old new [] None None None textarea_world
  ≠ with_children textarea_world.
Proof.
  split_and!.
  - by intros (c & [= <-] & [=]).
  - by vm_compute.
  - by vm_compute.
  - by vm_compute.
  - intros E. apply (f_equal (λ r, mutations r.2)) in E. vm_compute in E. discriminate E.
Qed.

End morph_element_examples.
(** ** morphdom: a pass over a document that is up to date *)

Section morph_runs.
Import Morph.

Lemma run_bind {A B : Type} (m : M A) (k : A → M B) (w w1 : world) (a : A) :
  m w = (Done a, w1) → (m ≫= k) w = k a w1.
Proof. intros E. unfold mbind, M_bind, bind. by rewrite E. Qed.

Lemma run_ret {A : Type} (a : A) (w : world) : (mret a : M A) w = (Done a, w).
Proof. reflexivity. Qed.

Lemma run_node (w : world) (x : nat) (n : dnode) :
  nodes w !! x = Some n → node x w = (Done n, w).
Proof. intros E. unfold node. by rewrite E. Qed.

Lemma run_node_bind {B : Type} (w : world) (x : nat) (n : dnode) (k : dnode → M B) :
  nodes w !! x = Some n → (node x ≫= k) w = k n w.
Proof. intros E. apply run_bind. by apply run_node. Qed.

Lemma run_get_data (w : world) (x : nat) :
  get_data x w = (Done (default no_data (data w !! x)), w).
Proof. reflexivity. Qed.

Lemma run_get_world (w : world) : get_world w = (Done w, w).
Proof. reflexivity. Qed.

Lemma run_modify (f : world → world) (w : world) : modify f w = (Done (), f w).
Proof. reflexivity. Qed.

Lemma run_firstChild (w : world) (x : nat) (n : dnode) :
  nodes w !! x = Some n → firstChild x w = (Done (head (childNodes n)), w).
Proof.
  intros E. unfold firstChild, dom_firstChild.
  by rewrite (run_bind _ _ _ _ _ (run_node _ _ _ E)).
Qed.

Lemma run_nextSibling (w : world) (c p : nat) (n pn : dnode) :
  nodes w !! c = Some n → parentNode n = Some p → nodes w !! p = Some pn →
  nextSibling c w = (Done (next_in (childNodes pn) c), w).
Proof.
  intros E Hp Ep. unfold nextSibling, dom_nextSibling.
  rewrite (run_bind _ _ _ _ _ (run_node _ _ _ E)), Hp.
  by rewrite (run_bind _ _ _ _ _ (run_node _ _ _ Ep)).
Qed.

(** Among children without repetition the next sibling is the head of
    what follows. *)
Lemma next_in_app (pre rest : list nat) (c : nat) :
  c ∉ pre → next_in (pre ++ c :: rest) c = head rest.
Proof.
  induction pre as [|y pre IH]; simpl; intros Hc.
  - by rewrite decide_True.
  - rewrite decide_False by set_solver. apply IH. set_solver.
Qed.

Lemma run_removeAttribute_absent (w : world) (el : nat) (n : dnode) (ns name : string) :
  nodes w !! el = Some n → attrs n !! (ns, name) = None →
  removeAttribute el ns name w = (Done (), w).
Proof.
  intros E Ha. unfold removeAttribute.
  by rewrite (run_bind _ _ _ _ _ (run_node _ _ _ E)), Ha.
Qed.

Lemma for_each_quiet {A : Type} (l : list A) (f : A → M unit) (w : world) :
  (∀ x, x ∈ l → f x w = (Done (), w)) → for_each l f w = (Done (), w).
Proof.
  induction l as [|x l IH]; intros H; simpl; [done|].
  rewrite (run_bind _ _ _ _ _ (H x ltac:(left))). apply IH.
  intros y Hy. apply H. by right.
Qed.

(** No name of the attribute map is a name of [Object.prototype]. *)
Definition plain (a : attributes) : bool :=
  forallb (λ kv : string * attrval, negb (bool_decide (kv.1 ∈ JsObject.prototype_names)))
    (a_own a).

Lemma run_plain_name (w : world) (name : string) :
  name ∉ JsObject.prototype_names → plain_name name w = (Done (), w).
Proof. intros H. unfold plain_name. by rewrite bool_decide_eq_false_2. Qed.

Lemma run_plain_names (w : world) (a : attributes) :
  plain a = true → plain_names a w = (Done (), w).
Proof.
  unfold plain, plain_names. rewrite forallb_forall. intros H.
  apply for_each_quiet. intros kv Hkv. apply run_plain_name.
  specialize (H kv). rewrite <- list_elem_of_In in H. specialize (H Hkv).
  apply negb_true_iff in H. by apply bool_decide_eq_false in H.
Qed.

End morph_runs.
Section morph_attributes.
Import Morph.

(** The attributes of the real element [n], last reconciled with
    [vFromEl], need no change for [toEl]: the element is no custom
    element; the two maps are the same object, or every value of the new
    map is strictly equal ([===]) to what the old map has under the name
    the reconciler looks up, an attribute whose value is null or false
    is not on the element, and neither is an attribute the new map of an
    element with a null key has dropped. *)
Definition attrs_synced (n : dnode) (vFromEl toEl : velement) : bool :=
  let oldAttrs := ___attributes vFromEl in
  let attrs := ___attributes toEl in
  plain attrs && plain oldAttrs &&
  negb (has_flag (___flags toEl) FLAG_CUSTOM_ELEMENT) &&
  (bool_decide (a_ref oldAttrs = a_ref attrs) ||
   if has_flag (___flags toEl) FLAG_SIMPLE_ATTRS
      && has_flag (___flags vFromEl) FLAG_SIMPLE_ATTRS
   then
     strict_eq (attr oldAttrs "class") (attr attrs "class")
     && strict_eq (attr oldAttrs "id") (attr attrs "id")
     && strict_eq (attr oldAttrs "style") (attr attrs "style")
   else
     forallb (λ kv : string * attrval,
        let '(namespaceURI, attrName) :=
          if bool_decide (kv.1 = ATTR_XLINK_HREF) then (NS_XLINK, ATTR_HREF)
          else ("", kv.1) in
        if null_or_false kv.2
        then bool_decide (Morph.attrs n !! (namespaceURI, attrName) = None)
        else strict_eq (attr oldAttrs attrName) kv.2) (a_own attrs)
     && (if bool_decide (___key toEl = KNull) then
           forallb (λ kv : string * attrval,
              has_attr attrs kv.1
              || bool_decide
                   (Morph.attrs n !! (if bool_decide (kv.1 = ATTR_XLINK_HREF)
                                      then (ATTR_XLINK_HREF, ATTR_HREF)
                                      else ("", kv.1)) = None)) (a_own oldAttrs)
         else true)).

(** The old virtual element of a node is replaced by the new one. *)
Definition remember (c : nat) (toEl : velement) (w : world) : world :=
  set_data (λ d, <[c := set_d_vElement (Some toEl) (default no_data (d !! c))]> d) w.

Lemma morphAttrs_synced (w : world) (c : nat) (n : dnode) (vFromEl toEl : velement) :
  nodes w !! c = Some n → attrs_synced n vFromEl toEl = true →
  morphAttrs c vFromEl toEl w = (Done (), remember c toEl w).
Proof.
  intros E. unfold attrs_synced.
  rewrite !andb_true_iff. intros [[[Hp Hpo] Hcustom] H].
  unfold morphAttrs.
  rewrite (run_bind _ _ _ _ _ (run_plain_names _ _ Hp)).
  rewrite (run_bind _ _ _ _ _ (run_plain_names _ _ Hpo)).
  unfold update_data. rewrite (run_bind _ _ _ _ _ (run_modify _ _)).
  fold (remember c toEl w).
  apply negb_true_iff in Hcustom. rewrite Hcustom.
  destruct (bool_decide (a_ref (___attributes vFromEl) = a_ref (___attributes toEl)));
    [done|]. simpl in H. unfold removePreservedAttributes.
  assert (nodes (remember c toEl w) !! c = Some n) as E' by done.
  destruct (has_flag (___flags toEl) FLAG_SIMPLE_ATTRS
            && has_flag (___flags vFromEl) FLAG_SIMPLE_ATTRS).
  - apply andb_true_iff in H as [[H1 H2]%andb_true_iff H3].
    rewrite H1, H2, H3. reflexivity.
  - apply andb_true_iff in H as [Hnew Hold].
    rewrite forallb_forall in Hnew.
    erewrite run_bind; last first.
    { apply for_each_quiet. intros kv Hkv%list_elem_of_In.
      specialize (Hnew kv Hkv).
      destruct (bool_decide (kv.1 = ATTR_XLINK_HREF)).
      - destruct (null_or_false kv.2).
        + apply bool_decide_eq_true in Hnew. by eapply run_removeAttribute_absent.
        + by rewrite Hnew.
      - destruct (null_or_false kv.2).
        + apply bool_decide_eq_true in Hnew. by eapply run_removeAttribute_absent.
        + by rewrite Hnew. }
    destruct (bool_decide (___key toEl = KNull)); [|done].
    rewrite forallb_forall in Hold.
    apply for_each_quiet. intros kv Hkv%list_elem_of_In.
    specialize (Hold kv Hkv). destruct (has_attr (___attributes toEl) kv.1); [done|].
    simpl in Hold. apply bool_decide_eq_true in Hold.
    destruct (bool_decide (kv.1 = ATTR_XLINK_HREF));
      by eapply run_removeAttribute_absent.
Qed.

End morph_attributes.
Section morph_handlers.
Import Morph.

(** The properties of the form control [n] that its handler compares
    agree with the virtual element: the handler has nothing to set. *)
Definition handler_synced (nodes : gmap nat dnode) (n : dnode) (toEl : velement)
    (toChildren : list vnode) : bool :=
  let nodeName := ___nodeName toEl in
  negb (bool_decide (nodeName ∈ JsObject.prototype_names)) &&
  if bool_decide (nodeName = "option") then
    bool_decide (selected n = v_boolean toEl "selected")
  else if bool_decide (nodeName = "button") then
    bool_decide (disabled n = v_boolean toEl "disabled")
  else if bool_decide (nodeName = "input") then
    bool_decide (checked n = v_boolean toEl "checked")
    && bool_decide (disabled n = v_boolean toEl "disabled")
    && bool_decide (value n = ___value toEl)
    && negb (bool_decide (is_Some (Morph.attrs n !! ("", "value")))
             && negb (___hasAttribute toEl "value"))
  else if bool_decide (nodeName = "textarea") then
    ___preserveTextAreaValue toEl
    || (bool_decide (value n = ___value toEl)
        && match head (childNodes n) with
           | None => true
           | Some c =>
               match nodes !! c with
               | None => false
               | Some cn =>
                   bool_decide (nodeValue cn = Some (___value toEl))
                   || (bool_decide (___value toEl = "")
                       && bool_decide (nodeValue cn = Some (placeholder n)))
               end
           end)
  else if bool_decide (nodeName = "select") then
    ___hasAttribute toEl "multiple"
    || bool_decide (selectedIndex n = (options_scan toChildren (-1) 0).2)
  else true.

Lemma syncBooleanAttrProp_synced (w : world) (c : nat) (n : dnode) (toEl : velement)
    (name : string) :
  nodes w !! c = Some n → boolean_property name n = v_boolean toEl name →
  syncBooleanAttrProp c toEl name w = (Done (), w).
Proof.
  intros E H. unfold syncBooleanAttrProp.
  rewrite (run_bind _ _ _ _ _ (run_node _ _ _ E)).
  by rewrite bool_decide_eq_true_2.
Qed.

Lemma specialElHandler_synced (w : world) (c : nat) (n : dnode) (toEl : velement)
    (toChildren : list vnode) :
  nodes w !! c = Some n → handler_synced (nodes w) n toEl toChildren = true →
  specialElHandler (___nodeName toEl) c toEl toChildren w = (Done (), w).
Proof.
  intros E. unfold handler_synced, specialElHandler.
  intros [Hname H]%andb_true_iff.
  apply negb_true_iff, bool_decide_eq_false in Hname.
  rewrite (run_bind _ _ _ _ _ (run_plain_name _ _ Hname)).
  destruct (bool_decide (___nodeName toEl = "option")).
  { apply bool_decide_eq_true in H. by eapply syncBooleanAttrProp_synced. }
  destruct (bool_decide (___nodeName toEl = "button")).
  { apply bool_decide_eq_true in H. by eapply syncBooleanAttrProp_synced. }
  destruct (bool_decide (___nodeName toEl = "input")).
  { apply andb_true_iff in H as [[[H1 H2]%andb_true_iff H3]%andb_true_iff H4].
    apply bool_decide_eq_true in H1, H2, H3. unfold special_input.
    erewrite run_bind by (by eapply syncBooleanAttrProp_synced).
    erewrite run_bind by (by eapply syncBooleanAttrProp_synced).
    rewrite (run_bind _ _ _ _ _ (run_node _ _ _ E)).
    rewrite (bool_decide_eq_true_2 _ H3).
    rewrite (run_bind _ _ _ _ _ (run_ret _ _)).
    rewrite (run_bind _ _ _ _ _ (run_node _ _ _ E)).
    apply negb_true_iff in H4. by rewrite H4. }
  destruct (bool_decide (___nodeName toEl = "textarea")).
  { unfold special_textarea. destruct (___preserveTextAreaValue toEl); [done|].
    simpl in H. apply andb_true_iff in H as [H1 H2]. apply bool_decide_eq_true in H1.
    rewrite (run_bind _ _ _ _ _ (run_node _ _ _ E)).
    rewrite (bool_decide_eq_true_2 _ H1).
    rewrite (run_bind _ _ _ _ _ (run_ret _ _)).
    unfold dom_firstChild.
    erewrite run_bind; last first.
    { rewrite (run_bind _ _ _ _ _ (run_node _ _ _ E)). reflexivity. }
    destruct (head (childNodes n)) as [fc|]; [|done].
    destruct (nodes w !! fc) as [cn|] eqn:Ec; [|done].
    rewrite (run_bind _ _ _ _ _ (run_node _ _ _ Ec)).
    rewrite (run_bind _ _ _ _ _ (run_node _ _ _ E)).
    by rewrite H2. }
  destruct (bool_decide (___nodeName toEl = "select")); [|done].
  unfold special_select. destruct (___hasAttribute toEl "multiple"); [done|].
  simpl in H. apply bool_decide_eq_true in H.
  rewrite (run_bind _ _ _ _ _ (run_node _ _ _ E)).
  by rewrite (bool_decide_eq_true_2 _ H).
Qed.

End morph_handlers.
Section morph_synced.
Import Morph.

Variable nodes : gmap nat dnode.
Variable data : gmap nat domdata.
Variable parentComponent : option string.

(** [curToNodeChild.___ownerComponent || parentComponent] *)
Definition owner_of (owner : option string) : option string :=
  match owner with
  | Some o => Some o
  | None => parentComponent
  end.

(** The key the pass gives a virtual element with the truthy key
    [key], and the key sequences afterwards; [None] when there is no
    reference component. *)
Definition resolve (toEl : velement) (key : string) (seqs : gmap string KeySequence.t)
  : option (string * gmap string KeySequence.t) :=
  let ownerComponent := owner_of (___ownerComponent toEl) in
  let '(key, referenceComponent) :=
    if isAutoKey key then
      (if bool_decide (ownerComponent = parentComponent) then key
       else key +:+ ":" +:+ default "" ownerComponent,
       parentComponent)
    else (key, ownerComponent) in
  match referenceComponent with
  | Some id =>
      if bool_decide (id ∈ JsObject.prototype_names) then None
      else Some (KeySequence.next_in_pass id key seqs)
  | None => None
  end.

(** The key kept for the real node is the key the pass resolves for
    the virtual element; an element without a key has met no keyed
    element and no root of a component. *)
Definition key_synced (d : domdata) (vFromEl toEl : velement)
    (seqs : gmap string KeySequence.t) : option (gmap string KeySequence.t) :=
  match truthy_key (___key toEl) with
  | Some key =>
      match resolve toEl key seqs with
      | Some (key, seqs) => if bool_decide (d_key d = Some key) then Some seqs else None
      | None => None
      end
  | None =>
      if bool_decide (d_component d = None)
         && bool_decide (truthy_key (___key vFromEl) = None)
      then Some seqs else None
  end.

Definition same_constId (vFromEl toEl : velement) : bool :=
  match ___constId toEl with
  | Some i => bool_decide (___constId vFromEl = Some i)
  | None => false
  end.

(** The real node [c], a child of [parent], is what the virtual node
    [v] describes, and so is everything below that the reconciler
    compares them by: the kind of node, the text, the key the pass
    resolves (the key sequences are threaded through the nodes in
    document order, and the result is those after [v]), the tag name,
    the attributes, the children in their order and the properties of a
    form control.  Below a pair with matching constant ids nothing is
    compared. *)
Fixpoint synced_node (parent : nat) (v : vnode) (c : nat)
    (seqs : gmap string KeySequence.t) {struct v} : option (gmap string KeySequence.t) :=
  let synced_list :=
    fix go (vs : list vnode) (p : nat) (cs : list nat) (seqs : gmap string KeySequence.t)
      : option (gmap string KeySequence.t) :=
      match vs, cs with
      | [], [] => Some seqs
      | v :: vs, c :: cs =>
          match synced_node p v c seqs with
          | Some seqs => go vs p cs seqs
          | None => None
          end
      | _, _ => None
      end in
  match nodes !! c with
  | None => None
  | Some n =>
      let d := default no_data (data !! c) in
      if negb (bool_decide (parentNode n = Some parent)) then None
      else
        match v with
        | VText text _ | VComment text _ =>
            if bool_decide (nodeType n = v___nodeType v)
               && bool_decide (d_component d = None)
               && bool_decide (nodeValue n = Some text)
            then Some seqs else None
        | VElement toEl toChildren =>
            match d_vElement d with
            | None => None
            | Some vFromEl =>
                if negb (bool_decide (nodeType n = ELEMENT_NODE)
                         && bool_decide (___nodeName vFromEl = ___nodeName toEl))
                then None
                else
                  match key_synced d vFromEl toEl seqs
                  with
                  | None => None
                  | Some seqs =>
                      if same_constId vFromEl toEl then Some seqs
                      else if negb (attrs_synced n vFromEl toEl) then None
                      else
                        match
                          if bool_decide (___nodeName toEl = "textarea") then Some seqs
                          else if bool_decide (NoDup (childNodes n))
                               then synced_list toChildren c (childNodes n) seqs
                               else None
                        with
                        | None => None
                        | Some seqs =>
                            if handler_synced nodes n toEl toChildren then Some seqs
                            else None
                        end
                  end
            end
        | VFragment _ _ | VComponent _ _ _ => None
        end
  end.

Fixpoint synced_list (vs : list vnode) (p : nat) (cs : list nat)
    (seqs : gmap string KeySequence.t) : option (gmap string KeySequence.t) :=
  match vs, cs with
  | [], [] => Some seqs
  | v :: vs, c :: cs =>
      match synced_node p v c seqs with
      | Some seqs => synced_list vs p cs seqs
      | None => None
      end
  | _, _ => None
  end.

(** The real nodes the comparison reads. *)
Fixpoint footprint (v : vnode) (c : nat) {struct v} : list nat :=
  let footprints :=
    fix go (vs : list vnode) (cs : list nat) : list nat :=
      match vs, cs with
      | v :: vs, c :: cs => (footprint v c ++ go vs cs)%list
      | _, _ => []
      end in
  c :: match v, nodes !! c with
       | VElement toEl toChildren, Some n =>
           if bool_decide (___nodeName toEl = "textarea")
           then option_list (head (childNodes n))
           else footprints toChildren (childNodes n)
       | _, _ => []
       end.

Fixpoint footprints (vs : list vnode) (cs : list nat) : list nat :=
  match vs, cs with
  | v :: vs, c :: cs => (footprint v c ++ footprints vs cs)%list
  | _, _ => []
  end.

(** What is compared below a pair of elements. *)
Definition below (n : dnode) (vFromEl toEl : velement) (toChildren : list vnode)
    (c : nat) (seqs : gmap string KeySequence.t) : option (gmap string KeySequence.t) :=
  if same_constId vFromEl toEl then Some seqs
  else if negb (attrs_synced n vFromEl toEl) then None
  else
    match
      if bool_decide (___nodeName toEl = "textarea") then Some seqs
      else if bool_decide (NoDup (childNodes n))
           then synced_list toChildren c (childNodes n) seqs
           else None
    with
    | None => None
    | Some seqs => if handler_synced nodes n toEl toChildren then Some seqs else None
    end.

Lemma synced_node_element (parent : nat) (toEl : velement) (toChildren : list vnode)
    (c : nat) (seqs : gmap string KeySequence.t) :
  synced_node parent (VElement toEl toChildren) c seqs
  = match nodes !! c with
    | None => None
    | Some n =>
        let d := default no_data (data !! c) in
        if negb (bool_decide (parentNode n = Some parent)) then None
        else
          match d_vElement d with
          | None => None
          | Some vFromEl =>
              if negb (bool_decide (nodeType n = ELEMENT_NODE)
                       && bool_decide (___nodeName vFromEl = ___nodeName toEl))
              then None
              else
                match key_synced d vFromEl toEl seqs with
                | None => None
                | Some seqs => below n vFromEl toEl toChildren c seqs
                end
          end
    end.
Proof. reflexivity. Qed.

Lemma footprint_element (toEl : velement) (toChildren : list vnode) (c : nat) :
  footprint (VElement toEl toChildren) c
  = c :: match nodes !! c with
         | Some n =>
             if bool_decide (___nodeName toEl = "textarea")
             then option_list (head (childNodes n))
             else footprints toChildren (childNodes n)
         | None => []
         end.
Proof. reflexivity. Qed.

(** The depth of a virtual tree. *)
Fixpoint height (v : vnode) : nat :=
  match v with
  | VElement _ children | VFragment _ children | VComponent _ _ children =>
      S (max_list (height <$> children))
  | VText _ _ | VComment _ _ => 1
  end.

End morph_synced.
Section morph_frame.
Import Morph.

Lemma vnode_ind' (P : vnode → Prop) :
  (∀ el children, Forall P children → P (VElement el children)) →
  (∀ text owner, P (VText text owner)) →
  (∀ text owner, P (VComment text owner)) →
  (∀ key children, Forall P children → P (VFragment key children)) →
  (∀ component key children, Forall P children → P (VComponent component key children)) →
  ∀ v, P v.
Proof.
  intros Hel Ht Hc Hf Hco. fix IH 1. intros [el kids|t o|t o|k kids|c k kids].
  - apply Hel. revert kids. fix IHk 1. intros [|v kids]; constructor; [apply IH|apply IHk].
  - apply Ht.
  - apply Hc.
  - apply Hf. revert kids. fix IHk 1. intros [|v kids]; constructor; [apply IH|apply IHk].
  - apply Hco. revert kids. fix IHk 1. intros [|v kids]; constructor; [apply IH|apply IHk].
Qed.

Lemma handler_synced_ext (N N' : gmap nat dnode) (n : dnode) (toEl : velement)
    (toChildren : list vnode) :
  (___nodeName toEl = "textarea" →
   ∀ c, head (childNodes n) = Some c → N' !! c = N !! c) →
  handler_synced N' n toEl toChildren = handler_synced N n toEl toChildren.
Proof.
  intros H. unfold handler_synced.
  destruct (bool_decide (___nodeName toEl = "option")); [done|].
  destruct (bool_decide (___nodeName toEl = "button")); [done|].
  destruct (bool_decide (___nodeName toEl = "input")); [done|].
  destruct (bool_decide (___nodeName toEl = "textarea")) eqn:Ht; [|done].
  apply bool_decide_eq_true in Ht.
  destruct (head (childNodes n)) as [c|]; [|done].
  by rewrite (H Ht c eq_refl).
Qed.

(** The comparison reads the document and the data of the nodes at the
    nodes of the footprint only. *)
Lemma synced_node_ext (N N' : gmap nat dnode) (D D' : gmap nat domdata)
    (pc : option string) (v : vnode) :
  ∀ (parent c : nat) (seqs : gmap string KeySequence.t),
    (∀ x, x ∈ footprint N v c → N' !! x = N !! x ∧ D' !! x = D !! x) →
    synced_node N' D' pc parent v c seqs = synced_node N D pc parent v c seqs
    ∧ footprint N' v c = footprint N v c.
Proof.
  induction v as [toEl kids IH|text owner|text owner|key kids _|component key kids _]
    using vnode_ind'; intros parent c seqs H.
  - rewrite !synced_node_element, !footprint_element.
    rewrite footprint_element in H.
    destruct (H c ltac:(left)) as [-> ->].
    destruct (N !! c) as [n|] eqn:En; [|done].
    assert (∀ cs seqs,
      (∀ x, x ∈ footprints N kids cs → N' !! x = N !! x ∧ D' !! x = D !! x) →
      synced_list N' D' pc kids c cs seqs = synced_list N D pc kids c cs seqs
      ∧ footprints N' kids cs = footprints N kids cs) as Hkids.
    { clear H. induction IH as [|v kids Hv _ IHkids]; intros cs seqs' H.
      - by destruct cs.
      - destruct cs as [|c' cs]; [done|]. simpl in *.
        destruct (Hv c c' seqs') as [-> ->].
        { intros x Hx. apply H, elem_of_app. by left. }
        split.
        + destruct (synced_node N D pc c v c' seqs'); [|done].
          apply IHkids. intros x Hx. apply H, elem_of_app. by right.
        + f_equal. apply (IHkids cs seqs'). intros x Hx. apply H, elem_of_app. by right. }
    split.
    + simpl. destruct (negb _); [done|].
      destruct (d_vElement _) as [vFromEl|]; [|done].
      destruct (negb _); [done|].
      destruct (key_synced _ _ _ _) as [seqs1|]; [|done].
      unfold below. destruct (same_constId vFromEl toEl); [done|].
      destruct (negb _); [done|].
      case_bool_decide as Ht.
      * rewrite (handler_synced_ext N N'); [done|].
        intros _ fc Hfc. apply H. right. rewrite Hfc. by left.
      * rewrite (handler_synced_ext N N') by done.
        case_bool_decide; [|done].
        destruct (Hkids (childNodes n) seqs1) as [-> _]; [|done].
        intros x Hx. apply H. by right.
    + f_equal. case_bool_decide; [done|].
      apply (Hkids (childNodes n) seqs). intros x Hx. apply H. by right.
  - simpl in *. by destruct (H c ltac:(left)) as [-> ->].
  - simpl in *. by destruct (H c ltac:(left)) as [-> ->].
  - simpl in *. destruct (H c ltac:(left)) as [-> _].
    by destruct (N !! c) as [n|]; [destruct (negb _)|].
  - simpl in *. destruct (H c ltac:(left)) as [-> _].
    by destruct (N !! c) as [n|]; [destruct (negb _)|].
Qed.

Lemma synced_list_ext (N N' : gmap nat dnode) (D D' : gmap nat domdata)
    (pc : option string) (vs : list vnode) :
  ∀ (p : nat) (cs : list nat) (seqs : gmap string KeySequence.t),
    (∀ x, x ∈ footprints N vs cs → N' !! x = N !! x ∧ D' !! x = D !! x) →
    synced_list N' D' pc vs p cs seqs = synced_list N D pc vs p cs seqs
    ∧ footprints N' vs cs = footprints N vs cs.
Proof.
  induction vs as [|v vs IH]; intros p cs seqs H; [by destruct cs|].
  destruct cs as [|c cs]; [done|]. simpl in *.
  destruct (synced_node_ext N N' D D' pc v p c seqs) as [-> ->].
  { intros x Hx. apply H, elem_of_app. by left. }
  split.
  - destruct (synced_node N D pc p v c seqs); [|done].
    apply IH. intros x Hx. apply H, elem_of_app. by right.
  - f_equal. apply (IH p cs seqs). intros x Hx. apply H, elem_of_app. by right.
Qed.

End morph_frame.
Section morph_quiet.
Import Morph.

(** From [w] to [w'] nothing changed in the document and nothing was
    recorded; the key sequences are [seqs], and the data of the nodes
    changed at nodes of [fp] only. *)
Record silent (fp : list nat) (seqs : gmap string KeySequence.t) (w w' : world)
  : Prop := {
  silent_nodes : nodes w' = nodes w;
  silent_mutations : mutations w' = mutations w;
  silent_keyed : keyedElements w' = keyedElements w;
  silent_detached : detachedNodes w' = detachedNodes w;
  silent_next : next_node w' = next_node w;
  silent_hydrate : isHydrate w' = isHydrate w;
  silent_seqs : keySequences w' = seqs;
  silent_data : ∀ x, x ∉ fp → data w' !! x = data w !! x;
  silent_flags : ∀ x, d_detached (default no_data (data w' !! x))
                      = d_detached (default no_data (data w !! x))
}.

Lemma silent_refl (fp : list nat) (w : world) : silent fp (keySequences w) w w.
Proof. by split. Qed.

Lemma silent_trans (fp1 fp2 fp : list nat) (s1 s2 : gmap string KeySequence.t)
    (w w1 w2 : world) :
  silent fp1 s1 w w1 → silent fp2 s2 w1 w2 → fp1 ⊆ fp → fp2 ⊆ fp → silent fp s2 w w2.
Proof.
  intros [] [] H1 H2. split; try congruence.
  intros x Hx. rewrite silent_data1, silent_data0; [done|..]; set_solver.
Qed.

Lemma singleton_subseteq_cons (c : nat) (l : list nat) : [c] ⊆ c :: l.
Proof. intros x Hx. apply list_elem_of_singleton in Hx as ->. by left. Qed.

Lemma subseteq_cons_r (c : nat) (l : list nat) : l ⊆ c :: l.
Proof. intros x Hx. by right. Qed.

Lemma silent_remember (c : nat) (toEl : velement) (w : world) :
  silent [c] (keySequences w) w (remember c toEl w).
Proof.
  split; try done.
  - intros x Hx. simpl. apply lookup_insert_ne. set_solver.
  - intros x. simpl. destruct (decide (c = x)) as [->|Hx].
    + by rewrite lookup_insert_eq.
    + by rewrite lookup_insert_ne.
Qed.

Lemma silent_set_keySequences (seqs : gmap string KeySequence.t) (w : world) :
  silent [] seqs w (set_keySequences seqs w).
Proof. by split. Qed.

(** [rec] reconciles the children of a node that are up to date, for
    virtual trees of a depth below [bound], without a change to the
    document. *)
Definition reconciles (rec : nat → list vnode → option string → M unit) (bound : nat)
    (pc : option string) : Prop :=
  ∀ (p : nat) (pn : dnode) (kids : list vnode) (w : world)
    (seqs' : gmap string KeySequence.t),
    nodes w !! p = Some pn → nodeType pn ≠ FRAGMENT_NODE → NoDup (childNodes pn) →
    synced_list (nodes w) (data w) pc kids p (childNodes pn) (keySequences w)
    = Some seqs' →
    NoDup (footprints (nodes w) kids (childNodes pn)) →
    isHydrate w = false →
    max_list (height <$> kids) < bound →
    ∃ w', rec p kids pc w = (Done (), w')
          ∧ silent (footprints (nodes w) kids (childNodes pn)) seqs' w w'.

Lemma morphEl_synced (rec : nat → list vnode → option string → M unit) (bound : nat)
    (pc : option string) (c : nat) (n : dnode) (vFromEl toEl : velement)
    (kids : list vnode) (key owner : option string) (w : world)
    (seqs' : gmap string KeySequence.t) :
  reconciles rec bound pc →
  nodes w !! c = Some n → nodeType n = ELEMENT_NODE →
  below (nodes w) (data w) pc n vFromEl toEl kids c (keySequences w) = Some seqs' →
  NoDup (footprint (nodes w) (VElement toEl kids) c) →
  isHydrate w = false →
  max_list (height <$> kids) < bound →
  ∃ w', morphEl rec c vFromEl toEl kids key owner pc w = (Done (), w')
        ∧ silent (footprint (nodes w) (VElement toEl kids) c) seqs' w w'.
Proof.
  intros Hrec En Hty Hbelow Hfp Hh Hheight.
  unfold morphEl. rewrite (run_bind _ _ _ _ _ (run_get_world _)), Hh.
  rewrite (run_bind _ _ _ _ _ (run_ret _ _)).
  unfold below in Hbelow. fold (same_constId vFromEl toEl).
  destruct (same_constId vFromEl toEl).
  { injection Hbelow as <-. exists w. split; [done|apply silent_refl]. }
  destruct (attrs_synced n vFromEl toEl) eqn:Hattrs; [|done]. simpl in Hbelow.
  rewrite (run_bind _ _ _ _ _ (morphAttrs_synced _ _ _ _ _ En Hattrs)).
  rewrite footprint_element, En in Hfp |- *.
  pose proof (silent_remember c toEl w) as Hq.
  destruct (bool_decide (___nodeName toEl = "textarea")).
  - destruct (handler_synced (nodes w) n toEl kids) eqn:Hhandler; [|done].
    injection Hbelow as <-.
    rewrite (run_bind _ _ _ _ _ (run_ret _ _)).
    exists (remember c toEl w). split.
    + by apply specialElHandler_synced with n.
    + eapply silent_trans;
        [exact Hq|apply (silent_refl [] (remember c toEl w))
        |apply singleton_subseteq_cons|apply list_subseteq_nil].
  - destruct (bool_decide (NoDup (childNodes n))) eqn:Hnd; [|done].
    apply bool_decide_eq_true in Hnd.
    destruct (synced_list (nodes w) (data w) pc kids c (childNodes n) (keySequences w))
      as [seqs2|] eqn:Hkids; [|done].
    destruct (handler_synced (nodes w) n toEl kids) eqn:Hhandler; [|done].
    injection Hbelow as <-.
    apply NoDup_cons in Hfp as [Hc Hfp].
    destruct (synced_list_ext (nodes w) (nodes (remember c toEl w)) (data w)
                (data (remember c toEl w)) pc kids c (childNodes n) (keySequences w))
      as [Hs Hf].
    { intros x Hx. split; [done|]. simpl. apply lookup_insert_ne. by intros ->. }
    assert (nodeType n ≠ FRAGMENT_NODE) as Hnf by (by rewrite Hty).
    destruct (Hrec c n kids (remember c toEl w) seqs2 En Hnf Hnd
                (eq_trans Hs Hkids) Hfp Hh Hheight) as (w2 & Hrun & Hq2).
    rewrite (run_bind _ _ _ _ _ Hrun). exists w2. split.
    + apply specialElHandler_synced with n.
      * by rewrite (silent_nodes _ _ _ _ Hq2).
      * by rewrite (silent_nodes _ _ _ _ Hq2).
    + eapply silent_trans;
        [exact Hq|exact Hq2|apply singleton_subseteq_cons|apply subseteq_cons_r].
Qed.

End morph_quiet.
Section morph_scan.
Import Morph.

Lemma synced_node_inv (N : gmap nat dnode) (D : gmap nat domdata) (pc : option string)
    (p : nat) (v : vnode) (c : nat) (seqs seqs1 : gmap string KeySequence.t) :
  synced_node N D pc p v c seqs = Some seqs1 →
  ∃ n, N !! c = Some n ∧ parentNode n = Some p ∧
       let d := default no_data (D !! c) in
       match v with
       | VText text _ | VComment text _ =>
           nodeType n = v___nodeType v ∧ d_component d = None ∧
           nodeValue n = Some text ∧ seqs1 = seqs
       | VElement toEl kids =>
           ∃ vFromEl seqs0,
             d_vElement d = Some vFromEl ∧ nodeType n = ELEMENT_NODE ∧
             ___nodeName vFromEl = ___nodeName toEl ∧
             key_synced pc d vFromEl toEl seqs = Some seqs0 ∧
             below N D pc n vFromEl toEl kids c seqs0 = Some seqs1
       | _ => False
       end.
Proof.
  destruct v as [toEl kids|text owner|text owner|key kids|component key kids].
  - rewrite synced_node_element. destruct (N !! c) as [n|]; [|done]. simpl.
    case_bool_decide as Hp; [|done]. simpl.
    destruct (d_vElement _) as [vFromEl|]; [|done].
    destruct (bool_decide (nodeType n = ELEMENT_NODE)) eqn:Hty; [|done].
    destruct (bool_decide (___nodeName vFromEl = ___nodeName toEl)) eqn:Hname; [|done].
    apply bool_decide_eq_true in Hty, Hname. simpl.
    destruct (key_synced _ _ _ _ _) as [seqs0|] eqn:Hkey; [|done].
    intros Hbelow. exists n. split_and!; try done. by exists vFromEl, seqs0.
  - simpl. destruct (N !! c) as [n|]; [|done].
    case_bool_decide as Hp; [|done]. simpl.
    destruct (bool_decide (nodeType n = TEXT_NODE)) eqn:Hty; [|done].
    destruct (bool_decide (d_component _ = None)) eqn:Hc; [|done].
    destruct (bool_decide (nodeValue n = Some text)) eqn:Hv; [|done].
    apply bool_decide_eq_true in Hty, Hc, Hv. intros [= <-]. by exists n.
  - simpl. destruct (N !! c) as [n|]; [|done].
    case_bool_decide as Hp; [|done]. simpl.
    destruct (bool_decide (nodeType n = COMMENT_NODE)) eqn:Hty; [|done].
    destruct (bool_decide (d_component _ = None)) eqn:Hc; [|done].
    destruct (bool_decide (nodeValue n = Some text)) eqn:Hv; [|done].
    apply bool_decide_eq_true in Hty, Hc, Hv. intros [= <-]. by exists n.
  - simpl. destruct (N !! c) as [n|]; [|done]. by destruct (negb _).
  - simpl. destruct (N !! c) as [n|]; [|done]. by destruct (negb _).
Qed.

(** The real node at the cursor, up to date for an unkeyed virtual
    node, is found compatible, and nothing is written. *)
Lemma compare_unkeyed_synced (rec : nat → list vnode → option string → M unit)
    (bound : nat) (pc owner : option string) (p : nat) (v : vnode) (c : nat)
    (seqs1 : gmap string KeySequence.t) (w : world) :
  reconciles rec bound pc →
  truthy_key (v___key v) = None →
  synced_node (nodes w) (data w) pc p v c (keySequences w) = Some seqs1 →
  NoDup (footprint (nodes w) v c) →
  isHydrate w = false →
  (height v ≤ bound)%nat →
  ∃ w1, compare_unkeyed rec c v owner pc w = (Done Compatible, w1)
        ∧ silent (footprint (nodes w) v c) seqs1 w w1
        ∧ d_component (default no_data (data w !! c)) = None.
Proof.
  intros Hrec Hkey Hs Hfp Hh Hheight.
  destruct (synced_node_inv _ _ _ _ _ _ _ _ Hs) as (n & En & Hp & Hv).
  unfold compare_unkeyed.
  rewrite (run_bind _ _ _ _ _ (run_get_data _ _)).
  rewrite (run_bind _ _ _ _ _ (run_node _ _ _ En)).
  destruct v as [toEl kids|text o|text o|k kids|co k kids]; simpl in Hv; try done.
  - destruct Hv as (vFromEl & seqs0 & Hd & Hty & Hname & Hks & Hbelow).
    rewrite Hty, bool_decide_eq_true_2 by done. rewrite Hd.
    unfold key_synced in Hks. simpl in Hkey. rewrite Hkey in Hks.
    destruct (bool_decide (d_component _ = None)) eqn:Hc; [|done].
    destruct (bool_decide (truthy_key (___key vFromEl) = None)) eqn:Hk; [|done].
    apply bool_decide_eq_true in Hc, Hk. injection Hks as <-.
    rewrite Hk. rewrite bool_decide_eq_false_2 by (by intros [? ?]).
    rewrite (bool_decide_eq_true_2 _ Hname).
    destruct (morphEl_synced rec bound pc c n vFromEl toEl kids None owner w seqs1
                Hrec En Hty Hbelow Hfp Hh) as (w1 & Hrun & Hq).
    { simpl in Hheight. lia. }
    rewrite (run_bind _ _ _ _ _ Hrun). by exists w1.
  - destruct Hv as (Hty & Hc & Hval & ->). rewrite Hty.
    rewrite bool_decide_eq_true_2 by done.
    rewrite (bool_decide_eq_true_2 _ Hval).
    rewrite (run_bind _ _ _ _ _ (run_ret _ _)).
    exists w. split_and!; [done|apply silent_refl|done].
  - destruct Hv as (Hty & Hc & Hval & ->). rewrite Hty.
    rewrite bool_decide_eq_true_2 by done.
    rewrite (bool_decide_eq_true_2 _ Hval).
    rewrite (run_bind _ _ _ _ _ (run_ret _ _)).
    exists w. split_and!; [done|apply silent_refl|done].
Qed.

(** The scan for an unkeyed virtual node stops at the first real node. *)
Lemma scan_synced (rec : nat → list vnode → option string → M unit)
    (fuel : nat) (pc owner : option string) (p : nat) (pn : dnode) (v : vnode) (c : nat)
    (fns : option nat) (seqs1 : gmap string KeySequence.t) (w : world) :
  reconciles rec (S fuel) pc →
  nodes w !! p = Some pn →
  truthy_key (v___key v) = None →
  synced_node (nodes w) (data w) pc p v c (keySequences w) = Some seqs1 →
  NoDup (footprint (nodes w) v c) →
  isHydrate w = false →
  (height v ≤ S fuel)%nat →
  ∃ w1, scan rec (S fuel) v owner pc (Some c) fns w
        = (Done (true, next_in (childNodes pn) c), w1)
        ∧ silent (footprint (nodes w) v c) seqs1 w w1.
Proof.
  intros Hrec Ep Hkey Hs Hfp Hh Hheight.
  destruct (synced_node_inv _ _ _ _ _ _ _ _ Hs) as (n & En & Hp & _).
  destruct (compare_unkeyed_synced rec (S fuel) pc owner p v c seqs1 w
              Hrec Hkey Hs Hfp Hh Hheight) as (w1 & Hrun & Hq & Hc).
  simpl.
  rewrite (run_bind _ _ _ _ _ (run_nextSibling _ _ _ _ _ En Hp Ep)).
  rewrite (run_bind _ _ _ _ _ (run_get_data _ _)), Hc.
  rewrite (run_bind _ _ _ _ _ Hrun). by exists w1.
Qed.

End morph_scan.
Section morph_keyed.
Import Morph.

(** A keyed virtual element whose real element is at the cursor: the
    keys line up and the pair is reconciled in place. *)
Lemma keyed_step_synced (rec : nat → list vnode → option string → M unit)
    (bound fuel : nat) (pc : option string) (p : nat) (pn : dnode) (toEl : velement)
    (kids : list vnode) (toNextSibling : option vnode) (key : string) (c : nat)
    (fns : option nat) (seqs1 : gmap string KeySequence.t) (w : world) :
  reconciles rec bound pc →
  nodes w !! p = Some pn →
  truthy_key (___key toEl) = Some key →
  synced_node (nodes w) (data w) pc p (VElement toEl kids) c (keySequences w)
  = Some seqs1 →
  NoDup (footprint (nodes w) (VElement toEl kids) c) →
  isHydrate w = false →
  (height (VElement toEl kids) ≤ bound)%nat →
  ∃ w1, keyed_step rec fuel p pc toEl kids toNextSibling
          (owner_of pc (___ownerComponent toEl)) key (Some c) fns w
        = (Done (next_in (childNodes pn) c), w1)
        ∧ silent (footprint (nodes w) (VElement toEl kids) c) seqs1 w w1.
Proof.
  intros Hrec Ep Hkey Hs Hfp Hh Hheight.
  destruct (synced_node_inv _ _ _ _ _ _ _ _ Hs)
    as (n & En & Hp & vFromEl & seqs0 & Hd & Hty & Hname & Hks & Hbelow).
  unfold key_synced in Hks. rewrite Hkey in Hks.
  unfold resolve in Hks. unfold keyed_step.
  destruct (if isAutoKey key
            then (if bool_decide (owner_of pc (___ownerComponent toEl) = pc) then key
                  else key +:+ ":" +:+ default "" (owner_of pc (___ownerComponent toEl)),
                  pc)
            else (key, owner_of pc (___ownerComponent toEl))) as [key1 [id|]];
    [|done].
  case_bool_decide as Hid; [done|].
  destruct (KeySequence.next_in_pass id key1 (keySequences w)) as [key2 seqs2] eqn:Hnext.
  case_bool_decide as Hdk; [|done]. injection Hks as ->.
  unfold the_component.
  erewrite run_bind; last first.
  { rewrite (run_bind _ _ _ _ _ (run_plain_name _ _ Hid)). reflexivity. }
  rewrite (run_bind _ _ _ _ _ (run_get_world _)), Hnext.
  rewrite (run_bind _ _ _ _ _ (run_modify _ _)).
  set (w0 := set_keySequences seqs0 w).
  assert (nodes w0 !! c = Some n) as En0 by done.
  assert (nodes w0 !! p = Some pn) as Ep0 by done.
  erewrite run_bind; last first.
  { rewrite (run_bind _ _ _ _ _ (run_get_data _ _)).
    rewrite (run_bind _ _ _ _ _ (run_nextSibling _ _ _ _ _ En0 Hp Ep0)).
    reflexivity. }
  simpl. rewrite (bool_decide_eq_true_2 _ Hdk), Hd.
  rewrite bool_decide_eq_true_2 by done.
  destruct (morphEl_synced rec bound pc c n vFromEl toEl kids (Some key2)
              (owner_of pc (___ownerComponent toEl)) w0 seqs1 Hrec En0 Hty Hbelow Hfp Hh)
    as (w1 & Hrun & Hq).
  { simpl in Hheight. lia. }
  rewrite (run_bind _ _ _ _ _ Hrun). exists w1. split; [done|].
  eapply silent_trans; [apply (silent_set_keySequences seqs0 w)|exact Hq|..].
  - apply list_subseteq_nil.
  - done.
Qed.

End morph_keyed.
Section morph_outer.
Import Morph.

Lemma height_positive (v : vnode) : (1 ≤ height v)%nat.
Proof. destruct v; simpl; lia. Qed.

(** The outer loop over virtual children that are up to date walks the
    real children one by one and leaves the cursor at the end. *)
Lemma outer_synced (rec : nat → list vnode → option string → M unit) (fuel : nat)
    (pc : option string) (p : nat) (pn : dnode) :
  reconciles rec fuel pc →
  ∀ (vs : list vnode) (cs pre : list nat) (w : world)
    (seqs' : gmap string KeySequence.t) (fns : option nat),
    nodes w !! p = Some pn → childNodes pn = (pre ++ cs)%list → NoDup (childNodes pn) →
    synced_list (nodes w) (data w) pc vs p cs (keySequences w) = Some seqs' →
    NoDup (footprints (nodes w) vs cs) →
    isHydrate w = false →
    (max_list (height <$> vs) ≤ fuel)%nat →
    ∃ w', outer rec fuel p pc vs (head cs) fns w = (Done None, w')
          ∧ silent (footprints (nodes w) vs cs) seqs' w w'.
Proof.
  intros Hrec. induction vs as [|v vs IH];
    intros cs pre w seqs' fns Ep Hcs Hnd Hs Hfp Hh Hheight.
  { destruct cs; [|done]. injection Hs as <-. exists w.
    split; [done|apply silent_refl]. }
  destruct cs as [|c cs]; [done|]. simpl in Hs, Hfp.
  destruct (synced_node (nodes w) (data w) pc p v c (keySequences w))
    as [seqs1|] eqn:Hv; [|done].
  rewrite fmap_cons in Hheight. simpl in Hheight.
  pose proof (height_positive v) as Hpos.
  destruct fuel as [|fuel]; [lia|].
  apply NoDup_app in Hfp as (Hfpv & Hdisj & Hfprest).
  assert (next_in (childNodes pn) c = head cs) as Hnext.
  { rewrite Hcs. apply next_in_app. rewrite Hcs in Hnd.
    apply NoDup_app in Hnd as (_ & Hnd & _). intros Hc. apply (Hnd c Hc). by left. }
  destruct (synced_node_inv _ _ _ _ _ _ _ _ Hv) as (n & En & Hp & Hkind).
  assert (∃ w1, outer rec (S fuel) p pc (v :: vs) (Some c) fns w
                = outer rec (S fuel) p pc vs (head cs) (head cs) w1
                ∧ silent (footprint (nodes w) v c) seqs1 w w1) as (w1 & Hstep & Hq).
  { cbn [outer].
    assert (nodeType n ≠ DOCTYPE_NODE) as Hdoc.
    { destruct v; simpl in Hkind; try done.
      - destruct Hkind as (? & ? & _ & -> & _). done.
      - destruct Hkind as (-> & _). done.
      - destruct Hkind as (-> & _). done. }
    erewrite run_bind; last first.
    { rewrite (run_bind _ _ _ _ _ (run_node _ _ _ En)).
      rewrite (bool_decide_eq_false_2 _ Hdoc). reflexivity. }
    destruct v as [toEl kids|text o|text o|k kids|co k kids]; try done.
    - destruct (truthy_key (___key toEl)) as [key|] eqn:Hkey.
      + destruct (keyed_step_synced rec (S fuel) (S fuel) pc p pn toEl kids (head vs)
                    key c fns seqs1 w Hrec Ep Hkey Hv Hfpv Hh) as (w1 & Hrun & Hq);
          [lia|].
        unfold owner_of in Hrun. simpl v___ownerComponent.
        rewrite (run_bind _ _ _ _ _ Hrun), Hnext. by exists w1.
      + destruct (scan_synced rec fuel pc
                    match ___ownerComponent toEl with
                    | Some o => Some o
                    | None => pc
                    end p pn (VElement toEl kids) c fns seqs1 w Hrec Ep Hkey Hv Hfpv Hh)
          as (w1 & Hrun & Hq); [lia|].
        simpl v___ownerComponent.
        rewrite (run_bind _ _ _ _ _ Hrun). simpl.
        rewrite (run_bind _ _ _ _ _ (run_ret _ _)), Hnext. by exists w1.
    - destruct (scan_synced rec fuel pc
                  match o with
                  | Some o => Some o
                  | None => pc
                  end p pn (VText text o) c fns seqs1 w Hrec Ep eq_refl Hv Hfpv Hh)
        as (w1 & Hrun & Hq); [lia|].
      simpl v___ownerComponent.
      rewrite (run_bind _ _ _ _ _ Hrun). simpl.
      rewrite (run_bind _ _ _ _ _ (run_ret _ _)), Hnext. by exists w1.
    - destruct (scan_synced rec fuel pc
                  match o with
                  | Some o => Some o
                  | None => pc
                  end p pn (VComment text o) c fns seqs1 w Hrec Ep eq_refl Hv Hfpv Hh)
        as (w1 & Hrun & Hq); [lia|].
      simpl v___ownerComponent.
      rewrite (run_bind _ _ _ _ _ Hrun). simpl.
      rewrite (run_bind _ _ _ _ _ (run_ret _ _)), Hnext. by exists w1. }
  destruct (synced_list_ext (nodes w) (nodes w1) (data w) (data w1) pc vs p cs seqs1)
    as [Hs1 Hf1].
  { intros x Hx. split; [by rewrite (silent_nodes _ _ _ _ Hq)|].
    apply (silent_data _ _ _ _ Hq). intros Hx'. by apply (Hdisj x). }
  destruct (IH cs (pre ++ [c])%list w1 seqs' (head cs)) as (w' & Hrun & Hq').
  - by rewrite (silent_nodes _ _ _ _ Hq).
  - by rewrite <- app_assoc.
  - done.
  - rewrite (silent_seqs _ _ _ _ Hq). by rewrite Hs1.
  - by rewrite Hf1.
  - by rewrite (silent_hydrate _ _ _ _ Hq).
  - lia.
  - exists w'. change (head (c :: cs)) with (Some c). rewrite Hstep. split; [done|].
    change (footprints (nodes w) (v :: vs) (c :: cs))
      with (footprint (nodes w) v c ++ footprints (nodes w) vs cs)%list.
    rewrite Hf1 in Hq'. eapply silent_trans; [exact Hq|exact Hq'|..].
    + apply list_subseteq_app_l. done.
    + apply list_subseteq_app_r. done.
Qed.

End morph_outer.
Section morph_idempotent.
Import Morph.

Lemma body_reconciles (rec : nat → list vnode → option string → M unit) (fuel : nat)
    (pc : option string) :
  reconciles rec fuel pc → reconciles (morphChildren_body rec fuel) (S fuel) pc.
Proof.
  intros Hrec p pn kids w seqs' Ep Hnf Hnd Hs Hfp Hh Hheight.
  unfold morphChildren_body.
  rewrite (run_bind _ _ _ _ _ (run_firstChild _ _ _ Ep)).
  destruct (outer_synced rec fuel pc p pn Hrec kids (childNodes pn) [] w seqs' None)
    as (w' & Hrun & Hq); try done; [lia|].
  rewrite (run_bind _ _ _ _ _ Hrun).
  assert (nodes w' !! p = Some pn) as Ep' by (by rewrite (silent_nodes _ _ _ _ Hq)).
  rewrite (run_bind _ _ _ _ _ (run_node _ _ _ Ep')).
  rewrite (bool_decide_eq_false_2 _ Hnf).
  exists w'. split; [by destruct fuel|done].
Qed.

(** With fuel above the depth of the virtual tree, [morphChildren]
    returns from children that are up to date without a change to the
    document. *)
Lemma morphChildren_reconciles (pc : option string) (fuel : nat) :
  reconciles (morphChildren fuel) fuel pc.
Proof.
  induction fuel as [|fuel IH].
  - intros p pn kids w seqs' _ _ _ _ _ _ Hheight. lia.
  - apply (body_reconciles _ _ _ IH).
Qed.

(** The document below [fromNode] is up to date with the virtual
    children [toChildren]: the real nodes form a tree (no node is met
    twice) that matches the virtual one node by node, as a pass that
    starts with fresh key sequences compares them. *)
Definition up_to_date (w : world) (fromNode : nat) (toChildren : list vnode)
    (component : option string) : bool :=
  match nodes w !! fromNode with
  | Some n =>
      negb (bool_decide (nodeType n = FRAGMENT_NODE))
      && bool_decide (NoDup (childNodes n))
      && bool_decide (is_Some (synced_list (nodes w) (data w) component toChildren
                                 fromNode (childNodes n) ∅))
      && bool_decide (NoDup (footprints (nodes w) toChildren (childNodes n)))
  | None => false
  end.

(** A pass of [morphdom] over the children of an element that are up to
    date with the virtual children it is given (elements, text and
    comments; the tree of the real nodes matches the virtual one in the
    kinds of the nodes, the tag names, the resolved keys and the text;
    every attribute value is strictly equal to the value the previous
    pass saw, or the attribute map is the same object; no element is a
    custom element; the properties of the form controls are as the
    virtual elements say) returns, given fuel above the depth of the
    virtual tree, and leaves the document as it was: no node is
    created, inserted, moved or removed, no attribute is set or
    removed, no text is assigned and no property is set. *)
Theorem reconciliation_idempotent (fuel : nat) (w : world) (fromNode : nat)
    (toChildren : list vnode) (component : option string) :
  up_to_date w fromNode toChildren component = true →
  (max_list (height <$> toChildren) < fuel)%nat →
  ∃ w', morphdom fuel fromNode toChildren component false w = (Done (), w')
        ∧ nodes w' = nodes w ∧ mutations w' = mutations w.
Proof.
  unfold up_to_date. intros Hup Hheight.
  destruct (nodes w !! fromNode) as [n|] eqn:En; [|done].
  apply andb_true_iff in Hup as [[[Hnf Hnd]%andb_true_iff Hs]%andb_true_iff Hfp].
  apply negb_true_iff, bool_decide_eq_false in Hnf.
  apply bool_decide_eq_true in Hnd, Hs, Hfp. destruct Hs as [seqs' Hs].
  unfold morphdom. rewrite (run_bind _ _ _ _ _ (run_modify _ _)).
  set (w0 := {| nodes := nodes w; next_node := next_node w; data := data w;
                keyedElements := keyedElements w; keySequences := ∅;
                detachedNodes := []; mutations := mutations w; isHydrate := false |}).
  destruct (morphChildren_reconciles component fuel fromNode n toChildren w0 seqs'
              En Hnf Hnd Hs Hfp eq_refl Hheight) as (w' & Hrun & Hq).
  rewrite (run_bind _ _ _ _ _ Hrun).
  rewrite (run_bind _ _ _ _ _ (run_get_world _)).
  rewrite (silent_detached _ _ _ _ Hq). exists w'. split_and!.
  - done.
  - apply (silent_nodes _ _ _ _ Hq).
  - apply (silent_mutations _ _ _ _ Hq).
Qed.

End morph_idempotent.
Section morph_examples.
Import Morph.

(** An empty container. *)
Definition empty_page : world :=
  {| nodes := {[ 0%nat := new_dnode ELEMENT_NODE "div" NS_HTML None ]};
     next_node := 1; data := ∅; keyedElements := ∅; keySequences := ∅;
     detachedNodes := []; mutations := []; isHydrate := false |}.

Definition element (name : string) (ref : nat) (own : list (string * attrval))
    (key : jskey) : velement :=
  {| ___nodeName := name; ___attributes := {| a_ref := ref; a_own := own |};
     ___key := key; ___ownerComponent := Some "c0"; ___flags := 0;
     ___constId := None; ___valueInternal := None;
     ___preserveTextAreaValue := false |}.

(** What a template renders: the attribute maps are new objects
    ([ref], [ref + 1], ...) on every run. *)
Definition page (ref : nat) : list vnode :=
  [ VElement (element "div" ref [("class", AString "x"); ("hidden", ABoolean false)]
                (KString "a"))
      [ VText "hello" None;
        VElement (element "input" (ref + 1) [("type", AString "text")] KNull) [] ];
    VComment "list" None;
    VElement (element "ul" (ref + 2) [("tabindex", ANumber 1)] (KString "b"))
      [ VElement (element "li" (ref + 3) [] (KString "item")) [VText "one" None];
        VElement (element "li" (ref + 4) [] (KString "item")) [VText "two" None] ] ].

(** The document after the first pass. *)
Definition rendered : world := (morphdom 5 0 (page 10) (Some "c0") false empty_page).2.

Lemma reconciliation_idempotent_witness :
  ∃ w', morphdom 5 0 (page 20) (Some "c0") false rendered = (Done (), w')
        ∧ nodes w' = nodes rendered ∧ mutations w' = mutations rendered.
Proof.
  apply (reconciliation_idempotent 5 rendered 0 (page 20) (Some "c0")).
  - vm_compute. reflexivity.
  - vm_compute. lia.
Defined.

(** Two attribute values with the same content: objects are compared
    by what they convert to, not by identity. *)
Definition same_value (a b : attrval) : bool :=
  match a, b with
  | AObject _ converted text, AObject _ converted' text' =>
      bool_decide (converted = converted') && bool_decide (text = text')
  | ANaN, ANaN => true
  | _, _ => bool_decide (a = b)
  end.

Fixpoint same_attributes (a b : list (string * attrval)) : bool :=
  match a, b with
  | [], [] => true
  | (k, v) :: a, (k', v') :: b =>
      bool_decide (k = k') && same_value v v' && same_attributes a b
  | _, _ => false
  end.

(** Two virtual trees are value-identical: the same kinds of nodes, tag
    names, keys, attribute maps and text. *)
Fixpoint value_identical (v v' : vnode) : bool :=
  let all :=
    fix go (l l' : list vnode) : bool :=
      match l, l' with
      | [], [] => true
      | x :: l, x' :: l' => value_identical x x' && go l l'
      | _, _ => false
      end in
  match v, v' with
  | VElement el kids, VElement el' kids' =>
      bool_decide (___nodeName el = ___nodeName el')
      && bool_decide (___key el = ___key el')
      && same_attributes (a_own (___attributes el)) (a_own (___attributes el'))
      && all kids kids'
  | VText text _, VText text' _ | VComment text _, VComment text' _ =>
      bool_decide (text = text')
  | VFragment key kids, VFragment key' kids' => bool_decide (key = key') && all kids kids'
  | VComponent c key kids, VComponent c' key' kids' =>
      bool_decide (c = c') && bool_decide (key = key') && all kids kids'
  | _, _ => false
  end.

(** An element with an attribute whose value is an array, a new one on
    every run of the template. *)
Definition gallery (ref : nat) : vnode :=
  VElement (element "img" ref [("data-sizes", AObject (ref + 1) "[1,2]" "1,2")] KNull) [].

(** An attribute whose value is an object.  The second pass is given a
    tree that is value-identical to the tree of the first, and sets the
    attribute again: the reconciler compares attribute values with
    [!==], and the two arrays are not the same object. *)
Lemma object_attribute_is_set_again :
  let first := morphdom 5 0 [gallery 10] (Some "c0") false empty_page in
  let second := morphdom 5 0 [gallery 20] (Some "c0") false first.2 in
  value_identical (gallery 10) (gallery 20) = true ∧
  first.1 = Done () ∧ second.1 = Done () ∧
  mutations second.2
  = (mutations first.2 ++ [AttributeSet 1 "" "data-sizes" "[1,2]"])%list.
Proof. by vm_compute. Qed.

(** An SVG [use] element, as a template renders it: a new attribute
    map on every run, with the same string under [xlink:href]. *)
Definition icon (ref : nat) : vnode :=
  VElement (element "use" ref [("xlink:href", AString "#star")] KNull) [].

(** C1, at an element with the attribute [xlink:href]: reconciliation is
    not idempotent there.  The first pass renders the element into the
    empty container; the second pass is given a value-identical tree
    (the same tag, key and attribute, the value the same string) and
    sets the attribute again.  The attribute loop of [___morphAttrs]
    renames [xlink:href] to [href] before it reads the old attribute
    map, which has the value under [xlink:href]: the comparison finds
    [undefined], as it would on every later pass. *)
Theorem xlink_href_is_set_again :
  let first := morphdom 5 0 [icon 10] (Some "c0") false empty_page in
  let second := morphdom 5 0 [icon 20] (Some "c0") false first.2 in
  value_identical (icon 10) (icon 20) = true ∧
  first.1 = Done () ∧ second.1 = Done () ∧
  mutations first.2
  = [Created 1; AttributeSet 1 NS_XLINK "href" "#star"; InsertedBefore 1 None 0] ∧
  mutations second.2
  = (mutations first.2 ++ [AttributeSet 1 NS_XLINK "href" "#star"])%list.
Proof. by vm_compute. Qed.

End morph_examples.
(** ** morphdom: two keyed siblings that change places *)

Section morph_move.
Import Morph.

Lemma set_parentNode_back (n : dnode) (p : nat) :
  parentNode n = Some p → set_parentNode (Some p) (set_parentNode None n) = n.
Proof. destruct n. simpl. by intros ->. Qed.

Lemma run_unlink (w : world) (x p : nat) (nx : dnode) :
  nodes w !! x = Some nx → parentNode nx = Some p →
  unlink x w
  = (Done (),
     set_nodes (alter (set_parentNode None) x)
       (set_nodes
          (alter (λ pn, set_childNodes (filter (λ y, y ≠ x) (childNodes pn)) pn) p) w)).
Proof.
  intros Ex Hp. unfold unlink. rewrite (run_node_bind _ _ _ _ Ex), Hp.
  unfold update_node. by rewrite (run_bind _ _ _ _ _ (run_modify _ _)).
Qed.

(** [insertBefore] of a child [x] of [p] before another child of [p] (or
    at the end): the children of [p] are reordered, the other nodes are
    as before, and one insertion is recorded. *)
Lemma run_insertBefore (w : world) (p x : nat) (pn nx : dnode) (ref : option nat) :
  nodes w !! p = Some pn → nodes w !! x = Some nx → parentNode nx = Some p → x ≠ p →
  (∀ r, ref = Some r → r ∈ childNodes pn ∧ r ≠ x) →
  ∃ w1 pn',
    insertBefore x ref p w = (Done (), w1) ∧
    nodes w1 !! p = Some pn' ∧
    childNodes pn' = put_before ref x (filter (λ y, y ≠ x) (childNodes pn)) ∧
    nodeType pn' = nodeType pn ∧
    (∀ y, y ≠ p → nodes w1 !! y = nodes w !! y) ∧
    mutations w1 = (mutations w ++ [InsertedBefore x ref p])%list ∧
    data w1 = data w ∧ keyedElements w1 = keyedElements w ∧
    keySequences w1 = keySequences w ∧ detachedNodes w1 = detachedNodes w ∧
    next_node w1 = next_node w ∧ isHydrate w1 = isHydrate w.
Proof.
  intros Ep Ex Hp Hxp Href. unfold insertBefore, dom_insertBefore.
  eexists _, _. split.
  { rewrite (run_node_bind _ _ _ _ Ep).
    rewrite (run_node_bind _ _ _ _ Ex).
    erewrite run_bind; last first.
    { destruct ref as [r|]; [|reflexivity].
      destruct (Href r eq_refl) as [Hr _]. by rewrite bool_decide_eq_true_2. }
    erewrite (run_bind _ _ _ _ ref); last first.
    { destruct ref as [r|]; [|reflexivity].
      destruct (Href r eq_refl) as [_ Hr]. by rewrite decide_False. }
    rewrite (run_bind _ _ _ _ _ (run_unlink _ _ _ _ Ex Hp)).
    unfold update_node, record.
    repeat rewrite (run_bind _ _ _ _ _ (run_modify _ _)).
    rewrite run_modify. reflexivity. }
  simpl. split.
  { rewrite lookup_alter_ne by done. rewrite lookup_alter_eq.
    rewrite lookup_alter_ne by done. rewrite lookup_alter_eq, Ep. reflexivity. }
  simpl. split_and!; try done.
  intros y Hy. destruct (decide (y = x)) as [->|Hyx].
  - rewrite lookup_alter_eq. rewrite lookup_alter_ne by done.
    rewrite lookup_alter_eq. rewrite lookup_alter_ne by done.
    rewrite Ex. simpl. by rewrite set_parentNode_back.
  - by rewrite !lookup_alter_ne.
Qed.

(** What is compared below a pair of elements is read at the nodes
    below the real element. *)
Lemma below_ext (N N' : gmap nat dnode) (D D' : gmap nat domdata) (pc : option string)
    (n : dnode) (vFromEl toEl : velement) (kids : list vnode) (c : nat)
    (seqs : gmap string KeySequence.t) :
  N !! c = Some n → N' !! c = Some n →
  (∀ x, x ∈ tail (footprint N (VElement toEl kids) c) →
        N' !! x = N !! x ∧ D' !! x = D !! x) →
  below N' D' pc n vFromEl toEl kids c seqs = below N D pc n vFromEl toEl kids c seqs
  ∧ footprint N' (VElement toEl kids) c = footprint N (VElement toEl kids) c.
Proof.
  intros En En' H. rewrite !footprint_element, En, En'.
  rewrite footprint_element, En in H. simpl in H. unfold below.
  destruct (bool_decide (___nodeName toEl = "textarea")) eqn:Ht.
  - split; [|done]. destruct (same_constId vFromEl toEl); [done|].
    destruct (negb _); [done|].
    rewrite (handler_synced_ext N N'); [done|].
    intros _ fc Hfc. apply H. rewrite Hfc. by left.
  - destruct (synced_list_ext N N' D D' pc kids c (childNodes n) seqs H) as [Hs Hf].
    split; [|by rewrite Hf].
    destruct (same_constId vFromEl toEl); [done|].
    destruct (negb _); [done|].
    rewrite (handler_synced_ext N N'), Hs; [done|].
    intros Hname. apply bool_decide_eq_false in Ht. done.
Qed.

End morph_move.
Section morph_swap.
Import Morph.

(** The component whose keyed elements and key sequence a virtual
    element with the truthy key [key] is looked up in. *)
Definition reference (pc : option string) (toEl : velement) (key : string)
  : option string :=
  if isAutoKey key then pc else owner_of pc (___ownerComponent toEl).

(** [component.___keyedElements[key]] *)
Definition found (w : world) (component : option string) (key : string) : option nat :=
  match component with
  | Some id => default ∅ (keyedElements w !! id) !! key
  | None => None
  end.

(** A node that was marked as detached is claimed back. *)
Definition claimed (m : nat) (w : world) : world :=
  match d_detached (default no_data (data w !! m)) with
  | Some _ => set_data (λ d, <[m := set_d_detached None (default no_data (d !! m))]> d) w
  | None => w
  end.

Lemma resolve_reference (pc : option string) (toEl : velement) (key0 key : string)
    (seqs seqs1 : gmap string KeySequence.t) :
  resolve pc toEl key0 seqs = Some (key, seqs1) →
  ∃ id key1,
    reference pc toEl key0 = Some id ∧ (id ∉ JsObject.prototype_names) ∧
    (if isAutoKey key0
     then (if bool_decide (owner_of pc (___ownerComponent toEl) = pc) then key0
           else key0 +:+ ":" +:+ default "" (owner_of pc (___ownerComponent toEl)), pc)
     else (key0, owner_of pc (___ownerComponent toEl))) = (key1, Some id) ∧
    KeySequence.next_in_pass id key1 seqs = (key, seqs1).
Proof.
  unfold resolve, reference.
  destruct (isAutoKey key0).
  - destruct pc as [id|]; [|done]. case_bool_decide as Hid; [done|].
    intros [= H]. by eexists _, _.
  - destruct (owner_of pc (___ownerComponent toEl)) as [id|]; [|done].
    case_bool_decide as Hid; [done|]. intros [= H]. by eexists _, _.
Qed.

(** The swap branch.  The keys do not line up at the cursor [c]; the
    element kept under the resolved key, [m], has the tag name of the
    virtual element and is the next real sibling of [c]; the key of the
    next virtual sibling is the key kept for [c].  Then [m] is put
    before [c], reconciled, and the cursor stays on [c]. *)
Lemma swap_branch (rec : nat → list vnode → option string → M unit) (fuel : nat)
    (p : nat) (pc : option string) (toEl : velement) (kids : list vnode) (t : vnode)
    (key0 key : string) (c m : nat) (fns : option nat) (w : world)
    (pn n nm : dnode) (vFrom : velement) (seqs1 : gmap string KeySequence.t) :
  resolve pc toEl key0 (keySequences w) = Some (key, seqs1) →
  nodes w !! p = Some pn → nodes w !! c = Some n → parentNode n = Some p →
  d_key (default no_data (data w !! c)) ≠ Some key →
  key ∉ JsObject.prototype_names →
  found w (reference pc toEl key0) key = Some m →
  nodes w !! m = Some nm → nodeType nm ≠ FRAGMENT_NODE →
  d_vElement (default no_data (data w !! m)) = Some vFrom →
  ___nodeName vFrom = ___nodeName toEl →
  next_in (childNodes pn) c = Some m →
  key_is (v___key t) (d_key (default no_data (data w !! c))) = true →
  keyed_step rec fuel p pc toEl kids (Some t) (owner_of pc (___ownerComponent toEl))
    key0 (Some c) fns w
  = (insertBefore m (Some c) p;;
     morphEl rec m vFrom toEl kids (Some key) (owner_of pc (___ownerComponent toEl)) pc;;
     mret (Some c)) (claimed m (set_keySequences seqs1 w)).
Proof.
  intros Hres Ep En Hp Hkc Hkey Hfound Em Hnf Hd Hname Hnext Hswap.
  destruct (resolve_reference _ _ _ _ _ _ Hres) as (id & key1 & Href & Hid & Hpair & Hn).
  unfold keyed_step. rewrite Hpair. unfold the_component.
  erewrite run_bind; last first.
  { rewrite (run_bind _ _ _ _ _ (run_plain_name _ _ Hid)). reflexivity. }
  rewrite (run_bind _ _ _ _ _ (run_get_world _)), Hn.
  rewrite (run_bind _ _ _ _ _ (run_modify _ _)).
  set (w0 := set_keySequences seqs1 w).
  assert (nodes w0 !! c = Some n) as En0 by done.
  assert (nodes w0 !! p = Some pn) as Ep0 by done.
  assert (nodes w0 !! m = Some nm) as Em0 by done.
  erewrite run_bind; last first.
  { rewrite (run_bind _ _ _ _ _ (run_get_data _ _)).
    rewrite (run_bind _ _ _ _ _ (run_nextSibling _ _ _ _ _ En0 Hp Ep0)).
    reflexivity. }
  simpl. rewrite (bool_decide_eq_false_2 _ Hkc).
  unfold keyed.
  erewrite run_bind; last first.
  { rewrite (run_bind _ _ _ _ _ (run_plain_name _ _ Hkey)).
    rewrite (run_bind _ _ _ _ _ (run_get_world _)). reflexivity. }
  rewrite Href in Hfound. simpl in Hfound. simpl. rewrite Hfound.
  rewrite (run_node_bind _ _ _ _ Em0).
  rewrite (bool_decide_eq_false_2 _ Hnf).
  rewrite (run_bind _ _ _ _ _ (run_get_data _ _)).
  erewrite (run_bind _ _ _ (claimed m w0)); last first.
  { unfold claimed. simpl. by destruct (d_detached (default no_data (data w !! m))). }
  simpl. rewrite Hd. rewrite (bool_decide_eq_true_2 _ Hname).
  rewrite Hnext. rewrite bool_decide_eq_true_2 by done. rewrite Hswap.
  unfold mbind, M_bind, bind.
  by destruct (insertBefore m (Some c) p (claimed m w0)) as [[[]| | |] w1].
Qed.

(** The removal branch: as for the swap branch, but the key of the next
    virtual sibling (if there is one) is not the key kept for [c].  The
    node at the cursor is marked as detached, [m] is reconciled where it
    is, and the cursor goes to what follows [m]. *)
Lemma removal_branch (rec : nat → list vnode → option string → M unit) (fuel : nat)
    (p : nat) (pc : option string) (toEl : velement) (kids : list vnode)
    (toNextSibling : option vnode) (key0 key : string) (c m : nat) (fns : option nat)
    (w : world) (pn n nm : dnode) (vFrom : velement)
    (seqs1 : gmap string KeySequence.t) :
  resolve pc toEl key0 (keySequences w) = Some (key, seqs1) →
  nodes w !! p = Some pn → nodes w !! c = Some n → parentNode n = Some p →
  d_key (default no_data (data w !! c)) ≠ Some key →
  key ∉ JsObject.prototype_names →
  found w (reference pc toEl key0) key = Some m →
  nodes w !! m = Some nm → nodeType nm ≠ FRAGMENT_NODE →
  d_vElement (default no_data (data w !! m)) = Some vFrom →
  ___nodeName vFrom = ___nodeName toEl →
  next_in (childNodes pn) c = Some m →
  match toNextSibling with
  | Some t => key_is (v___key t) (d_key (default no_data (data w !! c)))
  | None => false
  end = false →
  keyed_step rec fuel p pc toEl kids toNextSibling
    (owner_of pc (___ownerComponent toEl)) key0 (Some c) fns w
  = (next ← nextSibling m;
     detachNode fuel c (owner_of pc (___ownerComponent toEl));;
     morphEl rec m vFrom toEl kids (Some key) (owner_of pc (___ownerComponent toEl)) pc;;
     mret next) (claimed m (set_keySequences seqs1 w)).
Proof.
  intros Hres Ep En Hp Hkc Hkey Hfound Em Hnf Hd Hname Hnext Hswap.
  destruct (resolve_reference _ _ _ _ _ _ Hres) as (id & key1 & Href & Hid & Hpair & Hn).
  unfold keyed_step. rewrite Hpair. unfold the_component.
  erewrite run_bind; last first.
  { rewrite (run_bind _ _ _ _ _ (run_plain_name _ _ Hid)). reflexivity. }
  rewrite (run_bind _ _ _ _ _ (run_get_world _)), Hn.
  rewrite (run_bind _ _ _ _ _ (run_modify _ _)).
  set (w0 := set_keySequences seqs1 w).
  assert (nodes w0 !! c = Some n) as En0 by done.
  assert (nodes w0 !! p = Some pn) as Ep0 by done.
  assert (nodes w0 !! m = Some nm) as Em0 by done.
  erewrite run_bind; last first.
  { rewrite (run_bind _ _ _ _ _ (run_get_data _ _)).
    rewrite (run_bind _ _ _ _ _ (run_nextSibling _ _ _ _ _ En0 Hp Ep0)).
    reflexivity. }
  simpl. rewrite (bool_decide_eq_false_2 _ Hkc).
  unfold keyed.
  erewrite run_bind; last first.
  { rewrite (run_bind _ _ _ _ _ (run_plain_name _ _ Hkey)).
    rewrite (run_bind _ _ _ _ _ (run_get_world _)). reflexivity. }
  rewrite Href in Hfound. simpl in Hfound. simpl. rewrite Hfound.
  rewrite (run_node_bind _ _ _ _ Em0).
  rewrite (bool_decide_eq_false_2 _ Hnf).
  rewrite (run_bind _ _ _ _ _ (run_get_data _ _)).
  erewrite (run_bind _ _ _ (claimed m w0)); last first.
  { unfold claimed. simpl. by destruct (d_detached (default no_data (data w !! m))). }
  simpl. rewrite Hd. rewrite (bool_decide_eq_true_2 _ Hname).
  rewrite Hnext. rewrite bool_decide_eq_true_2 by done. rewrite Hswap.
  unfold mbind, M_bind, bind.
  destruct (nextSibling m (claimed m w0)) as [[next| | |] w1]; [|done..].
  by destruct (detachNode fuel c _ w1) as [[[]| | |] w2].
Qed.

(** The real children are used up, and the element kept under the key
    is not where the loop left off: it is claimed back, put at the end
    and reconciled. *)
Lemma keyed_beyond_the_cursor (rec : nat → list vnode → option string → M unit)
    (fuel : nat) (p : nat) (pc : option string) (toEl : velement) (kids : list vnode)
    (toNextSibling : option vnode) (key0 key : string) (m : nat) (fns : option nat)
    (w : world) (nm : dnode) (vFrom : velement) (seqs1 : gmap string KeySequence.t) :
  resolve pc toEl key0 (keySequences w) = Some (key, seqs1) →
  key ∉ JsObject.prototype_names →
  found w (reference pc toEl key0) key = Some m →
  nodes w !! m = Some nm → nodeType nm ≠ FRAGMENT_NODE →
  d_vElement (default no_data (data w !! m)) = Some vFrom →
  ___nodeName vFrom = ___nodeName toEl →
  fns ≠ Some m →
  keyed_step rec fuel p pc toEl kids toNextSibling
    (owner_of pc (___ownerComponent toEl)) key0 None fns w
  = (insertAfter m None p;;
     morphEl rec m vFrom toEl kids (Some key) (owner_of pc (___ownerComponent toEl)) pc;;
     mret fns) (claimed m (set_keySequences seqs1 w)).
Proof.
  intros Hres Hkey Hfound Em Hnf Hd Hname Hfns.
  destruct (resolve_reference _ _ _ _ _ _ Hres) as (id & key1 & Href & Hid & Hpair & Hn).
  unfold keyed_step. rewrite Hpair. unfold the_component.
  erewrite run_bind; last first.
  { rewrite (run_bind _ _ _ _ _ (run_plain_name _ _ Hid)). reflexivity. }
  rewrite (run_bind _ _ _ _ _ (run_get_world _)), Hn.
  rewrite (run_bind _ _ _ _ _ (run_modify _ _)).
  set (w0 := set_keySequences seqs1 w).
  assert (nodes w0 !! m = Some nm) as Em0 by done.
  rewrite (run_bind _ _ _ _ _ (run_ret _ _)).
  simpl. unfold keyed.
  erewrite run_bind; last first.
  { rewrite (run_bind _ _ _ _ _ (run_plain_name _ _ Hkey)).
    rewrite (run_bind _ _ _ _ _ (run_get_world _)). reflexivity. }
  rewrite Href in Hfound. simpl in Hfound. simpl. rewrite Hfound.
  rewrite (run_node_bind _ _ _ _ Em0).
  rewrite (bool_decide_eq_false_2 _ Hnf).
  rewrite (run_bind _ _ _ _ _ (run_get_data _ _)).
  erewrite (run_bind _ _ _ (claimed m w0)); last first.
  { unfold claimed. simpl. by destruct (d_detached (default no_data (data w !! m))). }
  simpl. rewrite Hd. rewrite (bool_decide_eq_true_2 _ Hname).
  rewrite (bool_decide_eq_false_2 _ Hfns).
  unfold mbind, M_bind, bind.
  by destruct (insertAfter m None p (claimed m w0)) as [[[]| | |] w1].
Qed.

End morph_swap.
Section morph_swap_pair.
Import Morph.

(** The real elements [a] and [b], in this order the children of [p],
    are up to date with the keyed virtual elements [elA] and [elB], which
    the new virtual tree has in the other order: the tag names are those
    of the previous pass, the keys the pass resolves (for [elB] first)
    are those kept for the nodes, [b] is the element kept under its key
    (and so is [a], unless the key of [elA] is the very key kept for
    [a]), and what is below each of the two is up to date. *)
Definition swapped_pair (w : world) (p a b : nat) (elA : velement) (kidsA : list vnode)
    (elB : velement) (kidsB : list vnode) (pc : option string) : bool :=
  match nodes w !! p, nodes w !! a, nodes w !! b with
  | Some pn, Some na, Some nb =>
      let da := default no_data (data w !! a) in
      let db := default no_data (data w !! b) in
      bool_decide (childNodes pn = [a; b]) && bool_decide (a ≠ b)
      && negb (bool_decide (nodeType pn = FRAGMENT_NODE))
      && bool_decide (parentNode na = Some p) && bool_decide (parentNode nb = Some p)
      && bool_decide (nodeType na = ELEMENT_NODE)
      && bool_decide (nodeType nb = ELEMENT_NODE)
      && match d_vElement da, d_vElement db,
               truthy_key (___key elA), truthy_key (___key elB) with
         | Some vA, Some vB, Some ka, Some kb =>
             bool_decide (___nodeName vA = ___nodeName elA)
             && bool_decide (___nodeName vB = ___nodeName elB)
             && match resolve pc elB kb ∅ with
                | Some (kb', s1) =>
                    bool_decide (d_key db = Some kb')
                    && negb (bool_decide (d_key da = Some kb'))
                    && negb (bool_decide (kb' ∈ JsObject.prototype_names))
                    && bool_decide (found w (reference pc elB kb) kb' = Some b)
                    && match below (nodes w) (data w) pc nb vB elB kidsB b s1 with
                       | Some s2 =>
                           match resolve pc elA ka s2 with
                           | Some (ka', s3) =>
                               bool_decide (d_key da = Some ka')
                               && (key_is (___key elA) (Some ka')
                                   || negb (bool_decide
                                              (ka' ∈ JsObject.prototype_names))
                                      && bool_decide
                                           (found w (reference pc elA ka) ka' = Some a))
                               && bool_decide
                                    (is_Some (below (nodes w) (data w) pc na vA elA
                                                kidsA a s3))
                               && bool_decide
                                    (NoDup (p :: footprint (nodes w) (VElement elB kidsB) b
                                              ++ footprint (nodes w) (VElement elA kidsA) a))
                           | None => false
                           end
                       | None => false
                       end
                | None => false
                end
         | _, _, _, _ => false
         end
  | _, _, _ => false
  end.

Ltac crack :=
  repeat match goal with
         | H : _ && _ = true |- _ => apply andb_true_iff in H as [? ?]
         | H : _ || _ = true |- _ => apply orb_true_iff in H
         | H : bool_decide _ = true |- _ => apply bool_decide_eq_true in H
         | H : negb (bool_decide _) = true |- _ =>
             apply negb_true_iff, bool_decide_eq_false in H
         | H : is_Some _ |- _ => destruct H as [? ?]
         | H : context [match ?x with _ => _ end] |- _ =>
             destruct x eqn:?; try discriminate H
         end.

(** What [swapped_pair] says, fact by fact. *)
Lemma swapped_pair_inv (w : world) (p a b : nat) (elA : velement) (kidsA : list vnode)
    (elB : velement) (kidsB : list vnode) (pc : option string) :
  swapped_pair w p a b elA kidsA elB kidsB pc = true →
  ∃ pn na nb vA vB ka kb ka' kb' s1 s2 s3 s4,
    let da := default no_data (data w !! a) in
    let db := default no_data (data w !! b) in
    nodes w !! p = Some pn ∧ nodes w !! a = Some na ∧ nodes w !! b = Some nb ∧
    childNodes pn = [a; b] ∧ a ≠ b ∧ nodeType pn ≠ FRAGMENT_NODE ∧
    parentNode na = Some p ∧ parentNode nb = Some p ∧
    nodeType na = ELEMENT_NODE ∧ nodeType nb = ELEMENT_NODE ∧
    d_vElement da = Some vA ∧ d_vElement db = Some vB ∧
    truthy_key (___key elA) = Some ka ∧ truthy_key (___key elB) = Some kb ∧
    ___nodeName vA = ___nodeName elA ∧ ___nodeName vB = ___nodeName elB ∧
    resolve pc elB kb ∅ = Some (kb', s1) ∧
    d_key db = Some kb' ∧ d_key da ≠ Some kb' ∧
    (kb' ∉ JsObject.prototype_names) ∧
    found w (reference pc elB kb) kb' = Some b ∧
    below (nodes w) (data w) pc nb vB elB kidsB b s1 = Some s2 ∧
    resolve pc elA ka s2 = Some (ka', s3) ∧
    d_key da = Some ka' ∧
    (key_is (___key elA) (Some ka') = false →
     (ka' ∉ JsObject.prototype_names) ∧ found w (reference pc elA ka) ka' = Some a) ∧
    below (nodes w) (data w) pc na vA elA kidsA a s3 = Some s4 ∧
    NoDup (p :: footprint (nodes w) (VElement elB kidsB) b
             ++ footprint (nodes w) (VElement elA kidsA) a).
Proof.
  unfold swapped_pair. intros H. crack.
  do 13 eexists. simpl. split_and!; try first [reflexivity|eassumption|done].
  intros Hno. destruct H15 as [Hyes|Hfound]; [congruence|]. by crack.
Qed.

End morph_swap_pair.
Section morph_swap_run.
Import Morph.

Lemma claimed_frame (m : nat) (w : world) :
  nodes (claimed m w) = nodes w ∧ mutations (claimed m w) = mutations w ∧
  keyedElements (claimed m w) = keyedElements w ∧
  keySequences (claimed m w) = keySequences w ∧
  detachedNodes (claimed m w) = detachedNodes w ∧
  isHydrate (claimed m w) = isHydrate w ∧
  d_detached (default no_data (data (claimed m w) !! m)) = None ∧
  ∀ x, x ≠ m → data (claimed m w) !! x = data w !! x.
Proof.
  unfold claimed. destruct (d_detached _) eqn:E; simpl; split_and!; try done.
  - by rewrite lookup_insert_eq.
  - intros x Hx. by rewrite lookup_insert_ne.
Qed.

(** A node marked as detached: it is on the list of the pass, and
    flagged with the owner component (or [true]). *)
Definition detached (x : nat) (ownerComponent : option string) (w : world) : world :=
  set_data (λ d, <[x := set_d_detached (Some ownerComponent) (default no_data (d !! x))]> d)
    (set_detachedNodes (detachedNodes w ++ [x])%list w).

Lemma run_detachNode_element (fuel : nat) (w : world) (x : nat) (n : dnode)
    (ownerComponent : option string) :
  nodes w !! x = Some n → nodeType n = ELEMENT_NODE →
  detachNode fuel x ownerComponent w = (Done (), detached x ownerComponent w).
Proof.
  intros E Hty. unfold detachNode.
  rewrite (run_node_bind _ _ _ _ E), Hty. simpl.
  by rewrite (run_bind _ _ _ _ _ (run_modify _ _)).
Qed.

(** What the two branches of the pass over a swapped pair share: the
    nodes below the two elements are apart from each other and from the
    parent. *)
Lemma swapped_pair_apart (N : gmap nat dnode) (p a b : nat) (A B : vnode) :
  NoDup (p :: footprint N B b ++ footprint N A a) →
  (∀ x, x ∈ tail (footprint N B b) → x ≠ b ∧ x ≠ a ∧ x ≠ p) ∧
  (∀ x, x ∈ footprint N A a → (x ∉ footprint N B b) ∧ x ≠ b ∧ x ≠ p) ∧
  (∀ x, x ∈ tail (footprint N A a) → x ≠ a) ∧
  a ≠ b ∧ p ≠ a ∧ p ≠ b ∧ NoDup (footprint N B b) ∧ NoDup (footprint N A a).
Proof.
  intros Hfp. apply NoDup_cons in Hfp as [Hp Hfp].
  apply NoDup_app in Hfp as (HfpB & Hdisj & HfpA).
  assert (∃ tb, footprint N B b = b :: tb) as [tb Eb] by (destruct B; by eexists).
  assert (∃ ta, footprint N A a = a :: ta) as [ta Ea] by (destruct A; by eexists).
  rewrite Eb, Ea in *. simpl.
  apply NoDup_cons in HfpB as [Hb HfpB']. apply NoDup_cons in HfpA as [Ha HfpA'].
  assert (a ∉ b :: tb) as Hab by (intros Hin; apply (Hdisj a Hin); by left).
  split_and!.
  - intros x Hx. split_and!.
    + by intros ->.
    + intros ->. apply Hab. by right.
    + intros ->. apply Hp, elem_of_app. left. by right.
  - intros x Hx. split_and!.
    + intros Hin. by apply (Hdisj x Hin).
    + intros ->. apply (Hdisj b); [by left|done].
    + intros ->. apply Hp, elem_of_app. by right.
  - intros x Hx ->. done.
  - intros ->. apply Hab. by left.
  - intros ->. apply Hp, elem_of_app. right. by left.
  - intros ->. apply Hp, elem_of_app. left. by left.
  - by apply NoDup_cons.
  - by apply NoDup_cons.
Qed.

End morph_swap_run.
Section morph_swap_first.
Import Morph.

(** The pass over the swapped pair when the key of the second virtual
    element is the key kept for the node at the cursor: the element
    kept under the key of the first is put before the cursor, and that
    is all that happens to the document. *)
Lemma swapped_pair_swap_run (fuel : nat) (w : world) (p a b : nat) (elA : velement)
    (kidsA : list vnode) (elB : velement) (kidsB : list vnode) (pc : option string) :
  swapped_pair w p a b elA kidsA elB kidsB pc = true →
  key_is (___key elA) (d_key (default no_data (data w !! a))) = true →
  isHydrate w = false → keySequences w = ∅ →
  (max_list (height <$> [VElement elB kidsB; VElement elA kidsA]) ≤ fuel)%nat →
  ∃ w' pn',
    morphChildren (S fuel) p [VElement elB kidsB; VElement elA kidsA] pc w
    = (Done (), w') ∧
    mutations w' = (mutations w ++ [InsertedBefore b (Some a) p])%list ∧
    detachedNodes w' = detachedNodes w ∧
    nodes w' !! p = Some pn' ∧ childNodes pn' = [b; a].
Proof.
  intros Hpair Hswap Hh Hseqs Hheight.
  destruct (swapped_pair_inv _ _ _ _ _ _ _ _ _ Hpair)
    as (pn & na & nb & vA & vB & ka & kb & ka' & kb' & s1 & s2 & s3 & s4 & Ep & Ea & Eb
        & Hcs & _ & Hnf & Hpa & Hpb & Hta & Htb & Hda & Hdb & Hka & Hkb & Hna & Hnb
        & HrB & Hdkb & Hdka_ne & Hproto & Hfound & HbelowB & HrA & Hdka & _
        & HbelowA & Hfp).
  simpl in Hda, Hdb, Hdkb, Hdka_ne, Hdka.
  destruct (swapped_pair_apart _ _ _ _ _ _ Hfp)
    as (HtailB & HinA & HtailA & Hab & Hpa' & Hpb' & HfpB & HfpA).
  rewrite !fmap_cons in Hheight. simpl in Hheight.
  (* the first turn: the swap *)
  assert (next_in (childNodes pn) a = Some b) as Hnext.
  { rewrite Hcs. simpl. by rewrite decide_True. }
  pose proof (swap_branch (morphChildren fuel) fuel p pc elB kidsB (VElement elA kidsA)
                kb kb' a b None w pn na nb vB s1) as Hstep.
  rewrite Hseqs in Hstep.
  specialize (Hstep HrB Ep Ea Hpa Hdka_ne Hproto Hfound Eb).
  rewrite Htb in Hstep. specialize (Hstep ltac:(done) Hdb Hnb Hnext Hswap).
  set (wc := claimed b (set_keySequences s1 w)) in Hstep.
  destruct (claimed_frame b (set_keySequences s1 w))
    as (Hcn & Hcm & Hck & Hcs' & Hcd & Hch & _ & Hcdata).
  fold wc in Hcn, Hcm, Hck, Hcs', Hcd, Hch, Hcdata.
  simpl in Hcn, Hcm, Hck, Hcs', Hcd, Hch, Hcdata.
  destruct (run_insertBefore wc p b pn nb (Some a))
    as (w1 & pn' & Hins & Ep1 & Hch1 & Hty1 & Hother & Hm1 & Hd1 & Hk1 & Hs1 & Hdet1
        & _ & Hh1); try (by rewrite ?Hcn).
  { intros r [= <-]. rewrite Hcs. split; [by left|done]. }
  rewrite Hcs in Hch1.
  rewrite filter_cons_True, filter_cons_False, filter_nil in Hch1 by (by auto).
  simpl in Hch1. rewrite decide_True in Hch1 by done.
  assert (nodes w1 !! b = Some nb) as Eb1 by (by rewrite Hother, Hcn).
  (* the element that was moved is reconciled in place *)
  destruct (below_ext (nodes w) (nodes w1) (data w) (data w1) pc nb vB elB kidsB b s1
              Eb Eb1) as [HbB HfB].
  { intros x Hx. destruct (HtailB x Hx) as (? & ? & ?).
    split; [by rewrite Hother, Hcn|by rewrite Hd1, Hcdata]. }
  destruct (morphEl_synced (morphChildren fuel) fuel pc b nb vB elB kidsB (Some kb')
              (owner_of pc (___ownerComponent elB)) w1 s2
              (morphChildren_reconciles pc fuel) Eb1 Htb) as (w2 & Hrun2 & Hq2).
  { rewrite Hs1, Hcs'. by rewrite HbB. }
  { by rewrite HfB. }
  { by rewrite Hh1, Hch. }
  { lia. }
  rewrite HfB in Hq2.
  (* the second turn: the keys line up *)
  assert (nodes w2 !! a = Some na) as Ea2
    by (by rewrite (silent_nodes _ _ _ _ Hq2), Hother, Hcn).
  assert (nodes w2 !! p = Some pn') as Ep2 by (by rewrite (silent_nodes _ _ _ _ Hq2)).
  assert (∀ x, x ∈ footprint (nodes w) (VElement elA kidsA) a →
               nodes w2 !! x = nodes w !! x ∧ data w2 !! x = data w !! x) as HextA.
  { intros x Hx. destruct (HinA x Hx) as (? & ? & ?). split.
    - by rewrite (silent_nodes _ _ _ _ Hq2), Hother, Hcn.
    - by rewrite (silent_data _ _ _ _ Hq2), Hd1, Hcdata. }
  assert (a ∈ footprint (nodes w) (VElement elA kidsA) a) as Hain
    by (rewrite footprint_element; by left).
  destruct (HextA a Hain) as [_ Hdata_a].
  destruct (below_ext (nodes w) (nodes w2) (data w) (data w2) pc na vA elA kidsA a s3
              Ea Ea2) as [HbA HfA].
  { intros x Hx. apply HextA. rewrite footprint_element in Hx |- *. by right. }
  assert (synced_list (nodes w2) (data w2) pc [VElement elA kidsA] p [a]
            (keySequences w2) = Some s4) as Hsync.
  { cbn [synced_list]. rewrite synced_node_element, Ea2. simpl.
    rewrite Hdata_a, Hda, Hpa, Hta, Hna. rewrite !bool_decide_eq_true_2 by done. simpl.
    unfold key_synced. rewrite Hka, (silent_seqs _ _ _ _ Hq2), HrA, Hdka.
    rewrite bool_decide_eq_true_2 by done. by rewrite HbA, HbelowA. }
  destruct (outer_synced (morphChildren fuel) fuel pc p pn'
              (morphChildren_reconciles pc fuel) [VElement elA kidsA] [a] [b] w2 s4
              (Some a) Ep2 Hch1) as (w3 & Hrun3 & Hq3).
  { rewrite Hch1. apply NoDup_cons. split; [|apply NoDup_singleton].
    intros Hin%list_elem_of_singleton. done. }
  { exact Hsync. }
  { cbn [footprints]. rewrite app_nil_r. by rewrite HfA. }
  { by rewrite (silent_hydrate _ _ _ _ Hq2), Hh1, Hch. }
  { rewrite fmap_cons. simpl. lia. }
  exists w3, pn'. split_and!.
  - change (morphChildren (S fuel))
      with (morphChildren_body (morphChildren fuel) fuel).
    unfold morphChildren_body.
    rewrite (run_bind _ _ _ _ _ (run_firstChild _ _ _ Ep)), Hcs.
    assert (outer (morphChildren fuel) fuel p pc
              [VElement elB kidsB; VElement elA kidsA] (Some a) None w
            = (Done None, w3)) as Houter.
    { cbn [outer].
      erewrite run_bind; last first.
      { rewrite (run_node_bind _ _ _ _ Ea). rewrite Hta.
        rewrite bool_decide_eq_false_2 by done. reflexivity. }
      rewrite Hkb. unfold owner_of in Hstep. simpl v___ownerComponent.
      change (head [VElement elA kidsA]) with (Some (VElement elA kidsA)).
      erewrite run_bind; last first.
      { rewrite Hstep. rewrite (run_bind _ _ _ _ _ Hins).
        unfold owner_of in Hrun2. rewrite (run_bind _ _ _ _ _ Hrun2). reflexivity. }
      exact Hrun3. }
    simpl head. rewrite (run_bind _ _ _ _ _ Houter).
    assert (nodes w3 !! p = Some pn') as Ep3 by (by rewrite (silent_nodes _ _ _ _ Hq3)).
    rewrite (run_node_bind _ _ _ _ Ep3). rewrite Hty1.
    rewrite (bool_decide_eq_false_2 _ Hnf). by destruct fuel.
  - by rewrite (silent_mutations _ _ _ _ Hq3), (silent_mutations _ _ _ _ Hq2), Hm1, Hcm.
  - by rewrite (silent_detached _ _ _ _ Hq3), (silent_detached _ _ _ _ Hq2), Hdet1, Hcd.
  - by rewrite (silent_nodes _ _ _ _ Hq3).
  - done.
Qed.

End morph_swap_first.
Section morph_swap_second.
Import Morph.

(** The pass over the swapped pair when the key of the second virtual
    element is not the key kept for the node at the cursor (the pass
    resolved it to another key): the node at the cursor is marked as
    detached, claimed back at the next turn and put at the end.  One
    insertion again, of the other element. *)
Lemma swapped_pair_removal_run (fuel : nat) (w : world) (p a b : nat) (elA : velement)
    (kidsA : list vnode) (elB : velement) (kidsB : list vnode) (pc : option string) :
  swapped_pair w p a b elA kidsA elB kidsB pc = true →
  key_is (___key elA) (d_key (default no_data (data w !! a))) = false →
  isHydrate w = false → keySequences w = ∅ →
  (max_list (height <$> [VElement elB kidsB; VElement elA kidsA]) ≤ fuel)%nat →
  ∃ w' pn',
    morphChildren (S fuel) p [VElement elB kidsB; VElement elA kidsA] pc w
    = (Done (), w') ∧
    mutations w' = (mutations w ++ [InsertedBefore a None p])%list ∧
    detachedNodes w' = (detachedNodes w ++ [a])%list ∧
    d_detached (default no_data (data w' !! a)) = None ∧
    nodes w' !! p = Some pn' ∧ childNodes pn' = [b; a].
Proof.
  intros Hpair Hswap Hh Hseqs Hheight.
  destruct (swapped_pair_inv _ _ _ _ _ _ _ _ _ Hpair)
    as (pn & na & nb & vA & vB & ka & kb & ka' & kb' & s1 & s2 & s3 & s4 & Ep & Ea & Eb
        & Hcs & _ & Hnf & Hpa & Hpb & Hta & Htb & Hda & Hdb & Hka & Hkb & Hna & Hnb
        & HrB & Hdkb & Hdka_ne & Hproto & Hfound & HbelowB & HrA & Hdka & Hkept
        & HbelowA & Hfp).
  simpl in Hda, Hdb, Hdkb, Hdka_ne, Hdka. rewrite Hdka in Hswap.
  destruct (Hkept Hswap) as [Hproto_a Hfound_a].
  destruct (swapped_pair_apart _ _ _ _ _ _ Hfp)
    as (HtailB & HinA & HtailA & Hab & Hpa' & Hpb' & HfpB & HfpA).
  rewrite !fmap_cons in Hheight. simpl in Hheight.
  set (ownerB := owner_of pc (___ownerComponent elB)).
  set (ownerA := owner_of pc (___ownerComponent elA)).
  (* the first turn: the node at the cursor is set aside *)
  assert (next_in (childNodes pn) a = Some b) as Hnext.
  { rewrite Hcs. simpl. by rewrite decide_True. }
  assert (next_in (childNodes pn) b = None) as Hlast.
  { rewrite Hcs. simpl. rewrite decide_False by done. by rewrite decide_True. }
  pose proof (removal_branch (morphChildren fuel) fuel p pc elB kidsB
                (Some (VElement elA kidsA)) kb kb' a b None w pn na nb vB s1) as Hstep.
  rewrite Hseqs in Hstep.
  specialize (Hstep HrB Ep Ea Hpa Hdka_ne Hproto Hfound Eb).
  rewrite Htb in Hstep. specialize (Hstep ltac:(done) Hdb Hnb Hnext).
  simpl v___key in Hstep. rewrite Hdka in Hstep. specialize (Hstep Hswap).
  fold ownerB in Hstep.
  set (wc := claimed b (set_keySequences s1 w)) in Hstep.
  destruct (claimed_frame b (set_keySequences s1 w))
    as (Hcn & Hcm & Hck & Hcs' & Hcd & Hch & _ & Hcdata).
  fold wc in Hcn, Hcm, Hck, Hcs', Hcd, Hch, Hcdata.
  simpl in Hcn, Hcm, Hck, Hcs', Hcd, Hch, Hcdata.
  assert (nextSibling b wc = (Done None, wc)) as Hsib.
  { rewrite <- Hlast. apply (run_nextSibling wc b p nb pn); by rewrite ?Hcn. }
  assert (detachNode fuel a ownerB wc = (Done (), detached a ownerB wc)) as Hdetach.
  { apply run_detachNode_element with na; [by rewrite Hcn|done]. }
  set (wd := detached a ownerB wc) in Hdetach.
  assert (nodes wd = nodes w) as Hdn by (by rewrite <- Hcn).
  assert (∀ x, x ≠ a → data wd !! x = data wc !! x) as Hddata.
  { intros x Hx. simpl. by rewrite lookup_insert_ne. }
  assert (nodes wd !! b = Some nb) as Ebd by (by rewrite Hdn).
  destruct (below_ext (nodes w) (nodes wd) (data w) (data wd) pc nb vB elB kidsB b s1
              Eb Ebd) as [HbB HfB].
  { intros x Hx. destruct (HtailB x Hx) as (? & ? & ?).
    split; [by rewrite Hdn|by rewrite Hddata, Hcdata]. }
  destruct (morphEl_synced (morphChildren fuel) fuel pc b nb vB elB kidsB (Some kb')
              ownerB wd s2 (morphChildren_reconciles pc fuel) Ebd Htb)
    as (w2 & Hrun2 & Hq2).
  { change (keySequences wd) with (keySequences wc). rewrite Hcs'. by rewrite HbB. }
  { by rewrite HfB. }
  { change (isHydrate wd) with (isHydrate wc). by rewrite Hch. }
  { lia. }
  rewrite HfB in Hq2.
  (* the second turn: the element set aside is claimed back and put at the end *)
  assert (nodes w2 = nodes w) as Hn2 by (by rewrite (silent_nodes _ _ _ _ Hq2)).
  assert (nodes w2 !! a = Some na) as Ea2 by (by rewrite Hn2).
  assert (a ∈ footprint (nodes w) (VElement elA kidsA) a) as Hain
    by (rewrite footprint_element; by left).
  destruct (HinA a Hain) as (HaB & _ & _).
  assert (d_vElement (default no_data (data w2 !! a)) = Some vA) as Hda2.
  { rewrite (silent_data _ _ _ _ Hq2) by done. simpl. rewrite lookup_insert_eq. simpl.
    by rewrite Hcdata. }
  assert (found w2 (reference pc elA ka) ka' = Some a) as Hfound2.
  { unfold found in *. rewrite (silent_keyed _ _ _ _ Hq2).
    change (keyedElements wd) with (keyedElements wc). by rewrite Hck. }
  pose proof (keyed_beyond_the_cursor (morphChildren fuel) fuel p pc elA kidsA None
                ka ka' a None w2 na vA s3) as Hstep2.
  rewrite (silent_seqs _ _ _ _ Hq2) in Hstep2.
  specialize (Hstep2 HrA Hproto_a Hfound2 Ea2).
  rewrite Hta in Hstep2. specialize (Hstep2 ltac:(done) Hda2 Hna ltac:(done)).
  fold ownerA in Hstep2.
  set (wc2 := claimed a (set_keySequences s3 w2)) in Hstep2.
  destruct (claimed_frame a (set_keySequences s3 w2))
    as (Hcn2 & Hcm2 & Hck2 & Hcs2 & Hcd2 & Hch2 & Hflag2 & Hcdata2).
  fold wc2 in Hcn2, Hcm2, Hck2, Hcs2, Hcd2, Hch2, Hflag2, Hcdata2.
  simpl in Hcn2, Hcm2, Hck2, Hcs2, Hcd2, Hch2, Hcdata2.
  destruct (run_insertBefore wc2 p a pn na None)
    as (w3 & pn' & Hins & Ep3 & Hch3 & Hty3 & Hother & Hm3 & Hd3 & Hk3 & Hs3 & Hdet3
        & _ & Hh3); try (by rewrite ?Hcn2, ?Hn2).
  rewrite Hcs in Hch3.
  rewrite filter_cons_False, filter_cons_True, filter_nil in Hch3 by (by auto).
  simpl in Hch3.
  assert (nodes w3 !! a = Some na) as Ea3 by (by rewrite Hother, Hcn2, Hn2).
  destruct (below_ext (nodes w) (nodes w3) (data w) (data w3) pc na vA elA kidsA a s3
              Ea Ea3) as [HbA HfA].
  { intros x Hx. pose proof (HtailA x Hx) as Hxa.
    destruct (HinA x) as (HxB & Hxb & Hxp).
    { rewrite footprint_element in Hx |- *. by right. }
    split.
    - by rewrite Hother, Hcn2, Hn2.
    - rewrite Hd3, Hcdata2 by done. rewrite (silent_data _ _ _ _ Hq2) by done.
      by rewrite Hddata, Hcdata. }
  destruct (morphEl_synced (morphChildren fuel) fuel pc a na vA elA kidsA (Some ka')
              ownerA w3 s4 (morphChildren_reconciles pc fuel) Ea3 Hta)
    as (w4 & Hrun4 & Hq4).
  { rewrite Hs3, Hcs2. by rewrite HbA. }
  { by rewrite HfA. }
  { rewrite Hh3, Hch2, (silent_hydrate _ _ _ _ Hq2).
    change (isHydrate wd) with (isHydrate wc). by rewrite Hch. }
  { lia. }
  exists w4, pn'. split_and!.
  - change (morphChildren (S fuel))
      with (morphChildren_body (morphChildren fuel) fuel).
    unfold morphChildren_body.
    rewrite (run_bind _ _ _ _ _ (run_firstChild _ _ _ Ep)), Hcs.
    assert (outer (morphChildren fuel) fuel p pc
              [VElement elB kidsB; VElement elA kidsA] (Some a) None w
            = (Done None, w4)) as Houter.
    { cbn [outer].
      erewrite run_bind; last first.
      { rewrite (run_node_bind _ _ _ _ Ea). rewrite Hta.
        rewrite bool_decide_eq_false_2 by done. reflexivity. }
      rewrite Hkb. unfold ownerB, owner_of in Hstep. simpl v___ownerComponent.
      change (head [VElement elA kidsA]) with (Some (VElement elA kidsA)).
      erewrite run_bind; last first.
      { rewrite Hstep. rewrite (run_bind _ _ _ _ _ Hsib).
        unfold ownerB, owner_of in Hdetach, Hrun2.
        rewrite (run_bind _ _ _ _ _ Hdetach).
        rewrite (run_bind _ _ _ _ _ Hrun2). reflexivity. }
      cbn [outer]. rewrite (run_bind _ _ _ _ _ (run_ret _ _)).
      simpl v___ownerComponent. rewrite Hka. unfold ownerA, owner_of in Hstep2, Hrun4.
      change (head (@nil vnode)) with (@None vnode).
      erewrite run_bind; last first.
      { rewrite Hstep2.
        assert (insertAfter a None p wc2 = (Done (), w3)) as Hins' by exact Hins.
        rewrite (run_bind _ _ _ _ _ Hins').
        rewrite (run_bind _ _ _ _ _ Hrun4). reflexivity. }
      reflexivity. }
    simpl head. rewrite (run_bind _ _ _ _ _ Houter).
    assert (nodes w4 !! p = Some pn') as Ep4 by (by rewrite (silent_nodes _ _ _ _ Hq4)).
    rewrite (run_node_bind _ _ _ _ Ep4). rewrite Hty3.
    rewrite (bool_decide_eq_false_2 _ Hnf). by destruct fuel.
  - rewrite (silent_mutations _ _ _ _ Hq4), Hm3, Hcm2, (silent_mutations _ _ _ _ Hq2).
    change (mutations wd) with (mutations wc). by rewrite Hcm.
  - rewrite (silent_detached _ _ _ _ Hq4), Hdet3, Hcd2, (silent_detached _ _ _ _ Hq2).
    change (detachedNodes wd) with (detachedNodes wc ++ [a])%list. by rewrite Hcd.
  - by rewrite (silent_flags _ _ _ _ Hq4), Hd3.
  - by rewrite (silent_nodes _ _ _ _ Hq4).
  - done.
Qed.

End morph_swap_second.
Section morph_swap_theorem.
Import Morph.

(** At the cursor [c] the keys do not line up; the element kept under
    the key the pass resolves for [toEl] is [m], it has the tag name of
    [toEl] and is the next real sibling of [c]; and the key of the next
    virtual sibling [t] is the key kept for [c]. *)
Definition keyed_match_is_next (w : world) (p : nat) (pc : option string)
    (toEl : velement) (t : vnode) (key0 key : string) (c m : nat) (vFrom : velement)
    (seqs1 : gmap string KeySequence.t) : Prop :=
  ∃ pn n nm,
    resolve pc toEl key0 (keySequences w) = Some (key, seqs1) ∧
    nodes w !! p = Some pn ∧ nodes w !! c = Some n ∧ parentNode n = Some p ∧
    d_key (default no_data (data w !! c)) ≠ Some key ∧
    (key ∉ JsObject.prototype_names) ∧
    found w (reference pc toEl key0) key = Some m ∧
    nodes w !! m = Some nm ∧ nodeType nm ≠ FRAGMENT_NODE ∧
    d_vElement (default no_data (data w !! m)) = Some vFrom ∧
    ___nodeName vFrom = ___nodeName toEl ∧
    next_in (childNodes pn) c = Some m ∧
    key_is (v___key t) (d_key (default no_data (data w !! c))) = true.

(** C2 (as amended).  Two keyed sibling elements [a] and [b] that are up
    to date with the virtual elements [elA] and [elB] (same tag names,
    attribute values strictly equal, subtrees up to date) and come in
    the other order in the new virtual tree: the pass returns, and all
    it does to the document is one [insertBefore]; no node is created
    or removed and no attribute is touched.  It is [b] that is put
    before [a] when the key of [elA] is the key kept for [a] (the swap
    branch); otherwise [a] is put at the end.  And in general the swap
    branch is taken (the matched element is put before the cursor,
    reconciled, and the cursor stays) whenever the element kept under
    the key has the tag name of the virtual element, is the next real
    sibling of the cursor, and the key of the next virtual sibling is
    the key of the real node at the cursor. *)
Theorem single_move_swap :
  (∀ (fuel : nat) (w : world) (p a b : nat) (elA : velement) (kidsA : list vnode)
     (elB : velement) (kidsB : list vnode) (pc : option string),
     swapped_pair w p a b elA kidsA elB kidsB pc = true →
     (max_list (height <$> [VElement elB kidsB; VElement elA kidsA]) < fuel)%nat →
     ∃ w' pn',
       morphdom fuel p [VElement elB kidsB; VElement elA kidsA] pc false w
       = (Done (), w') ∧
       mutations w'
       = (mutations w
          ++ [if key_is (___key elA) (d_key (default no_data (data w !! a)))
              then InsertedBefore b (Some a) p
              else InsertedBefore a None p])%list ∧
       nodes w' !! p = Some pn' ∧ childNodes pn' = [b; a]) ∧
  (∀ (rec : nat → list vnode → option string → M unit) (fuel : nat) (w : world)
     (p : nat) (pc : option string) (toEl : velement) (kids : list vnode) (t : vnode)
     (key0 key : string) (c m : nat) (fns : option nat) (vFrom : velement)
     (seqs1 : gmap string KeySequence.t),
     keyed_match_is_next w p pc toEl t key0 key c m vFrom seqs1 →
     keyed_step rec fuel p pc toEl kids (Some t) (owner_of pc (___ownerComponent toEl))
       key0 (Some c) fns w
     = (insertBefore m (Some c) p;;
        morphEl rec m vFrom toEl kids (Some key)
          (owner_of pc (___ownerComponent toEl)) pc;;
        mret (Some c)) (claimed m (set_keySequences seqs1 w))).
Proof.
  split.
  - intros fuel w p a b elA kidsA elB kidsB pc Hpair Hheight.
    destruct fuel as [|fuel]; [lia|].
    unfold morphdom. rewrite (run_bind _ _ _ _ _ (run_modify _ _)).
    set (w0 := {| nodes := nodes w; next_node := next_node w; data := data w;
                  keyedElements := keyedElements w; keySequences := ∅;
                  detachedNodes := []; mutations := mutations w;
                  isHydrate := false |}).
    destruct (key_is (___key elA) (d_key (default no_data (data w !! a)))) eqn:Hswap.
    + destruct (swapped_pair_swap_run fuel w0 p a b elA kidsA elB kidsB pc Hpair Hswap
                  eq_refl eq_refl) as (w' & pn' & Hrun & Hm & Hdet & Ep & Hch); [lia|].
      rewrite (run_bind _ _ _ _ _ Hrun).
      rewrite (run_bind _ _ _ _ _ (run_get_world _)), Hdet.
      by exists w', pn'.
    + destruct (swapped_pair_removal_run fuel w0 p a b elA kidsA elB kidsB pc Hpair Hswap
                  eq_refl eq_refl) as (w' & pn' & Hrun & Hm & Hdet & Hflag & Ep & Hch);
        [lia|].
      rewrite (run_bind _ _ _ _ _ Hrun).
      rewrite (run_bind _ _ _ _ _ (run_get_world _)), Hdet.
      exists w', pn'. split_and!; try done.
      apply for_each_quiet. intros x Hx%list_elem_of_singleton. subst x.
      by rewrite (run_bind _ _ _ _ _ (run_get_data _ _)), Hflag.
  - intros rec fuel w p pc toEl kids t key0 key c m fns vFrom seqs1
      (pn & n & nm & H1 & H2 & H3 & H4 & H5 & H6 & H7 & H8 & H9 & H10 & H11 & H12 & H13).
    by eapply swap_branch.
Qed.

End morph_swap_theorem.
Section morph_swap_examples.
Import Morph.

Definition first_element (ref : nat) : velement :=
  element "div" ref [("class", AString "x")] (KString "a").

Definition second_element (ref : nat) (tag : string) : velement :=
  element tag (ref + 1) [("class", AString "y")] (KString "b").

Definition second_children (ref : nat) : list vnode :=
  [VElement (element "em" (ref + 2) [] KNull) []].

(** Two keyed siblings, and the same two in the other order; [tag] is
    the tag name of the second one. *)
Definition pair (ref : nat) (tag : string) : list vnode :=
  [ VElement (first_element ref) [VText "first" None];
    VElement (second_element ref tag) (second_children ref) ].

Definition pair_swapped (ref : nat) (tag : string) : list vnode :=
  [ VElement (second_element ref tag) (second_children ref);
    VElement (first_element ref) [VText "first" None] ].

(** The document after the first pass; the real elements are the nodes
    1 and 3. *)
Definition pair_rendered : world :=
  (morphdom 5 0 (pair 10 "div") (Some "c0") false empty_page).2.

(** The state at the start of the next pass. *)
Definition next_pass (w : world) : world :=
  {| nodes := nodes w; next_node := next_node w; data := data w;
     keyedElements := keyedElements w; keySequences := ∅; detachedNodes := [];
     mutations := mutations w; isHydrate := false |}.

(** The same for elements that another component ([c1]) owns, as in
    content passed to the component that renders: the pass resolves
    their keys to [a:c1] and [b:c1]. *)
Definition passed_in (el : velement) : velement :=
  {| ___nodeName := ___nodeName el; ___attributes := ___attributes el;
     ___key := ___key el; ___ownerComponent := Some "c1"; ___flags := ___flags el;
     ___constId := ___constId el; ___valueInternal := ___valueInternal el;
     ___preserveTextAreaValue := ___preserveTextAreaValue el |}.

Definition passed_pair_rendered : world :=
  (morphdom 5 0
     [ VElement (passed_in (first_element 10)) [VText "first" None];
       VElement (passed_in (second_element 10 "div")) (second_children 10) ]
     (Some "c0") false empty_page).2.

Lemma single_move_swap_witness :
  (∃ w' pn',
     morphdom 5 0
       [ VElement (passed_in (second_element 20 "div")) (second_children 20);
         VElement (passed_in (first_element 20)) [VText "first" None] ]
       (Some "c0") false passed_pair_rendered = (Done (), w')
     ∧ mutations w' = (mutations passed_pair_rendered ++ [InsertedBefore 1 None 0])%list
     ∧ nodes w' !! 0%nat = Some pn' ∧ childNodes pn' = [3%nat; 1%nat]) ∧
  (∃ w' pn',
     morphdom 5 0 (pair_swapped 20 "div") (Some "c0") false pair_rendered = (Done (), w')
     ∧ mutations w' = (mutations pair_rendered ++ [InsertedBefore 3 (Some 1%nat) 0])%list
     ∧ nodes w' !! 0%nat = Some pn' ∧ childNodes pn' = [3%nat; 1%nat]) ∧
  keyed_step (morphChildren 4) 4 0 (Some "c0") (second_element 20 "div")
    (second_children 20) (Some (VElement (first_element 20) [VText "first" None]))
    (owner_of (Some "c0") (___ownerComponent (second_element 20 "div"))) "b"
    (Some 1%nat) None (next_pass pair_rendered)
  = (insertBefore 3 (Some 1%nat) 0;;
     morphEl (morphChildren 4) 3 (second_element 10 "div") (second_element 20 "div")
       (second_children 20) (Some "b")
       (owner_of (Some "c0") (___ownerComponent (second_element 20 "div")))
       (Some "c0");;
     mret (Some 1%nat))
      (claimed 3 (set_keySequences (KeySequence.next_in_pass "c0" "b" ∅).2
                    (next_pass pair_rendered))).
Proof.
  split_and!.
  - apply (proj1 single_move_swap 5 passed_pair_rendered 0 1 3
             (passed_in (first_element 20)) [VText "first" None]
             (passed_in (second_element 20 "div")) (second_children 20) (Some "c0")).
    + vm_compute. reflexivity.
    + vm_compute. lia.
  - apply (proj1 single_move_swap 5 pair_rendered 0 1 3 (first_element 20)
             [VText "first" None] (second_element 20 "div") (second_children 20)
             (Some "c0")).
    + vm_compute. reflexivity.
    + vm_compute. lia.
  - apply (proj2 single_move_swap (morphChildren 4) 4 (next_pass pair_rendered) 0
             (Some "c0") (second_element 20 "div") (second_children 20)
             (VElement (first_element 20) [VText "first" None]) "b" "b" 1 3 None
             (second_element 10 "div") (KeySequence.next_in_pass "c0" "b" ∅).2).
    eexists _, _, _. split_and!.
    + vm_compute. reflexivity.
    + vm_compute. reflexivity.
    + vm_compute. reflexivity.
    + vm_compute. reflexivity.
    + vm_compute. discriminate.
    + apply (bool_decide_unpack _). vm_compute. exact I.
    + vm_compute. reflexivity.
    + vm_compute. reflexivity.
    + vm_compute. discriminate.
    + vm_compute. reflexivity.
    + vm_compute. reflexivity.
    + vm_compute. reflexivity.
    + vm_compute. reflexivity.
Defined.

(** C2 (as stated) fails when the element kept under the key has
    another tag name than the virtual element.  At the first turn the
    keyed match (node 3) is the next real sibling of the cursor (node
    1), and the key of the next virtual sibling is the key of the node
    at the cursor; but the tag name went from [div] to [span], and the
    swap branch is not taken: a new element is created and inserted, and
    node 3 is removed at the end of the pass. *)
Lemma keyed_match_with_another_tag_is_replaced :
  let w := next_pass pair_rendered in
  let second := morphdom 5 0 (pair_swapped 20 "span") (Some "c0") false pair_rendered in
  found w (reference (Some "c0") (second_element 20 "span") "b") "b" = Some 3%nat ∧
  (nextSibling 1 w).1 = Done (Some 3%nat) ∧
  key_is (___key (first_element 20)) (d_key (default no_data (data w !! 1%nat))) = true ∧
  second.1 = Done () ∧
  mutations second.2
  = (mutations pair_rendered
     ++ [Created 5; AttributeSet 5 "" "class" "y"; InsertedBefore 5 (Some 1%nat) 0;
         Created 6; InsertedBefore 6 None 5; InsertedBefore 1 None 0; Removed 3])%list.
Proof. by vm_compute. Qed.

End morph_swap_examples.
(** ** morphdom: the first render *)

Section mount_definitions.
Import Morph.

(** The virtual element a template renders the next time: the same in
    everything but the identity of the attribute map. *)
Definition reissue_element (f : nat → nat) (el : velement) : velement :=
  {| ___nodeName := ___nodeName el;
     ___attributes := {| a_ref := f (a_ref (___attributes el));
                         a_own := a_own (___attributes el) |};
     ___key := ___key el; ___ownerComponent := ___ownerComponent el;
     ___flags := ___flags el; ___constId := ___constId el;
     ___valueInternal := ___valueInternal el;
     ___preserveTextAreaValue := ___preserveTextAreaValue el |}.

Fixpoint reissue (f : nat → nat) (v : vnode) : vnode :=
  match v with
  | VElement el children => VElement (reissue_element f el) (reissue f <$> children)
  | VText text owner => VText text owner
  | VComment text owner => VComment text owner
  | VFragment key children => VFragment key (reissue f <$> children)
  | VComponent component key children => VComponent component key (reissue f <$> children)
  end.

(** An element the first render brings into a state the next pass finds
    up to date: plain names, each attribute once, no custom element, no
    constant id, no form control whose properties the browser derives
    from its attributes, and attribute values that are null, false or
    strictly equal to themselves (no NaN) under a name other than
    [xlink:href]. *)
Definition element_ok (el : velement) : bool :=
  plain (___attributes el)
  && bool_decide (NoDup (a_own (___attributes el)).*1)
  && negb (bool_decide (___nodeName el ∈ JsObject.prototype_names))
  && negb (bool_decide (___nodeName el ∈ ["option"; "button"; "input"; "select"]))
  && negb (has_flag (___flags el) FLAG_CUSTOM_ELEMENT)
  && bool_decide (___constId el = None)
  && forallb (λ kv : string * attrval,
        null_or_false kv.2
        || strict_eq kv.2 kv.2 && negb (bool_decide (kv.1 = ATTR_XLINK_HREF)))
       (a_own (___attributes el)).

Section with_parent_component.
Variable pc : option string.

(** The key of an element is resolved and is new: it is no name of
    [Object.prototype] and was not issued before in this pass for the
    same reference component.  The result is the key sequences and the
    keys issued afterwards. *)
Definition issue (el : velement)
    (st : gmap string KeySequence.t * list (string * string))
  : option (gmap string KeySequence.t * list (string * string)) :=
  match truthy_key (___key el) with
  | Some key0 =>
      match resolve pc el key0 st.1, reference pc el key0 with
      | Some (key, seqs), Some id =>
          if bool_decide (key ∈ JsObject.prototype_names)
             || bool_decide ((id, key) ∈ st.2)
          then None else Some (seqs, (id, key) :: st.2)
      | _, _ => None
      end
  | None => Some st
  end.

(** A tree of elements, text and comments that the first render can
    mount, with the keys threaded in document order. *)
Fixpoint mountable_node (v : vnode)
    (st : gmap string KeySequence.t * list (string * string)) {struct v}
  : option (gmap string KeySequence.t * list (string * string)) :=
  match v with
  | VText _ _ | VComment _ _ => Some st
  | VElement el children =>
      if negb (element_ok el) then None
      else if bool_decide (___nodeName el = "textarea")
              && match children with [] => false | _ => true end
      then None
      else
        match issue el st with
        | Some st =>
            (fix go (vs : list vnode) st :=
               match vs with
               | [] => Some st
               | v :: vs =>
                   match mountable_node v st with
                   | Some st => go vs st
                   | None => None
                   end
               end) children st
        | None => None
        end
  | VFragment _ _ | VComponent _ _ _ => None
  end.

Fixpoint mountable (vs : list vnode)
    (st : gmap string KeySequence.t * list (string * string))
  : option (gmap string KeySequence.t * list (string * string)) :=
  match vs with
  | [] => Some st
  | v :: vs =>
      match mountable_node v st with
      | Some st => mountable vs st
      | None => None
      end
  end.

Lemma mountable_node_element (el : velement)
    (children : list vnode) (st : gmap string KeySequence.t * list (string * string)) :
  mountable_node (VElement el children) st
  = if negb (element_ok el) then None
    else if bool_decide (___nodeName el = "textarea")
            && match children with [] => false | _ => true end
    then None
    else match issue el st with
         | Some st => mountable children st
         | None => None
         end.
Proof. reflexivity. Qed.

End with_parent_component.

(** Every node and every entry of the data is below the next node
    number. *)
Definition wf (w : world) : Prop :=
  (∀ x, is_Some (nodes w !! x) → x < next_node w)
  ∧ (∀ x, is_Some (data w !! x) → x < next_node w).

(** The keyed elements are kept under keys that were issued. *)
Definition registered (w : world) (issued : list (string * string)) : Prop :=
  ∀ id key, is_Some (found w (Some id) key) → (id, key) ∈ issued.

End mount_definitions.
Section mount_runs.
Import Morph.

(** From [w] to [w'] the document changed at node [c] only (and the
    record of mutations grew). *)
Record touched (c : nat) (w w' : world) : Prop := {
  touched_other : ∀ x, x ≠ c → nodes w' !! x = nodes w !! x;
  touched_data : data w' = data w;
  touched_next : next_node w' = next_node w;
  touched_keyed : keyedElements w' = keyedElements w;
  touched_seqs : keySequences w' = keySequences w;
  touched_detached : detachedNodes w' = detachedNodes w;
  touched_hydrate : isHydrate w' = isHydrate w
}.

Lemma touched_refl (c : nat) (w : world) : touched c w w.
Proof. by split. Qed.

Lemma touched_trans (c : nat) (w w1 w2 : world) :
  touched c w w1 → touched c w1 w2 → touched c w w2.
Proof.
  intros [] []. split; try congruence.
  intros x Hx. by rewrite touched_other1, touched_other0.
Qed.

(** The attribute an entry of a virtual attribute map is kept under. *)
Definition attribute_key (name : string) : string * string :=
  if bool_decide (name = ATTR_XLINK_HREF) then (NS_XLINK, ATTR_HREF) else ("", name).

(** The attributes of a new element after the loop of [___actualize]. *)
Fixpoint attrs_after (own : list (string * attrval)) (m : gmap (string * string) string)
  : gmap (string * string) string :=
  match own with
  | [] => m
  | kv :: own =>
      attrs_after own
        (if null_or_false kv.2 then m else <[attribute_key kv.1 := attr_text kv.2]> m)
  end.

Lemma run_setAttribute (w : world) (c : nat) (n : dnode) (ns name text : string) :
  nodes w !! c = Some n →
  ∃ w', setAttribute c ns name text w = (Done (), w')
        ∧ nodes w' !! c = Some (set_attrs (<[(ns, name) := text]> (Morph.attrs n)) n)
        ∧ touched c w w'.
Proof.
  intros E. unfold setAttribute. eexists. split.
  { rewrite (run_node_bind _ _ _ _ E). unfold update_node, record.
    rewrite (run_bind _ _ _ _ _ (run_modify _ _)). reflexivity. }
  simpl. split.
  - by rewrite lookup_alter_eq, E.
  - split; try done. intros x Hx. simpl. by rewrite lookup_alter_ne.
Qed.

Lemma set_attrs_set_attrs (a b : gmap (string * string) string) (n : dnode) :
  set_attrs a (set_attrs b n) = set_attrs a n.
Proof. reflexivity. Qed.

Lemma run_attribute_loop (own : list (string * attrval)) :
  ∀ (w : world) (c : nat) (n : dnode),
    nodes w !! c = Some n →
    ∃ w', for_each own (λ kv,
            if null_or_false kv.2 then mret ()
            else if bool_decide (kv.1 = ATTR_XLINK_HREF)
                 then setAttribute c NS_XLINK ATTR_HREF (attr_text kv.2)
                 else setAttribute c "" kv.1 (attr_text kv.2)) w = (Done (), w')
          ∧ nodes w' !! c = Some (set_attrs (attrs_after own (Morph.attrs n)) n)
          ∧ touched c w w'.
Proof.
  induction own as [|kv own IH]; intros w c n E.
  { exists w. split_and!; [done| |apply touched_refl]. by destruct n. }
  cbn [for_each attrs_after]. destruct (null_or_false kv.2).
  - rewrite (run_bind _ _ _ _ _ (run_ret _ _)). by apply IH.
  - assert (∃ w1, (if bool_decide (kv.1 = ATTR_XLINK_HREF)
                   then setAttribute c NS_XLINK ATTR_HREF (attr_text kv.2)
                   else setAttribute c "" kv.1 (attr_text kv.2)) w = (Done (), w1)
                  ∧ nodes w1 !! c
                    = Some (set_attrs (<[attribute_key kv.1 := attr_text kv.2]>
                                         (Morph.attrs n)) n)
                  ∧ touched c w w1) as (w1 & Hrun & E1 & Ht1).
    { unfold attribute_key. destruct (bool_decide (kv.1 = ATTR_XLINK_HREF));
        by apply run_setAttribute. }
    rewrite (run_bind _ _ _ _ _ Hrun).
    destruct (IH w1 c _ E1) as (w' & Hrun' & E' & Ht').
    exists w'. split_and!; [done|by rewrite E'|by eapply touched_trans].
Qed.

End mount_runs.
Section mount_actualize.
Import Morph.

(** The real element [___actualize] makes for [el], before it is put
    into the document. *)
Definition new_element (el : velement) (nc : dnode) : Prop :=
  nodeType nc = ELEMENT_NODE ∧ parentNode nc = None ∧ childNodes nc = [] ∧
  Morph.attrs nc = attrs_after (a_own (___attributes el)) ∅ ∧
  (___nodeName el = "textarea" → value nc = ___value el).

Lemma element_ok_inv (el : velement) :
  element_ok el = true →
  plain (___attributes el) = true ∧ NoDup (a_own (___attributes el)).*1 ∧
  (___nodeName el ∉ JsObject.prototype_names) ∧
  (___nodeName el ∉ ["option"; "button"; "input"; "select"]) ∧
  has_flag (___flags el) FLAG_CUSTOM_ELEMENT = false ∧
  ___constId el = None ∧
  ∀ kv, kv ∈ a_own (___attributes el) →
        null_or_false kv.2 = false →
        strict_eq kv.2 kv.2 = true ∧ kv.1 ≠ ATTR_XLINK_HREF.
Proof.
  unfold element_ok. rewrite !andb_true_iff.
  intros [[[[[[H1 H2] H3] H4] H5] H6] H7].
  apply bool_decide_eq_true in H2, H6.
  apply negb_true_iff, bool_decide_eq_false in H3, H4.
  apply negb_true_iff in H5. split_and!; try done.
  intros kv Hkv Hnull. rewrite forallb_forall in H7.
  specialize (H7 kv). rewrite <- list_elem_of_In in H7. specialize (H7 Hkv).
  rewrite Hnull in H7. simpl in H7. apply andb_true_iff in H7 as [Hs Hx].
  apply negb_true_iff, bool_decide_eq_false in Hx. done.
Qed.

Lemma run_actualize_element (w : world) (el : velement) (kids : list vnode)
    (ns : string) :
  element_ok el = true → wf w →
  ∃ w' nc,
    ___actualize (VElement el kids) ns w = (Done (next_node w), w') ∧
    nodes w' !! next_node w = Some nc ∧ new_element el nc ∧
    (∀ x, x ≠ next_node w → nodes w' !! x = nodes w !! x) ∧
    data w' !! next_node w = Some (set_d_vElement (Some el) no_data) ∧
    (∀ x, x ≠ next_node w → data w' !! x = data w !! x) ∧
    next_node w' = S (next_node w) ∧
    keyedElements w' = keyedElements w ∧ keySequences w' = keySequences w ∧
    detachedNodes w' = detachedNodes w ∧ isHydrate w' = isHydrate w.
Proof.
  intros Hok [Hwfn Hwfd].
  destruct (element_ok_inv el Hok) as (Hplain & _ & Hname & _ & Hcustom & _ & _).
  set (c := next_node w).
  set (namespaceURI :=
         if bool_decide (___nodeName el = "svg") then NS_SVG
         else if bool_decide (___nodeName el = "math") then NS_MATH
         else if bool_decide (ns = "") then NS_HTML else ns).
  set (n0 := new_dnode ELEMENT_NODE (___nodeName el) namespaceURI None).
  set (w1 := (create n0 w).2).
  assert (nodes w1 !! c = Some n0) as E1 by apply lookup_insert_eq.
  destruct (run_attribute_loop (a_own (___attributes el)) w1 c n0 E1)
    as (w2 & Hloop & E2 & Ht2).
  set (n2 := set_attrs (attrs_after (a_own (___attributes el)) (Morph.attrs n0)) n0) in E2.
  assert (∃ w3 nc,
            (if bool_decide (___nodeName el = "textarea") then
               update_node c (set_value (___value el));;
               record (PropertySet c "value" (AString (___value el)))
             else mret ()) w2 = (Done (), w3)
            ∧ nodes w3 !! c = Some nc ∧ new_element el nc ∧ touched c w2 w3)
    as (w3 & nc & Htext & E3 & Hnew & Ht3).
  { case_bool_decide as Ht.
    - eexists _, _. split.
      { unfold update_node, record.
        rewrite (run_bind _ _ _ _ _ (run_modify _ _)). reflexivity. }
      simpl. split_and!.
      + by rewrite lookup_alter_eq, E2.
      + by repeat split.
      + split; try done. intros x Hx. simpl. by rewrite lookup_alter_ne.
    - exists w2, n2. split_and!; [done|done| |apply touched_refl].
      by repeat split. }
  eexists _, nc. split.
  { unfold ___actualize.
    rewrite (run_bind _ _ _ _ _ (run_plain_name _ _ Hname)).
    rewrite (run_bind _ _ _ _ _ (run_plain_names _ _ Hplain)).
    fold namespaceURI. fold n0.
    assert (create n0 w = (Done c, w1)) as Hcreate by reflexivity.
    rewrite (run_bind _ _ _ _ _ Hcreate). rewrite Hcustom.
    erewrite run_bind; last first.
    { rewrite (run_bind _ _ _ _ _ Hloop). exact Htext. }
    unfold update_data. rewrite (run_bind _ _ _ _ _ (run_modify _ _)). reflexivity. }
  pose proof (touched_trans _ _ _ _ Ht2 Ht3) as Ht.
  assert (data w !! c = None) as Hfresh.
  { destruct (data w !! c) eqn:E; [|done].
    assert (c < next_node w) by (apply Hwfd; by rewrite E). unfold c in *. lia. }
  simpl. split_and!; try done.
  - intros x Hx. rewrite (touched_other _ _ _ Ht) by done. simpl.
    by rewrite lookup_insert_ne.
  - rewrite lookup_insert_eq. rewrite (touched_data _ _ _ Ht).
    change (data w1) with (data w). by rewrite Hfresh.
  - intros x Hx. rewrite lookup_insert_ne by done. by rewrite (touched_data _ _ _ Ht).
  - by rewrite (touched_next _ _ _ Ht).
  - by rewrite (touched_keyed _ _ _ Ht).
  - by rewrite (touched_seqs _ _ _ Ht).
  - by rewrite (touched_detached _ _ _ Ht).
  - by rewrite (touched_hydrate _ _ _ Ht).
Qed.

End mount_actualize.
Section mount_append.
Import Morph.

Lemma put_before_None (x : nat) (l : list nat) : put_before None x l = (l ++ [x])%list.
Proof. by destruct l. Qed.

(** A new node is put at the end of the children of [p]. *)
Lemma run_append (w : world) (p c : nat) (pn nc : dnode) :
  nodes w !! p = Some pn → nodes w !! c = Some nc → parentNode nc = None → c ≠ p →
  ∃ w',
    insertBefore c None p w = (Done (), w') ∧
    nodes w' !! p = Some (set_childNodes (childNodes pn ++ [c]) pn) ∧
    nodes w' !! c = Some (set_parentNode (Some p) nc) ∧
    (∀ x, x ≠ p → x ≠ c → nodes w' !! x = nodes w !! x) ∧
    data w' = data w ∧ next_node w' = next_node w ∧
    keyedElements w' = keyedElements w ∧ keySequences w' = keySequences w ∧
    detachedNodes w' = detachedNodes w ∧ isHydrate w' = isHydrate w.
Proof.
  intros Ep Ec Hpar Hcp. unfold insertBefore, dom_insertBefore.
  eexists. split.
  { rewrite (run_node_bind _ _ _ _ Ep). rewrite (run_node_bind _ _ _ _ Ec).
    rewrite (run_bind _ _ _ _ _ (run_ret _ _)).
    rewrite (run_bind _ _ _ _ _ (run_ret _ _)).
    erewrite run_bind; last first.
    { unfold unlink. rewrite (run_node_bind _ _ _ _ Ec), Hpar. reflexivity. }
    unfold update_node, record.
    repeat rewrite (run_bind _ _ _ _ _ (run_modify _ _)).
    rewrite run_modify. reflexivity. }
  simpl. split_and!; try done.
  - rewrite lookup_alter_ne by done. rewrite lookup_alter_eq, Ep. simpl.
    by rewrite put_before_None.
  - rewrite lookup_alter_eq. rewrite lookup_alter_ne by done. by rewrite Ec.
  - intros x Hxp Hxc. by rewrite !lookup_alter_ne.
Qed.

(** A text or comment node is created and put at the end. *)
Lemma insert_text_mounts (rec : nat → list vnode → option string → M unit)
    (w : world) (p : nat) (pn : dnode) (v : vnode) (text : string)
    (owner pc : option string) :
  (∃ o, v = VText text o ∨ v = VComment text o) →
  nodes w !! p = Some pn → wf w →
  ∃ w' nc,
    insertVirtualNodeBefore rec v None None p owner pc w = (Done (), w') ∧
    nodes w' !! p = Some (set_childNodes (childNodes pn ++ [next_node w]) pn) ∧
    nodes w' !! next_node w = Some nc ∧
    nodeType nc = v___nodeType v ∧ parentNode nc = Some p ∧ nodeValue nc = Some text ∧
    (∀ x, x ≠ p → x ≠ next_node w → nodes w' !! x = nodes w !! x) ∧
    data w' = data w ∧ next_node w' = S (next_node w) ∧
    keyedElements w' = keyedElements w ∧ keySequences w' = keySequences w ∧
    detachedNodes w' = detachedNodes w ∧ isHydrate w' = isHydrate w.
Proof.
  intros (o & Hv) Ep [Hwfn Hwfd].
  set (c := next_node w).
  assert (p < c) as Hpc by (apply Hwfn; by rewrite Ep).
  set (n0 := new_dnode (v___nodeType v)
               (match v with VText _ _ => "#text" | _ => "#comment" end) ""
               (Some text)).
  set (w1 := (create n0 w).2).
  assert (___actualize v (namespaceURI pn) w = (Done c, w1)) as Hact
    by (by destruct Hv as [-> | ->]).
  assert (nodes w1 !! p = Some pn) as Ep1.
  { unfold w1. simpl. rewrite lookup_insert_ne by lia. done. }
  assert (nodes w1 !! c = Some n0) as Ec1 by apply lookup_insert_eq.
  destruct (run_append w1 p c pn n0 Ep1 Ec1 eq_refl ltac:(lia))
    as (w2 & Hins & Ep2 & Ec2 & Hother & Hd & Hn & Hk & Hs & Hdet & Hh).
  exists w2, (set_parentNode (Some p) n0). split.
  { unfold insertVirtualNodeBefore.
    rewrite (run_node_bind _ _ _ _ Ep). rewrite (run_bind _ _ _ _ _ Hact).
    rewrite (run_bind _ _ _ _ _ Hins). by destruct Hv as [-> | ->]. }
  split_and!; try done.
  intros x Hxp Hxc. rewrite Hother by done. unfold w1. simpl.
  by rewrite lookup_insert_ne.
Qed.

End mount_append.
Section mount_element.
Import Morph.

(** The new real element in its place: the last child of [p], without
    children of its own yet. *)
Definition placed_element (el : velement) (p : nat) (nc : dnode) : Prop :=
  nodeType nc = ELEMENT_NODE ∧ parentNode nc = Some p ∧ childNodes nc = [] ∧
  Morph.attrs nc = attrs_after (a_own (___attributes el)) ∅ ∧
  (___nodeName el = "textarea" → value nc = ___value el).

(** [insertVirtualNodeBefore] for an element, up to the call that
    reconciles the children: the element is created, put at the end of
    the children of [p] and, with a key, kept under it. *)
Lemma insert_element_prepare (rec : nat → list vnode → option string → M unit)
    (w : world) (p : nat) (pn : dnode) (el : velement) (kids : list vnode)
    (key : option (string * string)) (owner pc : option string)
    (issued : list (string * string)) :
  element_ok el = true → nodes w !! p = Some pn → wf w → registered w issued →
  match key with
  | Some (id, k) =>
      (if isAutoKey k then pc else owner) = Some id ∧
      (id ∉ JsObject.prototype_names) ∧ (k ∉ JsObject.prototype_names)
  | None => True
  end →
  ∃ w7 nc dc,
    insertVirtualNodeBefore rec (VElement el kids) (snd <$> key) None p owner pc w
    = rec (next_node w) kids pc w7 ∧
    nodes w7 !! p = Some (set_childNodes (childNodes pn ++ [next_node w]) pn) ∧
    nodes w7 !! next_node w = Some nc ∧ placed_element el p nc ∧
    (∀ x, x ≠ p → x ≠ next_node w → nodes w7 !! x = nodes w !! x) ∧
    data w7 !! next_node w = Some dc ∧
    d_vElement dc = Some el ∧ d_key dc = snd <$> key ∧ d_component dc = None ∧
    (∀ x, x ≠ next_node w → data w7 !! x = data w !! x) ∧
    next_node w7 = S (next_node w) ∧ keySequences w7 = keySequences w ∧
    detachedNodes w7 = detachedNodes w ∧ isHydrate w7 = isHydrate w ∧
    registered w7 match key with Some ik => ik :: issued | None => issued end.
Proof.
  intros Hok Ep Hwf Hreg Hkey.
  set (c := next_node w).
  assert (p < c) as Hpc by (apply (proj1 Hwf); by rewrite Ep).
  destruct (run_actualize_element w el kids (namespaceURI pn) Hok Hwf)
    as (w1 & n1 & Hact & Ec1 & (Hty & Hpar & Hch & Hattrs & Hval) & Hother1 & Hdc1
        & Hdata1 & Hnext1 & Hk1 & Hs1 & Hdet1 & Hh1).
  fold c in Hact, Ec1, Hother1, Hdc1, Hdata1, Hnext1.
  assert (nodes w1 !! p = Some pn) as Ep1 by (rewrite Hother1 by lia; done).
  destruct (run_append w1 p c pn n1 Ep1 Ec1 Hpar ltac:(lia))
    as (w2 & Hins & Ep2 & Ec2 & Hother2 & Hd2 & Hn2 & Hk2 & Hs2 & Hdet2 & Hh2).
  assert (insertVirtualNodeBefore rec (VElement el kids) (snd <$> key) None p owner pc w
          = ((match snd <$> key with
              | Some key =>
                  update_data c (set_d_key (Some key));;
                  c' ← the_component (if isAutoKey key then pc else owner);
                  set_keyed c' key c
              | None => mret ()
              end);; rec c kids pc) w2) as Hrun.
  { unfold insertVirtualNodeBefore.
    rewrite (run_node_bind _ _ _ _ Ep). rewrite (run_bind _ _ _ _ _ Hact).
    by rewrite (run_bind _ _ _ _ _ Hins). }
  assert (placed_element el p (set_parentNode (Some p) n1)) as Hplaced
    by (by repeat split).
  destruct key as [[id k]|]; simpl in Hrun |- *.
  - destruct Hkey as (Href & Hid & Hk).
    eexists _, _, _. split.
    { rewrite Hrun. unfold update_data, the_component, set_keyed.
      rewrite Href.
      erewrite run_bind; last first.
      { rewrite (run_bind _ _ _ _ _ (run_modify _ _)).
        erewrite run_bind; last first.
        { rewrite (run_bind _ _ _ _ _ (run_plain_name _ _ Hid)). reflexivity. }
        rewrite (run_bind _ _ _ _ _ (run_plain_name _ _ Hk)).
        apply run_modify. }
      reflexivity. }
    simpl. split_and!; try done.
    + intros x Hxp Hxc. by rewrite Hother2, Hother1.
    + rewrite lookup_insert_eq. reflexivity.
    + simpl. by rewrite Hd2, Hdc1.
    + done.
    + simpl. by rewrite Hd2, Hdc1.
    + intros x Hx. rewrite lookup_insert_ne by done. by rewrite Hd2, Hdata1.
    + by rewrite Hn2.
    + by rewrite Hs2.
    + by rewrite Hdet2.
    + by rewrite Hh2.
    + intros id' key' Hf. unfold found in Hf. simpl in Hf. rewrite Hk2, Hk1 in Hf.
      destruct (decide (id' = id)) as [->|Hne].
      * rewrite lookup_insert_eq in Hf. simpl in Hf.
        destruct (decide (key' = k)) as [->|Hnek]; [by left|].
        rewrite lookup_insert_ne in Hf by done. right. by apply Hreg.
      * rewrite lookup_insert_ne in Hf by done. right. by apply Hreg.
  - exists w2, (set_parentNode (Some p) n1), (set_d_vElement (Some el) no_data).
    split.
    { rewrite Hrun. by rewrite (run_bind _ _ _ _ _ (run_ret _ _)). }
    split_and!; try done.
    + intros x Hxp Hxc. by rewrite Hother2, Hother1.
    + by rewrite Hd2.
    + intros x Hx. by rewrite Hd2, Hdata1.
    + by rewrite Hn2.
    + by rewrite Hs2.
    + by rewrite Hdet2.
    + by rewrite Hh2.
    + intros id' key' Hf. apply Hreg. unfold found in *. by rewrite <- Hk1, <- Hk2.
Qed.

End mount_element.
Section mount_pure.
Import Morph.

Lemma attribute_key_inj (a b : string) : attribute_key a = attribute_key b → a = b.
Proof.
  unfold attribute_key. repeat case_bool_decide; intros Heq; simplify_eq; done.
Qed.

Lemma attrs_after_lookup_None (own : list (string * attrval)) :
  ∀ (m : gmap (string * string) string) (key : string * string),
    m !! key = None →
    (∀ kv, kv ∈ own → null_or_false kv.2 = false → attribute_key kv.1 ≠ key) →
    attrs_after own m !! key = None.
Proof.
  induction own as [|kv own IH]; intros m key Hm H; [done|].
  cbn [attrs_after]. apply IH.
  - destruct (null_or_false kv.2) eqn:Hn; [done|].
    rewrite lookup_insert_ne; [done|]. apply H; [by left|done].
  - intros kv' Hkv'. apply H. by right.
Qed.

Lemma lookup_own_NoDup (own : list (string * attrval)) (k : string) (v : attrval) :
  NoDup own.*1 → (k, v) ∈ own → lookup_own own k = v.
Proof.
  induction own as [|[k' v'] own IH]; intros Hnd Hin; [by apply elem_of_nil in Hin|].
  rewrite fmap_cons in Hnd. apply NoDup_cons in Hnd as [Hk' Hnd].
  apply elem_of_cons in Hin as [[= -> ->]|Hin]; simpl.
  - by rewrite decide_True.
  - rewrite decide_False; [by apply IH|].
    intros ->. apply Hk'. apply list_elem_of_fmap. by exists (k, v).
Qed.

Lemma lookup_own_cases (own : list (string * attrval)) (name : string) :
  lookup_own own name = AUndefined ∨ (name, lookup_own own name) ∈ own.
Proof.
  induction own as [|[k v] own IH]; [by left|]. simpl.
  destruct (decide (k = name)) as [->|Hne].
  - right. by left.
  - destruct IH as [IH|IH]; [by left|]. right. by right.
Qed.

Lemma null_or_false_strict_eq (v : attrval) : null_or_false v = true → strict_eq v v = true.
Proof. by destruct v as [| | | [] | | |]. Qed.

(** The attributes the first render gave a new element need no change
    when the template renders the same element again. *)
Lemma fresh_attrs_synced (f : nat → nat) (el : velement) (n : dnode) :
  element_ok el = true →
  Morph.attrs n = attrs_after (a_own (___attributes el)) ∅ →
  attrs_synced n el (reissue_element f el) = true.
Proof.
  intros Hok Hattrs.
  destruct (element_ok_inv el Hok) as (Hplain & Hnd & _ & _ & Hcustom & _ & Hvals).
  assert (∀ kv, kv ∈ a_own (___attributes el) → strict_eq kv.2 kv.2 = true) as Hself.
  { intros kv Hkv. destruct (null_or_false kv.2) eqn:Hn.
    - by apply null_or_false_strict_eq.
    - by apply Hvals. }
  assert (∀ name, strict_eq (attr (___attributes el) name) (attr (___attributes el) name)
                  = true) as Hattr.
  { intros name. unfold attr.
    destruct (lookup_own_cases (a_own (___attributes el)) name) as [->|Hin]; [done|].
    apply (Hself _ Hin). }
  unfold attrs_synced. cbn [reissue_element ___attributes ___flags ___key a_own a_ref].
  assert (plain {| a_ref := f (a_ref (___attributes el));
                   a_own := a_own (___attributes el) |} = true) as -> by exact Hplain.
  rewrite Hplain, Hcustom. cbn [andb negb].
  apply orb_true_iff. right.
  destruct (has_flag (___flags el) FLAG_SIMPLE_ATTRS).
  { cbn [andb]. unfold attr at 2 4 6. cbn [a_own]. fold (attr (___attributes el) "class").
    fold (attr (___attributes el) "id"). fold (attr (___attributes el) "style").
    by rewrite !Hattr. }
  cbn [andb]. apply andb_true_iff. split.
  - apply forallb_forall. intros kv Hkv. apply list_elem_of_In in Hkv.
    destruct (null_or_false kv.2) eqn:Hn.
    + fold (attribute_key kv.1).
      destruct (attribute_key kv.1) as [ns name] eqn:Hkey.
      apply bool_decide_eq_true. rewrite Hattrs.
      apply attrs_after_lookup_None; [done|].
      intros kv' Hkv' Hn' Heq. rewrite <- Hkey in Heq. apply attribute_key_inj in Heq.
      destruct kv as [k v], kv' as [k' v']. simpl in *. subst k'.
      rewrite <- (lookup_own_NoDup _ _ _ Hnd Hkv) in Hn.
      rewrite (lookup_own_NoDup _ _ _ Hnd Hkv') in Hn. congruence.
    + destruct (Hvals kv Hkv Hn) as [Hs Hx].
      rewrite bool_decide_eq_false_2 by done.
      unfold attr. destruct kv as [k v]. simpl in *.
      by rewrite (lookup_own_NoDup _ _ _ Hnd Hkv).
  - destruct (bool_decide (___key el = KNull)); [|done].
    apply forallb_forall. intros kv Hkv. apply list_elem_of_In in Hkv.
    apply orb_true_iff. left. unfold has_attr. apply bool_decide_eq_true.
    cbn [a_own]. apply list_elem_of_fmap. by exists kv.
Qed.

(** A new element that is no form control, or a new textarea without
    children, has the properties its handler would give it. *)
Lemma fresh_handler_synced (f : nat → nat) (N : gmap nat dnode) (el : velement)
    (kids : list vnode) (n : dnode) :
  element_ok el = true →
  (___nodeName el = "textarea" → value n = ___value el ∧ childNodes n = []) →
  handler_synced N n (reissue_element f el) kids = true.
Proof.
  intros Hok Hta.
  destruct (element_ok_inv el Hok) as (_ & _ & Hname & Hform & _).
  unfold handler_synced. cbn [reissue_element ___nodeName].
  rewrite bool_decide_eq_false_2 by done. cbn [negb andb].
  rewrite bool_decide_eq_false_2 by (intros H; apply Hform; rewrite H; rewrite !elem_of_cons; tauto).
  rewrite bool_decide_eq_false_2 by (intros H; apply Hform; rewrite H; rewrite !elem_of_cons; tauto).
  rewrite bool_decide_eq_false_2 by (intros H; apply Hform; rewrite H; rewrite !elem_of_cons; tauto).
  case_bool_decide as Ht.
  - destruct (Hta Ht) as [Hv Hc]. rewrite Hc. cbn [head].
    apply orb_true_iff. right. rewrite andb_true_r. by apply bool_decide_eq_true.
  - rewrite bool_decide_eq_false_2; [done|].
    intros H; apply Hform; rewrite H; rewrite !elem_of_cons; tauto.
Qed.

End mount_pure.
Section mount_spec.
Import Morph.

Lemma truthy_key_nonempty (k : jskey) (key : string) :
  truthy_key k = Some key → key ≠ "".
Proof.
  destruct k as [| |s]; try done. simpl. case_bool_decide; [done|]. by intros [= <-].
Qed.

Lemma isAutoKey_append (key rest : string) :
  key ≠ "" → isAutoKey (key +:+ rest) = isAutoKey key.
Proof. by destruct key. Qed.

(** The resolved key starts as the key of the virtual element does. *)
Lemma isAutoKey_resolve (pc : option string) (el : velement) (key0 key : string)
    (seqs seqs1 : gmap string KeySequence.t) :
  key0 ≠ "" → resolve pc el key0 seqs = Some (key, seqs1) →
  isAutoKey key = isAutoKey key0.
Proof.
  intros Hne Hres.
  destruct (resolve_reference _ _ _ _ _ _ Hres) as (id & key1 & _ & _ & Hkey1 & Hnext).
  assert (key1 ≠ "" ∧ isAutoKey key1 = isAutoKey key0) as [Hne1 H1].
  { destruct (isAutoKey key0) eqn:Ha.
    - case_bool_decide; injection Hkey1 as <- _; [done|].
      split; [by destruct key0|]. by rewrite isAutoKey_append.
    - by injection Hkey1 as <- _. }
  unfold KeySequence.next_in_pass, KeySequence.___nextKey in Hnext.
  destruct (KeySequence.falsy _); injection Hnext as <- _; [done|].
  by rewrite isAutoKey_append.
Qed.

(** The key [insertVirtualNodeBefore] is given for an element. *)
Definition resolved_key (pc : option string) (el : velement)
    (seqs : gmap string KeySequence.t) : option string :=
  match truthy_key (___key el) with
  | Some key0 => fst <$> resolve pc el key0 seqs
  | None => None
  end.

(** What the first render of the virtual nodes [vs] below [p] leaves:
    the new real nodes [ids] at the end of the children of [p], all of
    them and all below them created by this render, and matching the
    virtual nodes as the next pass compares them. *)
Record mounted (f : nat → nat) (pc : option string) (w w' : world) (p : nat)
    (pn : dnode) (vs : list vnode) (ids : list nat)
    (st st' : gmap string KeySequence.t * list (string * string)) : Prop := {
  mounted_parent : nodes w' !! p = Some (set_childNodes (childNodes pn ++ ids)%list pn);
  mounted_nodes : ∀ x, x < next_node w → x ≠ p → nodes w' !! x = nodes w !! x;
  mounted_data : ∀ x, x < next_node w → data w' !! x = data w !! x;
  mounted_next : (next_node w ≤ next_node w')%nat;
  mounted_wf : wf w';
  mounted_registered : registered w' st'.2;
  mounted_seqs : keySequences w' = st'.1;
  mounted_hydrate : isHydrate w' = isHydrate w;
  mounted_detached : detachedNodes w' = detachedNodes w;
  mounted_length : length ids = length vs;
  mounted_ids : ∀ x, x ∈ ids → (next_node w ≤ x < next_node w')%nat;
  mounted_fresh :
    ∀ x, x ∈ footprints (nodes w') (reissue f <$> vs) ids →
         (next_node w ≤ x < next_node w')%nat;
  mounted_NoDup : NoDup (footprints (nodes w') (reissue f <$> vs) ids);
  mounted_ids_NoDup : NoDup ids;
  mounted_synced :
    synced_list (nodes w') (data w') pc (reissue f <$> vs) p ids st.1 = Some st'.1
}.

(** [rec] mounts virtual trees of a depth below [bound] into a node
    without children. *)
Definition mounts (rec : nat → list vnode → option string → M unit) (bound : nat)
    (pc : option string) (f : nat → nat) : Prop :=
  ∀ (vs : list vnode) (p : nat) (w : world) (pn : dnode)
    (st st' : gmap string KeySequence.t * list (string * string)),
    max_list (height <$> vs) < bound →
    nodes w !! p = Some pn → childNodes pn = [] → nodeType pn ≠ FRAGMENT_NODE →
    wf w → registered w st.2 → keySequences w = st.1 → isHydrate w = false →
    mountable pc vs st = Some st' →
    ∃ w' ids, rec p vs pc w = (Done (), w') ∧ mounted f pc w w' p pn vs ids st st'.

Lemma set_childNodes_app (pn : dnode) (l1 l2 : list nat) :
  set_childNodes (childNodes (set_childNodes (childNodes pn ++ l1) pn) ++ l2) 
    (set_childNodes (childNodes pn ++ l1) pn)
  = set_childNodes (childNodes pn ++ l1 ++ l2) pn.
Proof. unfold set_childNodes. simpl. by rewrite app_assoc. Qed.

(** The nodes mounted for the first virtual node and those for the
    rest. *)
Lemma mounted_cons (f : nat → nat) (pc : option string) (w w1 w' : world) (p : nat)
    (pn : dnode) (v : vnode) (vs : list vnode) (c : nat) (ids : list nat)
    (st st1 st' : gmap string KeySequence.t * list (string * string)) :
  p < next_node w →
  mounted f pc w w1 p pn [v] [c] st st1 →
  mounted f pc w1 w' p (set_childNodes (childNodes pn ++ [c]) pn) vs ids st1 st' →
  mounted f pc w w' p pn (v :: vs) (c :: ids) st st'.
Proof.
  intros Hp H1 H2.
  pose proof (mounted_next _ _ _ _ _ _ _ _ _ _ H1) as Hn1.
  pose proof (mounted_next _ _ _ _ _ _ _ _ _ _ H2) as Hn2.
  assert (∀ x, x ∈ footprint (nodes w1) (reissue f v) c →
               nodes w' !! x = nodes w1 !! x ∧ data w' !! x = data w1 !! x) as Hframe.
  { intros x Hx.
    assert (next_node w ≤ x < next_node w1)%nat as Hr.
    { apply (mounted_fresh _ _ _ _ _ _ _ _ _ _ H1). simpl. by rewrite app_nil_r. }
    split.
    - apply (mounted_nodes _ _ _ _ _ _ _ _ _ _ H2); lia.
    - apply (mounted_data _ _ _ _ _ _ _ _ _ _ H2); lia. }
  destruct (synced_node_ext (nodes w1) (nodes w') (data w1) (data w') pc (reissue f v) p c
              st.1 Hframe) as [Hsync Hfp].
  split.
  - rewrite (mounted_parent _ _ _ _ _ _ _ _ _ _ H2). f_equal.
    apply (set_childNodes_app pn [c] ids).
  - intros x Hx Hxp. rewrite (mounted_nodes _ _ _ _ _ _ _ _ _ _ H2) by lia.
    by apply (mounted_nodes _ _ _ _ _ _ _ _ _ _ H1).
  - intros x Hx. rewrite (mounted_data _ _ _ _ _ _ _ _ _ _ H2) by lia.
    by apply (mounted_data _ _ _ _ _ _ _ _ _ _ H1).
  - lia.
  - apply (mounted_wf _ _ _ _ _ _ _ _ _ _ H2).
  - apply (mounted_registered _ _ _ _ _ _ _ _ _ _ H2).
  - apply (mounted_seqs _ _ _ _ _ _ _ _ _ _ H2).
  - rewrite (mounted_hydrate _ _ _ _ _ _ _ _ _ _ H2).
    apply (mounted_hydrate _ _ _ _ _ _ _ _ _ _ H1).
  - rewrite (mounted_detached _ _ _ _ _ _ _ _ _ _ H2).
    apply (mounted_detached _ _ _ _ _ _ _ _ _ _ H1).
  - simpl. f_equal. apply (mounted_length _ _ _ _ _ _ _ _ _ _ H2).
  - intros x [->|Hx]%elem_of_cons.
    + pose proof (mounted_ids _ _ _ _ _ _ _ _ _ _ H1 c ltac:(left)). lia.
    + pose proof (mounted_ids _ _ _ _ _ _ _ _ _ _ H2 x Hx). lia.
  - intros x. rewrite fmap_cons. cbn [footprints]. rewrite Hfp.
    intros [Hx|Hx]%elem_of_app.
    + assert (next_node w ≤ x < next_node w1)%nat; [|lia].
      apply (mounted_fresh _ _ _ _ _ _ _ _ _ _ H1). simpl. by rewrite app_nil_r.
    + pose proof (mounted_fresh _ _ _ _ _ _ _ _ _ _ H2 x Hx). lia.
  - rewrite fmap_cons. cbn [footprints]. rewrite Hfp. apply NoDup_app. split_and!.
    + pose proof (mounted_NoDup _ _ _ _ _ _ _ _ _ _ H1) as Hnd.
      simpl in Hnd. by rewrite app_nil_r in Hnd.
    + intros x Hx Hx'.
      assert (next_node w ≤ x < next_node w1)%nat as Hr.
      { apply (mounted_fresh _ _ _ _ _ _ _ _ _ _ H1). simpl. by rewrite app_nil_r. }
      pose proof (mounted_fresh _ _ _ _ _ _ _ _ _ _ H2 x Hx'). lia.
    + apply (mounted_NoDup _ _ _ _ _ _ _ _ _ _ H2).
  - apply NoDup_cons. split; [|apply (mounted_ids_NoDup _ _ _ _ _ _ _ _ _ _ H2)].
    intros Hc.
    pose proof (mounted_ids _ _ _ _ _ _ _ _ _ _ H1 c ltac:(left)).
    pose proof (mounted_ids _ _ _ _ _ _ _ _ _ _ H2 c Hc). lia.
  - rewrite fmap_cons. cbn [synced_list]. rewrite Hsync.
    pose proof (mounted_synced _ _ _ _ _ _ _ _ _ _ H1) as Hs1.
    rewrite fmap_cons in Hs1. cbn [synced_list fmap list_fmap] in Hs1.
    destruct (synced_node (nodes w1) _ _ _ _ _ _) as [s|]; [|done].
    injection Hs1 as ->. apply (mounted_synced _ _ _ _ _ _ _ _ _ _ H2).
Qed.

End mount_spec.
Section mount_insert.
Import Morph.

Lemma wf_fresh_data (w : world) : wf w → data w !! next_node w = None.
Proof.
  intros [_ Hd]. destruct (data w !! next_node w) eqn:E; [|done].
  assert (next_node w < next_node w); [|lia]. apply Hd. by rewrite E.
Qed.

Lemma wf_fresh_node (w : world) : wf w → nodes w !! next_node w = None.
Proof.
  intros [Hn _]. destruct (nodes w !! next_node w) eqn:E; [|done].
  assert (next_node w < next_node w); [|lia]. apply Hn. by rewrite E.
Qed.

(** A text or comment node the first render inserts. *)
Lemma insert_text_mounted (rec : nat → list vnode → option string → M unit)
    (f : nat → nat) (w : world) (p : nat) (pn : dnode) (v : vnode) (text : string)
    (owner pc : option string)
    (st : gmap string KeySequence.t * list (string * string)) :
  (∃ o, v = VText text o ∨ v = VComment text o) →
  nodes w !! p = Some pn → wf w → registered w st.2 → keySequences w = st.1 →
  ∃ w', insertVirtualNodeBefore rec v None None p owner pc w = (Done (), w')
        ∧ mounted f pc w w' p pn [v] [next_node w] st st.
Proof.
  intros Hv Ep Hwf Hreg Hseqs.
  destruct (insert_text_mounts rec w p pn v text owner pc Hv Ep Hwf)
    as (w' & nc & Hrun & Ep' & Ec' & Hty & Hpar & Hval & Hother & Hd & Hn & Hk & Hs
        & Hdet & Hh).
  pose proof (wf_fresh_data w Hwf) as Hfresh.
  set (c := next_node w) in *.
  assert (p < c) as Hpc by (apply (proj1 Hwf); by rewrite Ep).
  assert (reissue f v = v) as Hre by (by destruct Hv as (o & [-> | ->])).
  assert (footprint (nodes w') v c = [c]) as Hfp by (by destruct Hv as (o & [-> | ->])).
  exists w'. split; [done|]. split; try done.
  - intros x Hx Hxp. apply Hother; [done|lia].
  - intros x Hx. by rewrite Hd.
  - lia.
  - split.
    + intros x Hx. destruct (decide (x = c)) as [->|Hxc]; [lia|].
      destruct (decide (x = p)) as [->|Hxp]; [lia|].
      rewrite Hother in Hx by done. apply (proj1 Hwf) in Hx. lia.
    + intros x Hx. rewrite Hd in Hx. apply (proj2 Hwf) in Hx. lia.
  - intros id key Hf. apply Hreg. unfold found in *. by rewrite <- Hk.
  - by rewrite Hs.
  - intros x ->%list_elem_of_singleton. lia.
  - intros x. rewrite fmap_cons, Hre. cbn [footprints fmap list_fmap].
    rewrite Hfp. simpl. intros ->%list_elem_of_singleton. lia.
  - rewrite fmap_cons, Hre. cbn [footprints fmap list_fmap]. rewrite Hfp. simpl.
    apply NoDup_singleton.
  - apply NoDup_singleton.
  - rewrite fmap_cons, Hre. cbn [synced_list fmap list_fmap].
    assert (synced_node (nodes w') (data w') pc p v c st.1 = Some st.1) as ->; [|done].
    destruct Hv as (o & [-> | ->]); simpl; rewrite Ec', Hd, Hfresh;
      simpl; rewrite Hpar, Hty, Hval; simpl;
      by rewrite !bool_decide_eq_true_2.
Qed.

(** An element the first render inserts, with what it mounts below
    it. *)
Lemma insert_element_mounted (rec : nat → list vnode → option string → M unit)
    (bound : nat) (f : nat → nat) (w : world) (p : nat) (pn : dnode) (el : velement)
    (kids : list vnode) (pc : option string)
    (st st1 st' : gmap string KeySequence.t * list (string * string)) :
  mounts rec bound pc f →
  max_list (height <$> kids) < bound →
  nodes w !! p = Some pn → wf w → isHydrate w = false →
  element_ok el = true → (___nodeName el = "textarea" → kids = []) →
  issue pc el st = Some st1 → keySequences w = st1.1 → registered w st.2 →
  mountable pc kids st1 = Some st' →
  ∃ w', insertVirtualNodeBefore rec (VElement el kids) (resolved_key pc el st.1) None p
          (owner_of pc (___ownerComponent el)) pc w = (Done (), w')
        ∧ mounted f pc w w' p pn [VElement el kids] [next_node w] st st'.
Proof.
  intros Hrec Hheight Ep Hwf Hh Hok Hta Hissue Hseqs Hreg Hkids.
  set (c := next_node w).
  assert (p < c) as Hpc by (apply (proj1 Hwf); by rewrite Ep).
  (* the key *)
  assert (∃ key : option (string * string),
            snd <$> key = resolved_key pc el st.1
            ∧ match key with
              | Some (id, k) =>
                  (if isAutoKey k then pc else owner_of pc (___ownerComponent el))
                  = Some id
                  ∧ (id ∉ JsObject.prototype_names) ∧ (k ∉ JsObject.prototype_names)
              | None => True
              end
            ∧ st1.2 = match key with Some ik => ik :: st.2 | None => st.2 end
            ∧ ∀ d, d_key d = snd <$> key → d_component d = None →
                   key_synced pc d el (reissue_element f el) st.1 = Some st1.1)
    as (key & Hkey & Hkeyok & Hissued & Hksync).
  { unfold issue in Hissue. unfold resolved_key, key_synced.
    cbn [reissue_element ___key].
    destruct (truthy_key (___key el)) as [key0|] eqn:Hkey0.
    - assert (resolve pc (reissue_element f el) key0 st.1 = resolve pc el key0 st.1)
        as -> by reflexivity.
      destruct (resolve pc el key0 st.1) as [[k seqs1]|] eqn:Hres; [|done].
      destruct (reference pc el key0) as [id|] eqn:Href; [|done].
      destruct (bool_decide (k ∈ JsObject.prototype_names)) eqn:Hk; [done|].
      destruct (bool_decide ((id, k) ∈ st.2)) eqn:Hnew; [done|].
      simpl in Hissue. injection Hissue as <-.
      apply bool_decide_eq_false in Hk.
      destruct (resolve_reference _ _ _ _ _ _ Hres) as (id' & key1 & Href' & Hid & _).
      rewrite Href in Href'. injection Href' as <-.
      exists (Some (id, k)). simpl. split_and!; try done.
      + rewrite (isAutoKey_resolve _ _ _ _ _ _ (truthy_key_nonempty _ _ Hkey0) Hres).
        exact Href.
      + intros d -> _. by rewrite bool_decide_eq_true_2.
    - injection Hissue as <-. exists None. simpl. split_and!; try done.
      intros d _ ->. by rewrite bool_decide_eq_true_2. }
  destruct (insert_element_prepare rec w p pn el kids key
              (owner_of pc (___ownerComponent el)) pc st.2 Hok Ep Hwf Hreg Hkeyok)
    as (w7 & nc & dc & Hrun & Ep7 & Ec7 & (Hty & Hpar & Hch & Hattrs & Hval) & Hother7
        & Hdc7 & Hdv & Hdk & Hdcomp & Hdata7 & Hnext7 & Hs7 & Hdet7 & Hh7 & Hreg7).
  fold c in Hrun, Ep7, Ec7, Hother7, Hdc7, Hdata7, Hnext7.
  rewrite <- Hissued in Hreg7. rewrite Hkey in Hrun.
  assert (wf w7) as Hwf7.
  { split.
    - intros x Hx. rewrite Hnext7. destruct (decide (x = c)) as [->|Hxc]; [lia|].
      destruct (decide (x = p)) as [->|Hxp]; [lia|].
      rewrite Hother7 in Hx by done. apply (proj1 Hwf) in Hx. fold c in Hx. lia.
    - intros x Hx. rewrite Hnext7. destruct (decide (x = c)) as [->|Hxc]; [lia|].
      rewrite Hdata7 in Hx by done. apply (proj2 Hwf) in Hx. fold c in Hx. lia. }
  destruct (Hrec kids c w7 nc st1 st' Hheight Ec7 Hch) as (w' & ids & Hrun' & Hm).
  { rewrite Hty. done. }
  { done. }
  { done. }
  { by rewrite Hs7. }
  { by rewrite Hh7. }
  { done. }
  destruct Hm as [Mparent Mnodes Mdata Mnext Mwf Mreg Mseqs Mhyd Mdet Mlen Mids Mfresh
                    Mnd Midsnd Msync].
  rewrite Hch in Mparent. simpl in Mparent. rewrite Hnext7 in Mnodes, Mdata, Mnext, Mids, Mfresh.
  exists w'. split; [by rewrite Hrun|].
  assert (footprint (nodes w') (reissue f (VElement el kids)) c
          = c :: footprints (nodes w') (reissue f <$> kids) ids) as Hfp.
  { cbn [reissue]. rewrite footprint_element, Mparent.
    cbn [reissue_element ___nodeName childNodes set_childNodes].
    case_bool_decide as Ht; [|done].
    rewrite (Hta Ht) in Mlen |- *. by destruct ids. }
  split.
  - rewrite Mnodes by lia. done.
  - intros x Hx Hxp. fold c in Hx. rewrite Mnodes by lia. apply Hother7; [done|lia].
  - intros x Hx. fold c in Hx. rewrite Mdata by lia. apply Hdata7. lia.
  - fold c. lia.
  - done.
  - done.
  - done.
  - by rewrite Mhyd.
  - by rewrite Mdet.
  - done.
  - intros x ->%list_elem_of_singleton. lia.
  - intros x. rewrite fmap_cons. cbn [footprints fmap list_fmap].
    rewrite Hfp, app_nil_r. intros [->|Hx]%elem_of_cons; [lia|].
    specialize (Mfresh x Hx). fold c. lia.
  - rewrite fmap_cons. cbn [footprints fmap list_fmap]. rewrite Hfp, app_nil_r.
    apply NoDup_cons. split; [|done]. intros Hc. specialize (Mfresh c Hc). lia.
  - apply NoDup_singleton.
  - rewrite fmap_cons. cbn [synced_list fmap list_fmap].
    assert (synced_node (nodes w') (data w') pc p (reissue f (VElement el kids)) c st.1
            = Some st'.1) as ->; [|done].
    cbn [reissue]. rewrite synced_node_element, Mparent.
    rewrite (Mdata c ltac:(lia)), Hdc7.
    cbv zeta. change (default no_data (Some dc)) with dc.
    cbn [parentNode set_childNodes nodeType reissue_element ___nodeName].
    rewrite Hpar, Hdv, Hty.
    rewrite !bool_decide_eq_true_2 by done. cbn [negb andb].
    rewrite (Hksync dc Hdk Hdcomp). unfold below.
    assert (same_constId el (reissue_element f el) = false) as ->.
    { unfold same_constId. cbn [reissue_element ___constId].
      destruct (element_ok_inv el Hok) as (_ & _ & _ & _ & _ & -> & _). done. }
    rewrite (fresh_attrs_synced f el _ Hok) by done. cbn [negb].
    cbn [reissue_element ___nodeName childNodes set_childNodes].
    rewrite (fresh_handler_synced f (nodes w') el _ _ Hok); last first.
    { intros Ht. split; [by apply Hval|]. simpl.
      rewrite (Hta Ht) in Mlen. by destruct ids. }
    case_bool_decide as Ht.
    + rewrite (Hta Ht) in Hkids. simpl in Hkids. by injection Hkids as ->.
    + rewrite bool_decide_eq_true_2 by done. by rewrite Msync.
Qed.

End mount_insert.
Section mount_outer.
Import Morph.

(** An element with a key no real element is kept under, when the real
    children are used up: it is inserted at the end. *)
Lemma keyed_step_new (rec : nat → list vnode → option string → M unit)
    (fuel : nat) (p : nat) (pc : option string) (toEl : velement) (kids : list vnode)
    (toNextSibling : option vnode) (key0 key : string) (w : world)
    (seqs1 : gmap string KeySequence.t) :
  resolve pc toEl key0 (keySequences w) = Some (key, seqs1) →
  key ∉ JsObject.prototype_names →
  found w (reference pc toEl key0) key = None →
  isHydrate w = false →
  keyed_step rec fuel p pc toEl kids toNextSibling
    (owner_of pc (___ownerComponent toEl)) key0 None None w
  = (insertVirtualNodeBefore rec (VElement toEl kids) (Some key) None p
       (owner_of pc (___ownerComponent toEl)) pc;;
     mret None) (set_keySequences seqs1 w).
Proof.
  intros Hres Hkey Hfound Hh.
  destruct (resolve_reference _ _ _ _ _ _ Hres) as (id & key1 & Href & Hid & Hpair & Hn).
  unfold keyed_step. rewrite Hpair. unfold the_component.
  erewrite run_bind; last first.
  { rewrite (run_bind _ _ _ _ _ (run_plain_name _ _ Hid)). reflexivity. }
  rewrite (run_bind _ _ _ _ _ (run_get_world _)), Hn.
  rewrite (run_bind _ _ _ _ _ (run_modify _ _)).
  rewrite (run_bind _ _ _ _ _ (run_ret _ _)).
  simpl. unfold keyed.
  erewrite run_bind; last first.
  { rewrite (run_bind _ _ _ _ _ (run_plain_name _ _ Hkey)).
    rewrite (run_bind _ _ _ _ _ (run_get_world _)). reflexivity. }
  rewrite Href in Hfound. simpl in Hfound. simpl. rewrite Hfound.
  by rewrite Hh.
Qed.

Lemma scan_used_up (rec : nat → list vnode → option string → M unit) (fuel : nat)
    (v : vnode) (owner pc : option string) (w : world) :
  scan rec fuel v owner pc None None w = (Done (false, None), w).
Proof. by destruct fuel. Qed.

Lemma max_list_cons_lt (x : nat) (l : list nat) (b : nat) :
  max_list (x :: l) < b ↔ x < b ∧ max_list l < b.
Proof. simpl. lia. Qed.

(** The outer loop, for real children that are used up, mounts the
    virtual ones. *)
Lemma outer_mounts (rec : nat → list vnode → option string → M unit) (bound fuel : nat)
    (pc : option string) (f : nat → nat) :
  mounts rec bound pc f →
  ∀ (vs : list vnode) (p : nat) (w : world) (pn : dnode)
    (st st' : gmap string KeySequence.t * list (string * string)),
    max_list (height <$> vs) < S bound →
    nodes w !! p = Some pn → wf w → registered w st.2 → keySequences w = st.1 →
    isHydrate w = false → mountable pc vs st = Some st' →
    ∃ w' ids, outer rec fuel p pc vs None None w = (Done None, w')
              ∧ mounted f pc w w' p pn vs ids st st'.
Proof.
  intros Hrec. induction vs as [|v vs IH]; intros p w pn st st' Hheight Ep Hwf Hreg Hseqs Hh Hm.
  { injection Hm as <-. exists w, []. split; [done|].
    split; try done.
    - rewrite app_nil_r. rewrite Ep. by destruct pn.
    - intros x Hx. by apply elem_of_nil in Hx.
    - intros x Hx. by apply elem_of_nil in Hx.
    - apply NoDup_nil_2.
    - apply NoDup_nil_2. }
  assert (p < next_node w) as Hp by (apply (proj1 Hwf); by rewrite Ep).
  rewrite fmap_cons in Hheight. apply max_list_cons_lt in Hheight as [Hv Hvs].
  cbn [mountable] in Hm.
  destruct (mountable_node pc v st) as [st1|] eqn:Hm1; [|done].
  assert (∃ w1, outer rec fuel p pc (v :: vs) None None w
                = outer rec fuel p pc vs None None w1
                ∧ mounted f pc w w1 p pn [v] [next_node w] st st1)
    as (w1 & Hrun & Hm01).
  { destruct v as [el kids|text owner|text owner|key kids|co key kids]; try done.
    - rewrite mountable_node_element in Hm1.
      destruct (element_ok el) eqn:Hok; [|done]. cbn [negb] in Hm1.
      destruct (bool_decide (___nodeName el = "textarea")
                && match kids with [] => false | _ => true end) eqn:Hta; [done|].
      destruct (issue pc el st) as [st0|] eqn:Hissue; [|done].
      assert (___nodeName el = "textarea" → kids = []) as Hta'.
      { intros Ht. rewrite (bool_decide_eq_true_2 _ Ht) in Hta. by destruct kids. }
      assert (max_list (height <$> kids) < bound) as Hkids by (simpl in Hv; lia).
      cbn [outer]. rewrite (run_bind _ _ _ _ _ (run_ret _ _)).
      cbn [v___ownerComponent]. fold (owner_of pc (___ownerComponent el)).
      unfold issue in Hissue. 
      destruct (truthy_key (___key el)) as [key0|] eqn:Hkey0.
      + destruct (resolve pc el key0 st.1) as [[key seqs1]|] eqn:Hres; [|done].
        destruct (reference pc el key0) as [id|] eqn:Href; [|done].
        destruct (bool_decide (key ∈ JsObject.prototype_names)) eqn:Hk; [done|].
        destruct (bool_decide ((id, key) ∈ st.2)) eqn:Hnew; [done|].
        apply bool_decide_eq_false in Hk, Hnew.
        simpl in Hissue. injection Hissue as <-.
        destruct (insert_element_mounted rec bound f (set_keySequences seqs1 w) p pn el kids
                    pc st (seqs1, (id, key) :: st.2) st1 Hrec Hkids)
          as (w1 & Hrun1 & Hm01); try done.
        { unfold issue. by rewrite Hkey0, Hres, Href, (bool_decide_eq_false_2 _ Hk),
            (bool_decide_eq_false_2 _ Hnew). }
        exists w1. split; [|by destruct Hm01].
        rewrite <- Hseqs in Hres.
        erewrite run_bind; last first.
        { rewrite (keyed_step_new rec fuel p pc el kids (head vs) key0 key w seqs1 Hres Hk);
            [|rewrite Href|done].
          - unfold resolved_key in Hrun1. rewrite Hkey0 in Hrun1. rewrite <- Hseqs in Hrun1.
            rewrite Hres in Hrun1. simpl in Hrun1.
            rewrite (run_bind _ _ _ _ _ Hrun1). reflexivity.
          - destruct (found w (Some id) key) eqn:Hf; [|done].
            exfalso. apply Hnew, Hreg. by rewrite Hf. }
        reflexivity.
      + injection Hissue as <-.
        destruct (insert_element_mounted rec bound f w p pn el kids
                    pc st st st1 Hrec Hkids)
          as (w1 & Hrun1 & Hm01); try done.
        { unfold issue. by rewrite Hkey0. }
        exists w1. split; [|exact Hm01].
        rewrite (run_bind _ _ _ _ _ (scan_used_up _ _ _ _ _ _)).
        cbn [fst snd]. unfold resolved_key in Hrun1. rewrite Hkey0 in Hrun1.
        by rewrite (run_bind _ _ _ _ _ Hrun1).
    - simpl in Hm1. injection Hm1 as <-.
      destruct (insert_text_mounted rec f w p pn (VText text owner) text
                  (owner_of pc owner) pc st) as (w1 & Hrun1 & Hm01); try done.
      { exists owner. by left. }
      exists w1. split; [|exact Hm01].
      cbn [outer]. rewrite (run_bind _ _ _ _ _ (run_ret _ _)).
      rewrite (run_bind _ _ _ _ _ (scan_used_up _ _ _ _ _ _)).
      cbn [fst snd v___ownerComponent]. fold (owner_of pc owner).
      by rewrite (run_bind _ _ _ _ _ Hrun1).
    - simpl in Hm1. injection Hm1 as <-.
      destruct (insert_text_mounted rec f w p pn (VComment text owner) text
                  (owner_of pc owner) pc st) as (w1 & Hrun1 & Hm01); try done.
      { exists owner. by right. }
      exists w1. split; [|exact Hm01].
      cbn [outer]. rewrite (run_bind _ _ _ _ _ (run_ret _ _)).
      rewrite (run_bind _ _ _ _ _ (scan_used_up _ _ _ _ _ _)).
      cbn [fst snd v___ownerComponent]. fold (owner_of pc owner).
      by rewrite (run_bind _ _ _ _ _ Hrun1). }
  destruct (IH p w1 (set_childNodes (childNodes pn ++ [next_node w]) pn) st1 st' Hvs)
    as (w' & ids & Hrun' & Hm').
  { rewrite (mounted_parent _ _ _ _ _ _ _ _ _ _ Hm01). done. }
  { apply (mounted_wf _ _ _ _ _ _ _ _ _ _ Hm01). }
  { apply (mounted_registered _ _ _ _ _ _ _ _ _ _ Hm01). }
  { apply (mounted_seqs _ _ _ _ _ _ _ _ _ _ Hm01). }
  { rewrite (mounted_hydrate _ _ _ _ _ _ _ _ _ _ Hm01). done. }
  { done. }
  exists w', (next_node w :: ids). split.
  - rewrite Hrun. exact Hrun'.
  - by apply (mounted_cons f pc w w1 w' p pn v vs (next_node w) ids st st1 st').
Qed.

End mount_outer.
Section mount_render.
Import Morph.

Lemma body_mounts (rec : nat → list vnode → option string → M unit) (fuel : nat)
    (pc : option string) (f : nat → nat) :
  mounts rec fuel pc f → mounts (morphChildren_body rec fuel) (S fuel) pc f.
Proof.
  intros Hrec vs p w pn st st' Hheight Ep Hch Hnf Hwf Hreg Hseqs Hh Hm.
  unfold morphChildren_body.
  rewrite (run_bind _ _ _ _ _ (run_firstChild _ _ _ Ep)). rewrite Hch.
  destruct (outer_mounts rec fuel fuel pc f Hrec vs p w pn st st' Hheight Ep Hwf Hreg
              Hseqs Hh Hm) as (w' & ids & Hrun & Hmounted).
  exists w', ids. split; [|done].
  cbn [head]. rewrite (run_bind _ _ _ _ _ Hrun).
  rewrite (run_node_bind _ _ _ _ (mounted_parent _ _ _ _ _ _ _ _ _ _ Hmounted)).
  cbn [nodeType set_childNodes]. rewrite (bool_decide_eq_false_2 _ Hnf).
  by destruct fuel.
Qed.

(** With fuel above the depth of the virtual tree, [morphChildren]
    mounts a mountable tree into a node without children. *)
Lemma morphChildren_mounts (pc : option string) (f : nat → nat) (fuel : nat) :
  mounts (morphChildren fuel) fuel pc f.
Proof.
  induction fuel as [|fuel IH].
  - intros vs p w pn st st' Hheight. lia.
  - apply (body_mounts _ _ _ _ IH).
Qed.

(** The first render.  A pass of [morphdom] that mounts a tree of
    elements, text and comments into a node without children leaves a
    document that is up to date with the tree the template renders the
    next time, whatever the identities of the new attribute maps. *)
Lemma first_render_is_up_to_date (f : nat → nat) (fuel : nat) (w : world)
    (fromNode : nat) (n : dnode) (toChildren : list vnode) (component : option string)
    (st' : gmap string KeySequence.t * list (string * string)) :
  nodes w !! fromNode = Some n → childNodes n = [] → nodeType n ≠ FRAGMENT_NODE →
  wf w → keyedElements w = ∅ →
  mountable component toChildren (∅, []) = Some st' →
  max_list (height <$> toChildren) < fuel →
  ∃ w', morphdom fuel fromNode toChildren component false w = (Done (), w')
        ∧ up_to_date w' fromNode (reissue f <$> toChildren) component = true.
Proof.
  intros En Hch Hnf Hwf Hke Hm Hheight.
  unfold morphdom. rewrite (run_bind _ _ _ _ _ (run_modify _ _)).
  set (w0 := {| nodes := nodes w; next_node := next_node w; data := data w;
                keyedElements := keyedElements w; keySequences := ∅;
                detachedNodes := []; mutations := mutations w; isHydrate := false |}).
  destruct (morphChildren_mounts component f fuel toChildren fromNode w0 n (∅, []) st'
              Hheight En Hch Hnf) as (w' & ids & Hrun & Hmounted); try done.
  { intros id key [x Hx]. unfold found, w0 in Hx. simpl in Hx. by rewrite Hke in Hx. }
  rewrite (run_bind _ _ _ _ _ Hrun).
  rewrite (run_bind _ _ _ _ _ (run_get_world _)).
  rewrite (mounted_detached _ _ _ _ _ _ _ _ _ _ Hmounted).
  exists w'. split; [done|].
  unfold up_to_date. rewrite (mounted_parent _ _ _ _ _ _ _ _ _ _ Hmounted).
  rewrite Hch. cbn [nodeType childNodes set_childNodes app].
  rewrite (bool_decide_eq_false_2 _ Hnf).
  rewrite (bool_decide_eq_true_2 _ (mounted_ids_NoDup _ _ _ _ _ _ _ _ _ _ Hmounted)).
  pose proof (mounted_synced _ _ _ _ _ _ _ _ _ _ Hmounted) as Hs. cbn [fst] in Hs.
  rewrite Hs.
  rewrite (bool_decide_eq_true_2 _ (mounted_NoDup _ _ _ _ _ _ _ _ _ _ Hmounted)).
  by rewrite bool_decide_eq_true_2.
Qed.

Lemma height_reissue (f : nat → nat) (v : vnode) : height (reissue f v) = height v.
Proof.
  induction v as [el kids IH|text owner|text owner|key kids IH|co key kids IH]
    using vnode_ind'; try done; cbn [reissue height]; do 2 f_equal;
    induction IH as [|v kids Hv _ IHkids]; try done;
    rewrite !fmap_cons; by rewrite Hv, IHkids.
Qed.

(** The first render and the next one.

    X19.  A tree of elements, text and comments that the first render
    can mount ([mountable]: no components or fragments; tag, attribute
    and key names that are no names of [Object.prototype]; no option,
    button, input or select, no custom element, no constant id; no
    attribute name twice in a map; every attribute value null,
    undefined or false, or else strictly equal to itself and not under
    [xlink:href]; textareas without children; every key new in its
    component) is rendered into a node without children (no root of a
    fragment) of a document in which no component has keyed elements
    yet, with fuel above the depth of the tree.  Then the pass of
    [morphdom] returns, and so does the pass for what the template
    renders the next time (the same tree with new attribute maps),
    which changes no node of the document and writes nothing to it. *)
Lemma second_render_changes_nothing (f : nat → nat) (fuel : nat) (w : world)
    (fromNode : nat) (n : dnode) (toChildren : list vnode) (component : option string)
    (st' : gmap string KeySequence.t * list (string * string)) :
  nodes w !! fromNode = Some n → childNodes n = [] → nodeType n ≠ FRAGMENT_NODE →
  wf w → keyedElements w = ∅ →
  mountable component toChildren (∅, []) = Some st' →
  max_list (height <$> toChildren) < fuel →
  ∃ w1 w2,
    morphdom fuel fromNode toChildren component false w = (Done (), w1)
    ∧ morphdom fuel fromNode (reissue f <$> toChildren) component false w1 = (Done (), w2)
    ∧ nodes w2 = nodes w1 ∧ mutations w2 = mutations w1.
Proof.
  intros En Hch Hnf' Hwf Hke Hm Hheight.
  destruct (first_render_is_up_to_date f fuel w fromNode n toChildren component st'
              En Hch Hnf' Hwf Hke Hm Hheight) as (w1 & Hrun1 & Hup).
  exists w1. unfold up_to_date in Hup.
  destruct (nodes w1 !! fromNode) as [n1|] eqn:En1; [|done].
  apply andb_true_iff in Hup as [[[Hnf Hnd]%andb_true_iff Hs]%andb_true_iff Hfp].
  apply negb_true_iff, bool_decide_eq_false in Hnf.
  apply bool_decide_eq_true in Hnd, Hs, Hfp. destruct Hs as [seqs' Hs].
  set (w0 := {| nodes := nodes w1; next_node := next_node w1; data := data w1;
                keyedElements := keyedElements w1; keySequences := ∅;
                detachedNodes := []; mutations := mutations w1; isHydrate := false |}).
  destruct (morphChildren_reconciles component fuel fromNode n1 (reissue f <$> toChildren)
              w0 seqs' En1 Hnf Hnd Hs Hfp eq_refl) as (w2 & Hrun2 & Hq).
  { rewrite <- list_fmap_compose.
    rewrite (list_fmap_ext (height ∘ reissue f) height toChildren); [done|].
    intros i v _. apply height_reissue. }
  exists w2. split; [done|]. split_and!.
  - unfold morphdom. rewrite (run_bind _ _ _ _ _ (run_modify _ _)).
    fold w0. rewrite (run_bind _ _ _ _ _ Hrun2).
    rewrite (run_bind _ _ _ _ _ (run_get_world _)).
    by rewrite (silent_detached _ _ _ _ Hq).
  - apply (silent_nodes _ _ _ _ Hq).
  - apply (silent_mutations _ _ _ _ Hq).
Qed.

End mount_render.
Section mount_examples.
Import Morph.

(** What another template renders: a keyed block with text and a
    textarea, a comment and a keyed list. *)
Definition article (ref : nat) : list vnode :=
  [ VElement (element "div" ref [("class", AString "x"); ("hidden", ABoolean false)]
                (KString "a"))
      [ VText "hello" None;
        VElement (element "textarea" (ref + 1) [("value", AString "note")] KNull) [] ];
    VComment "list" None;
    VElement (element "ul" (ref + 2) [("tabindex", ANumber 1)] (KString "b"))
      [ VElement (element "li" (ref + 3) [] (KString "item")) [VText "one" None];
        VElement (element "li" (ref + 4) [] (KString "item")) [VText "two" None] ] ].

Lemma empty_page_wf : wf empty_page.
Proof.
  split; intros x [n Hx]; simpl in Hx.
  - apply lookup_singleton_Some in Hx as [<- _]. simpl. lia.
  - by rewrite lookup_empty in Hx.
Qed.

(** The article is mounted into the empty container and rendered again
    with new attribute maps: the second pass changes nothing. *)
Lemma article_rendered_twice :
  ∃ w1 w2,
    morphdom 5 0 (article 10) (Some "c0") false empty_page = (Done (), w1)
    ∧ morphdom 5 0 (article 20) (Some "c0") false w1 = (Done (), w2)
    ∧ nodes w2 = nodes w1 ∧ mutations w2 = mutations w1.
Proof.
  change (article 20) with (reissue (λ r, r + 10) <$> article 10).
  eapply (second_render_changes_nothing (λ r, r + 10) 5 empty_page 0 _ (article 10)
            (Some "c0")).
  - reflexivity.
  - reflexivity.
  - done.
  - apply empty_page_wf.
  - reflexivity.
  - vm_compute. reflexivity.
  - vm_compute. lia.
Defined.

End mount_examples.
(** ** events-light: the listeners of a type *)
Section emitter_listeners.
Import Emitter EmitterCalls.

(** The listeners a run of calls leaves attached to [type], in the
    order they are to be called: [on] adds at the end, [prependListener]
    at the front, [removeListener] takes out every occurrence. *)
Definition attached_after (type : string) (c : call) (ls : list listener) : list listener :=
  match c with
  | On type' l => if decide (type' = type) then (ls ++ [l])%list else ls
  | PrependListener type' l => if decide (type' = type) then l :: ls else ls
  | RemoveListener type' l =>
      if decide (type' = type) then filter (λ x, x ≠ l) ls else ls
  | RemoveAllListeners type' => if decide (type' = type) then [] else ls
  end.

Definition attached (type : string) (cs : list call) : list listener :=
  fold_left (λ ls c, attached_after type c ls) cs [].

(** What [events[type]] stands for. *)
Definition listeners_of (type : string) (events : gmap string listeners) : list listener :=
  match events !! type with
  | Some (One l) => [l]
  | Some (Many ls) => ls
  | None => []
  end.

Lemma listeners_of_apply_call (type : string) (c : call) (events : gmap string listeners) :
  listeners_of type (apply_call c events) = attached_after type c (listeners_of type events).
Proof.
  unfold listeners_of.
  destruct c as [type' l|type' l|type' l|type']; simpl;
    [unfold on|unfold prependListener|unfold removeListener|unfold removeAllListeners];
    unfold t;
    destruct (decide (type' = type)) as [->|Hne].
  - destruct (events !! type) as [[l0|ls]|]; by rewrite lookup_insert_eq.
  - destruct (events !! type') as [[l0|ls]|]; by rewrite lookup_insert_ne.
  - destruct (events !! type) as [[l0|ls]|]; by rewrite lookup_insert_eq.
  - destruct (events !! type') as [[l0|ls]|]; by rewrite lookup_insert_ne.
  - destruct (events !! type) as [[l0|ls]|] eqn:E.
    + destruct (decide (l0 = l)) as [->|Hl].
      * rewrite lookup_delete_eq. rewrite filter_cons, decide_False; [done|]. by intros [].
      * rewrite E. by rewrite filter_cons, decide_True.
    + by rewrite lookup_insert_eq.
    + by rewrite E.
  - destruct (events !! type') as [[l0|ls]|] eqn:E; [|by rewrite lookup_insert_ne|done].
    destruct (decide (l0 = l)); [by rewrite lookup_delete_ne|done].
  - by rewrite lookup_delete_eq.
  - by rewrite lookup_delete_ne.
Qed.

Lemma listeners_of_apply_calls (type : string) (cs : list call) :
  ∀ events ls, listeners_of type events = ls →
    listeners_of type (apply_calls cs events)
    = fold_left (λ ls c, attached_after type c ls) cs ls.
Proof.
  induction cs as [|c cs IH]; intros events ls H; [done|].
  simpl. apply IH. by rewrite listeners_of_apply_call, H.
Qed.

Lemma invoke_all_quiet (type : string) (ls : list listener) :
  ∀ log, Forall (λ l, l_throws l = None) ls →
    invoke_all type ls log = (Ok (), (log ++ ((λ l, Invoked (l_id l) type) <$> ls))%list).
Proof.
  induction ls as [|l ls IH]; intros log Hq; simpl.
  - by rewrite app_nil_r.
  - apply Forall_cons in Hq as [Hl Hq]. rewrite Hl, (IH _ Hq).
    by rewrite <- app_assoc.
Qed.

(** X1.  The emitter keeps a lone listener as the function itself and
    two or more as an array; whatever run of [on], [prependListener],
    [removeListener] and [removeAllListeners] calls was made on a new
    emitter, for an event type that is no name of [Object.prototype]
    [listenerCount(type)] is the number of listeners the calls left
    attached to [type], and [emit(type, arg)] calls exactly these, each
    once, in the order of attachment ([prependListener] puts its
    listener first), when none of them throws. *)
Theorem emitter_keeps_listeners_in_order (cs : list call) (type : string) (arg : jsval)
    (log : list record) :
  type ∉ JsObject.prototype_names →
  listenerCount type (apply_calls cs new_emitter) = length (attached type cs)
  ∧ (Forall (λ l, l_throws l = None) (attached type cs) →
     (emit type arg (apply_calls cs new_emitter) log).2
     = (log ++ ((λ l, Invoked (l_id l) type) <$> attached type cs))%list).
Proof.
  intros _.
  pose proof (listeners_of_apply_calls type cs new_emitter [] eq_refl) as H.
  fold (attached type cs) in H. unfold listeners_of in H.
  unfold listenerCount, emit. set (events := apply_calls cs new_emitter) in *. unfold t in *.
  destruct (events !! type) as [[l|ls]|]; rewrite <- H.
  - split; [done|]. intros Hq. by rewrite (invoke_all_quiet _ _ _ Hq).
  - split; [done|]. intros Hq. by rewrite (invoke_all_quiet _ _ _ Hq).
  - split; [done|]. intros _. rewrite app_nil_r. by case_bool_decide.
Qed.

Lemma emitter_keeps_listeners_in_order_witness :
  listenerCount "data"
    (apply_calls [On "data" listener_g; On "data" listener_f;
                  PrependListener "data" listener_g; RemoveListener "data" listener_g;
                  On "data" listener_g; On "end" listener_f] new_emitter) = 2
  ∧ (emit "data" (Plain "x")
       (apply_calls [On "data" listener_g; On "data" listener_f;
                     PrependListener "data" listener_g; RemoveListener "data" listener_g;
                     On "data" listener_g; On "end" listener_f] new_emitter) []).2
    = [Invoked 1 "data"; Invoked 2 "data"].
Proof.
  destruct (emitter_keeps_listeners_in_order
              [On "data" listener_g; On "data" listener_f;
               PrependListener "data" listener_g; RemoveListener "data" listener_g;
               On "data" listener_g; On "end" listener_f] "data" (Plain "x") [])
    as [Hcount Hemit].
  - unfold JsObject.prototype_names. rewrite !elem_of_cons, elem_of_nil.
    intros H. repeat destruct H as [H|H]; discriminate || done.
  - split; [exact Hcount|]. apply Hemit. by repeat constructor.
Defined.

(** The part of the listeners that is called: up to the first one that
    throws. *)
Fixpoint called (ls : list listener) : list listener :=
  match ls with
  | [] => []
  | l :: rest => l :: match l_throws l with Some _ => [] | None => called rest end
  end.

(** What the first listener that throws, if there is one, throws. *)
Fixpoint first_thrown (ls : list listener) : option jsval :=
  match ls with
  | [] => None
  | l :: rest =>
      match l_throws l with Some e => Some e | None => first_thrown rest end
  end.

Lemma invoke_all_called (type : string) (ls : list listener) :
  ∀ log, invoke_all type ls log
         = (match first_thrown ls with Some e => Throw e | None => Ok () end,
            (log ++ ((λ l, Invoked (l_id l) type) <$> called ls))%list).
Proof.
  induction ls as [|l ls IH]; intros log; simpl.
  - by rewrite app_nil_r.
  - destruct (l_throws l) as [e|] eqn:Hl; [done|].
    rewrite IH. by rewrite <- app_assoc.
Qed.

(** X2.  A listener that throws ends [emit] (for an event type that is
    no name of [Object.prototype]): the listeners attached before it
    were called, the ones after it are not, and the exception leaves
    [emit] as it was thrown. *)
Theorem emit_stops_at_first_throw (cs : list call) (type : string) (arg : jsval)
    (log : list record) (before after : list listener) (l : listener) (e : jsval) :
  type ∉ JsObject.prototype_names →
  attached type cs = (before ++ l :: after)%list →
  Forall (λ l, l_throws l = None) before → l_throws l = Some e →
  emit type arg (apply_calls cs new_emitter) log
  = (Throw e, (log ++ ((λ l, Invoked (l_id l) type) <$> (before ++ [l])))%list).
Proof.
  intros _ Hatt Hbefore Hl.
  pose proof (listeners_of_apply_calls type cs new_emitter [] eq_refl) as H.
  fold (attached type cs) in H. unfold listeners_of in H.
  assert (first_thrown (before ++ l :: after) = Some e
          ∧ called (before ++ l :: after) = (before ++ [l])%list) as [Hf Hc].
  { clear Hatt. induction Hbefore as [|b before Hb _ [IH1 IH2]].
    - simpl. by rewrite Hl.
    - simpl. rewrite Hb. split; [done|]. by rewrite IH2. }
  unfold emit. set (events := apply_calls cs new_emitter) in *. unfold t in *.
  destruct (events !! type) as [[l0|ls]|].
  - rewrite invoke_all_called, H, Hatt, Hf, Hc. done.
  - rewrite invoke_all_called. rewrite <- H in Hatt. by rewrite Hatt, Hf, Hc.
  - rewrite <- H in Hatt. by destruct before.
Qed.

Definition stopper : listener := {| l_id := 2; l_throws := Some (Error "stop") |}.

Lemma emit_stops_at_first_throw_witness :
  emit "data" (Plain "x")
    (apply_calls [On "data" listener_g; On "data" listener_f;
                  PrependListener "data" listener_g; RemoveListener "data" listener_g;
                  On "data" stopper; On "data" listener_g] new_emitter) []
  = (Throw (Error "stop"), [Invoked 1 "data"; Invoked 2 "data"]).
Proof.
  apply (emit_stops_at_first_throw _ "data" (Plain "x") [] [listener_f] [listener_g]
           stopper (Error "stop")).
  - unfold JsObject.prototype_names. rewrite !elem_of_cons, elem_of_nil.
    intros H. repeat destruct H as [H|H]; discriminate || done.
  - reflexivity.
  - by repeat constructor.
  - reflexivity.
Defined.

End emitter_listeners.
(** ** State: what is read back *)
Section state_facts.
Import Component ComponentCalls.
Context {V : Type} `{EqDecision V}.

Local Abbreviation component := (@component V).
Local Abbreviation state := (@state V).
Local Abbreviation record := (@record V).
Local Abbreviation obj := (@obj V).









End state_facts.
(** ** State.___replace and checkInputChanged *)
Section state_replace.
Import Component ComponentCalls.
Context {V : Type} `{EqDecision V}.

Local Abbreviation component := (@component V).
Local Abbreviation state := (@state V).
Local Abbreviation record := (@record V).
Local Abbreviation obj := (@obj V).

Lemma elem_of_own_names (o : obj) (k : string) : k ∈ own_names o ↔ is_Some (get o k).
Proof.
  induction o as [|[k0 v0] o IH]; simpl.
  - split; [by intros ?%elem_of_nil|by intros [? ?]].
  - destruct (decide (k0 = k)) as [->|Hne].
    + split; [by eexists|]. intros _. by left.
    + rewrite elem_of_cons, list_elem_of_filter, IH. split.
      * intros [->|[_ ?]]; done.
      * intros Hs. right. split; [congruence|done].
Qed.

Lemma NoDup_own_names (o : obj) : NoDup (own_names o).
Proof.
  induction o as [|[k0 v0] o IH]; simpl; [constructor|].
  apply NoDup_cons. split.
  - rewrite list_elem_of_filter. by intros [? _].
  - by apply NoDup_filter.
Qed.

Lemma elem_of_keys (o : obj) (k : string) : k ∈ keys o ↔ is_Some (get o k).
Proof. unfold keys. by rewrite (for_in_perm id), elem_of_own_names. Qed.

Lemma NoDup_keys (o : obj) : NoDup (keys o).
Proof. unfold keys. rewrite (for_in_perm id). apply NoDup_own_names. Qed.




(** X6.  [checkInputChanged] is a shallow comparison: for two input
    objects, the old one without a property under a name that
    [Object.prototype] defines, it answers false exactly when they are
    the same object or have the same own properties with strictly equal
    values. *)
Theorem checkInputChanged_is_shallow_equality (prototype : string → option V)
    (o n : @input V) :
  (∀ key, key ∈ keys (i_own o) → prototype key = None) →
  checkInputChanged prototype (Some o) (Some n) = false
  ↔ i_ref o = i_ref n ∨ ∀ name, get (i_own o) name = get (i_own n) name.
Proof.
  intros Hplain. unfold checkInputChanged.
  destruct (decide (i_ref o = i_ref n)) as [Href|Href]; [by split; [left|]|].
  split.
  - intros Hc. right.
    destruct (Nat.eqb_spec (length (keys (i_own o))) (length (keys (i_own n))))
      as [Hlen|Hlen]; [|done].
    cbn [negb] in Hc.
    assert (∀ key, key ∈ keys (i_own o) → get (i_own o) key = get (i_own n) key) as Hold.
    { intros key Hkey.
      assert (read prototype (i_own o) key = read prototype (i_own n) key) as Hread.
      { destruct (bool_decide (read prototype (i_own o) key
                               = read prototype (i_own n) key)) eqn:E;
          [by apply bool_decide_eq_true in E|].
        exfalso. apply not_true_iff_false in Hc. apply Hc.
        apply existsb_exists. exists key. rewrite <- list_elem_of_In. by rewrite E. }
      unfold read in Hread. pose proof Hkey as [v Hv]%elem_of_keys.
      rewrite Hv in Hread. rewrite Hv.
      destruct (get (i_own n) key) as [v'|]; [done|].
      by rewrite (Hplain key Hkey) in Hread. }
    assert (keys (i_own o) ≡ₚ keys (i_own n)) as Hperm.
    { apply submseteq_length_Permutation; [|lia].
      apply NoDup_submseteq; [apply NoDup_keys|].
      intros key Hkey. apply elem_of_keys. rewrite <- (Hold key Hkey).
      by apply elem_of_keys. }
    intros name. destruct (decide (name ∈ keys (i_own o))) as [Hin|Hnin]; [by apply Hold|].
    assert (name ∉ keys (i_own n)) as Hnin' by (by rewrite <- Hperm).
    rewrite elem_of_keys in Hnin, Hnin'.
    destruct (get (i_own o) name); [by destruct Hnin|].
    destruct (get (i_own n) name); [by destruct Hnin'|done].
  - intros [?|Heq]; [done|].
    assert (keys (i_own o) ≡ₚ keys (i_own n)) as Hperm.
    { apply NoDup_Permutation; [apply NoDup_keys..|].
      intros key. by rewrite !elem_of_keys, Heq. }
    rewrite (Permutation_length Hperm), Nat.eqb_refl. cbn [negb].
    apply not_true_iff_false. intros (key & _ & Hkey)%existsb_exists.
    unfold read in Hkey. by rewrite Heq, bool_decide_eq_true_2 in Hkey.
Qed.

(** X7.  [update()] on a component that is not destroyed leaves it
    clean when it returns: neither the input nor the state is dirty
    afterwards, whichever way the update went. *)
Theorem update_leaves_component_clean (c c' : component) (t t' : list record) :
  ___destroyed c = false → update c t = (Ok (), c', t') → ___isDirty c' = false.
Proof.
  intros Hd. unfold update. rewrite Hd. cbn [orb].
  destruct (___isDirty c) eqn:Hdirty; cbn [negb].
  2: { intros [= <- <-]. exact Hdirty. }
  set (after := match ___state c with Some _ => _ | None => _ end).
  destruct after as [[[[]| |] c1] t1]; try done.
  set (rerendered := if ___isDirty c1 then _ else _).
  destruct rerendered as [[[[]| |] c2] t2]; try done.
  intros [= <- <-]. apply isDirty_reset.
Qed.

End state_replace.
Section state_examples.
Import Component ComponentCalls.






Lemma update_leaves_component_clean_witness :
  ___isDirty (Component.___reset (counter false)) = false.
Proof.
  apply (update_leaves_component_clean (counter false) (Component.___reset (counter false))
           [] [Handler 8 (Some 2%Z) JsObject.Missing; Handler 7 (Some 1%Z) (JsObject.Own 0%Z);
            Lifecycle "update"]); reflexivity.
Defined.

(** Values for inputs: numbers, and the members of
    [Object.prototype]. *)
Inductive input_value : Type :=
| Num (z : Z)
| Builtin (name : string).

Global Instance input_value_eq_dec : EqDecision input_value.
Proof. solve_decision. Defined.

Definition Object_prototype (name : string) : option input_value :=
  if bool_decide (name ∈ JsObject.prototype_names) then Some (Builtin name) else None.

(** Two input objects with the same properties, added in another
    order. *)
Definition first_input : @input input_value :=
  {| i_ref := 1; i_own := [("title", Num 1); ("2", Num 5)] |}.

Definition next_input : @input input_value :=
  {| i_ref := 2; i_own := [("2", Num 5); ("title", Num 1)] |}.

Lemma checkInputChanged_is_shallow_equality_witness :
  checkInputChanged Object_prototype (Some first_input) (Some next_input) = false
  ↔ i_ref first_input = i_ref next_input
    ∨ ∀ name, get (i_own first_input) name = get (i_own next_input) name.
Proof.
  apply (checkInputChanged_is_shallow_equality Object_prototype first_input next_input).
  intros key Hkey. apply list_elem_of_In in Hkey. vm_compute in Hkey.
  by destruct Hkey as [<-|[<-|[]]].
Defined.

(** An old input that owns the property [constructor], with the value
    every object inherits under that name, passes for unchanged against
    a new input that has another property instead. *)
Lemma inherited_member_passes_for_own :
  checkInputChanged Object_prototype
    (Some {| i_ref := 1; i_own := [("constructor", Builtin "constructor")] |})
    (Some {| i_ref := 2; i_own := [("title", Num 1)] |})
  = false.
Proof. reflexivity. Qed.

End state_examples.
(** ** class-value and style-value *)
Section helper_facts.
Import Helpers.

(** The loop of [classHelper] over the items of an array. *)
Fixpoint class_items (items : list classarg) (str : string) : string :=
  match items with
  | [] => str
  | item :: rest =>
      class_items rest
        match classHelper item with
        | Some value => if bool_decide (value = "") then str else str +:+ " " +:+ value
        | None => str
        end
  end.

Lemma classHelper_array (items : list classarg) :
  classHelper (CArray items)
  = if bool_decide (class_items items "" = "") then None
    else if bool_decide (slice1 (class_items items "") = "") then None
         else Some (slice1 (class_items items "")).
Proof. reflexivity. Qed.

Lemma classHelper_not_empty (arg : classarg) : classHelper arg ≠ Some "".
Proof.
  destruct arg; simpl; repeat case_bool_decide; congruence.
Qed.

(** The names, each after a space. *)
Definition spaced (names : list string) : string :=
  fold_right (λ name rest, " " +:+ name +:+ rest) "" names.

Lemma app_empty_r (s : string) : s +:+ "" = s.
Proof.
  induction s as [|c s IH]; [done|].
  change (String c (s +:+ "") = String c s). by rewrite IH.
Qed.

Lemma app_assoc_string (a b c : string) : (a +:+ b) +:+ c = a +:+ (b +:+ c).
Proof.
  induction a as [|x a IH]; [done|].
  change (String x ((a +:+ b) +:+ c) = String x (a +:+ (b +:+ c))). by rewrite IH.
Qed.

Lemma class_items_spaced (items : list classarg) :
  ∀ str, class_items items str = str +:+ spaced (omap classHelper items).
Proof.
  induction items as [|item items IH]; intros str; simpl.
  - by rewrite app_empty_r.
  - rewrite IH. pose proof (classHelper_not_empty item) as Hne.
    destruct (classHelper item) as [value|]; simpl; [|done].
    rewrite bool_decide_eq_false_2 by congruence.
    by rewrite !app_assoc_string.
Qed.

Lemma spaced_concat (name : string) (names : list string) :
  name +:+ spaced names = String.concat " " (name :: names).
Proof.
  revert name. induction names as [|n names IH]; intros name; simpl.
  - apply app_empty_r.
  - f_equal. f_equal. apply IH.
Qed.

(** X8.  [classHelper] on an array gives the class names of its items
    (each item a string, an array or an object of flags, to any depth)
    separated by single spaces, leaving out the items that give none;
    it gives [null] when no item gives a name, and never the empty
    string. *)
Theorem classHelper_joins_with_spaces (items : list classarg) :
  classHelper (CArray items)
  = match omap classHelper items with
    | [] => None
    | names => Some (String.concat " " names)
    end
  ∧ ∀ arg, classHelper arg ≠ Some "".
Proof.
  split; [|apply classHelper_not_empty].
  rewrite classHelper_array, class_items_spaced. simpl.
  assert (∀ name, name ∈ omap classHelper items → name ≠ "") as Hne.
  { intros name (arg & _ & Harg)%list_elem_of_omap ->.
    by apply (classHelper_not_empty arg). }
  destruct (omap classHelper items) as [|name names]; [done|].
  change (spaced (name :: names)) with (String " " (name +:+ spaced names)).
  rewrite bool_decide_eq_false_2 by done. cbn [slice1].
  rewrite bool_decide_eq_false_2.
  - by rewrite spaced_concat.
  - specialize (Hne name ltac:(left)). by destruct name.
Qed.

(** The loop of [styleHelper] over the items of an array. *)
Fixpoint style_items (items : list stylearg) (styles : string) : string :=
  match items with
  | [] => styles
  | item :: rest =>
      style_items rest
        match styleHelper item with
        | Some next =>
            if bool_decide (next = "") then styles
            else styles +:+ next +:+ (if ends_with_semicolon next then "" else ";")
        | None => styles
        end
  end.

Lemma styleHelper_array (items : list stylearg) :
  styleHelper (SArray items)
  = if bool_decide (style_items items "" = "") then None else Some (style_items items "").
Proof. reflexivity. Qed.

Lemma ends_with_semicolon_app (a b : string) :
  b ≠ "" → ends_with_semicolon (a +:+ b) = ends_with_semicolon b.
Proof.
  intros Hb. induction a as [|c a IH]; [done|].
  simpl. rewrite IH. destruct (a +:+ b) eqn:E; [|done].
  destruct a; simpl in E; [by subst|done].
Qed.

Lemma style_items_terminated (items : list stylearg) :
  ∀ styles, (styles = "" ∨ ends_with_semicolon styles = true) →
    style_items items styles = "" ∨ ends_with_semicolon (style_items items styles) = true.
Proof.
  induction items as [|item items IH]; intros styles Hs; [done|].
  simpl. apply IH. destruct (styleHelper item) as [next|]; [|done].
  case_bool_decide as Hnext; [done|]. right.
  destruct (ends_with_semicolon next) eqn:He; cbv iota.
  - rewrite app_empty_r. by rewrite ends_with_semicolon_app.
  - rewrite (ends_with_semicolon_app styles) by (by destruct next).
    by rewrite ends_with_semicolon_app.
Qed.

Lemma style_props_terminated (props : list (string * stylevalue)) :
  ∀ styles, (styles = "" ∨ ends_with_semicolon styles = true) →
    let r := fold_left (λ styles p,
               match style_text p.2 with
               | Some value => styles +:+ dashed p.1 +:+ ":" +:+ value +:+ ";"
               | None => styles
               end) props styles in
    r = "" ∨ ends_with_semicolon r = true.
Proof.
  induction props as [|p props IH]; intros styles Hs; [done|].
  simpl. apply IH. destruct (style_text p.2) as [value|]; [|done].
  right. rewrite (ends_with_semicolon_app styles) by (by destruct (dashed p.1)).
  rewrite (ends_with_semicolon_app (dashed p.1)) by done.
  rewrite (ends_with_semicolon_app ":") by (by destruct value).
  by rewrite ends_with_semicolon_app.
Qed.

(** X9.  [styleHelper] gives [null] or a style text that is not empty
    and that it returns unchanged when given it again; the text made
    from an array or from an object ends with a semicolon, every piece
    of it being closed by one. *)
Theorem styleHelper_closes_every_declaration (style : stylearg) (text : string) :
  styleHelper style = Some text →
  text ≠ "" ∧ styleHelper (SString text) = Some text
  ∧ match style with
    | SArray _ | SObject _ => ends_with_semicolon text = true
    | _ => True
    end.
Proof.
  intros Hs.
  assert (text ≠ "") as Hne.
  { destruct style; simpl in Hs; try done; case_bool_decide; congruence. }
  split_and!; [done|simpl; by rewrite bool_decide_eq_false_2|].
  destruct style as [| | | |items|props]; try done.
  - rewrite styleHelper_array in Hs. case_bool_decide as He; [done|].
    injection Hs as <-.
    by destruct (style_items_terminated items "" ltac:(by left)).
  - simpl in Hs. case_bool_decide as He; [done|]. injection Hs as <-.
    by destruct (style_props_terminated props "" ltac:(by left)).
Qed.

Lemma styleHelper_closes_every_declaration_witness :
  "color:red;margin-top:4px;z-index:0;" ≠ ""
  ∧ styleHelper (SString "color:red;margin-top:4px;z-index:0;")
    = Some "color:red;margin-top:4px;z-index:0;"
  ∧ ends_with_semicolon "color:red;margin-top:4px;z-index:0;" = true.
Proof.
  apply (styleHelper_closes_every_declaration
           (SArray [SString "color:red";
                    SObject [("marginTop", PNumber 4); ("width", PNullish);
                             ("zIndex", PNumber 0)];
                    SNullish])).
  vm_compute. reflexivity.
Defined.

End helper_facts.
(** ** update-manager *)
Section update_manager_facts.
Import UpdateManager.

Variable ___update : nat → list action.

(** The stack of batches of [w'] is as deep as that of [w] and differs
    from it at most in the batch on top. *)
Definition same_below_top (w w' : world) : Prop :=
  length (batchStack w') = length (batchStack w)
  ∧ ∀ i, (S i < length (batchStack w))%nat → batchStack w' !! i = batchStack w !! i.

Lemma same_below_top_refl (w : world) : same_below_top w w.
Proof. by split. Qed.

Lemma same_below_top_trans (w1 w2 w3 : world) :
  same_below_top w1 w2 → same_below_top w2 w3 → same_below_top w1 w3.
Proof.
  intros [Hl1 H1] [Hl2 H2]. split; [congruence|].
  intros i Hi. rewrite H2 by lia. by apply H1.
Qed.

Lemma queueComponentUpdate_below (c : nat) (w : world) :
  same_below_top w (queueComponentUpdate c w).
Proof.
  unfold queueComponentUpdate. case_bool_decide as Hlen.
  - unfold scheduleUpdates. by destruct (updatesScheduled w).
  - split; simpl.
    + by rewrite length_alter.
    + intros i Hi. apply list_lookup_alter_ne. lia.
Qed.

Lemma removelast_pushed {A : Type} (l l' : list A) :
  length l' = S (length l) → (∀ i, (i < length l)%nat → l' !! i = l !! i) →
  removelast l' = l.
Proof.
  revert l'. induction l as [|x l IH]; intros l' Hlen Hl.
  - destruct l' as [|y [|z l']]; simpl in *; done.
  - destruct l' as [|y l']; [done|]. simpl in Hlen.
    destruct l' as [|z l']; [done|].
    change (removelast (y :: z :: l')) with (y :: removelast (z :: l')).
    f_equal.
    + specialize (Hl 0%nat ltac:(simpl; lia)). simpl in Hl. congruence.
    + apply IH; [simpl in *; lia|].
      intros i Hi. apply (Hl (S i)). simpl. lia.
Qed.

(** A batch, given that what it runs leaves the batches below the one
    on top as they are: it leaves the whole stack as it found it. *)
Lemma batch_step (fuel : nat) (func rest : list action) (w w' : world)
    (r : outcome unit) :
  (∀ acts w r w', run ___update fuel acts w = (r, w') → r ≠ OutOfFuel →
                  same_below_top w w') →
  (∀ q i w r w', updateComponents ___update fuel q i w = (r, w') → r ≠ OutOfFuel →
                 match q with
                 | OfBatch j => S j = length (batchStack w)
                 | Unbatched => True
                 end →
                 same_below_top w w') →
  run ___update (S fuel) (BatchUpdate func :: rest) w = (r, w') → r ≠ OutOfFuel →
  ∃ w3, batchStack w3 = batchStack w
        ∧ ((∃ e, r = Throw e ∧ w' = w3) ∨ run ___update fuel rest w3 = (r, w')).
Proof.
  intros IHrun IHupd Hrun Hr. cbn [run] in Hrun.
  set (depth := length (batchStack w)) in *.
  set (w0 := set_batchStack (λ s, (s ++ [None])%list) w) in *.
  destruct (run ___update fuel func w0) as [r1 w1] eqn:E1.
  assert (r1 ≠ OutOfFuel) as Hr1.
  { intros ->. injection Hrun as <- _. done. }
  pose proof (IHrun _ _ _ _ E1 Hr1) as [Hl1 Hb1].
  assert (length (batchStack w0) = S depth) as Hl0.
  { unfold w0. simpl. rewrite length_app. simpl. unfold depth. lia. }
  set (upd := match batchStack w1 !! depth with
              | Some (Some _) => updateComponents ___update fuel (OfBatch depth) 0 w1
              | _ => (Ok (), w1)
              end) in *.
  assert (∃ r2 w2, upd = (r2, w2) ∧ (r2 ≠ OutOfFuel → same_below_top w1 w2))
    as (r2 & w2 & E2 & Hb2).
  { unfold upd. destruct (batchStack w1 !! depth) as [[qd|]|].
    - destruct (updateComponents ___update fuel (OfBatch depth) 0 w1)
        as [r2 w2] eqn:E2.
      exists r2, w2. split; [done|]. intros Hr2.
      apply (IHupd _ _ _ _ _ E2 Hr2). simpl. congruence.
    - exists (Ok ()), w1. split; [done|]. intros _. apply same_below_top_refl.
    - exists (Ok ()), w1. split; [done|]. intros _. apply same_below_top_refl. }
  assert (r1 = Ok () ∨ ∃ e, r1 = Throw e) as Hr1'.
  { destruct r1 as [[]|e|]; [by left|right; by eexists|done]. }
  assert ((let (r1, w) := (r1, w1) in
           match r1 with
           | OutOfFuel => (OutOfFuel, w)
           | _ =>
               match upd with
               | (OutOfFuel, w) => (OutOfFuel, w)
               | (r2, w) =>
                   let w := set_batchStack (λ s, removelast s) w in
                   match r2, r1 with
                   | Throw e, _ => (Throw e, w)
                   | _, Throw e => (Throw e, w)
                   | _, _ => run ___update fuel rest w
                   end
               end
           end) = (r, w')) as Hrun'.
  { destruct r1 as [[]|e|]; [exact Hrun|exact Hrun|done]. }
  clear Hrun. rewrite E2 in Hrun'.
  assert (r2 ≠ OutOfFuel) as Hr2.
  { intros ->. destruct Hr1' as [->|[e ->]]; injection Hrun' as <- _; done. }
  destruct (Hb2 Hr2) as [Hl2 Hb2'].
  exists (set_batchStack (λ s, removelast s) w2). split.
  { simpl. apply removelast_pushed.
    - rewrite Hl2, Hl1, Hl0. done.
    - intros i Hi. rewrite Hb2' by (rewrite Hl1, Hl0; unfold depth; lia).
      rewrite Hb1 by (rewrite Hl0; unfold depth; lia).
      unfold w0. simpl. by apply lookup_app_l. }
  destruct Hr1' as [->|[e ->]]; destruct r2 as [[]|e2|]; try done;
    try (injection Hrun' as <- <-; left; by eexists).
  by right.
Qed.

(** What is run leaves the batches below the one on top as they are. *)
Lemma run_below (fuel : nat) :
  (∀ acts w r w', run ___update fuel acts w = (r, w') → r ≠ OutOfFuel →
                  same_below_top w w')
  ∧ (∀ q i w r w', updateComponents ___update fuel q i w = (r, w') → r ≠ OutOfFuel →
                   match q with
                   | OfBatch j => S j = length (batchStack w)
                   | Unbatched => True
                   end →
                   same_below_top w w').
Proof.
  induction fuel as [|fuel [IHrun IHupd]]; [split; simpl; by intros; simplify_eq|].
  split.
  - intros [|[c|func|e] rest] w r w' Hrun Hr.
    + injection Hrun as <- <-. apply same_below_top_refl.
    + cbn [run] in Hrun.
      eapply same_below_top_trans; [apply (queueComponentUpdate_below c)|].
      by eapply IHrun.
    + destruct (batch_step fuel func rest w w' r IHrun IHupd Hrun Hr)
        as (w3 & Hback & [(e & -> & ->)|Hrest]).
      * split; by rewrite Hback.
      * eapply same_below_top_trans; [|by eapply IHrun]. split; by rewrite Hback.
    + injection Hrun as <- <-. apply same_below_top_refl.
  - intros q i w r w' Hupd Hr Hq. cbn [updateComponents] in Hupd.
    destruct (read q w !! i) as [c|].
    + destruct (run ___update fuel (___update c) (log (Update c) w)) as [r1 w1] eqn:E1.
      destruct r1 as [[]|e|].
      * pose proof (IHrun _ _ _ _ E1 ltac:(done)) as Hb1.
        eapply same_below_top_trans; [exact Hb1|].
        apply (IHupd _ _ _ _ _ Hupd Hr).
        destruct q as [j|]; [|done]. destruct Hb1 as [Hl1 _]. simpl in Hl1. congruence.
      * injection Hupd as <- <-. apply (IHrun _ _ _ _ E1 ltac:(done)).
      * by injection Hupd as <- _.
    + injection Hupd as <- <-. destruct q as [j|]; [|by split].
      split; simpl.
      * by rewrite length_alter.
      * intros k Hk. apply list_lookup_alter_ne. lia.
Qed.

(** X10.  [batchUpdate(func)] leaves the stack of batches as it found
    it, whatever [func] and the updates it sets off do (queue
    components, run batches of their own, throw) and whether it returns
    or throws. *)
Theorem batchUpdate_restores_the_stack (fuel : nat) (func : list action) (w w' : world)
    (r : outcome unit) :
  batchUpdate ___update fuel func w = (r, w') → r ≠ OutOfFuel →
  batchStack w' = batchStack w.
Proof.
  intros Hrun Hr. unfold batchUpdate in Hrun.
  destruct fuel as [|fuel]; [by injection Hrun as <- _|].
  destruct (run_below fuel) as [IHrun IHupd].
  destruct (batch_step fuel func [] w w' r IHrun IHupd Hrun Hr)
    as (w3 & Hback & [(e & -> & ->)|Hrest]); [done|].
  destruct fuel; injection Hrest as <- <-; done.
Qed.

(** The calls [queueComponentUpdate(c)] for the components of a list. *)
Definition queue_all (cs : list nat) (w : world) : world :=
  fold_left (λ w c, queueComponentUpdate c w) cs w.

Lemma queue_all_unbatched (cs : list nat) :
  ∀ w, batchStack w = [] → cs ≠ [] →
    queue_all cs w
    = {| updatesScheduled := true; batchStack := [];
         unbatchedQueue := (unbatchedQueue w ++ cs)%list;
         ticks := if updatesScheduled w then ticks w else S (ticks w);
         trace := trace w |}.
Proof.
  induction cs as [|c cs IH]; intros w Hstack Hne; [done|].
  cbn [queue_all fold_left]. fold (queue_all cs (queueComponentUpdate c w)).
  assert (queueComponentUpdate c w
          = {| updatesScheduled := true; batchStack := [];
               unbatchedQueue := (unbatchedQueue w ++ [c])%list;
               ticks := if updatesScheduled w then ticks w else S (ticks w);
               trace := trace w |}) as ->.
  { unfold queueComponentUpdate, scheduleUpdates. rewrite Hstack. simpl.
    destruct w as [[] ? ? ? ?]; simpl in *; by subst. }
  destruct cs as [|c' cs]; [by destruct (updatesScheduled w)|].
  rewrite IH by done. simpl. rewrite <- app_assoc. done.
Qed.

(** The loop of [updateComponents] over components whose updates do
    nothing that concerns the update manager. *)
Lemma updateComponents_quiet (rest : list nat) :
  ∀ fuel done w,
    unbatchedQueue w = (done ++ rest)%list →
    (∀ c, c ∈ rest → ___update c = []) → (length rest < fuel)%nat →
    updateComponents ___update fuel Unbatched (length done) w
    = (Ok (), {| updatesScheduled := updatesScheduled w; batchStack := batchStack w;
                 unbatchedQueue := []; ticks := ticks w;
                 trace := (trace w ++ (Update <$> rest))%list |}).
Proof.
  induction rest as [|c rest IH]; intros fuel done w Hq Hquiet Hfuel.
  - destruct fuel as [|fuel]; [simpl in Hfuel; lia|]. cbn [updateComponents read].
    rewrite Hq, app_nil_r, lookup_ge_None_2 by done. simpl. by rewrite app_nil_r.
  - destruct fuel as [|fuel]; [simpl in Hfuel; lia|]. cbn [updateComponents read].
    rewrite Hq, list_lookup_middle by done.
    rewrite (Hquiet c) by (by left).
    destruct fuel as [|fuel]; [simpl in Hfuel; lia|]. cbn [run].
    replace (S (length done)) with (length (done ++ [c])) by (rewrite length_app; simpl; lia).
    rewrite (IH (S fuel) (done ++ [c])%list).
    + simpl. by rewrite <- app_assoc.
    + simpl. by rewrite <- app_assoc.
    + intros x Hx. apply Hquiet. by right.
    + simpl in Hfuel. lia.
Qed.

(** X11.  Outside a batch any number of [queueComponentUpdate] calls
    asks for one [nextTick] only, and updates nothing yet; the tick
    then updates the queued components once each in the order they were
    queued (here for components whose updates queue nothing more and do
    not throw), empties the queue and lets the next call ask for a tick
    again. *)
Theorem unbatched_updates_share_one_tick (cs : list nat) (fuel : nat) (w : world) :
  batchStack w = [] → updatesScheduled w = false → unbatchedQueue w = [] →
  cs ≠ [] → (∀ c, c ∈ cs → ___update c = []) → (length cs < fuel)%nat →
  ticks (queue_all cs w) = S (ticks w)
  ∧ trace (queue_all cs w) = trace w
  ∧ updateUnbatchedComponents ___update fuel (queue_all cs w)
    = (Ok (), {| updatesScheduled := false; batchStack := []; unbatchedQueue := [];
                 ticks := ticks w; trace := (trace w ++ (Update <$> cs))%list |}).
Proof.
  intros Hstack Hsched Hq Hne Hquiet Hfuel.
  rewrite (queue_all_unbatched cs w Hstack Hne), Hsched, Hq. cbn [app].
  split_and!; [done..|].
  unfold updateUnbatchedComponents. cbn [unbatchedQueue].
  destruct cs as [|c cs]; [done|].
  match goal with
  | |- context [updateComponents _ _ _ _ ?W] =>
      pose proof (updateComponents_quiet (c :: cs) fuel [] W eq_refl Hquiet Hfuel)
        as Hloop
  end.
  change (length (@nil nat)) with 0%nat in Hloop. by rewrite Hloop.
Qed.

(** X12.  An update that throws during the tick, before it queues a
    component or runs a batch, leaves the unbatched queue as it is, the
    components that were updated already included: [updateComponents]
    does not get to empty it.  The components before the failing one
    (here components whose updates neither queue a component, nor run a
    batch, nor throw) were updated in the order of the queue, the ones
    after it are not; the exception leaves the tick as it was thrown,
    and [updatesScheduled] is false again. *)
Theorem failed_update_stays_queued (before after : list nat) (c : nat) (e : jsval)
    (acts : list action) (fuel : nat) (w : world) :
  unbatchedQueue w = (before ++ c :: after)%list →
  (∀ x, x ∈ before → ___update x = []) → ___update c = Fail e :: acts →
  (S (length before) < fuel)%nat →
  ∃ w', updateUnbatchedComponents ___update fuel w = (Throw e, w')
        ∧ unbatchedQueue w' = unbatchedQueue w
        ∧ updatesScheduled w' = false
        ∧ trace w' = (trace w ++ (Update <$> (before ++ [c])))%list.
Proof.
  intros Hq Hquiet Hc Hfuel.
  assert (∀ before' done fuel w,
    unbatchedQueue w = (done ++ before' ++ c :: after)%list →
    (∀ x, x ∈ before' → ___update x = []) → (S (length before') < fuel)%nat →
    ∃ w', updateComponents ___update fuel Unbatched (length done) w = (Throw e, w')
          ∧ unbatchedQueue w' = unbatchedQueue w
          ∧ updatesScheduled w' = updatesScheduled w
          ∧ trace w' = (trace w ++ (Update <$> (before' ++ [c])))%list) as Hloop.
  { clear Hq Hquiet Hfuel. intros before'.
    induction before' as [|x before' IH]; intros done fuel1 w1 Hq Hquiet Hfuel.
    - destruct fuel1 as [|[|fuel1]]; [simpl in Hfuel; lia..|].
      cbn [updateComponents read]. rewrite Hq. simpl.
      rewrite list_lookup_middle by done. rewrite Hc. cbn [run].
      eexists. by split_and!.
    - destruct fuel1 as [|[|fuel1]]; [simpl in Hfuel; lia..|].
      cbn [updateComponents read]. rewrite Hq.
      change (done ++ (x :: before') ++ c :: after)%list
        with (done ++ x :: (before' ++ c :: after))%list.
      rewrite list_lookup_middle by done.
      rewrite (Hquiet x) by (by left). cbn [run].
      replace (S (length done)) with (length (done ++ [x]))
        by (rewrite length_app; simpl; lia).
      destruct (IH (done ++ [x])%list (S fuel1) (log (Update x) w1))
        as (w' & Hrun & Hq' & Hs' & Ht').
      + simpl. rewrite Hq. by rewrite <- app_assoc.
      + intros y Hy. apply Hquiet. by right.
      + simpl in Hfuel. lia.
      + exists w'. split_and!; [done|rewrite Hq'; exact Hq|done|].
        rewrite Ht'. simpl. by rewrite <- app_assoc. }
  unfold updateUnbatchedComponents. cbn [unbatchedQueue]. rewrite Hq.
  destruct (Hloop before [] fuel
              {| updatesScheduled := updatesScheduled w; batchStack := batchStack w;
                 unbatchedQueue := (before ++ c :: after)%list;
                 ticks := pred (ticks w); trace := trace w |} eq_refl Hquiet Hfuel)
    as (w' & Hrun & Hq' & Hs' & Ht').
  assert ((before ++ c :: after)%list ≠ []) as Hne by (by destruct before).
  destruct (before ++ c :: after)%list as [|y l] eqn:E; [done|].
  cbn [length] in Hrun. rewrite Hrun. eexists. by split_and!.
Qed.

End update_manager_facts.

Section update_manager_examples.
Import UpdateManager.

(** Component 3 throws in its update; the others do nothing that
    concerns the update manager; component 5 runs a batch that queues
    component 1 and then throws. *)
Definition updates (c : nat) : list action :=
  if decide (c = 3%nat) then [Fail (Error "boom")]
  else if decide (c = 5%nat)
       then [BatchUpdate [QueueComponentUpdate 1; Fail (Error "late")]]
       else [].

Lemma batchUpdate_restores_the_stack_witness :
  batchStack
    (batchUpdate updates 20 [QueueComponentUpdate 5; QueueComponentUpdate 2]
       (set_batchStack (λ _, [Some [7%nat]]) start)).2
  = [Some [7%nat]].
Proof.
  apply (batchUpdate_restores_the_stack updates 20
           [QueueComponentUpdate 5; QueueComponentUpdate 2]
           (set_batchStack (λ _, [Some [7%nat]]) start) _ (Throw (Error "late"))).
  - vm_compute. reflexivity.
  - discriminate.
Defined.

Lemma unbatched_updates_share_one_tick_witness :
  ticks (queue_all [1; 2; 1]%nat start) = 1%nat
  ∧ trace (queue_all [1; 2; 1]%nat start) = []
  ∧ updateUnbatchedComponents updates 5 (queue_all [1; 2; 1]%nat start)
    = (Ok (), {| updatesScheduled := false; batchStack := []; unbatchedQueue := [];
                 ticks := 0; trace := [Update 1; Update 2; Update 1] |}).
Proof.
  apply (unbatched_updates_share_one_tick updates [1; 2; 1]%nat 5 start);
    try done; [|simpl; lia].
  intros c Hc. unfold updates.
  rewrite !elem_of_cons, elem_of_nil in Hc.
  destruct Hc as [->|[->|[->|[]]]]; reflexivity.
Defined.

Lemma failed_update_stays_queued_witness :
  ∃ w', updateUnbatchedComponents updates 5 (queue_all [1; 3; 2]%nat start)
        = (Throw (Error "boom"), w')
        ∧ unbatchedQueue w' = unbatchedQueue (queue_all [1; 3; 2]%nat start)
        ∧ updatesScheduled w' = false
        ∧ trace w' = (trace (queue_all [1; 3; 2]%nat start)
                      ++ (Update <$> ([1%nat] ++ [3%nat])))%list.
Proof.
  apply (failed_update_stays_queued updates [1%nat] [2%nat] 3 (Error "boom") [] 5
           (queue_all [1; 3; 2]%nat start)).
  - reflexivity.
  - intros x Hx. apply list_elem_of_singleton in Hx as ->. reflexivity.
  - reflexivity.
  - simpl. lia.
Defined.

End update_manager_examples.

(** ** VElement.___morphAttrs: the attributes after the diff *)

Section morph_attributes_exact.
Import Morph.

(** The text an element made from the attribute map [own] has under the
    plain attribute [name], if it has the attribute. *)
Definition attribute_of (own : list (string * attrval)) (name : string) : option string :=
  if null_or_false (lookup_own own name) then None
  else Some (attr_text (lookup_own own name)).

(** What the first loop of [___morphAttrs] does to the attributes of
    the element for one entry of the new map. *)
Definition diff_new (oldAttrs : attributes) (kv : string * attrval)
    (m : gmap (string * string) string) : gmap (string * string) string :=
  if null_or_false kv.2 then delete ("", kv.1) m
  else if strict_eq (attr oldAttrs kv.1) kv.2 then m
  else <[("", kv.1) := attr_text kv.2]> m.

(** What the second loop does for one entry of the old map. *)
Definition drop_old (attrs : attributes) (kv : string * attrval)
    (m : gmap (string * string) string) : gmap (string * string) string :=
  if has_attr attrs kv.1 then m else delete ("", kv.1) m.

Lemma run_removeAttribute (w : world) (c : nat) (n : dnode) (ns name : string) :
  nodes w !! c = Some n →
  ∃ w', removeAttribute c ns name w = (Done (), w')
        ∧ nodes w' !! c = Some (set_attrs (delete (ns, name) (Morph.attrs n)) n)
        ∧ touched c w w'.
Proof.
  intros E. unfold removeAttribute. rewrite (run_node_bind _ _ _ _ E).
  destruct (Morph.attrs n !! (ns, name)) eqn:Ha.
  - eexists. split.
    { unfold update_node, record. rewrite (run_bind _ _ _ _ _ (run_modify _ _)).
      reflexivity. }
    simpl. split.
    + by rewrite lookup_alter_eq, E.
    + split; try done. intros x Hx. simpl. by rewrite lookup_alter_ne.
  - exists w. split_and!; [done| |apply touched_refl].
    rewrite delete_id by done. by destruct n.
Qed.

Lemma run_attribute_steps {A : Type} (body : A → M unit)
    (step : A → gmap (string * string) string → gmap (string * string) string)
    (c : nat) (l : list A) :
  (∀ x w n, x ∈ l → nodes w !! c = Some n →
     ∃ w', body x w = (Done (), w')
           ∧ nodes w' !! c = Some (set_attrs (step x (Morph.attrs n)) n)
           ∧ touched c w w') →
  ∀ w n, nodes w !! c = Some n →
    ∃ w', for_each l body w = (Done (), w')
          ∧ nodes w' !! c
            = Some (set_attrs (foldl (λ m x, step x m) (Morph.attrs n) l) n)
          ∧ touched c w w'.
Proof.
  induction l as [|x l IH]; intros Hbody w n E.
  { exists w. split_and!; [done| |apply touched_refl]. by destruct n. }
  destruct (Hbody x w n ltac:(left) E) as (w1 & Hrun1 & E1 & Ht1).
  cbn [for_each foldl]. rewrite (run_bind _ _ _ _ _ Hrun1).
  destruct (IH (λ y w n Hy, Hbody y w n ltac:(by right)) w1 _ E1)
    as (w' & Hrun' & E' & Ht').
  exists w'. split_and!; [done|by rewrite E'|by eapply touched_trans].
Qed.

Lemma lookup_own_absent (own : list (string * attrval)) (name : string) :
  name ∉ own.*1 → lookup_own own name = AUndefined.
Proof.
  induction own as [|[k v] own IH]; [done|]. rewrite fmap_cons, not_elem_of_cons.
  intros [Hne Hin]. simpl in *. rewrite decide_False by done. by apply IH.
Qed.

Lemma attribute_of_absent (own : list (string * attrval)) (name : string) :
  name ∉ own.*1 → attribute_of own name = None.
Proof. intros H. unfold attribute_of. by rewrite lookup_own_absent. Qed.

(** The attributes of a new element, by name. *)
Lemma attrs_after_plain (own : list (string * attrval)) :
  NoDup own.*1 → ATTR_XLINK_HREF ∉ own.*1 →
  ∀ (m : gmap (string * string) string) (ns name : string),
    attrs_after own m !! (ns, name)
    = match (if bool_decide (ns = "") then attribute_of own name else None) with
      | Some text => Some text
      | None => m !! (ns, name)
      end.
Proof.
  induction own as [|[k v] own IH]; intros Hnd Hx m ns name.
  { unfold attribute_of. simpl. by case_bool_decide. }
  rewrite fmap_cons in Hnd, Hx. apply NoDup_cons in Hnd as [Hk Hnd].
  apply not_elem_of_cons in Hx as [Hkx Hx]. simpl in Hkx.
  cbn [attrs_after]. rewrite (IH Hnd Hx).
  unfold attribute_key. cbn [fst snd].
  rewrite (bool_decide_eq_false_2 (k = ATTR_XLINK_HREF)) by (by intros ->).
  unfold attribute_of at 2. cbn [lookup_own].
  case_bool_decide as Hns.
  - subst ns. destruct (decide (k = name)) as [->|Hne].
    + rewrite (attribute_of_absent own name Hk).
      destruct (null_or_false v); [done|]. by rewrite lookup_insert_eq.
    + fold (attribute_of own name). destruct (attribute_of own name); [done|].
      destruct (null_or_false v); [done|].
      rewrite lookup_insert_ne; [done|]. intros [= ->]. done.
  - destruct (null_or_false v); [done|].
    rewrite lookup_insert_ne; [done|]. intros [= <- _]. done.
Qed.

(** The first loop, by name. *)
Lemma diff_new_lookup (oldAttrs : attributes) (own : list (string * attrval)) :
  NoDup own.*1 →
  ∀ (m : gmap (string * string) string) (ns name : string),
    foldl (λ m kv, diff_new oldAttrs kv m) m own !! (ns, name)
    = if bool_decide (ns = "") && bool_decide (name ∈ own.*1) then
        if null_or_false (lookup_own own name) then None
        else if strict_eq (attr oldAttrs name) (lookup_own own name)
             then m !! (ns, name)
             else Some (attr_text (lookup_own own name))
      else m !! (ns, name).
Proof.
  induction own as [|[k v] own IH]; intros Hnd m ns name.
  { simpl. by rewrite andb_false_r. }
  rewrite fmap_cons in Hnd. apply NoDup_cons in Hnd as [Hk Hnd].
  cbn [foldl]. rewrite (IH Hnd). rewrite fmap_cons. cbn [fst lookup_own].
  unfold diff_new. cbn [fst snd].
  case_bool_decide as Hns; cbn [andb].
  - subst ns. destruct (decide (k = name)) as [->|Hne].
    + rewrite (bool_decide_eq_false_2 (name ∈ own.*1)) by done.
      rewrite (bool_decide_eq_true_2 (name ∈ name :: own.*1)) by (by left).
      destruct (null_or_false v); [by rewrite lookup_delete_eq|].
      destruct (strict_eq (attr oldAttrs name) v); [done|].
      by rewrite lookup_insert_eq.
    + assert (bool_decide (name ∈ k :: own.*1) = bool_decide (name ∈ own.*1)) as ->.
      { apply bool_decide_ext. rewrite elem_of_cons.
        split; [|by right]. intros [Heq|Hin]; [by subst|exact Hin]. }
      assert ((if null_or_false v then delete ("", k) m
               else if strict_eq (attr oldAttrs k) v then m
                    else <[("", k) := attr_text v]> m) !! ("", name) = m !! ("", name))
        as ->; [|done].
      destruct (null_or_false v).
      * rewrite lookup_delete_ne; [done|]. intros [= ->]. done.
      * destruct (strict_eq (attr oldAttrs k) v); [done|].
        rewrite lookup_insert_ne; [done|]. intros [= ->]. done.
  - destruct (null_or_false v).
    + rewrite lookup_delete_ne; [done|]. intros [= <- _]. done.
    + destruct (strict_eq (attr oldAttrs k) v); [done|].
      rewrite lookup_insert_ne; [done|]. intros [= <- _]. done.
Qed.

(** The second loop, by name. *)
Lemma drop_old_lookup (attrs : attributes) (own : list (string * attrval)) :
  ∀ (m : gmap (string * string) string) (ns name : string),
    foldl (λ m kv, drop_old attrs kv m) m own !! (ns, name)
    = if bool_decide (ns = "") && bool_decide (name ∈ own.*1)
         && negb (has_attr attrs name)
      then None else m !! (ns, name).
Proof.
  induction own as [|[k v] own IH]; intros m ns name.
  { simpl. by rewrite andb_false_r. }
  cbn [foldl]. rewrite IH. rewrite fmap_cons. cbn [fst]. unfold drop_old. cbn [fst].
  destruct (decide ((ns, name) = ("", k))) as [[= -> ->]|Hne].
  - rewrite (bool_decide_eq_true_2 ("" = "")) by done.
    rewrite (bool_decide_eq_true_2 (k ∈ k :: own.*1)) by (by left). cbn [andb].
    destruct (has_attr attrs k) eqn:Hhas; cbn [negb].
    + by rewrite andb_false_r.
    + rewrite lookup_delete_eq. by destruct (_ && _).
  - assert ((if has_attr attrs k then m else delete ("", k) m) !! (ns, name)
            = m !! (ns, name)) as ->.
    { destruct (has_attr attrs k); [done|]. by rewrite lookup_delete_ne. }
    assert (bool_decide (ns = "") && bool_decide (name ∈ k :: own.*1)
            = bool_decide (ns = "") && bool_decide (name ∈ own.*1)) as ->; [|done].
    case_bool_decide as Hns; [|done]. cbn [andb]. subst ns.
    apply bool_decide_ext. rewrite elem_of_cons.
    split; [|by right]. intros [->|H]; [done|exact H].
Qed.

(** Values that are strictly equal are set as the same text when an
    object given again still converts as before. *)
Lemma strict_eq_attr_text (a b : attrval) :
  (∀ r s t s' t', a = AObject r s t → b = AObject r s' t' → s = s') →
  strict_eq a b = true → attr_text a = attr_text b ∧ null_or_false a = null_or_false b.
Proof.
  intros Hobj Heq.
  destruct a as [s|z| |x| | |r s t], b as [s'|z'| |x'| | |r' s' t']; try done;
    simpl in Heq; apply bool_decide_eq_true in Heq; subst; try done.
  split; [|done]. simpl. by eapply Hobj.
Qed.

(** After [___morphAttrs] the element has the attributes an element
    made from the new virtual element has.

    X13.  The real element [c] carries the attributes that creating it
    from the old virtual element gave it.  Both attribute maps are
    plain objects without [xlink:href], they are not the same object,
    the new element is no custom element, not both elements have simple
    attributes, the new element has a null key, and an object that is
    the value of an attribute in both maps converts to the same text.
    Then [___morphAttrs] returns, the element carries exactly the
    attributes that creating it from the new virtual element gives, the
    new virtual element is remembered for it, and no other node of the
    document changed. *)
Theorem morphAttrs_gives_the_new_attributes (w : world) (c : nat) (n : dnode)
    (vFromEl toEl : velement) :
  nodes w !! c = Some n →
  Morph.attrs n = attrs_after (a_own (___attributes vFromEl)) ∅ →
  plain (___attributes toEl) = true → plain (___attributes vFromEl) = true →
  NoDup (a_own (___attributes toEl)).*1 → NoDup (a_own (___attributes vFromEl)).*1 →
  ATTR_XLINK_HREF ∉ (a_own (___attributes toEl)).*1 →
  ATTR_XLINK_HREF ∉ (a_own (___attributes vFromEl)).*1 →
  a_ref (___attributes vFromEl) ≠ a_ref (___attributes toEl) →
  has_flag (___flags toEl) FLAG_CUSTOM_ELEMENT = false →
  has_flag (___flags toEl) FLAG_SIMPLE_ATTRS
    && has_flag (___flags vFromEl) FLAG_SIMPLE_ATTRS = false →
  ___key toEl = KNull →
  (∀ name r s t s' t',
     attr (___attributes vFromEl) name = AObject r s t →
     attr (___attributes toEl) name = AObject r s' t' → s = s') →
  ∃ w', morphAttrs c vFromEl toEl w = (Done (), w')
        ∧ nodes w' !! c
          = Some (set_attrs (attrs_after (a_own (___attributes toEl)) ∅) n)
        ∧ d_vElement (default no_data (data w' !! c)) = Some toEl
        ∧ ∀ x, x ≠ c → nodes w' !! x = nodes w !! x.
Proof.
  intros E Hattrs Hp Hpo Hnd Hndo Hx Hxo Hne Hcustom Hsimple Hkey Hobj.
  unfold morphAttrs.
  rewrite (run_bind _ _ _ _ _ (run_plain_names _ _ Hp)).
  rewrite (run_bind _ _ _ _ _ (run_plain_names _ _ Hpo)).
  unfold update_data. rewrite (run_bind _ _ _ _ _ (run_modify _ _)).
  rewrite Hcustom, (bool_decide_eq_false_2 _ Hne), Hsimple.
  rewrite (bool_decide_eq_true_2 _ Hkey). unfold removePreservedAttributes.
  set (w0 := set_data _ w).
  assert (nodes w0 !! c = Some n) as E0 by done.
  destruct (run_attribute_steps
              (λ kv : string * attrval,
                 let attrValue := kv.2 in
                 let '(namespaceURI, attrName) :=
                   if bool_decide (kv.1 = ATTR_XLINK_HREF) then (NS_XLINK, ATTR_HREF)
                   else ("", kv.1) in
                 if null_or_false attrValue
                 then removeAttribute c namespaceURI attrName
                 else if strict_eq (attr (___attributes vFromEl) attrName) attrValue
                      then mret ()
                      else setAttribute c namespaceURI attrName (attr_text attrValue))
              (diff_new (___attributes vFromEl)) c (a_own (___attributes toEl)))
    with (w := w0) (n := n) as (w1 & Hrun1 & E1 & Ht1); [|exact E0|].
  { intros kv w' n' Hkv En'. cbv zeta.
    rewrite bool_decide_eq_false_2.
    2:{ intros Heq. apply Hx. rewrite <- Heq. apply list_elem_of_fmap. by exists kv. }
    unfold diff_new. destruct (null_or_false kv.2).
    - by apply run_removeAttribute.
    - destruct (strict_eq _ _).
      + exists w'. split_and!; [done| |apply touched_refl]. by destruct n'.
      + by apply run_setAttribute. }
  rewrite (run_bind _ _ _ _ _ Hrun1).
  destruct (run_attribute_steps
              (λ kv : string * attrval,
                 if has_attr (___attributes toEl) kv.1 then mret ()
                 else if bool_decide (kv.1 = ATTR_XLINK_HREF)
                      then removeAttribute c ATTR_XLINK_HREF ATTR_HREF
                      else removeAttribute c "" kv.1)
              (drop_old (___attributes toEl)) c (a_own (___attributes vFromEl)))
    with (w := w1) (n := set_attrs
                           (foldl (λ m kv, diff_new (___attributes vFromEl) kv m)
                              (Morph.attrs n) (a_own (___attributes toEl))) n)
    as (w2 & Hrun2 & E2 & Ht2); [|exact E1|].
  { intros kv w' n' Hkv En'. unfold drop_old. destruct (has_attr _ _).
    - exists w'. split_and!; [done| |apply touched_refl]. by destruct n'.
    - rewrite bool_decide_eq_false_2.
      2:{ intros Heq. apply Hxo. rewrite <- Heq. apply list_elem_of_fmap. by exists kv. }
      by apply run_removeAttribute. }
  exists w2. split; [exact Hrun2|]. split_and!.
  - rewrite E2. cbn [Morph.attrs set_attrs]. f_equal.
    change (set_attrs ?a (set_attrs ?b n)) with (set_attrs a n). f_equal.
    apply map_eq. intros [ns name].
    rewrite drop_old_lookup, (diff_new_lookup _ _ Hnd), Hattrs.
    rewrite !(attrs_after_plain _ Hndo Hxo), (attrs_after_plain _ Hnd Hx), !lookup_empty.
    unfold has_attr.
    case_bool_decide as Hns; cbn [andb]; [|done]. subst ns.
    destruct (decide (name ∈ (a_own (___attributes toEl)).*1)) as [Hin|Hout].
    + rewrite (bool_decide_eq_true_2 _ Hin). cbn [negb]. rewrite andb_false_r.
      unfold attribute_of at 2.
      destruct (null_or_false (lookup_own (a_own (___attributes toEl)) name)) eqn:Hnof;
        [done|].
      destruct (strict_eq _ _) eqn:Hs; [|done].
      destruct (strict_eq_attr_text _ _ (Hobj name) Hs) as [Htext Hnull].
      unfold attribute_of, attr in *. by rewrite Hnull, Hnof, Htext.
    + rewrite (bool_decide_eq_false_2 _ Hout). cbn [negb]. rewrite andb_true_r.
      rewrite (attribute_of_absent _ _ Hout).
      case_bool_decide as Hold; [done|]. by rewrite (attribute_of_absent _ _ Hold).
  - rewrite (touched_data _ _ _ Ht2), (touched_data _ _ _ Ht1).
    unfold w0. simpl. by rewrite lookup_insert_eq.
  - intros x Hxc. rewrite (touched_other _ _ _ Ht2 x Hxc), (touched_other _ _ _ Ht1 x Hxc).
    done.
Qed.

End morph_attributes_exact.

Section morph_attributes_examples.
Import Morph.

(** A link as one render makes it and as the next render makes it: the
    address changes, the class stays, the [hidden] flag is dropped, the
    title becomes null and a tabindex is new. *)
Definition link_before : velement :=
  element "a" 30
    [("href", AString "/old"); ("class", AString "x"); ("hidden", ABoolean true);
     ("title", AString "t")] KNull.

Definition link_after : velement :=
  element "a" 31
    [("class", AString "x"); ("href", AString "/new"); ("title", ANull);
     ("tabindex", ANumber 1)] KNull.

Definition link_node : dnode :=
  set_attrs (attrs_after (a_own (___attributes link_before)) ∅)
    (new_dnode ELEMENT_NODE "a" NS_HTML None).

Definition link_page : world := set_nodes (<[1%nat := link_node]>) empty_page.

Lemma morphAttrs_gives_the_new_attributes_witness :
  ∃ w', morphAttrs 1 link_before link_after link_page = (Done (), w')
        ∧ nodes w' !! 1%nat
          = Some (set_attrs (attrs_after (a_own (___attributes link_after)) ∅) link_node)
        ∧ d_vElement (default no_data (data w' !! 1%nat)) = Some link_after
        ∧ ∀ x, x ≠ 1%nat → nodes w' !! x = nodes link_page !! x.
Proof.
  apply (morphAttrs_gives_the_new_attributes link_page 1 link_node link_before
           link_after).
  - reflexivity.
  - reflexivity.
  - reflexivity.
  - reflexivity.
  - compute_done.
  - compute_done.
  - compute_done.
  - compute_done.
  - discriminate.
  - reflexivity.
  - reflexivity.
  - reflexivity.
  - intros name r s t s' t' H. unfold attr in H. simpl in H.
    repeat case_decide; discriminate.
Defined.

End morph_attributes_examples.
(** ** VElement.___morphAttrs: the attribute [xlink:href] *)

Section morph_xlink.
Import Morph.

(** A loop over attribute entries on the element [el], each turn of
    which returns and adds to the writes: the writes of the loop hold
    what every turn was bound to write. *)
Lemma for_each_writes {A : Type} (body : A → M unit) (writes : A → option mutation)
    (el : nat) (l : list A) :
  (∀ x w, x ∈ l → is_Some (nodes w !! el) →
     ∃ w' ms, body x w = (Done (), w') ∧ is_Some (nodes w' !! el)
              ∧ mutations w' = (mutations w ++ ms)%list
              ∧ ∀ mu, writes x = Some mu → mu ∈ ms) →
  ∀ w, is_Some (nodes w !! el) →
    ∃ w' ms, for_each l body w = (Done (), w') ∧ is_Some (nodes w' !! el)
             ∧ mutations w' = (mutations w ++ ms)%list
             ∧ ∀ x mu, x ∈ l → writes x = Some mu → mu ∈ ms.
Proof.
  induction l as [|x l IH]; intros Hbody w E.
  { exists w, []. rewrite app_nil_r. split_and!; [done..|].
    intros x mu Hx. by apply elem_of_nil in Hx. }
  destruct (Hbody x w ltac:(left) E) as (w1 & ms1 & Hrun1 & E1 & Hm1 & Hw1).
  destruct (IH (λ y w Hy, Hbody y w ltac:(by right)) w1 E1)
    as (w' & ms' & Hrun' & E' & Hm' & Hw').
  exists w', (ms1 ++ ms')%list. cbn [for_each].
  rewrite (run_bind _ _ _ _ _ Hrun1). split_and!; [done..| |].
  - by rewrite Hm', Hm1, app_assoc.
  - intros y mu Hy Hwrites. apply elem_of_app.
    apply elem_of_cons in Hy as [->|Hy]; [left; by apply Hw1|right; by eapply Hw'].
Qed.

Lemma removeAttribute_writes (w : world) (el : nat) (ns name : string) :
  is_Some (nodes w !! el) →
  ∃ w' ms, removeAttribute el ns name w = (Done (), w') ∧ is_Some (nodes w' !! el)
           ∧ mutations w' = (mutations w ++ ms)%list.
Proof.
  intros [n E]. unfold removeAttribute. rewrite (run_node_bind _ _ _ _ E).
  destruct (Morph.attrs n !! (ns, name)).
  - eexists _, [_]. split.
    { unfold update_node, record. rewrite (run_bind _ _ _ _ _ (run_modify _ _)).
      reflexivity. }
    simpl. split; [|done]. rewrite lookup_alter_eq, E. by eexists.
  - exists w, []. rewrite app_nil_r. split_and!; [done| |done]. by eexists.
Qed.

Lemma setAttribute_writes (w : world) (el : nat) (ns name text : string) :
  is_Some (nodes w !! el) →
  ∃ w', setAttribute el ns name text w = (Done (), w') ∧ is_Some (nodes w' !! el)
        ∧ mutations w' = (mutations w ++ [AttributeSet el ns name text])%list.
Proof.
  intros [n E]. unfold setAttribute. rewrite (run_node_bind _ _ _ _ E).
  eexists. split.
  { unfold update_node, record. rewrite (run_bind _ _ _ _ _ (run_modify _ _)).
    reflexivity. }
  simpl. split; [|done]. rewrite lookup_alter_eq, E. by eexists.
Qed.

(** The attribute [xlink:href] is set on every diff of the attributes.
    Whatever the old attribute map has under [xlink:href], the same
    string included: when the new map has a string there, and the old
    map has no property [href], [___morphAttrs] returns and among its
    writes is the call that sets the attribute.  The loop reads the old
    map under the name [href], to which it has renamed the
    attribute. *)
Lemma morphAttrs_sets_xlink_href (w : world) (el : nat) (vFromEl toEl : velement)
    (text : string) :
  is_Some (nodes w !! el) →
  plain (___attributes toEl) = true → plain (___attributes vFromEl) = true →
  has_flag (___flags toEl) FLAG_CUSTOM_ELEMENT = false →
  has_flag (___flags toEl) FLAG_SIMPLE_ATTRS
    && has_flag (___flags vFromEl) FLAG_SIMPLE_ATTRS = false →
  a_ref (___attributes vFromEl) ≠ a_ref (___attributes toEl) →
  (ATTR_XLINK_HREF, AString text) ∈ a_own (___attributes toEl) →
  ATTR_HREF ∉ (a_own (___attributes vFromEl)).*1 →
  ∃ w' ms,
    morphAttrs el vFromEl toEl w = (Done (), w')
    ∧ mutations w' = (mutations w ++ ms)%list
    ∧ AttributeSet el NS_XLINK ATTR_HREF text ∈ ms.
Proof.
  intros E Hp Hpo Hcustom Hsimple Href Hin Hold.
  unfold morphAttrs.
  rewrite (run_bind _ _ _ _ _ (run_plain_names _ _ Hp)).
  rewrite (run_bind _ _ _ _ _ (run_plain_names _ _ Hpo)).
  unfold update_data. rewrite (run_bind _ _ _ _ _ (run_modify _ _)).
  rewrite Hcustom, (bool_decide_eq_false_2 _ Href), Hsimple.
  unfold removePreservedAttributes.
  set (w0 := set_data _ w).
  assert (is_Some (nodes w0 !! el)) as E0 by done.
  set (writes := λ kv : string * attrval,
         if bool_decide (kv = (ATTR_XLINK_HREF, AString text))
         then Some (AttributeSet el NS_XLINK ATTR_HREF text) else None).
  destruct (for_each_writes
              (λ kv : string * attrval,
                 let attrValue := kv.2 in
                 let '(namespaceURI, attrName) :=
                   if bool_decide (kv.1 = ATTR_XLINK_HREF) then (NS_XLINK, ATTR_HREF)
                   else ("", kv.1) in
                 if null_or_false attrValue then removeAttribute el namespaceURI attrName
                 else if strict_eq (attr (___attributes vFromEl) attrName) attrValue
                      then mret ()
                      else setAttribute el namespaceURI attrName (attr_text attrValue))
              writes el (a_own (___attributes toEl)))
    with (w := w0) as (w1 & ms1 & Hrun1 & E1 & Hm1 & Hw1); [|done|].
  { intros kv w2 _ E2. unfold writes.
    destruct (decide (kv = (ATTR_XLINK_HREF, AString text))) as [->|Hkv].
    - rewrite (bool_decide_eq_true_2 (_ = _)) by done.
      cbn [fst snd]. rewrite bool_decide_eq_true_2 by done.
      cbn [null_or_false]. unfold attr. rewrite (lookup_own_absent _ _ Hold).
      cbn [strict_eq].
      destruct (setAttribute_writes w2 el NS_XLINK ATTR_HREF text E2)
        as (w3 & Hrun & E3 & Hm3).
      exists w3, [AttributeSet el NS_XLINK ATTR_HREF text]. split_and!; [done..|].
      intros mu [= <-]. by left.
    - rewrite (bool_decide_eq_false_2 (kv = _)) by done.
      assert (∀ ns name,
        ∃ w3 ms,
          (if null_or_false kv.2 then removeAttribute el ns name
           else if strict_eq (attr (___attributes vFromEl) name) kv.2 then mret ()
                else setAttribute el ns name (attr_text kv.2)) w2 = (Done (), w3)
          ∧ is_Some (nodes w3 !! el) ∧ mutations w3 = (mutations w2 ++ ms)%list) as Hany.
      { intros ns name. destruct (null_or_false kv.2).
        - by apply removeAttribute_writes.
        - destruct (strict_eq _ _).
          + exists w2, []. by rewrite app_nil_r.
          + destruct (setAttribute_writes w2 el ns name (attr_text kv.2) E2)
              as (w3 & Hrun & E3 & Hm3). by eexists _, _. }
      destruct (bool_decide (kv.1 = ATTR_XLINK_HREF)).
      + destruct (Hany NS_XLINK ATTR_HREF) as (w3 & ms & Hrun & E3 & Hm3).
        exists w3, ms. by split_and!.
      + destruct (Hany "" kv.1) as (w3 & ms & Hrun & E3 & Hm3).
        exists w3, ms. by split_and!. }
  rewrite (run_bind _ _ _ _ _ Hrun1).
  assert (AttributeSet el NS_XLINK ATTR_HREF text ∈ ms1) as Hset.
  { apply (Hw1 (ATTR_XLINK_HREF, AString text)); [done|].
    unfold writes. by rewrite bool_decide_eq_true_2. }
  destruct (bool_decide (___key toEl = KNull)).
  - destruct (for_each_writes
                (λ kv : string * attrval,
                   if has_attr (___attributes toEl) kv.1 then mret ()
                   else if bool_decide (kv.1 = ATTR_XLINK_HREF)
                        then removeAttribute el ATTR_XLINK_HREF ATTR_HREF
                        else removeAttribute el "" kv.1)
                (λ _, None) el (a_own (___attributes vFromEl)))
      with (w := w1) as (w2 & ms2 & Hrun2 & E2 & Hm2 & _); [|done|].
    { intros kv w2 _ E2. destruct (has_attr (___attributes toEl) kv.1).
      - exists w2, []. rewrite app_nil_r. by split_and!.
      - destruct (bool_decide (kv.1 = ATTR_XLINK_HREF)).
        + destruct (removeAttribute_writes w2 el ATTR_XLINK_HREF ATTR_HREF E2)
            as (w3 & ms & Hrun & E3 & Hm3). exists w3, ms. by split_and!.
        + destruct (removeAttribute_writes w2 el "" kv.1 E2)
            as (w3 & ms & Hrun & E3 & Hm3). exists w3, ms. by split_and!. }
    exists w2, (ms1 ++ ms2)%list. split_and!; [done| |].
    + by rewrite Hm2, Hm1, app_assoc.
    + apply elem_of_app. by left.
  - exists w1, ms1. by split_and!.
Qed.

End morph_xlink.


(** ** morphdom/specialElHandlers: what the handlers leave on the element *)

Section special_handlers.
Import Morph.

(** The options [forEachOption] visits below a virtual node, in the
    order of the visits: an element named [option] is one (what is
    below it is not searched), every other node is searched. *)
Fixpoint options_of (v : vnode) : list velement :=
  match v with
  | VElement el children =>
      if bool_decide (___nodeName el = "option") then [el]
      else concat (options_of <$> children)
  | VText _ _ | VComment _ _ => []
  | VFragment _ children | VComponent _ _ children => concat (options_of <$> children)
  end.

Definition options (children : list vnode) : list velement :=
  concat (options_of <$> children).

(** The index the callback of the [select] handler is left with. *)
Fixpoint chosen (els : list velement) (i selected : Z) : Z :=
  match els with
  | [] => selected
  | el :: rest =>
      chosen rest (i + 1) (if ___hasAttribute el "selected" then (i + 1)%Z else selected)
  end.

Lemma chosen_app (pre post : list velement) : ∀ i selected,
  chosen (pre ++ post) i selected
  = chosen post (i + Z.of_nat (length pre)) (chosen pre i selected).
Proof.
  induction pre as [|el pre IH]; intros i selected; simpl.
  - by rewrite Z.add_0_r.
  - rewrite IH. f_equal. lia.
Qed.

Lemma chosen_none (els : list velement) : ∀ i selected,
  Forall (λ el, ___hasAttribute el "selected" = false) els →
  chosen els i selected = selected.
Proof.
  induction els as [|el els IH]; intros i selected Hnone; [done|].
  apply Forall_cons in Hnone as [Hel Hnone]. simpl. rewrite Hel. by apply IH.
Qed.

Lemma options_scan_options (children : list vnode) :
  Forall (λ v, ∀ i selected,
            option_scan v i selected
            = ((i + Z.of_nat (length (options_of v)))%Z,
               chosen (options_of v) i selected)) children →
  ∀ i selected,
    options_scan children i selected
    = ((i + Z.of_nat (length (options children)))%Z, chosen (options children) i selected).
Proof.
  unfold options. induction 1 as [|v children Hv _ IH]; intros i selected.
  - simpl. by rewrite Z.add_0_r.
  - cbn [options_scan]. rewrite Hv, IH. rewrite fmap_cons. cbn [concat].
    rewrite length_app, chosen_app. f_equal. lia.
Qed.

Lemma option_scan_options (v : vnode) : ∀ i selected,
  option_scan v i selected
  = ((i + Z.of_nat (length (options_of v)))%Z, chosen (options_of v) i selected).
Proof.
  induction v as [el kids IH|text owner|text owner|key kids IH|co key kids IH]
    using vnode_ind'; intros i selected.
  - cbn [option_scan options_of]. case_bool_decide; [done|].
    apply (options_scan_options kids IH).
  - simpl. by rewrite Z.add_0_r.
  - simpl. by rewrite Z.add_0_r.
  - apply (options_scan_options kids IH).
  - apply (options_scan_options kids IH).
Qed.

Lemma chosen_nonneg (els : list velement) : ∀ i selected,
  (-1 ≤ i)%Z → (0 ≤ selected)%Z → (0 ≤ chosen els i selected)%Z.
Proof.
  induction els as [|el els IH]; intros i selected Hi Hs; simpl; [done|].
  apply IH; [lia|]. destruct (___hasAttribute el "selected"); lia.
Qed.

(** What an assignment to [selectedIndex] leaves of a node: the place
    in the tree and the attributes. *)
Definition same_but_selected (n n' : dnode) : Prop :=
  nodeType n' = nodeType n ∧ nodeName n' = nodeName n
  ∧ childNodes n' = childNodes n ∧ parentNode n' = parentNode n
  ∧ Morph.attrs n' = Morph.attrs n.

Lemma same_but_selected_set (b : bool) (n : dnode) :
  same_but_selected n (set_boolean_property "selected" b n).
Proof. by split_and!. Qed.

Definition shape_kept (a b : option dnode) : Prop :=
  match a, b with
  | Some n, Some n' => same_but_selected n n'
  | None, None => True
  | _, _ => False
  end.

Lemma shape_kept_alter (a : option dnode) (M : gmap nat dnode) (x y : nat) (b : bool) :
  shape_kept a (M !! x) →
  shape_kept a (alter (set_boolean_property "selected" b) y M !! x).
Proof.
  destruct (decide (y = x)) as [->|Hne]; [|by rewrite lookup_alter_ne].
  rewrite lookup_alter_eq. by destruct a as [n|], (M !! x) as [n1|].
Qed.

Lemma select_only_lookup (options : list nat) (i : Z) (N : gmap nat dnode) (x : nat) :
  shape_kept (N !! x) (select_only options i N !! x).
Proof.
  unfold select_only.
  assert (shape_kept (N !! x)
            (foldr (λ y, alter (set_boolean_property "selected" false) y) N options !! x))
    as Hfold.
  { induction options as [|y options IH]; simpl.
    - destruct (N !! x); [by split_and!|done].
    - by apply shape_kept_alter. }
  destruct (if (0 <=? i)%Z then options !! Z.to_nat i else None) as [y|]; [|done].
  by apply shape_kept_alter.
Qed.

Lemma is_element_same (N N' : gmap nat dnode) (name : string) (x : nat) :
  shape_kept (N !! x) (N' !! x) → is_element N' name x = is_element N name x.
Proof.
  unfold is_element. destruct (N !! x) as [n|], (N' !! x) as [n'|]; try done.
  intros (-> & -> & _). done.
Qed.

(** The list of options does not depend on which options are
    selected. *)
Lemma list_of_options_same (N N' : gmap nat dnode) (n n' : dnode) :
  (∀ x, shape_kept (N !! x) (N' !! x)) →
  childNodes n' = childNodes n →
  list_of_options N' n' = list_of_options N n.
Proof.
  intros Hsame Hch. unfold list_of_options. rewrite Hch. f_equal.
  apply list_fmap_ext. intros _ c _.
  rewrite !(is_element_same N N') by apply Hsame.
  destruct (is_element N "option" c); [done|].
  destruct (is_element N "optgroup" c); [|done].
  assert (default [] (childNodes <$> N' !! c) = default [] (childNodes <$> N !! c)) as ->.
  { pose proof (Hsame c) as Hc.
    destruct (N !! c) as [cn|], (N' !! c) as [cn'|]; try done.
    simpl. by destruct Hc as (_ & _ & -> & _). }
  apply list_filter_iff. intros x. by rewrite (is_element_same N N') by apply Hsame.
Qed.

(** The [select] handler.

    X14.  For a virtual [select] without the attribute [multiple] the
    handler returns.  Let [index] be the position, among the options in
    the order [forEachOption] visits them (counted from 0), of the last
    virtual option that has the attribute [selected], and 0 when no
    option has it.  When the real select has an option at that position
    of its list of options, its property [selectedIndex] is [index]
    afterwards; when it has none (as a select without options), the
    property is -1.  The list of options of the real select is as
    before.  (The property of the real select is, before the call, -1
    or the position of one of its options, as in every document.) *)
Theorem select_takes_the_last_selected_option (w : world) (c : nat) (n : dnode)
    (toEl : velement) (toChildren : list vnode) :
  nodes w !! c = Some n → ___hasAttribute toEl "multiple" = false →
  (selectedIndex n = (-1)%Z
   ∨ (0 ≤ selectedIndex n < Z.of_nat (length (list_of_options (nodes w) n)))%Z) →
  ∃ w' n' index,
    special_select c toEl toChildren w = (Done (), w')
    ∧ nodes w' !! c = Some n'
    ∧ list_of_options (nodes w') n' = list_of_options (nodes w) n
    ∧ selectedIndex n'
      = (if bool_decide (index < Z.of_nat (length (list_of_options (nodes w) n)))%Z
         then index else (-1)%Z)
    ∧ (Forall (λ el, ___hasAttribute el "selected" = false) (options toChildren) →
       index = 0%Z)
    ∧ (∀ before el after,
         options toChildren = (before ++ el :: after)%list →
         ___hasAttribute el "selected" = true →
         Forall (λ el, ___hasAttribute el "selected" = false) after →
         index = Z.of_nat (length before)).
Proof.
  intros E Hmultiple Hcell.
  set (index := (options_scan toChildren (-1) 0).2).
  assert (index = chosen (options toChildren) (-1) 0) as Hindex.
  { unfold index. by rewrite (options_scan_options toChildren)
      by (apply Forall_forall; intros v _; apply option_scan_options). }
  assert (0 ≤ index)%Z as Hnonneg by (rewrite Hindex; by apply chosen_nonneg).
  set (opts := list_of_options (nodes w) n) in *.
  assert (∃ w' n', special_select c toEl toChildren w = (Done (), w')
                   ∧ nodes w' !! c = Some n'
                   ∧ list_of_options (nodes w') n' = opts
                   ∧ selectedIndex n'
                     = (if bool_decide (index < Z.of_nat (length opts))%Z
                        then index else (-1)%Z)) as (w' & n' & Hrun & E' & Hopts & Hidx).
  { unfold special_select. rewrite Hmultiple, (run_node_bind _ _ _ _ E). fold index.
    case_bool_decide as Heq.
    - exists w, n. split_and!; [done..|].
      rewrite bool_decide_eq_true_2; [done|lia].
    - unfold assign_selectedIndex. rewrite (run_node_bind _ _ _ _ E).
      rewrite (run_bind _ _ _ _ _ (run_get_world _)). fold opts.
      rewrite (run_bind _ _ _ _ _ (run_modify _ _)).
      unfold update_node, record.
      rewrite (run_bind _ _ _ _ _ (run_modify _ _)).
      rewrite run_modify. cbn [nodes set_nodes].
      pose proof (select_only_lookup opts index (nodes w) c) as Hc.
      unfold shape_kept in Hc. rewrite E in Hc.
      destruct (select_only opts index (nodes w) !! c) as [n1|] eqn:E1; [|done].
      eexists _, _. split; [reflexivity|]. cbn [nodes]. split_and!.
      + by rewrite lookup_alter_eq, E1.
      + apply list_of_options_same.
        * intros x. destruct (decide (x = c)) as [->|Hne].
          -- rewrite lookup_alter_eq, E1, E. simpl.
             destruct Hc as (? & ? & ? & ? & ?). by split_and!.
          -- rewrite lookup_alter_ne by done. apply select_only_lookup.
        * simpl. by destruct Hc as (_ & _ & ? & _).
      + simpl. rewrite (proj2 (Z.leb_le 0 index) Hnonneg). cbn [andb].
        assert (is_Some (opts !! Z.to_nat index)
                ↔ (index < Z.of_nat (length opts))%Z) as Hiff.
        { rewrite lookup_lt_is_Some. lia. }
        by rewrite (bool_decide_ext _ _ Hiff). }
  exists w', n', index. split_and!; [done..| |].
  - intros Hnone. rewrite Hindex. by apply chosen_none.
  - intros before el after Hlist Hel Hafter.
    rewrite Hindex, Hlist, chosen_app. cbn [chosen]. rewrite Hel.
    rewrite (chosen_none after) by done. lia.
Qed.

Lemma run_assign_boolean_property (w : world) (c : nat) (n : dnode) (name : string)
    (b : bool) :
  nodes w !! c = Some n → name ≠ "selected" →
  ∃ w', assign_boolean_property c name b w = (Done (), w')
        ∧ nodes w' !! c = Some (set_boolean_property name b n).
Proof.
  intros E Hname. unfold assign_boolean_property. rewrite (run_node_bind _ _ _ _ E).
  rewrite (run_bind _ _ _ _ _ (run_get_world _)).
  rewrite (bool_decide_eq_false_2 _ Hname). cbn [andb].
  unfold update_node, record. rewrite (run_bind _ _ _ _ _ (run_modify _ _)).
  eexists. split; [reflexivity|]. simpl. by rewrite lookup_alter_eq, E.
Qed.

(** One call of [syncBooleanAttrProp] for [checked] or [disabled]: the
    property is that of the virtual element afterwards; the other
    two, the value and the attributes of other names stay. *)
Lemma run_syncBooleanAttrProp (w : world) (c : nat) (n : dnode) (toEl : velement)
    (name : string) :
  nodes w !! c = Some n → name ∈ ["checked"; "disabled"] →
  ∃ w' n',
    syncBooleanAttrProp c toEl name w = (Done (), w')
    ∧ nodes w' !! c = Some n'
    ∧ boolean_property name n' = v_boolean toEl name
    ∧ (name ≠ "checked" → checked n' = checked n)
    ∧ (name ≠ "selected" → selected n' = selected n)
    ∧ (name ≠ "disabled" → disabled n' = disabled n)
    ∧ value n' = value n
    ∧ (∀ key, key ≠ ("", name) → Morph.attrs n' !! key = Morph.attrs n !! key).
Proof.
  intros E Hname. unfold syncBooleanAttrProp. rewrite (run_node_bind _ _ _ _ E).
  case_bool_decide as Heq.
  { exists w, n. by split_and!. }
  set (n1 := set_boolean_property name (v_boolean toEl name) n).
  destruct (run_assign_boolean_property w c n name (v_boolean toEl name) E)
    as (w1 & Hassign & E1).
  { rewrite !elem_of_cons, elem_of_nil in Hname. by destruct Hname as [->|[->|[]]]. }
  fold n1 in E1. rewrite (run_bind _ _ _ _ _ Hassign).
  rewrite (run_node_bind _ _ _ _ E1).
  assert (boolean_property name n1 = v_boolean toEl name) as Hb.
  { unfold boolean_property, n1. simpl.
    rewrite !elem_of_cons, elem_of_nil in Hname.
    destruct Hname as [->|[->|[]]]; by repeat case_decide. }
  assert ((name ≠ "checked" → checked n1 = checked n)
          ∧ (name ≠ "selected" → selected n1 = selected n)
          ∧ (name ≠ "disabled" → disabled n1 = disabled n)) as (Hc & Hs & Hd).
  { unfold n1. simpl.
    rewrite !elem_of_cons, elem_of_nil in Hname.
    destruct Hname as [->|[->|[]]]; split_and!; intros Hne; try done;
      by repeat case_decide. }
  rewrite Hb.
  destruct (v_boolean toEl name) eqn:Hv.
  - destruct (run_setAttribute w1 c n1 "" name "" E1) as (w' & Hrun & E' & _).
    exists w', (set_attrs (<[("", name) := ""]> (Morph.attrs n1)) n1).
    split_and!; try done. intros key Hkey. simpl. by rewrite lookup_insert_ne.
  - destruct (run_removeAttribute w1 c n1 "" name E1) as (w' & Hrun & E' & _).
    exists w', (set_attrs (delete ("", name) (Morph.attrs n1)) n1).
    split_and!; try done. intros key Hkey. simpl. by rewrite lookup_delete_ne.
Qed.

(** The [input] handler.

    X15.  The handler returns, and afterwards the properties [checked],
    [disabled] and [value] of the real input are those of the virtual
    element; when the virtual element has no attribute [value], the
    real one has none either. *)
Theorem input_takes_the_properties_of_the_virtual_element (w : world) (c : nat)
    (n : dnode) (toEl : velement) :
  nodes w !! c = Some n →
  ∃ w' n',
    special_input c toEl w = (Done (), w')
    ∧ nodes w' !! c = Some n'
    ∧ checked n' = v_boolean toEl "checked"
    ∧ disabled n' = v_boolean toEl "disabled"
    ∧ value n' = ___value toEl
    ∧ (___hasAttribute toEl "value" = false → Morph.attrs n' !! ("", "value") = None).
Proof.
  intros E. unfold special_input.
  destruct (run_syncBooleanAttrProp w c n toEl "checked" E)
    as (w1 & n1 & Hrun1 & E1 & Hc1 & _ & _ & _ & _ & _).
  { rewrite !elem_of_cons. tauto. }
  rewrite (run_bind _ _ _ _ _ Hrun1).
  destruct (run_syncBooleanAttrProp w1 c n1 toEl "disabled" E1)
    as (w2 & n2 & Hrun2 & E2 & Hd2 & Hc2 & _ & _ & _ & _).
  { rewrite !elem_of_cons. tauto. }
  rewrite (run_bind _ _ _ _ _ Hrun2). rewrite (run_node_bind _ _ _ _ E2).
  assert (checked n2 = v_boolean toEl "checked") as Hchecked.
  { rewrite Hc2 by done. exact Hc1. }
  assert (disabled n2 = v_boolean toEl "disabled") as Hdisabled by exact Hd2.
  assert (∃ w3 n3,
            (if bool_decide (value n2 = ___value toEl) then mret ()
             else update_node c (set_value (___value toEl));;
                  record (PropertySet c "value" (AString (___value toEl)))) w2
            = (Done (), w3)
            ∧ nodes w3 !! c = Some n3 ∧ checked n3 = checked n2
            ∧ disabled n3 = disabled n2 ∧ value n3 = ___value toEl)
    as (w3 & n3 & Hrun3 & E3 & Hc3 & Hd3 & Hv3).
  { case_bool_decide as Heq.
    - exists w2, n2. by split_and!.
    - eexists _, (set_value (___value toEl) n2). split.
      { unfold update_node, record. rewrite (run_bind _ _ _ _ _ (run_modify _ _)).
        reflexivity. }
      simpl. rewrite lookup_alter_eq, E2. by split_and!. }
  rewrite (run_bind _ _ _ _ _ Hrun3). rewrite (run_node_bind _ _ _ _ E3).
  destruct (bool_decide (is_Some (Morph.attrs n3 !! ("", "value")))
            && negb (___hasAttribute toEl "value")) eqn:Hremove.
  - destruct (run_removeAttribute w3 c n3 "" "value" E3) as (w' & Hrun & E' & _).
    exists w', (set_attrs (delete ("", "value") (Morph.attrs n3)) n3).
    split_and!; try done; simpl; try congruence.
    intros _. by rewrite lookup_delete_eq.
  - exists w3, n3. split_and!; try done; try congruence.
    intros Hno. rewrite Hno in Hremove. simpl in Hremove.
    rewrite andb_true_r in Hremove. apply bool_decide_eq_false in Hremove.
    by apply eq_None_not_Some.
Qed.

End special_handlers.

Section special_handlers_examples.
Import Morph.

Definition option_el (ref : nat) (own : list (string * attrval)) : vnode :=
  VElement (element "option" ref own KNull) [VText "item" None].

(** A select whose second and fourth options are marked, the fourth
    inside an [optgroup]. *)
Definition choice : list vnode :=
  [ option_el 41 [("value", AString "a")];
    option_el 42 [("value", AString "b"); ("selected", ABoolean true)];
    VElement (element "optgroup" 43 [("label", AString "more")] KNull)
      [ option_el 44 [("value", AString "c"); ("selected", ABoolean false)];
        option_el 45 [("value", AString "d"); ("selected", AString "")] ];
    option_el 46 [("value", AString "e")] ].

Definition select_el : velement := element "select" 40 [("name", AString "pick")] KNull.

(** The real select (node 1, in the container) with its five options:
    two children, two inside an [optgroup] (node 4) and one more
    child. *)
Definition option_node (parent : nat) : dnode :=
  set_parentNode (Some parent) (new_dnode ELEMENT_NODE "option" NS_HTML None).

Definition select_node (children : list nat) : dnode :=
  set_childNodes children
    (set_parentNode (Some 0%nat) (new_dnode ELEMENT_NODE "select" NS_HTML None)).

Definition select_page : world :=
  set_nodes (λ _,
    <[0%nat := set_childNodes [1%nat] (new_dnode ELEMENT_NODE "div" NS_HTML None)]>
      (<[1%nat := select_node [2; 3; 4; 7]%nat]>
         (<[2%nat := option_node 1]>
            (<[3%nat := option_node 1]>
               (<[4%nat := set_childNodes [5; 6]%nat
                             (set_parentNode (Some 1%nat)
                                (new_dnode ELEMENT_NODE "optgroup" NS_HTML None))]>
                  (<[5%nat := option_node 4]>
                     (<[6%nat := option_node 4]>
                        (<[7%nat := option_node 1]> ∅))))))))
    empty_page.

(** A real select without options. *)
Definition bare_select_page : world :=
  set_nodes (λ _,
    <[0%nat := set_childNodes [1%nat] (new_dnode ELEMENT_NODE "div" NS_HTML None)]>
      (<[1%nat := select_node []]> ∅))
    empty_page.

(** A checkbox that the user has ticked, and the virtual input of the
    next render, which is unticked, disabled and has no value. *)
Definition ticked_box : dnode :=
  set_boolean_property "checked" true
    (set_value "on"
       (set_attrs {[ ("", "type") := "checkbox"; ("", "value") := "yes" ]}
          (new_dnode ELEMENT_NODE "input" NS_HTML None))).

Definition form_page : world := set_nodes (<[1%nat := ticked_box]>) empty_page.

Definition box_el : velement :=
  element "input" 47 [("type", AString "checkbox"); ("disabled", ABoolean true)] KNull.

Lemma select_takes_the_last_selected_option_witness :
  ∃ w' n' index,
    special_select 1 select_el choice select_page = (Done (), w')
    ∧ nodes w' !! 1%nat = Some n'
    ∧ list_of_options (nodes w') n'
      = list_of_options (nodes select_page) (select_node [2; 3; 4; 7]%nat)
    ∧ selectedIndex n'
      = (if bool_decide
              (index < Z.of_nat (length (list_of_options (nodes select_page)
                                           (select_node [2; 3; 4; 7]%nat))))%Z
         then index else (-1)%Z)
    ∧ (Forall (λ el, ___hasAttribute el "selected" = false) (options choice) →
       index = 0%Z)
    ∧ (∀ before el after,
         options choice = (before ++ el :: after)%list →
         ___hasAttribute el "selected" = true →
         Forall (λ el, ___hasAttribute el "selected" = false) after →
         index = Z.of_nat (length before)).
Proof.
  apply (select_takes_the_last_selected_option select_page 1
           (select_node [2; 3; 4; 7]%nat) select_el choice);
    [reflexivity|reflexivity|by left].
Defined.

(** The run of the witness: the fourth option (node 6, inside the
    [optgroup]) is selected, and it alone. *)
Lemma fourth_option_is_selected :
  let w' := (special_select 1 select_el choice select_page).2 in
  list_of_options (nodes select_page) (select_node [2; 3; 4; 7]%nat) = [2; 3; 5; 6; 7]%nat
  ∧ selectedIndex <$> nodes w' !! 1%nat = Some 3%Z
  ∧ (λ x, selected <$> nodes w' !! x) <$> [2; 3; 5; 6; 7]%nat
    = [Some false; Some false; Some false; Some true; Some false]
  ∧ mutations w' = [PropertySet 1 "selectedIndex" (ANumber 3)].
Proof. by vm_compute. Qed.

(** A select without options: the handler assigns 0 to [selectedIndex]
    on every pass, and the property stays -1. *)
Lemma select_without_options_stays_unselected :
  let w' := (special_select 1 select_el [] bare_select_page).2 in
  (special_select 1 select_el [] bare_select_page).1 = Done ()
  ∧ selectedIndex <$> nodes w' !! 1%nat = Some (-1)%Z
  ∧ mutations w' = [PropertySet 1 "selectedIndex" (ANumber 0)]
  ∧ mutations (special_select 1 select_el [] w').2
    = [PropertySet 1 "selectedIndex" (ANumber 0);
       PropertySet 1 "selectedIndex" (ANumber 0)].
Proof. by vm_compute. Qed.

Lemma input_takes_the_properties_of_the_virtual_element_witness :
  ∃ w' n',
    special_input 1 box_el form_page = (Done (), w')
    ∧ nodes w' !! 1%nat = Some n'
    ∧ checked n' = v_boolean box_el "checked"
    ∧ disabled n' = v_boolean box_el "disabled"
    ∧ value n' = ___value box_el
    ∧ (___hasAttribute box_el "value" = false → Morph.attrs n' !! ("", "value") = None).
Proof.
  apply (input_takes_the_properties_of_the_virtual_element form_page 1 ticked_box box_el).
  reflexivity.
Defined.

End special_handlers_examples.

(** ** morphdom: a render without nodes removes what is there *)

Section morph_unmount.
Import Morph.

(** [destroyNodeRecursive] with the fuel [fuel] can follow the nodes
    below [x]: each is in the store, none is the root of a component,
    the key of an element is no name of [Object.prototype], and the
    fuel lasts for the depth. *)
Fixpoint disposable (fuel : nat) (N : gmap nat dnode) (D : gmap nat domdata) (x : nat)
  : bool :=
  match fuel with
  | O => false
  | S fuel =>
      match N !! x with
      | None => false
      | Some n =>
          bool_decide (d_component (default no_data (D !! x)) = None)
          && (if bool_decide (nodeType n = ELEMENT_NODE)
                 || bool_decide (nodeType n = FRAGMENT_NODE)
              then
                match d_key (default no_data (D !! x)) with
                | Some key => bool_decide (key ∉ JsObject.prototype_names)
                | None => true
                end
                && forallb (disposable fuel N D) (childNodes n)
              else true)
      end
  end.

(** The node is an element (or the marker of a fragment): its removal
    is put off to the end of the pass. *)
Definition put_off (N : gmap nat dnode) (x : nat) : Prop :=
  ∃ n, N !! x = Some n ∧ (nodeType n = ELEMENT_NODE ∨ nodeType n = FRAGMENT_NODE).

Global Instance put_off_dec (N : gmap nat dnode) (x : nat) : Decision (put_off N x).
Proof.
  unfold put_off. destruct (N !! x) as [n|].
  - destruct (decide (nodeType n = ELEMENT_NODE ∨ nodeType n = FRAGMENT_NODE)) as [H|H].
    + left. by exists n.
    + right. intros (n' & [= <-] & H'). by apply H.
  - right. by intros (n' & [=] & _).
Defined.

(** From [w] to [w'] only the keyed elements of the components
    changed. *)
Record same_but_keyed (w w' : world) : Prop := {
  sbk_nodes : nodes w' = nodes w;
  sbk_data : data w' = data w;
  sbk_mutations : mutations w' = mutations w;
  sbk_detached : detachedNodes w' = detachedNodes w
}.

Lemma same_but_keyed_refl (w : world) : same_but_keyed w w.
Proof. by split. Qed.

Lemma same_but_keyed_trans (w w1 w2 : world) :
  same_but_keyed w w1 → same_but_keyed w1 w2 → same_but_keyed w w2.
Proof. intros [] []. split; congruence. Qed.

(** From [N], [D] to [N'], [D'] no node got a child or another type,
    and no node another key or component. *)
Definition kept (N N' : gmap nat dnode) (D D' : gmap nat domdata) : Prop :=
  (∀ y n, N !! y = Some n →
     ∃ n', N' !! y = Some n' ∧ nodeType n' = nodeType n
           ∧ ∀ c, c ∈ childNodes n' → c ∈ childNodes n)
  ∧ ∀ y, d_component (default no_data (D' !! y)) = d_component (default no_data (D !! y))
         ∧ d_key (default no_data (D' !! y)) = d_key (default no_data (D !! y)).

Lemma kept_refl (N : gmap nat dnode) (D : gmap nat domdata) : kept N N D D.
Proof. split; [|done]. intros y n E. by exists n. Qed.

Lemma kept_trans (N N1 N2 : gmap nat dnode) (D D1 D2 : gmap nat domdata) :
  kept N N1 D D1 → kept N1 N2 D1 D2 → kept N N2 D D2.
Proof.
  intros [Hn Hd] [Hn' Hd']. split.
  - intros y n E. destruct (Hn y n E) as (n1 & E1 & Ht1 & Hc1).
    destruct (Hn' y n1 E1) as (n2 & E2 & Ht2 & Hc2).
    exists n2. split_and!; [done|congruence|]. intros c Hc. by apply Hc1, Hc2.
  - intros y. destruct (Hd y) as [<- <-]. apply Hd'.
Qed.

Lemma disposable_kept (fuel : nat) (N N' : gmap nat dnode) (D D' : gmap nat domdata) :
  kept N N' D D' →
  ∀ x, disposable fuel N D x = true → disposable fuel N' D' x = true.
Proof.
  intros [Hn Hd]. induction fuel as [|fuel IH]; intros x; [done|].
  cbn [disposable]. destruct (N !! x) as [n|] eqn:E; [|done].
  destruct (Hn x n E) as (n' & -> & -> & Hc). destruct (Hd x) as [-> ->].
  intros [Hco H]%andb_true_iff. rewrite Hco. cbn [andb].
  destruct (_ || _); [|done].
  apply andb_true_iff in H as [Hkey Hkids]. rewrite Hkey. cbn [andb].
  apply forallb_forall. intros c Hin. apply IH.
  rewrite forallb_forall in Hkids. apply Hkids.
  apply list_elem_of_In, Hc. by apply list_elem_of_In.
Qed.

Lemma run_destroy (fuel : nat) : ∀ (w : world) (x : nat) (component : option string),
  disposable fuel (nodes w) (data w) x = true →
  ∃ w', destroyNodeRecursive fuel x component w = (Done (), w') ∧ same_but_keyed w w'.
Proof.
  induction fuel as [|fuel IH]; intros w x component; [done|].
  cbn [disposable destroyNodeRecursive].
  destruct (nodes w !! x) as [n|] eqn:E; [|done].
  intros [Hco H]%andb_true_iff. apply bool_decide_eq_true in Hco.
  rewrite (run_bind _ _ _ _ _ (run_get_data _ _)), Hco.
  rewrite (run_node_bind _ _ _ _ E).
  destruct (_ || _).
  2:{ exists w. split; [done|apply same_but_keyed_refl]. }
  apply andb_true_iff in H as [Hkey Hkids].
  assert (∃ w1, (match component, d_key (default no_data (data w !! x)) with
                 | Some c, Some key =>
                     if bool_decide (key = "") then mret ()
                     else
                       m ← keyed c key;
                       if bool_decide (m = Some x) then delete_keyed c key else mret ()
                 | _, _ => mret ()
                 end) w = (Done (), w1) ∧ same_but_keyed w w1) as (w1 & Hrun1 & Hs1).
  { destruct component as [c|]; [|exists w; split; [done|apply same_but_keyed_refl]].
    destruct (d_key _) as [key|];
      [|exists w; split; [done|apply same_but_keyed_refl]].
    destruct (bool_decide (key = ""));
      [exists w; split; [done|apply same_but_keyed_refl]|].
    apply bool_decide_eq_true in Hkey. unfold keyed.
    rewrite (run_bind _ _ _ _ _
               (run_bind _ _ _ _ _ (run_plain_name _ _ Hkey))).
    destruct (bool_decide (_ = Some x));
      [|exists w; split; [done|apply same_but_keyed_refl]].
    eexists. split; [reflexivity|]. by split. }
  rewrite (run_bind _ _ _ _ _ Hrun1).
  assert (forallb (disposable fuel (nodes w1) (data w1)) (childNodes n) = true) as Hkids1.
  { by rewrite (sbk_nodes _ _ Hs1), (sbk_data _ _ Hs1). }
  clear Hrun1 Hkids E. revert w1 Hs1 Hkids1.
  induction (childNodes n) as [|c l IHl]; intros w1 Hs1 Hkids1.
  { exists w1. by split. }
  cbn [forallb] in Hkids1. apply andb_true_iff in Hkids1 as [Hc Hl].
  destruct (IH w1 c component Hc) as (w2 & Hrun2 & Hs2).
  cbn [for_each]. rewrite (run_bind _ _ _ _ _ Hrun2).
  apply IHl.
  - by eapply same_but_keyed_trans.
  - by rewrite (sbk_nodes _ _ Hs2), (sbk_data _ _ Hs2).
Qed.

Lemma run_removeChild (w : world) (x p : nat) (nx : dnode) :
  nodes w !! x = Some nx → parentNode nx = Some p →
  ∃ w', removeChild x w = (Done (), w')
        ∧ nodes w'
          = alter (set_parentNode None) x
              (alter (λ pn, set_childNodes (filter (λ y, y ≠ x) (childNodes pn)) pn) p
                 (nodes w))
        ∧ data w' = data w
        ∧ mutations w' = (mutations w ++ [Removed x])%list
        ∧ detachedNodes w' = detachedNodes w.
Proof.
  intros E Hp. unfold removeChild. rewrite (run_node_bind _ _ _ _ E), Hp.
  rewrite (run_bind _ _ _ _ _ (run_unlink _ _ _ _ E Hp)).
  eexists. split; [reflexivity|]. by split_and!.
Qed.

Lemma filter_all (P : nat → Prop) `{∀ x, Decision (P x)} (l : list nat) :
  Forall P l → filter P l = l.
Proof.
  induction 1 as [|x l Hx _ IH]; [done|]. by rewrite filter_cons_True, IH.
Qed.

Lemma filter_out_NoDup (a b : list nat) (c : nat) :
  NoDup (a ++ c :: b)%list → filter (λ y, y ≠ c) (a ++ c :: b)%list = (a ++ b)%list.
Proof.
  intros Hnd. apply NoDup_app in Hnd as (_ & Ha & Hb%NoDup_cons).
  destruct Hb as [Hcb _].
  rewrite filter_app, filter_cons_False by (by intros H; apply H).
  f_equal.
  - apply filter_all. apply Forall_forall. intros y Hy ->.
    apply (Ha c Hy). by left.
  - apply filter_all. apply Forall_forall. by intros y Hy ->.
Qed.

(** The loop over the real children that are left: a node that is no
    element is removed at once, an element is put on the list of the
    pass. *)
Lemma run_leftover (N0 : gmap nat dnode) (fromNode : nat) (pc : option string)
    (rest : list nat) :
  ∀ (fuel : nat) (w : world) (pn : dnode) (held : list nat),
    nodes w !! fromNode = Some pn →
    childNodes pn = (held ++ rest)%list →
    NoDup (held ++ rest)%list → fromNode ∉ rest →
    (∀ c, c ∈ rest →
       ∃ nc, N0 !! c = Some nc ∧ nodes w !! c = Some nc
             ∧ parentNode nc = Some fromNode
             ∧ d_component (default no_data (data w !! c)) = None) →
    length rest < fuel →
    ∃ w' pn',
      leftover fuel fromNode pc (head rest) w = (Done (), w')
      ∧ nodes w' !! fromNode = Some pn'
      ∧ nodeType pn' = nodeType pn
      ∧ childNodes pn' = (held ++ filter (put_off N0) rest)%list
      ∧ detachedNodes w' = (detachedNodes w ++ filter (put_off N0) rest)%list
      ∧ mutations w'
        = (mutations w ++ (Removed <$> filter (λ c, ¬ put_off N0 c) rest))%list
      ∧ (∀ c, c ∈ rest → put_off N0 c →
           nodes w' !! c = N0 !! c
           ∧ is_Some (d_detached (default no_data (data w' !! c))))
      ∧ (∀ c nc, c ∈ rest → ¬ put_off N0 c → N0 !! c = Some nc →
           nodes w' !! c = Some (set_parentNode None nc))
      ∧ (∀ y, y ≠ fromNode → y ∉ rest → nodes w' !! y = nodes w !! y)
      ∧ (∀ y, y ∉ rest → data w' !! y = data w !! y)
      ∧ kept (nodes w) (nodes w') (data w) (data w').
Proof.
  induction rest as [|c rest IH]; intros fuel w pn held Ep Hch Hnd Hfrom Hrest Hfuel.
  { exists w, pn. cbn [head leftover]. rewrite !filter_nil, fmap_nil, !app_nil_r.
    rewrite app_nil_r in Hch.
    split_and!; try done; try (by destruct fuel); try apply kept_refl.
    - intros c Hc. by apply elem_of_nil in Hc.
    - intros c nc Hc. by apply elem_of_nil in Hc. }
  destruct fuel as [|fuel]; [simpl in Hfuel; lia|].
  simpl in Hfuel.
  assert (c ∈ c :: rest) as Hc_in by (by left).
  destruct (Hrest c Hc_in) as (nc & E0 & Ec & Hpc & Hco).
  assert (c ≠ fromNode) as Hcf by (intros ->; apply Hfrom; by left).
  assert ((c ∉ held) ∧ (c ∉ rest)) as [Hc_held Hc_rest].
  { apply NoDup_app in Hnd as (_ & Hd & [Hc _]%NoDup_cons).
    split; [|done]. intros Hin. apply (Hd c Hin). by left. }
  cbn [head leftover].
  rewrite (run_bind _ _ _ _ _ (run_nextSibling _ _ _ _ _ Ec Hpc Ep)).
  rewrite Hch, (next_in_app _ _ _ Hc_held).
  rewrite (run_bind _ _ _ _ _ (run_get_data _ _)), Hco.
  rewrite (run_bind _ _ _ _ _ (run_get_data _ _)).
  set (r := if default true (isAutoKey <$> d_key (default no_data (data w !! fromNode)))
            then pc
            else d_vElement (default no_data (data w !! c)) ≫= ___ownerComponent).
  destruct (decide (put_off N0 c)) as [Hput|Hput].
  - (* an element: put on the list *)
    assert (detachNode fuel c r w = (Done (), detached c r w)) as Hrun.
    { unfold detachNode. rewrite (run_node_bind _ _ _ _ Ec).
      destruct Hput as (n' & En' & Hty). rewrite E0 in En'. injection En' as <-.
      assert (bool_decide (nodeType nc = ELEMENT_NODE)
              || bool_decide (nodeType nc = FRAGMENT_NODE) = true) as ->.
      { destruct Hty as [Hty|Hty]; rewrite Hty; [done|]. apply orb_true_r. }
      by rewrite (run_bind _ _ _ _ _ (run_modify _ _)). }
    rewrite (run_bind _ _ _ _ _ Hrun).
    destruct (IH fuel (detached c r w) pn (held ++ [c])%list) as
      (w' & pn' & Hrun' & Ep' & Hty' & Hch' & Hdet' & Hmut' & Hel' & Htx' & Hn' & Hd' & Hk');
      try done.
    { by rewrite <- app_assoc. }
    { by rewrite <- app_assoc. }
    { intros Hin. apply Hfrom. by right. }
    { intros c' Hc'. destruct (Hrest c' ltac:(by right)) as (nc' & ? & ? & ? & Hco').
      exists nc'. split_and!; try done. simpl.
      rewrite lookup_insert_ne; [done|]. by intros ->. }
    { lia. }
    exists w', pn'. rewrite !filter_cons_True by done.
    rewrite (filter_cons_False (λ c, ¬ put_off N0 c)) by (by intros H; apply H).
    split_and!; try done.
    + rewrite Hch'. by rewrite <- app_assoc.
    + rewrite Hdet'. simpl. by rewrite <- app_assoc.
    + intros c' [->|Hc']%elem_of_cons Hp'; [|by apply Hel'].
      split.
      * rewrite Hn' by done. simpl. by rewrite Ec.
      * rewrite Hd' by done. simpl. rewrite lookup_insert_eq. by eexists.
    + intros c' nc' [->|Hc']%elem_of_cons Hp' E'; [done|]. by apply Htx'.
    + intros y Hy [Hyc Hyr]%not_elem_of_cons. by rewrite Hn'.
    + intros y [Hyc Hyr]%not_elem_of_cons. rewrite Hd' by done. simpl.
      by rewrite lookup_insert_ne.
    + eapply kept_trans; [|exact Hk']. split.
      * intros y n E. by exists n.
      * intros y. simpl. destruct (decide (y = c)) as [->|Hne].
        -- by rewrite lookup_insert_eq.
        -- by rewrite lookup_insert_ne.
  - (* a text or a comment: removed at once *)
    assert (¬ (nodeType nc = ELEMENT_NODE ∨ nodeType nc = FRAGMENT_NODE)) as Hty.
    { intros H. apply Hput. by exists nc. }
    destruct fuel as [|fuel]; [lia|].
    destruct (run_destroy (S fuel) w c None) as (w1 & Hrun1 & Hs1).
    { cbn [disposable]. rewrite Ec, Hco. rewrite bool_decide_eq_true_2 by done.
      rewrite !bool_decide_eq_false_2 by tauto. done. }
    assert (nodes w1 !! c = Some nc) as Ec1 by (by rewrite (sbk_nodes _ _ Hs1)).
    destruct (run_removeChild w1 c fromNode nc Ec1 Hpc)
      as (w2 & Hrun2 & Hn2 & Hd2 & Hm2 & Hdet2).
    rewrite (sbk_nodes _ _ Hs1) in Hn2. rewrite (sbk_data _ _ Hs1) in Hd2.
    rewrite (sbk_mutations _ _ Hs1) in Hm2. rewrite (sbk_detached _ _ Hs1) in Hdet2.
    assert (detachNode (S fuel) c r w = (Done (), w2)) as Hrun.
    { unfold detachNode. rewrite (run_node_bind _ _ _ _ Ec).
      rewrite !bool_decide_eq_false_2 by tauto. cbn [orb].
      by rewrite (run_bind _ _ _ _ _ Hrun1). }
    rewrite (run_bind _ _ _ _ _ Hrun).
    set (pn2 := set_childNodes (held ++ rest)%list pn).
    assert (nodes w2 !! fromNode = Some pn2) as Ep2.
    { rewrite Hn2, lookup_alter_ne, lookup_alter_eq, Ep by done. simpl.
      unfold pn2. by rewrite Hch, filter_out_NoDup. }
    assert (∀ y, y ≠ fromNode → y ≠ c → nodes w2 !! y = nodes w !! y) as Hother.
    { intros y ? ?. by rewrite Hn2, !lookup_alter_ne. }
    destruct (IH (S fuel) w2 pn2 held) as
      (w' & pn' & Hrun' & Ep' & Hty' & Hch' & Hdet' & Hmut' & Hel' & Htx' & Hn' & Hd' & Hk');
      try done.
    { by apply NoDup_app in Hnd as (Ha & Hb & Hc%NoDup_cons);
        apply NoDup_app; split_and!; [done| |tauto];
        intros y Hy Hy'; apply (Hb y Hy); right. }
    { intros Hin. apply Hfrom. by right. }
    { intros c' Hc'. destruct (Hrest c' ltac:(by right)) as (nc' & ? & ? & ? & Hco').
      exists nc'. split_and!; try done; [|by rewrite Hd2].
      rewrite Hother; [done| |by intros ->].
      intros ->. apply Hfrom. by right. }
    { lia. }
    exists w', pn'. rewrite !filter_cons_False by done.
    rewrite (filter_cons_True (λ c, ¬ put_off N0 c)) by done.
    split_and!; try done.
    + by rewrite Hdet', Hdet2.
    + rewrite Hmut', Hm2, fmap_cons. by rewrite <- app_assoc.
    + intros c' [->|Hc']%elem_of_cons Hp'; [done|by apply Hel'].
    + intros c' nc' [->|Hc']%elem_of_cons Hp' E'; [|by apply Htx'].
      rewrite Hn' by done. rewrite Hn2, lookup_alter_eq, lookup_alter_ne, Ec by done.
      rewrite E0 in E'. by injection E' as <-.
    + intros y Hy [Hyc Hyr]%not_elem_of_cons. rewrite Hn' by done. by apply Hother.
    + intros y [Hyc Hyr]%not_elem_of_cons. by rewrite Hd', Hd2.
    + eapply kept_trans; [|exact Hk']. split; [|by rewrite Hd2].
      intros y n E. rewrite Hn2.
      destruct (decide (y = c)) as [->|Hyc].
      { rewrite lookup_alter_eq, lookup_alter_ne, E by done. by eexists. }
      rewrite lookup_alter_ne by done.
      destruct (decide (y = fromNode)) as [->|Hyf].
      { rewrite lookup_alter_eq, E. eexists. split_and!; [done..|].
        simpl. intros x Hx. by apply list_elem_of_filter in Hx as [_ Hx]. }
      rewrite lookup_alter_ne by done. by exists n.
Qed.

(** The loop at the end of the pass over the nodes that were put
    off. *)
Lemma run_detached_loop (fuel fromNode : nat) (l : list nat) :
  ∀ (w : world) (pn : dnode),
    nodes w !! fromNode = Some pn → childNodes pn = l → NoDup l → fromNode ∉ l →
    (∀ x, x ∈ l →
       ∃ nx, nodes w !! x = Some nx ∧ parentNode nx = Some fromNode
             ∧ disposable fuel (nodes w) (data w) x = true
             ∧ is_Some (d_detached (default no_data (data w !! x)))) →
    ∃ w' pn',
      for_each l (λ x,
        d ← get_data x;
        match d_detached d with
        | None => mret ()
        | Some detachedFromComponent =>
            update_data x (set_d_detached None);;
            match d_component d with
            | Some _ => outside "the root of a component"
            | None =>
                n ← node x;
                match parentNode n with
                | None => mret ()
                | Some _ =>
                    destroyNodeRecursive fuel x detachedFromComponent;;
                    removeChild x
                end
            end
        end) w = (Done (), w')
      ∧ nodes w' !! fromNode = Some pn' ∧ childNodes pn' = []
      ∧ mutations w' = (mutations w ++ (Removed <$> l))%list
      ∧ (∀ x nx, x ∈ l → nodes w !! x = Some nx →
           nodes w' !! x = Some (set_parentNode None nx))
      ∧ (∀ y, y ≠ fromNode → y ∉ l → nodes w' !! y = nodes w !! y).
Proof.
  induction l as [|x l IH]; intros w pn Ep Hch Hnd Hfrom Hl.
  { exists w, pn. cbn [for_each]. rewrite fmap_nil, app_nil_r.
    split_and!; try done. intros x nx Hx. by apply elem_of_nil in Hx. }
  assert (x ∈ x :: l) as Hx_in by (by left).
  destruct (Hl x Hx_in) as (nx & Ex & Hpx & Hdx & [r Hr]).
  assert (x ≠ fromNode) as Hxf by (by intros ->).
  apply NoDup_cons in Hnd as [Hxl Hnd].
  set (w1 := set_data (λ d, <[x := set_d_detached None (default no_data (d !! x))]> d) w).
  assert (kept (nodes w) (nodes w1) (data w) (data w1)) as Hk1.
  { split; [intros y n E; by exists n|]. intros y. simpl.
    destruct (decide (y = x)) as [->|Hne].
    - by rewrite lookup_insert_eq.
    - by rewrite lookup_insert_ne. }
  assert (d_component (default no_data (data w !! x)) = None) as Hco.
  { destruct fuel as [|fuel]; [done|]. cbn [disposable] in Hdx. rewrite Ex in Hdx.
    apply andb_true_iff in Hdx as [Hco _]. by apply bool_decide_eq_true in Hco. }
  assert (nodes w1 !! x = Some nx) as Ex1 by done.
  destruct (run_destroy fuel w1 x r (disposable_kept _ _ _ _ _ Hk1 x Hdx))
    as (w2 & Hrun2 & Hs2).
  assert (nodes w2 !! x = Some nx) as Ex2 by (by rewrite (sbk_nodes _ _ Hs2)).
  destruct (run_removeChild w2 x fromNode nx Ex2 Hpx)
    as (w3 & Hrun3 & Hn3 & Hd3 & Hm3 & _).
  rewrite (sbk_nodes _ _ Hs2) in Hn3. rewrite (sbk_data _ _ Hs2) in Hd3.
  rewrite (sbk_mutations _ _ Hs2) in Hm3.
  change (nodes w1) with (nodes w) in Hn3. change (mutations w1) with (mutations w) in Hm3.
  cbn [for_each]. erewrite run_bind; last first.
  { rewrite (run_bind _ _ _ _ _ (run_get_data _ _)), Hr.
    unfold update_data. rewrite (run_bind _ _ _ _ _ (run_modify _ _)).
    fold w1. rewrite Hco. rewrite (run_node_bind _ _ _ _ Ex1), Hpx.
    rewrite (run_bind _ _ _ _ _ Hrun2). exact Hrun3. }
  set (pn3 := set_childNodes l pn).
  assert (nodes w3 !! fromNode = Some pn3) as Ep3.
  { rewrite Hn3, lookup_alter_ne, lookup_alter_eq, Ep by done. simpl.
    unfold pn3. rewrite Hch. f_equal. f_equal.
    rewrite filter_cons_False by (by intros H; apply H).
    apply filter_all. apply Forall_forall. by intros y Hy ->. }
  assert (∀ y, y ≠ fromNode → y ≠ x → nodes w3 !! y = nodes w !! y) as Hother.
  { intros y ? ?. by rewrite Hn3, !lookup_alter_ne. }
  assert (kept (nodes w) (nodes w3) (data w) (data w3)) as Hk3.
  { split; [|by rewrite Hd3; apply Hk1].
    intros y n E. rewrite Hn3.
    destruct (decide (y = x)) as [->|Hyx].
    { rewrite lookup_alter_eq, lookup_alter_ne, E by done. by eexists. }
    rewrite lookup_alter_ne by done.
    destruct (decide (y = fromNode)) as [->|Hyf].
    { rewrite lookup_alter_eq, E. eexists. split_and!; [done..|].
      simpl. intros c Hc. by apply list_elem_of_filter in Hc as [_ Hc]. }
    rewrite lookup_alter_ne by done. by exists n. }
  destruct (IH w3 pn3 Ep3 eq_refl Hnd) as (w' & pn' & Hrun' & Ep' & Hch' & Hm' & Hx' & Hn').
  { intros Hin. apply Hfrom. by right. }
  { intros y Hy. assert (y ∈ x :: l) as Hy_in by (by right).
    destruct (Hl y Hy_in) as (ny & Ey & Hpy & Hdy & Hry).
    assert (y ≠ x) as Hyx by (by intros ->).
    assert (y ≠ fromNode) as Hyf by (by intros ->).
    exists ny. split_and!; [by rewrite Hother|done| |].
    - by apply (disposable_kept _ _ _ _ _ Hk3).
    - rewrite Hd3. unfold w1. simpl. by rewrite lookup_insert_ne. }
  exists w', pn'. split_and!; try done.
  - rewrite Hm', Hm3, fmap_cons. by rewrite <- app_assoc.
  - intros y ny [->|Hy]%elem_of_cons Ey.
    + rewrite Hn' by done. rewrite Hn3, lookup_alter_eq, lookup_alter_ne, Ex by done.
      rewrite Ex in Ey. by injection Ey as <-.
    + apply Hx'; [done|]. rewrite Hother; [done| |by intros ->].
      intros ->. apply Hfrom. by right.
  - intros y Hy [Hyx Hyl]%not_elem_of_cons. rewrite Hn' by done. by apply Hother.
Qed.

(** A render without nodes.

    X16.  The children of the real node are distinct nodes of the
    document with this node as their parent, nothing below them is the
    root of a component, and the fuel lasts for them.  Then a pass of
    [morphdom] for a virtual node without children returns; afterwards
    the real node has no child, every former child has no parent, the
    other nodes are as before, and the pass wrote nothing but the
    removals: first the children that are no elements, in their order,
    as the pass came to them, then the elements, in their order, at the
    end of the pass. *)
Theorem render_of_nothing_removes_every_child (fuel fromNode : nat)
    (component : option string) (w : world) (n : dnode) :
  nodes w !! fromNode = Some n → nodeType n ≠ FRAGMENT_NODE →
  NoDup (childNodes n) → fromNode ∉ childNodes n →
  (∀ c, c ∈ childNodes n →
     ∃ nc, nodes w !! c = Some nc ∧ parentNode nc = Some fromNode
           ∧ disposable fuel (nodes w) (data w) c = true) →
  S (length (childNodes n)) < fuel →
  ∃ w',
    morphdom fuel fromNode [] component false w = (Done (), w')
    ∧ childNodes <$> nodes w' !! fromNode = Some []
    ∧ (∀ c, c ∈ childNodes n → parentNode <$> nodes w' !! c = Some None)
    ∧ (∀ y, y ≠ fromNode → y ∉ childNodes n → nodes w' !! y = nodes w !! y)
    ∧ mutations w'
      = (mutations w
         ++ (Removed <$> (filter (λ c, ¬ put_off (nodes w) c) (childNodes n)
                          ++ filter (put_off (nodes w)) (childNodes n))))%list.
Proof.
  intros En Hty Hnd Hfrom Hkids Hfuel.
  destruct fuel as [|fuel]; [lia|].
  unfold morphdom. rewrite (run_bind _ _ _ _ _ (run_modify _ _)).
  set (w0 := {| nodes := nodes w; next_node := next_node w; data := data w;
                keyedElements := keyedElements w; keySequences := ∅;
                detachedNodes := []; mutations := mutations w; isHydrate := false |}).
  assert (nodes w0 !! fromNode = Some n) as En0 by done.
  destruct (run_leftover (nodes w) fromNode component (childNodes n) fuel w0 n [] En0)
    as (w1 & pn1 & Hrun1 & Ep1 & Hty1 & Hch1 & Hdet1 & Hm1 & Hel1 & Htx1 & Hn1 & Hd1 & Hk1);
    try done.
  { intros c Hc. destruct (Hkids c Hc) as (nc & Ec & Hpc & Hdc).
    exists nc. split_and!; try done.
    cbn [disposable] in Hdc. rewrite Ec in Hdc.
    apply andb_true_iff in Hdc as [Hco _]. by apply bool_decide_eq_true in Hco. }
  { lia. }
  assert (morphChildren (S fuel) fromNode [] component w0 = (Done (), w1)) as Hrun.
  { cbn [morphChildren]. unfold morphChildren_body.
    rewrite (run_bind _ _ _ _ _ (run_firstChild _ _ _ En0)).
    cbn [outer]. rewrite (run_bind _ _ _ _ _ (run_ret _ _)).
    rewrite (run_node_bind _ _ _ _ En0).
    by rewrite (bool_decide_eq_false_2 _ Hty). }
  rewrite (run_bind _ _ _ _ _ Hrun).
  rewrite (run_bind _ _ _ _ _ (run_get_world _)).
  cbn [app] in Hch1, Hdet1. rewrite Hdet1.
  destruct (run_detached_loop (S fuel) fromNode (filter (put_off (nodes w)) (childNodes n))
              w1 pn1 Ep1 Hch1)
    as (w2 & pn2 & Hrun2 & Ep2 & Hch2 & Hm2 & Hx2 & Hn2).
  { by apply NoDup_filter. }
  { intros Hin. by apply list_elem_of_filter in Hin as [_ Hin]. }
  { intros x [Hput Hx]%list_elem_of_filter.
    destruct (Hkids x Hx) as (nx & Ex & Hpx & Hdx).
    destruct (Hel1 x Hx Hput) as [Ex1 Hdet].
    exists nx. split_and!; [by rewrite Ex1|done| |done].
    by apply (disposable_kept _ _ _ _ _ Hk1). }
  exists w2. split_and!.
  - exact Hrun2.
  - by rewrite Ep2, <- Hch2.
  - intros c Hc. destruct (Hkids c Hc) as (nc & Ec & Hpc & _).
    assert (c ≠ fromNode) as Hcf by (by intros ->).
    destruct (decide (put_off (nodes w) c)) as [Hput|Hput].
    + destruct (Hel1 c Hc Hput) as [Ec1 _].
      rewrite (Hx2 c nc); [done| |by rewrite Ec1].
      by apply list_elem_of_filter.
    + rewrite Hn2; [|done|].
      * by rewrite (Htx1 c nc Hc Hput Ec).
      * intros Hin. by apply list_elem_of_filter in Hin as [? _].
  - intros y Hyf Hy. rewrite Hn2; [by apply Hn1|done|].
    intros Hin. by apply list_elem_of_filter in Hin as [_ ?].
  - rewrite Hm2, Hm1, fmap_app. by rewrite <- app_assoc.
Qed.

End morph_unmount.

Section morph_unmount_examples.
Import Morph.

(** The page after the article was rendered into the empty container. *)
Definition mounted_page : world :=
  (morphdom 5 0 (article 10) (Some "c0") false empty_page).2.

Definition mounted_root : dnode :=
  default (new_dnode ELEMENT_NODE "div" NS_HTML None) (nodes mounted_page !! 0%nat).

Lemma render_of_nothing_removes_every_child_witness :
  ∃ w',
    morphdom 5 0 [] (Some "c0") false mounted_page = (Done (), w')
    ∧ childNodes <$> nodes w' !! 0%nat = Some []
    ∧ (∀ c, c ∈ childNodes mounted_root → parentNode <$> nodes w' !! c = Some None)
    ∧ (∀ y, y ≠ 0%nat → y ∉ childNodes mounted_root →
         nodes w' !! y = nodes mounted_page !! y)
    ∧ mutations w'
      = (mutations mounted_page
         ++ (Removed <$> (filter (λ c, ¬ put_off (nodes mounted_page) c)
                            (childNodes mounted_root)
                          ++ filter (put_off (nodes mounted_page))
                               (childNodes mounted_root))))%list.
Proof.
  apply (render_of_nothing_removes_every_child 5 0 (Some "c0") mounted_page mounted_root).
  - vm_compute. reflexivity.
  - vm_compute. discriminate.
  - compute_done.
  - compute_done.
  - intros c Hc.
    assert (c ∈ [1; 4; 5]%nat) as Hin by exact Hc.
    rewrite !elem_of_cons, elem_of_nil in Hin.
    destruct Hin as [->|[->|[->|[]]]]; eexists; split_and!; vm_compute; reflexivity.
  - vm_compute. lia.
Defined.

End morph_unmount_examples.

(** ** components/util: destroyNodeRecursive and the keyed elements *)

Section destroy_keys.
Import Morph.

(** The nodes [destroyNodeRecursive] visits from [x] on: the node, and
    for an element what it visits from each child. *)
Fixpoint visited_from (fuel : nat) (N : gmap nat dnode) (x : nat) : list nat :=
  match fuel with
  | O => []
  | S fuel =>
      match N !! x with
      | None => []
      | Some n =>
          x :: (if bool_decide (nodeType n = ELEMENT_NODE)
                   || bool_decide (nodeType n = FRAGMENT_NODE)
                then concat (visited_from fuel N <$> childNodes n) else [])
      end
  end.

(** The element [y], one of the nodes [visited], has the key [key], and
    [component] is the component [c]. *)
Definition released (component : option string) (N : gmap nat dnode)
    (D : gmap nat domdata) (visited : list nat) (c key : string) (y : nat) : Prop :=
  component = Some c ∧ y ∈ visited ∧ put_off N y
  ∧ d_key (default no_data (D !! y)) = Some key ∧ key ≠ "".

(** From [w] to [w'] the keyed elements lost the entries of the visited
    elements under their own keys, and nothing else changed. *)
Definition releases (component : option string) (visited : list nat) (w w' : world)
  : Prop :=
  same_but_keyed w w'
  ∧ ∀ c key y,
      found w' (Some c) key = Some y
      ↔ found w (Some c) key = Some y
        ∧ ¬ released component (nodes w) (data w) visited c key y.

Lemma releases_none (component : option string) (visited : list nat) (w : world) :
  (∀ c key y, found w (Some c) key = Some y →
              ¬ released component (nodes w) (data w) visited c key y) →
  releases component visited w w.
Proof.
  intros H. split; [apply same_but_keyed_refl|]. intros c key y. split.
  - intros Hf. split; [done|by apply H].
  - by intros [Hf _].
Qed.

Lemma releases_app (component : option string) (v1 v2 : list nat) (w w1 w2 : world) :
  releases component v1 w w1 → releases component v2 w1 w2 →
  releases component (v1 ++ v2) w w2.
Proof.
  intros [Hs1 H1] [Hs2 H2]. split; [by eapply same_but_keyed_trans|].
  intros c key y. rewrite H2, H1.
  rewrite (sbk_nodes _ _ Hs1), (sbk_data _ _ Hs1). unfold released.
  rewrite elem_of_app. tauto.
Qed.

Lemma run_destroy_keys (fuel : nat) :
  ∀ (w : world) (x : nat) (component : option string),
    disposable fuel (nodes w) (data w) x = true →
    ∃ w', destroyNodeRecursive fuel x component w = (Done (), w')
          ∧ releases component (visited_from fuel (nodes w) x) w w'.
Proof.
  induction fuel as [|fuel IH]; intros w x component; [done|].
  cbn [disposable destroyNodeRecursive visited_from].
  destruct (nodes w !! x) as [n|] eqn:E; [|done].
  intros [Hco H]%andb_true_iff. apply bool_decide_eq_true in Hco.
  rewrite (run_bind _ _ _ _ _ (run_get_data _ _)), Hco.
  rewrite (run_node_bind _ _ _ _ E).
  destruct (bool_decide (nodeType n = ELEMENT_NODE)
            || bool_decide (nodeType n = FRAGMENT_NODE)) eqn:Hty.
  2:{ exists w. split; [done|]. apply releases_none.
      intros c key y _ (_ & Hin & (n' & En' & Hn') & _).
      apply list_elem_of_singleton in Hin as ->.
      rewrite E in En'. injection En' as <-.
      apply orb_false_iff in Hty as [H1 H2].
      apply bool_decide_eq_false in H1, H2. tauto. }
  apply andb_true_iff in H as [Hkey Hkids].
  assert (∃ w1, (match component, d_key (default no_data (data w !! x)) with
                 | Some c, Some key =>
                     if bool_decide (key = "") then mret ()
                     else
                       m ← keyed c key;
                       if bool_decide (m = Some x) then delete_keyed c key else mret ()
                 | _, _ => mret ()
                 end) w = (Done (), w1) ∧ releases component [x] w w1)
    as (w1 & Hrun1 & Hr1).
  { destruct component as [c|].
    2:{ exists w. split; [done|]. apply releases_none. by intros c key y _ [? _]. }
    destruct (d_key (default no_data (data w !! x))) as [key|] eqn:Hk.
    2:{ exists w. split; [done|]. apply releases_none.
        intros c' key y _ (_ & ->%list_elem_of_singleton & _ & Hk' & _). congruence. }
    destruct (bool_decide (key = "")) eqn:Hempty.
    { apply bool_decide_eq_true in Hempty.
      exists w. split; [done|]. apply releases_none.
      intros c' key' y _ (_ & ->%list_elem_of_singleton & _ & Hk' & Hne). congruence. }
    apply bool_decide_eq_false in Hempty.
    apply bool_decide_eq_true in Hkey. unfold keyed.
    rewrite (run_bind _ _ _ _ _
               (run_bind _ _ _ _ _ (run_plain_name _ _ Hkey))).
    destruct (bool_decide (_ = Some x)) eqn:Hm.
    - apply bool_decide_eq_true in Hm.
      eexists. split; [reflexivity|]. split; [by split|].
      intros c' key' y. unfold released, found. simpl.
      destruct (decide (c' = c)) as [->|Hc].
      + rewrite lookup_insert_eq. simpl.
        destruct (decide (key' = key)) as [->|Hk'].
        * rewrite lookup_delete_eq. split; [done|].
          intros [Hf Hn]. exfalso. apply Hn.
          rewrite Hm in Hf. injection Hf as <-.
          split_and!; try done; [by apply list_elem_of_singleton|].
          exists n. split; [done|].
          apply orb_true_iff in Hty as [Hty|Hty]; apply bool_decide_eq_true in Hty; tauto.
        * rewrite lookup_delete_ne by done. split; [|by intros [? _]].
          intros Hf. split; [done|].
          intros (_ & ->%list_elem_of_singleton & _ & Hk'' & _). congruence.
      + rewrite lookup_insert_ne by done. split; [|by intros [? _]].
        intros Hf. split; [done|]. intros ([= ->] & _). done.
    - apply bool_decide_eq_false in Hm.
      exists w. split; [done|]. apply releases_none.
      intros c' key' y Hf ([= <-] & ->%list_elem_of_singleton & _ & Hk' & _).
      rewrite Hk in Hk'. injection Hk' as <-. by apply Hm. }
  rewrite (run_bind _ _ _ _ _ Hrun1).
  change (x :: concat (visited_from fuel (nodes w) <$> childNodes n))
    with ([x] ++ concat (visited_from fuel (nodes w) <$> childNodes n))%list.
  assert (∃ w', for_each (childNodes n)
                  (λ curChild, destroyNodeRecursive fuel curChild component) w1
                = (Done (), w')
                ∧ releases component
                    (concat (visited_from fuel (nodes w) <$> childNodes n))
                    w1 w') as (w' & Hrun' & Hr').
  2:{ exists w'. split; [done|]. by eapply releases_app. }
  assert (forallb (disposable fuel (nodes w1) (data w1)) (childNodes n) = true) as Hkids1.
  { destruct Hr1 as [Hs1 _]. by rewrite (sbk_nodes _ _ Hs1), (sbk_data _ _ Hs1). }
  assert (nodes w1 = nodes w) as <- by (by destruct Hr1 as [[] _]).
  clear Hrun1 Hr1 Hkids E Hco. revert w1 Hkids1.
  induction (childNodes n) as [|c l IHl]; intros w1 Hkids1.
  { exists w1. split; [done|]. apply releases_none. intros c key y _ (_ & Hin & _).
    by apply elem_of_nil in Hin. }
  cbn [forallb] in Hkids1. apply andb_true_iff in Hkids1 as [Hc Hl].
  destruct (IH w1 c component Hc) as (w2 & Hrun2 & Hr2).
  cbn [for_each]. rewrite (run_bind _ _ _ _ _ Hrun2).
  assert (nodes w2 = nodes w1 ∧ data w2 = data w1) as [Hn2 Hd2]
    by (by destruct Hr2 as [[] _]).
  destruct (IHl w2) as (w' & Hrun' & Hr').
  { by rewrite Hn2, Hd2. }
  exists w'. split; [done|]. rewrite fmap_cons. cbn [concat].
  eapply releases_app; [exact Hr2|]. by rewrite <- Hn2.
Qed.

(** [destroyNodeRecursive] releases the keys of what it destroys.

    X17.  When the nodes below [x] can be followed, the call returns;
    it changes neither the document nor the data of the nodes, and of
    the keyed elements of the components it removes exactly the entries
    of the given component that hold an element at or below [x] under
    that element's own key. *)
Theorem destroyNodeRecursive_releases_the_keys (fuel : nat) (w : world) (x : nat)
    (component : option string) :
  disposable fuel (nodes w) (data w) x = true →
  ∃ w',
    destroyNodeRecursive fuel x component w = (Done (), w')
    ∧ nodes w' = nodes w ∧ data w' = data w ∧ mutations w' = mutations w
    ∧ ∀ c key y,
        found w' (Some c) key = Some y
        ↔ found w (Some c) key = Some y
          ∧ ¬ (component = Some c ∧ y ∈ visited_from fuel (nodes w) x ∧ put_off (nodes w) y
               ∧ d_key (default no_data (data w !! y)) = Some key ∧ key ≠ "").
Proof.
  intros Hd. destruct (run_destroy_keys fuel w x component Hd) as (w' & Hrun & [[] Hr]).
  exists w'. split_and!; try done.
Qed.

End destroy_keys.

Section destroy_keys_examples.
Import Morph.

Lemma destroyNodeRecursive_releases_the_keys_witness :
  ∃ w',
    destroyNodeRecursive 5 5 (Some "c0") mounted_page = (Done (), w')
    ∧ nodes w' = nodes mounted_page ∧ data w' = data mounted_page
    ∧ mutations w' = mutations mounted_page
    ∧ ∀ c key y,
        found w' (Some c) key = Some y
        ↔ found mounted_page (Some c) key = Some y
          ∧ ¬ (Some "c0" = Some c ∧ y ∈ visited_from 5 (nodes mounted_page) 5
               ∧ put_off (nodes mounted_page) y
               ∧ d_key (default no_data (data mounted_page !! y)) = Some key
               ∧ key ≠ "").
Proof.
  apply (destroyNodeRecursive_releases_the_keys 5 mounted_page 5 (Some "c0")).
  vm_compute. reflexivity.
Defined.

End destroy_keys_examples.

(** ** VNode: what is appended is what is enumerated *)

Section vnode_build.
Import VNode.

(** The nodes of a tree. *)
Fixpoint ids (t : tree) : list nat :=
  match t with Node id _ children => id :: concat (ids <$> children) end.

Lemma elem_of_concat (ls : list (list nat)) (x : nat) :
  x ∈ concat ls ↔ ∃ l, x ∈ l ∧ l ∈ ls.
Proof.
  induction ls as [|l0 ls IH]; simpl.
  - split; [by intros ?%elem_of_nil|]. intros (l & _ & Hl). by apply elem_of_nil in Hl.
  - rewrite elem_of_app, IH. split.
    + intros [H|(l & Hx & Hl)]; [exists l0; split; [done|by left]|].
      exists l. split; [done|by right].
    + intros (l & Hx & [->|Hl]%elem_of_cons); [by left|]. right. by exists l.
Qed.

Lemma root_in_ids (t : tree) : root_id t ∈ ids t.
Proof. destruct t. by left. Qed.

Lemma roots_in_ids (ts : list tree) (x : nat) :
  x ∈ root_id <$> ts → x ∈ concat (ids <$> ts).
Proof.
  intros (t & -> & Ht)%list_elem_of_fmap. apply elem_of_concat.
  exists (ids t). split; [apply root_in_ids|]. apply list_elem_of_fmap. by exists t.
Qed.

(** In trees without a shared node the roots are distinct, and no node
    below a root is a root. *)
Lemma roots_apart (ts : list tree) :
  NoDup (concat (ids <$> ts)) →
  NoDup (root_id <$> ts)
  ∧ ∀ t x, t ∈ ts → x ∈ tail (ids t) → x ∉ root_id <$> ts.
Proof.
  induction ts as [|t0 ts IH]; intros Hnd.
  { split; [constructor|]. intros t x Ht. by apply elem_of_nil in Ht. }
  rewrite fmap_cons in Hnd. cbn [concat] in Hnd.
  apply NoDup_app in Hnd as (Hnd0 & Hapart & Hnd').
  destruct (IH Hnd') as [IH1 IH2]. rewrite fmap_cons. split.
  - apply NoDup_cons. split; [|done].
    intros Hin%roots_in_ids. apply (Hapart (root_id t0)); [apply root_in_ids|done].
  - intros t x [->|Ht]%elem_of_cons Hx; apply not_elem_of_cons; split.
    + destruct t0 as [r k cs]. simpl in *. apply NoDup_cons in Hnd0 as [Hr _].
      by intros ->.
    + intros Hin%roots_in_ids. apply (Hapart x); [|done].
      destruct t0 as [r k cs]. simpl in *. by right.
    + intros ->. apply (Hapart (root_id t0)); [apply root_in_ids|].
      apply elem_of_concat. exists (ids t). split.
      * destruct t as [r k cs]. simpl in *. by right.
      * apply list_elem_of_fmap. by exists t.
    + by apply (IH2 t).
Qed.

(** What a store holds depends on the nodes of the tree only. *)
Lemma size_tree_positive (t : tree) : (0 < size_tree t)%nat.
Proof. destruct t. simpl. lia. Qed.

Lemma held_elsewhere (h h' : gmap nat node) (bound : nat) :
  (∀ t p next, (size_tree t ≤ bound)%nat →
     (∀ x, x ∈ ids t → h' !! x = h !! x) → holds h p t next → holds h' p t next)
  ∧ (∀ ts p, (size_forest ts ≤ bound)%nat →
       (∀ x, x ∈ concat (ids <$> ts) → h' !! x = h !! x) →
       chain h p ts → chain h' p ts).
Proof.
  induction bound as [|bound [IH1 IH2]].
  { split.
    - intros t p next Hsize. pose proof (size_tree_positive t). lia.
    - intros [|t ts] p Hsize; [done|].
      unfold size_forest in Hsize. rewrite fmap_cons in Hsize. simpl in Hsize.
      pose proof (size_tree_positive t). lia. }
  assert (∀ t p next, (size_tree t ≤ S bound)%nat →
            (∀ x, x ∈ ids t → h' !! x = h !! x) → holds h p t next → holds h' p t next)
    as Htree.
  { intros [id k cs] p next Hsize Hsame.
    rewrite !holds_unfold. intros (n & Hn & Hk & Hp & Hnx & Hfc & Hcs).
    exists n. split_and!; try done.
    + rewrite Hsame; [done|]. by left.
    + apply IH2; [|intros x Hx; apply Hsame; by right|done].
      simpl in Hsize. unfold size_forest. lia. }
  split; [exact Htree|].
  intros [|t ts] p Hsize Hsame; [done|]. intros [Ht Hts].
  unfold size_forest in Hsize. rewrite fmap_cons in Hsize. simpl in Hsize.
  fold (size_forest ts) in Hsize. pose proof (size_tree_positive t).
  rewrite fmap_cons in Hsame. cbn [concat] in Hsame. split.
  - apply Htree; [lia| |done]. intros x Hx. apply Hsame, elem_of_app. by left.
  - apply IH2; [lia| |done]. intros x Hx. apply Hsame, elem_of_app. by right.
Qed.

(** A run of [___appendChild] calls on a node that is no textarea:
    every child gets the node as its parent and the next child as its
    sibling, the last child of before leads to the first new one, and
    no other node changes. *)
Lemma append_all_run (p : nat) (rs : list nat) :
  ∀ (h : gmap nat node) (pn : node),
    h !! p = Some pn → is_textarea pn = false → NoDup rs → p ∉ rs →
    (∀ r, r ∈ rs → is_Some (h !! r)) →
    (∀ l, ___lastChild pn = Some l → l ≠ p ∧ l ∉ rs) →
    ∃ h' pn',
      append_all p rs h = (Ok (), h') ∧ h' !! p = Some pn'
      ∧ ___kind pn' = ___kind pn ∧ ___parentNode pn' = ___parentNode pn
      ∧ ___nextSiblingInternal pn' = ___nextSiblingInternal pn
      ∧ ___firstChildInternal pn'
        = match ___lastChild pn, rs with
          | None, r :: _ => Some r
          | _, _ => ___firstChildInternal pn
          end
      ∧ (∀ i r, rs !! i = Some r →
           ∃ n, h !! r = Some n
                ∧ h' !! r
                  = Some (match rs !! S i with
                          | Some nx => set_nextSiblingInternal (Some nx)
                          | None => λ n, n
                          end (set_parentNode (Some p) n)))
      ∧ (∀ l, ___lastChild pn = Some l →
           h' !! l
           = match rs with
             | r :: _ => set_nextSiblingInternal (Some r) <$> h !! l
             | [] => h !! l
             end)
      ∧ (∀ x, x ≠ p → x ∉ rs → ___lastChild pn ≠ Some x → h' !! x = h !! x).
Proof.
  induction rs as [|c rs IH]; intros h pn Ep Hta Hnd Hp Hrs Hlast.
  { exists h, pn.
    split_and!; try done; try (by destruct (___lastChild pn));
      try (intros i r Hi; by rewrite lookup_nil in Hi). }
  apply NoDup_cons in Hnd as [Hc Hnd].
  apply not_elem_of_cons in Hp as [Hpc Hp].
  assert (c ∈ c :: rs) as Hc_in by (by left).
  destruct (Hrs c Hc_in) as [nc Ec].
  cbn [append_all]. unfold ___appendChild. rewrite Ep, Ec, Hta.
  set (h4 := alter (set_lastChild (Some c)) p _).
  set (pn4 := set_lastChild (Some c)
                (match ___lastChild pn with
                 | Some _ => λ n, n
                 | None => set_firstChildInternal (Some c)
                 end (set_childCount (___childCount pn + 1) pn))).
  assert (h4 !! p = Some pn4) as Ep4.
  { unfold h4, pn4. rewrite lookup_alter_eq.
    destruct (___lastChild pn) as [l|] eqn:El.
    - destruct (Hlast l eq_refl) as [Hlp _].
      rewrite lookup_alter_ne by done. rewrite lookup_alter_ne by done.
      by rewrite lookup_alter_eq, Ep.
    - rewrite lookup_alter_eq. rewrite lookup_alter_ne by done.
      by rewrite lookup_alter_eq, Ep. }
  assert (h4 !! c = Some (set_parentNode (Some p) nc)) as Ec4.
  { unfold h4. rewrite lookup_alter_ne by done.
    destruct (___lastChild pn) as [l|] eqn:El.
    - destruct (Hlast l eq_refl) as [_ Hl]. apply not_elem_of_cons in Hl as [Hlc _].
      rewrite lookup_alter_ne by done. rewrite lookup_alter_eq.
      rewrite lookup_alter_ne by done. by rewrite Ec.
    - rewrite lookup_alter_ne by done. rewrite lookup_alter_eq.
      rewrite lookup_alter_ne by done. by rewrite Ec. }
  assert (∀ x, x ≠ p → x ≠ c → ___lastChild pn ≠ Some x → h4 !! x = h !! x) as Hother.
  { intros x Hxp Hxc Hxl. unfold h4. rewrite lookup_alter_ne by done.
    destruct (___lastChild pn) as [l|] eqn:El.
    - rewrite lookup_alter_ne by congruence. rewrite lookup_alter_ne by done.
      by rewrite lookup_alter_ne.
    - rewrite lookup_alter_ne by done. rewrite lookup_alter_ne by done.
      by rewrite lookup_alter_ne. }
  assert (∀ l, ___lastChild pn = Some l →
               h4 !! l = set_nextSiblingInternal (Some c) <$> h !! l) as Hl4.
  { intros l El. destruct (Hlast l El) as [Hlp Hl].
    apply not_elem_of_cons in Hl as [Hlc _].
    unfold h4. rewrite El. rewrite lookup_alter_ne by done.
    rewrite lookup_alter_eq. rewrite lookup_alter_ne by done.
    by rewrite lookup_alter_ne. }
  destruct (IH h4 pn4 Ep4) as (h' & pn' & Hrun & Ep' & Hk' & Hpa' & Hnx' & Hfc' & Hrs' & Hl' & Ho');
    try done.
  { unfold pn4. by destruct (___lastChild pn). }
  { intros r Hr. rewrite Hother.
    - apply Hrs. by right.
    - by intros ->.
    - by intros ->.
    - intros El. destruct (Hlast r El) as [_ Hl]. apply Hl. by right. }
  { intros l [= <-]. done. }
  exists h', pn'. split_and!; try done.
  - rewrite Hk'. unfold pn4. by destruct (___lastChild pn).
  - rewrite Hpa'. unfold pn4. by destruct (___lastChild pn).
  - rewrite Hnx'. unfold pn4. by destruct (___lastChild pn).
  - rewrite Hfc'. unfold pn4. cbn [___lastChild set_lastChild].
    destruct (___lastChild pn); by destruct rs.
  - intros [|i] r Hi.
    + injection Hi as <-. exists nc. split; [done|].
      rewrite (Hl' c eq_refl). cbn [lookup].
      destruct rs as [|r rs]; by rewrite Ec4.
    + cbn [lookup] in Hi. destruct (Hrs' i r Hi) as (n & En & En').
      assert (r ∈ rs) as Hr by (by eapply list_elem_of_lookup_2).
      exists n. split; [|done]. rewrite <- En. symmetry. apply Hother.
      * by intros ->.
      * by intros ->.
      * intros El. destruct (Hlast r El) as [_ Hl]. apply Hl. by right.
  - intros l El. destruct (Hlast l El) as [Hlp Hl].
    apply not_elem_of_cons in Hl as [Hlc Hl]. rewrite Ho'; [by apply Hl4|done..|].
    unfold pn4. simpl. by intros [= ->].
  - intros x Hxp [Hxc Hxr]%not_elem_of_cons Hxl. rewrite Ho'; [by apply Hother|done..|].
    unfold pn4. simpl. by intros [= ->].
Qed.

(** What the getters enumerate below a node that the store holds. *)
Lemma held_children (h : gmap nat node) (id : nat) (k : kind) (cs : list tree) :
  holds h None (Node id k cs) None →
  ∃ n, ∀ m, (n ≤ m)%nat → children m h id = Ok (flat cs).
Proof.
  intros Hid.
  assert (if decide (k = DocumentFragment) then gets h NextSibling id None
          else (None : option nat) = None) as Hk.
  { destruct (decide (k = DocumentFragment)) as [Hd|]; [|done].
    apply holds_unfold in Hid as (n & Hn & _ & Hp & Hnx & _).
    by eapply next_end_root. }
  pose proof (proj2 (getters_flat h (S (size_forest cs))) cs id k None None None
                ltac:(lia) Hid Hk) as Hfirst.
  assert (match cs with [] => None | _ => entry cs None end = entry cs None) as Heq
    by by destruct cs.
  rewrite Heq in Hfirst.
  pose proof Hid as Hid'.
  apply holds_unfold in Hid' as (n & Hn & Hkn & Hp & Hnx & Hfc & Hcs).
  assert (walks h (entry cs None) (flat cs ++ [])%list) as Hwalk.
  { apply (walks_flat h (S (size_forest cs)) cs (Some id)); [lia|done| |constructor].
    exists n. split; [done|]. destruct (___DocumentFragment n) eqn:Hd; [|done].
    destruct (decide (k = DocumentFragment)) as [|Hne]; [done|].
    apply DocumentFragment_kind in Hd. congruence. }
  rewrite app_nil_r in Hwalk.
  destruct (gets_run _ _ _ _ Hfirst) as [n1 H1].
  destruct (walks_run _ _ _ Hwalk) as [n2 H2].
  exists (n1 `max` n2). intros m Hm. unfold children.
  pose proof (H1 m ltac:(lia)) as Hf. simpl in Hf. rewrite Hf.
  apply H2. lia.
Qed.

(** What is appended is what is enumerated.

    X18.  A new node that is no [textarea] element is given the roots
    of trees as children, one [___appendChild] call after the other;
    the trees are held by the store as roots and share no node with
    each other or with the new node.  Then every call returns, the
    store holds the new node with the trees as its children, and
    walking its children with [___firstChild] and [___nextSibling]
    visits the appended nodes in the order of the calls, the children
    of a document fragment in its place. *)
Theorem appended_trees_are_enumerated (h : gmap nat node) (p : nat) (k : kind)
    (ts : list tree) :
  h !! p = Some (new_node k) → is_textarea (new_node k) = false →
  Forall (λ t, holds h None t None) ts →
  NoDup (p :: concat (ids <$> ts)) →
  ∃ h', append_all p (root_id <$> ts) h = (Ok (), h')
        ∧ holds h' None (Node p k ts) None
        ∧ ∃ n, ∀ m, (n ≤ m)%nat → children m h' p = Ok (flat ts).
Proof.
  intros Ep Hta Hheld Hnd. apply NoDup_cons in Hnd as [Hp Hnd].
  destruct (roots_apart ts Hnd) as [Hroots Hbelow].
  rewrite Forall_forall in Hheld.
  destruct (append_all_run p (root_id <$> ts) h (new_node k) Ep Hta Hroots)
    as (h' & pn' & Hrun & Ep' & Hk' & Hpa' & Hnx' & Hfc' & Hrs' & _ & Ho'); [| |done|].
  { by intros Hin%roots_in_ids. }
  { intros r (t & -> & Ht)%list_elem_of_fmap. specialize (Hheld t Ht).
    destruct t as [r k0 cs]. apply holds_unfold in Hheld as (n & Hn & _). by exists n. }
  assert (holds h' None (Node p k ts) None) as Hholds.
  { apply holds_unfold. exists pn'. split_and!; try done.
    { rewrite Hfc'. by destruct ts. }
    assert (∀ ts2 ts1, ts = (ts1 ++ ts2)%list → chain h' (Some p) ts2) as Hchain.
    2:{ by apply (Hchain ts []). }
    induction ts2 as [|t ts2 IH]; intros ts1 Hts; [done|].
    split; [|apply (IH (ts1 ++ [t])%list); by rewrite <- app_assoc].
    assert (t ∈ ts) as Ht by (rewrite Hts, elem_of_app; right; by left).
    assert ((root_id <$> ts) !! length ts1 = Some (root_id t)) as Hi.
    { rewrite Hts, list_lookup_fmap, list_lookup_middle; done. }
    assert ((root_id <$> ts) !! S (length ts1) = head_id ts2) as HSi.
    { rewrite Hts, list_lookup_fmap.
      change (ts1 ++ t :: ts2)%list with (ts1 ++ [t] ++ ts2)%list.
      rewrite app_assoc.
      replace (S (length ts1)) with (length (ts1 ++ [t]) + 0)%nat
        by (rewrite length_app; simpl; lia).
      rewrite lookup_app_r by lia.
      replace (length (ts1 ++ [t]) + 0 - length (ts1 ++ [t]))%nat with 0%nat by lia.
      by destruct ts2. }
    destruct (Hrs' _ _ Hi) as (n & En & En'). rewrite HSi in En'.
    specialize (Hheld t Ht). destruct t as [r k0 cs]. cbn [root_id] in *.
    apply holds_unfold in Hheld as (n0 & En0 & Hk0 & Hp0 & Hnx0 & Hfc0 & Hcs0).
    rewrite En in En0. injection En0 as <-.
    apply holds_unfold. eexists. split; [exact En'|].
    split_and!.
    - by destruct (head_id ts2).
    - by destruct (head_id ts2).
    - by destruct (head_id ts2).
    - by destruct (head_id ts2).
    - apply (proj2 (held_elsewhere h h' (size_forest cs))); [lia| |done].
      intros x Hx. apply Ho'.
      + intros ->. apply Hp. apply elem_of_concat. exists (ids (Node r k0 cs)).
        split; [by right|]. apply list_elem_of_fmap. by eexists.
      + by apply (Hbelow (Node r k0 cs)).
      + done. }
  exists h'. split_and!; [done..|]. by apply (held_children h' p k ts).
Qed.

End vnode_build.

Section vnode_build_examples.
Import VNode.

(** New nodes: a list, a text, a document fragment and three items; the
    fragment was given two of the items. *)
Definition loose_nodes : gmap nat node :=
  {[ 0%nat := new_node (Element "ul"); 1%nat := new_node (Text "a");
     2%nat := new_node DocumentFragment; 3%nat := new_node (Element "li");
     4%nat := new_node (Element "li"); 5%nat := new_node (Element "li") ]}.

Definition with_fragment : gmap nat node := (append_all 2 [3; 4]%nat loose_nodes).2.

Definition parts : list tree :=
  [ Node 1 (Text "a") [];
    Node 2 DocumentFragment [Node 3 (Element "li") []; Node 4 (Element "li") []];
    Node 5 (Element "li") [] ].

Lemma appended_trees_are_enumerated_witness :
  ∃ h', append_all 0 (root_id <$> parts) with_fragment = (Ok (), h')
        ∧ holds h' None (Node 0 (Element "ul") parts) None
        ∧ ∃ n, ∀ m, (n ≤ m)%nat → children m h' 0 = Ok (flat parts).
Proof.
  apply (appended_trees_are_enumerated with_fragment 0 (Element "ul") parts).
  - reflexivity.
  - reflexivity.
  - repeat (apply Forall_cons; split); [..|apply Forall_nil]; simpl;
      repeat (eexists; split_and!; try reflexivity).
  - compute_done.
Defined.

End vnode_build_examples.
